(* ===== verification/_CoqProject ===== *)
-Q . S2P
Prelude.v
Json.v
JsonParse.v
Types.v
EventChain.v
Store.v
Policy.v
Diff.v
Transition.v
Claims.v
Tickets.v
Decisions.v
Pause.v
Lifecycle.v
Landing.v
Autonomy.v
Verdicts.v
Pattern.v
Contract.v
Profiles.v
Conform.v
Review.v
Approval.v
Landings.v
Replay.v
Sendback.v
Tester.v
Edits.v
Handover.v
Deliveries.v
Life.v
Refinement.v
Simulation.v
Gate.v
Changes.v
Claiming.v
System.v
Frames.v
Demo.v
GateDemo.v
Safety.v
Approved.v
SentBack.v
Merged.v
Tested.v
History.v
Leases.v
Holders.v
Sweep.v
Dependencies.v
Moves.v
Queue.v
Pausing.v
Answers.v
Numbers.v
Frozen.v
Edited.v
Outcomes.v
Promises.v
Extend.v
Access.v
Principals.v
Credentials.v
ReviewComments.v
Requirements.v
Guards.v
Globs.v
Roots.v
Lore.v
Boundaries.v
Recall.v
LoreTools.v
Envelope.v
Records.v
Edges.v
Lores.v
Curation.v
Atlas.v
Trust.v
