(* ===== verification/Prelude.v ===== *)
(** * The control plane of gaffer, verified

    gaffer runs coding agents under human control.  Its control plane is the
    TypeScript package [src/packages/dispatch]: a SQLite database of tickets,
    claims, decisions and paused deliveries, a tamper-evident event log, and
    services whose operations each run in one transaction.  Agents, people and
    the runner all act through these services, so the safety of the system is
    theirs: who may claim what, who may approve, what a crash leaves behind,
    what the log proves.  This development models the services that carry that
    logic and proves what they promise.  Paths below are relative to
    [src/packages/dispatch/src].

    ** The model

    An operation of a service is a computation in [M db error]: a function
    from the database to a result with the new database, or an error alone.
    That is [inTransaction]: a throw rolls back all that was written, and a
    [try]/[catch] around a nested transaction is [catch].  The database is the
    record [Store.db]: maps keyed by primary key for the tables with one, lists
    in insertion order for the others, two clocks, and the entropy counter the
    id generators draw from.  What is outside the repository (SHA-256, UUIDs,
    random tokens, [Date] formatting, environment variables, the file system
    and git) is the class [Store.Env], a parameter of everything; what the
    review gate is handed at construction (git reads, the autonomy policy, the
    observed risk, the tester lane) is the class [Review.ReviewDeps].

    - Prelude: the monad, its program logic, list helpers.
    - Json ([util/canonicalJson.ts]), JsonParse (JSON.parse, which the services
      call on columns they read back), Types ([domain/types.ts],
      [util/errors.ts]), EventChain ([events/eventChain.ts]).
    - Store ([db/schema.ts], [repositories/], [events/eventWriter.ts],
      [util/id.ts]): the tables and every query the services below use.
    - Policy ([policy/policy.ts]), Diff ([services/diffService.ts], the part
      the done gate needs), Transition ([services/transitionService.ts]).
    - Claims ([services/claimService.ts]), Tickets ([services/ticketService.ts]:
      creation, blocking, dependencies), Decisions ([services/decisionService.ts]), Pause
      ([services/pauseService.ts]), Lifecycle ([ticketLifecycleService.ts],
      [reviewLifecycleService.ts], in part).
    - Landing ([services/landingStatus.ts], [landingState.ts]), Autonomy
      ([autonomyPolicyService.ts], [observedRisk.ts], [util/testingLane.ts]),
      Verdicts ([util/contractHash.ts], [services/testerReplay.ts]): what the
      review gate reads.
    - Review, Approval, Landings, Replay, Sendback, Tester
      ([services/reviewGateService.ts] and the facade over it in
      [reviewLifecycleService.ts]): every operation of the gate: approval and
      its pins, the tester's route and verdicts, required CI, rejection with
      its cap, holds, the start and the record of landings, the merge.

    - Edits, Handover, Deliveries (the rest of [services/ticketService.ts]):
      edits of a ticket and its criteria, the testing handover (test contract,
      acceptance profile and evidence), deliveries per repository.  Contract
      ([domain/types.ts]) is the test contract with its leak rules, run by the
      regular expressions of Pattern; Profiles
      ([domain/acceptanceProfile.ts]) the schemas of the profiles' specs.
    - Outcomes ([services/approveOutcome.ts], [rejectOutcome.ts] and the facts
      of [landingFactsService.ts]): what the review buttons promise.
    - Extend: tables of a component no other modelled operation touches, kept
      beside the database; [on_core] runs a core operation there.  Access
      ([services/accessScope.ts]) and Principals ([principalService.ts],
      [principalAdminService.ts], [repositories/principalRepository.ts]): bearer
      credentials and what they may reach.  ReviewComments
      ([reviewCommentService.ts], and [fixThese] of
      [reviewLifecycleService.ts]): the reviewer's comments and the send-back
      that carries them.

    Every status change, from whichever service, goes through
    [Transition.transition], which consults [Policy] (and through it [Diff]),
    writes the ticket, ends leases and resume contexts, and appends to the log
    through [Store.writeEvent]; [Claims] calls it to start, end and sweep
    leases, [Pause] to park and resume deliveries, [Lifecycle] for the board,
    and the review gate for every move in and out of the review lane.

    ** What is proved

    - Life is the abstract machine of one ticket: status, by-hand owner, lease,
      resume context, and the steps that may happen to it.  Refinement,
      Simulation, Claiming and System show that each operation, and so each
      call ([System.call], the interface a client sees), moves every ticket
      along those steps only ([Safety.calls_refine_life]).  Gate does the same
      for the calls of the review gate ([Gate.gate_call]), each bound to the
      moves it is for ([Safety.gate_calls_refine]); Changes shows that the edits
      ([Changes.edit_call]) move nothing.  Safety draws the
      invariants of every reachable database: at most one lease, no lease on
      by-hand work, no stuck claim, resume contexts where they belong, and no
      approval outside the review gate.
    - Frames is the interface of the other whole-system arguments: a preorder
      closed under the writes of [CallFrame] holds of every call, and of the
      edits when it is closed under those of [EditFrame].  History instantiates
      it for the log (append-only, complete, verifying), Numbers for ticket
      numbers, Frozen for the contract a verdict is bound to, which no call
      changes once the tester has it.
    - Edited: a ready ticket stays one its gate allows, test contracts survive
      their column and leak nothing, base commits are written once.  Pattern:
      the matcher is the patterns' semantics.  Conform: a stored spec is a value of
      its schema.
    - Moves: the shape of the transition table, the exact preconditions and
      effects of [transition], its refusals, and what a board move can do.
    - Leases, Holders, Sweep, Queue: the claim queue and its equivalence with
      an eligibility predicate, what a granted claim leaves, how long leases
      last, what a lapsed token can do (nothing), who marks criteria satisfied,
      that the recovery sweep never fails, that the queue makes progress.
    - Dependencies: the cycle check terminates and is exact, the graph stays
      acyclic, an acyclic graph never deadlocks the queue.
    - Approved, SentBack, Merged, Tested: what an approval has checked and the
      commits it pins, that the order of the named commits does not matter,
      rejection branch by branch with its cap, that done means every approved
      revision has landed, what stands behind a tester's PASS.
    - Promises: a button does what its outcome says, for approvals and
      rejections.  Requirements: comments are their reviewer's, and Fix these
      sends exactly the open must-fix ones.
    - Access: the scope evaluation is what a scope grants, no more and no less.
      Credentials: a token speaks for the identity and access it was minted
      with until it is revoked, and never after.
    - Pausing and Answers: pause/resume and block/unblock round trips, the hold
      a decision puts on tickets and the finality of its answer.
    - EventChain, Policy: what a verified head pins, the backfill, the first
      break; the layering of the packs and what each gate guarantees.

    A reachable database ([System.step]) is one that any sequence of public
    calls, review gate calls, edits, board moves and passages of time leads to, under
    any answers of git and the policies.  Demo holds a concrete environment and
    the databases a few calls reach, GateDemo a delivery from review to done;
    the witnesses evaluate on these.

    ** Fuel and bounds

    The only loop that is not structural is the walk of
    [dependencyCycleWouldForm]; its fuel [Tickets.cycle_fuel] is one round per
    dependency row and two more, and [Dependencies.dependencyCycleWouldForm_exact]
    proves it is never used up.  Counters and clocks are unbounded integers:
    the code's numbers stay far below 2^53, where JavaScript's are exact.

    ** Reading the model against the code

    Strings are byte strings: [trim] and [trim()] agree on ASCII white space,
    and keys sort by bytes.  Instants are
    milliseconds; the code's ISO texts order alike.  [Clock.now] and the
    [strftime] default of the columns are two clocks, advanced together or
    apart by [System.step_time].  [Number(s)] is modelled on decimal spellings.
    Error values keep their code and the fields a caller dispatches on; the
    [details] objects are left out.  Rows keep the columns some modelled
    operation reads or writes.

    ** Not modelled, and the plan

    The issues the validation library lists for refused input are left out: a
    schema refuses or returns the parsed value.

    Next: the read models ([boardService.ts], [humanQueueService.ts]), epics and specs, the integrity scan of test diffs, and the pure parts of
    [src/packages/crew] and [src/packages/memory].  In the review gate, two
    claims of one ticket made at the same instant are told apart by their key
    and not by insertion order, and rows of one instant by their place in the
    table.  Transport ([api/], [mcp/], [cli/]), the dashboard, notifications,
    health checks and the processes of [src/runner] are input and output
    around this core and stay out. *)
From stdpp Require Export base gmap strings list fin_maps sorting.
From stdpp Require Export pretty.

(** ** The monad of database operations

    Every public operation of the services runs inside [inTransaction]: it
    either commits the new database or throws, and a throw rolls back
    everything the operation wrote.  So a computation is a function from the
    database to either a result with the new database or an error alone. *)
Section outcome.
Context {S E : Type}.

Inductive outcome (A : Type) : Type :=
| Ok (a : A) (s : S)
| Err (e : E).
#[global] Arguments Ok {A} a s.
#[global] Arguments Err {A} e.

Definition M (A : Type) : Type := S → outcome A.

#[global] Instance M_ret : MRet M := λ A a s, Ok a s.
#[global] Instance M_bind : MBind M := λ A B f m s,
  match m s with
  | Ok a s' => f a s'
  | Err e => Err e
  end.

Definition throw {A} (e : E) : M A := λ _, Err e.
Definition gets {A} (f : S → A) : M A := λ s, Ok (f s) s.
Definition modify (f : S → S) : M unit := λ s, Ok tt (f s).

(** [try { m } catch (e) { h e }], where [m] is one statement or one nested
    transaction: what [m] wrote before it threw is rolled back, so the
    handler runs in the state [m] started from. *)
Definition catch {A} (m : M A) (h : E → M A) : M A := λ s,
  match m s with
  | Ok a s' => Ok a s'
  | Err e => h e s
  end.

(** [inTransaction db fn]: the monad already rolls back on a throw, so a
    (possibly nested) transaction is the computation itself. *)
Definition inTransaction {A} (m : M A) : M A := m.

Definition when (b : bool) (m : M unit) : M unit :=
  if b then m else mret tt.

(** [for (const x of xs) { f x }] *)
Fixpoint for_each {A} (xs : list A) (f : A → M unit) : M unit :=
  match xs with
  | [] => mret tt
  | x :: xs => f x ≫= λ _, for_each xs f
  end.

(** A loop that threads an accumulator. *)
Fixpoint for_fold {A B} (f : B → A → M B) (b : B) (xs : list A) : M B :=
  match xs with
  | [] => mret b
  | x :: xs => f b x ≫= λ b', for_fold f b' xs
  end.

(** [throw] when a looked-up row is absent. *)
Definition require {A} (o : option A) (e : E) : M A :=
  match o with Some a => mret a | None => throw e end.

(** [if (!b) throw e] *)
Definition guard_ (b : bool) (e : E) : M unit := if b then mret tt else throw e.

(** ** Program logic *)

(** If [m] starts in [P] and commits, then it ends in [Q]. *)
Definition hoare {A} (P : S → Prop) (m : M A) (Q : A → S → Prop) : Prop :=
  ∀ s a s', P s → m s = Ok a s' → Q a s'.

Definition preserves {A} (I : S → Prop) (m : M A) : Prop :=
  hoare I m (λ _, I).

(** Committed executions of [m] relate the old and the new database by [R]. *)
Definition evolves {A} (R : S → S → Prop) (m : M A) : Prop :=
  ∀ s a s', m s = Ok a s' → R s s'.

Lemma bind_ok {A B} (m : M A) (f : A → M B) s b s'' :
  (m ≫= f) s = Ok b s'' ↔ ∃ a s', m s = Ok a s' ∧ f a s' = Ok b s''.
Proof.
  unfold mbind, M_bind. destruct (m s) as [a s'|e]; split.
  - intros H. eauto.
  - intros (a' & s1 & [= <- <-] & H). exact H.
  - discriminate.
  - intros (a' & s1 & [=] & _).
Qed.

(** Running a sequence forwards. *)
Lemma bind_run {A B} (m : M A) (f : A → M B) s a s' : m s = Ok a s' → (m ≫= f) s = f a s'.
Proof. intros Hm. unfold mbind, M_bind. by rewrite Hm. Qed.
Lemma bind_err {A B} (m : M A) (f : A → M B) s e : m s = Err e → (m ≫= f) s = Err e.
Proof. intros Hm. unfold mbind, M_bind. by rewrite Hm. Qed.

Lemma catch_ok {A} (m : M A) h s a s' :
  catch m h s = Ok a s' ↔
  m s = Ok a s' ∨ ∃ e, m s = Err e ∧ h e s = Ok a s'.
Proof.
  unfold catch. destruct (m s) as [a1 s1|e]; naive_solver.
Qed.

Lemma require_ok {A} (o : option A) e s a s' :
  require o e s = Ok a s' ↔ o = Some a ∧ s' = s.
Proof. destruct o; simpl; unfold mret, M_ret, throw; naive_solver. Qed.

Lemma guard_ok (b : bool) e s a s' :
  guard_ b e s = Ok a s' ↔ b = true ∧ s' = s.
Proof. destruct b, a; simpl; unfold mret, M_ret, throw; naive_solver. Qed.

Lemma hoare_bind {A B} (P : S → Prop) (R : A → S → Prop) (Q : B → S → Prop) m f :
  hoare P m R → (∀ a, hoare (R a) (f a) Q) → hoare P (m ≫= f) Q.
Proof. intros Hm Hf s b s' HP (a & s1 & H1 & H2)%bind_ok. unfold hoare in *; eauto. Qed.

Lemma hoare_weaken {A} (P P' : S → Prop) (Q Q' : A → S → Prop) m :
  hoare P' m Q' → (∀ s, P s → P' s) → (∀ a s, Q' a s → Q a s) → hoare P m Q.
Proof. unfold hoare; eauto. Qed.

Lemma hoare_ret {A} (P : S → Prop) (a : A) (Q : A → S → Prop) :
  (∀ s, P s → Q a s) → hoare P (mret a) Q.
Proof. intros HQ s a' s' HP [= <- <-]. auto. Qed.

Lemma hoare_throw {A} (P : S → Prop) e (Q : A → S → Prop) : hoare P (throw e) Q.
Proof. intros s a s' _ [=]. Qed.

Lemma hoare_gets {A} (P : S → Prop) (f : S → A) (Q : A → S → Prop) :
  (∀ s, P s → Q (f s) s) → hoare P (gets f) Q.
Proof. intros HQ s a' s' HP [= <- <-]. auto. Qed.

Lemma preserves_bind {A B} I (m : M A) (f : A → M B) :
  preserves I m → (∀ a, preserves I (f a)) → preserves I (m ≫= f).
Proof. intros; eapply hoare_bind; eauto. Qed.
Lemma preserves_ret {A} I (a : A) : preserves I (mret a).
Proof. by apply hoare_ret. Qed.
Lemma preserves_throw {A} I e : preserves I (throw (A:=A) e).
Proof. apply hoare_throw. Qed.
Lemma preserves_gets {A} I (f : S → A) : preserves I (gets f).
Proof. by apply hoare_gets. Qed.
Lemma preserves_modify I f : (∀ s, I s → I (f s)) → preserves I (modify f).
Proof. intros Hf s [] s' HI [= <-]. auto. Qed.
Lemma preserves_when I b m : preserves I m → preserves I (when b m).
Proof. destruct b; [done|]. intros _. apply preserves_ret. Qed.
Lemma preserves_require {A} I (o : option A) e : preserves I (require o e).
Proof. destruct o; [apply preserves_ret|apply preserves_throw]. Qed.
Lemma preserves_guard I b e : preserves I (guard_ b e).
Proof. destruct b; [apply preserves_ret|apply preserves_throw]. Qed.
Lemma preserves_catch {A} I (m : M A) h :
  preserves I m → (∀ e, preserves I (h e)) → preserves I (catch m h).
Proof.
  intros Hm Hh s a s' HI [H|(e & _ & H)]%catch_ok; [by eapply Hm|by eapply Hh].
Qed.
Lemma preserves_for_each {A} I (xs : list A) f :
  (∀ x, preserves I (f x)) → preserves I (for_each xs f).
Proof.
  intros Hf. induction xs as [|x xs IH]; [apply preserves_ret|].
  apply preserves_bind; [apply Hf|done].
Qed.
Lemma preserves_for_fold {A B} I f (xs : list A) (b : B) :
  (∀ b x, preserves I (f b x)) → preserves I (for_fold f b xs).
Proof.
  intros Hf. revert b. induction xs as [|x xs IH]; intros b; [apply preserves_ret|].
  apply preserves_bind; [apply Hf|done].
Qed.

(** [evolves] for a preorder is closed under sequencing. *)
Section evolves.
Context (R : S → S → Prop) `{!PreOrder R}.
Lemma evolves_bind {A B} (m : M A) (f : A → M B) :
  evolves R m → (∀ a, evolves R (f a)) → evolves R (m ≫= f).
Proof. intros Hm Hf s b s' (a & s1 & H1 & H2)%bind_ok. etrans; [by eapply Hm|by eapply Hf]. Qed.
Lemma evolves_ret {A} (a : A) : evolves R (mret a).
Proof. by intros s a' s' [= _ <-]. Qed.
Lemma evolves_throw {A} e : evolves R (throw (A:=A) e).
Proof. by intros s a s' [=]. Qed.
Lemma evolves_gets {A} (f : S → A) : evolves R (gets f).
Proof. by intros s a' s' [= _ <-]. Qed.
Lemma evolves_modify f : (∀ s, R s (f s)) → evolves R (modify f).
Proof. by intros Hf s [] s' [= <-]. Qed.
Lemma evolves_when b m : evolves R m → evolves R (when b m).
Proof. destruct b; [done|]. intros _. apply evolves_ret. Qed.
Lemma evolves_require {A} (o : option A) e : evolves R (require o e).
Proof. destruct o; [apply evolves_ret|apply evolves_throw]. Qed.
Lemma evolves_guard b e : evolves R (guard_ b e).
Proof. destruct b; [apply evolves_ret|apply evolves_throw]. Qed.
(** What follows a check may use it. *)
Lemma evolves_guard_bind {A} (b : bool) e (f : unit → M A) :
  (b = true → evolves R (f tt)) → evolves R (guard_ b e ≫= f).
Proof. intros Hf s a s' ([] & s1 & [-> ->]%guard_ok & Hr)%bind_ok. by eapply Hf. Qed.
Lemma evolves_catch {A} (m : M A) h :
  evolves R m → (∀ e, evolves R (h e)) → evolves R (catch m h).
Proof. intros Hm Hh s a s' [H|(e & _ & H)]%catch_ok; [by eapply Hm|by eapply Hh]. Qed.
Lemma evolves_for_each {A} (xs : list A) f :
  (∀ x, evolves R (f x)) → evolves R (for_each xs f).
Proof.
  intros Hf. induction xs as [|x xs IH]; [apply evolves_ret|].
  by apply evolves_bind.
Qed.
Lemma evolves_for_fold {A B} f (xs : list A) (b : B) :
  (∀ b x, evolves R (f b x)) → evolves R (for_fold f b xs).
Proof.
  intros Hf. revert b. induction xs as [|x xs IH]; intros b; [apply evolves_ret|].
  by apply evolves_bind.
Qed.
End evolves.
End outcome.
#[global] Arguments outcome : clear implicits.
#[global] Arguments M : clear implicits.

Declare Scope gaffer_scope.
Delimit Scope gaffer_scope with gaffer.
Open Scope gaffer_scope.
Notation "'let*' x := m 'in' k" := (mbind (λ x, k) m)
  (at level 10, x pattern, m at level 100, k at level 200,
   format "'[v' 'let*'  x  :=  m  'in' '/' k ']'") : gaffer_scope.
Notation "m ';;;' k" := (mbind (λ _, k) m)
  (at level 199, k at level 200, format "'[v' m ';;;' '/' k ']'") : gaffer_scope.
(** The nullish coalescing operator [o ?? d]. *)
Notation "o ?? d" := (default d o) (at level 50, left associativity) : gaffer_scope.

(** ** Automation *)
Create HintDb gaffer discriminated.
#[export] Hint Resolve preserves_ret preserves_throw preserves_gets
  preserves_require preserves_when preserves_guard : gaffer.
#[export] Hint Resolve evolves_ret evolves_throw evolves_gets
  evolves_require evolves_when evolves_guard : gaffer.
#[export] Hint Extern 0 (PreOrder _) => apply _ : gaffer.

(** Split a committed run of a sequence of statements into its steps. *)
Ltac run_step H :=
  match type of H with
  | (mbind _ _) _ = Ok _ _ =>
      let a := fresh "a" in let s := fresh "s" in
      let H1 := fresh "Hrun" in
      apply bind_ok in H; destruct H as (a & s & H1 & H)
  | mret _ _ = Ok _ _ => injection H as ? ?; subst
  | throw _ _ = Ok _ _ => discriminate H
  | gets _ _ = Ok _ _ => injection H as ? ?; subst
  | modify _ _ = Ok _ _ => injection H as ?; subst
  | require _ _ _ = Ok _ _ => apply require_ok in H; destruct H as [H ->]
  | guard_ _ _ _ = Ok _ _ => apply guard_ok in H; destruct H as [H ->]
  end.

(** The same, all the way down. *)
Ltac run_steps H :=
  lazymatch type of H with
  | (mbind _ _) _ = Ok _ _ =>
      let a := fresh "a" in let s := fresh "s" in
      let H1 := fresh "Hrun" in
      apply bind_ok in H; destruct H as (a & s & H1 & H); run_steps H1; run_steps H
  | _ => try run_step H
  end.

(** Structural proof of [preserves I m] / [evolves R m]. *)
Ltac structural :=
  repeat first
    [ progress intros
    | solve [auto with gaffer nocore]
    | apply preserves_bind | apply preserves_catch
    | apply preserves_for_each | apply preserves_for_fold
    | apply preserves_when
    | apply evolves_bind | apply evolves_catch
    | apply evolves_for_each | apply evolves_for_fold
    | apply evolves_when
    | match goal with
      | |- preserves _ (match ?x with _ => _ end) => destruct x eqn:?
      | |- evolves _ (match ?x with _ => _ end) => destruct x eqn:?
      end ].

(** ** Logic and decidability *)
Lemma and_iff_compat_both (A B C D : Prop) : (A ↔ C) → (B ↔ D) → (A ∧ B ↔ C ∧ D).
Proof. tauto. Qed.

Lemma bool_decide_nonempty {A} (l : list A) `{Decision (l ≠ [])} :
  bool_decide (l ≠ []) = false ↔ l = [].
Proof.
  rewrite bool_decide_eq_false. split; [|intros -> Hn; by apply Hn].
  destruct l; [done|]. intros Hn. exfalso. apply Hn. discriminate.
Qed.

(** [[...new Set(xs)]]: first occurrences, in order. *)
Fixpoint distinct {A} `{EqDecision A} (l : list A) : list A :=
  match l with
  | [] => []
  | x :: r => x :: filter (λ y, y ≠ x) (distinct r)
  end.
Lemma distinct_spec {A} `{EqDecision A} (l : list A) :
  NoDup (distinct l) ∧ ∀ x, x ∈ distinct l ↔ x ∈ l.
Proof.
  induction l as [|a l [IH1 IH2]]; simpl; [split; [constructor|done]|]. split.
  - constructor; [|by apply NoDup_filter]. rewrite list_elem_of_filter. tauto.
  - intros x. rewrite !elem_of_cons, list_elem_of_filter, IH2. destruct (decide (x = a)); tauto.
Qed.
