(* ===== verification/Json.v ===== *)
(** * JSON text

    JavaScript values as the services serialise them, [JSON.stringify] (the
    text event payloads are stored as and the hash chain covers) and
    [canonicalize] from [src/packages/dispatch/src/util/canonicalJson.ts]
    (the text the delivery dossier hashes).  Strings are bytes; numbers are
    integers, or kept as their text; object keys are kept in insertion order. *)
From Stdlib Require Import Ascii.
From S2P Require Import Prelude.

Inductive js : Type :=
| JSUndefined
| JSNull
| JSBool (b : bool)
| JSNum (n : Z)
| JSReal (lexeme : string)   (* a number that is not an integer, by its text *)
| JSNonFinite                (* NaN, Infinity, -Infinity *)
| JSBigInt (n : Z)
| JSStr (s : string)
| JSArr (items : list js)
| JSObj (members : list (string * js)).

(** Induction with the hypotheses for array items and object members. *)
Section js_ind.
Context (P : js → Prop).
Context (Hundef : P JSUndefined) (Hnull : P JSNull) (Hbool : ∀ b, P (JSBool b))
  (Hnum : ∀ n, P (JSNum n)) (Hreal : ∀ s, P (JSReal s)) (Hnf : P JSNonFinite) (Hbig : ∀ n, P (JSBigInt n))
  (Hstr : ∀ s, P (JSStr s))
  (Harr : ∀ items, Forall P items → P (JSArr items))
  (Hobj : ∀ members, Forall (λ kv, P kv.2) members → P (JSObj members)).
Fixpoint js_rec' (v : js) : P v :=
  match v with
  | JSUndefined => Hundef
  | JSNull => Hnull
  | JSBool b => Hbool b
  | JSNum n => Hnum n
  | JSReal s => Hreal s
  | JSNonFinite => Hnf
  | JSBigInt n => Hbig n
  | JSStr s => Hstr s
  | JSArr items =>
      Harr items ((fix go l := match l return Forall P l with
                   | [] => Forall_nil_2 _
                   | x :: l => Forall_cons_2 _ _ _ (js_rec' x) (go l)
                   end) items)
  | JSObj members =>
      Hobj members ((fix go l := match l return Forall (λ kv, P kv.2) l with
                     | [] => Forall_nil_2 _
                     | x :: l => Forall_cons_2 _ _ _ (js_rec' x.2) (go l)
                     end) members)
  end.
End js_ind.

(** ** JSON.stringify *)

(** One character of a JSON string literal: the short escapes, [\u00XX] for
    the other control characters, the character itself otherwise. *)
Definition hex_digit (n : nat) : ascii :=
  default "0"%char (String.get n "0123456789abcdef").
Definition escape_char (c : ascii) : list ascii :=
  let n := nat_of_ascii c in
  if bool_decide (n = 34%nat) then ["\"%char; ascii_of_nat 34]
  else if bool_decide (n = 92%nat) then ["\"%char; "\"%char]
  else if bool_decide (n = 8%nat) then ["\"%char; "b"%char]
  else if bool_decide (n = 9%nat) then ["\"%char; "t"%char]
  else if bool_decide (n = 10%nat) then ["\"%char; "n"%char]
  else if bool_decide (n = 12%nat) then ["\"%char; "f"%char]
  else if bool_decide (n = 13%nat) then ["\"%char; "r"%char]
  else if bool_decide (n < 32)%nat then
    ["\"%char; "u"%char; "0"%char; "0"%char; hex_digit (n / 16); hex_digit (n mod 16)]
  else [c].

Definition dquote : ascii := ascii_of_nat 34.

(** Text is built as a list of characters. *)
Definition quote_chars (s : list ascii) : list ascii :=
  dquote :: mjoin (escape_char <$> s) ++ [dquote].
Definition quote (s : string) : list ascii := quote_chars (String.list_ascii_of_string s).

Definition text (s : string) : list ascii := String.list_ascii_of_string s.

Fixpoint comma_sep (items : list (list ascii)) : list ascii :=
  match items with
  | [] => []
  | [x] => x
  | x :: rest => x ++ ","%char :: comma_sep rest
  end.

(** [None] is the absent result [JSON.stringify] has for [undefined].  On a
    bigint the real function throws; the values the services stringify hold
    none, and the model has no text for one either. *)
Fixpoint stringify_chars (v : js) : option (list ascii) :=
  match v with
  | JSUndefined | JSBigInt _ => None
  | JSNull | JSNonFinite => Some (text "null")
  | JSBool b => Some (text (if b then "true" else "false"))
  | JSNum n => Some (text (pretty n))
  | JSReal s => Some (text s)
  | JSStr s => Some (quote s)
  | JSArr items =>
      Some ("["%char ::
        comma_sep (map (λ x, stringify_chars x ?? text "null") items) ++ ["]"%char])
  | JSObj members =>
      Some ("{"%char ::
        comma_sep ((fix go l := match l with
          | [] => []
          | (k, x) :: l =>
              match stringify_chars x with
              | None => go l
              | Some t => (quote k ++ ":"%char :: t) :: go l
              end
          end) members) ++ ["}"%char])
  end.

Definition JSON_stringify (v : js) : option string :=
  String.string_of_list_ascii <$> stringify_chars v.

Definition JSNullable (o : option string) : js :=
  match o with Some s => JSStr s | None => JSNull end.


(** ** [canonicalJson.ts] *)

(** [Object.keys(obj).sort()]: code-unit order, which is byte order on ASCII. *)
Definition key_le (kv1 kv2 : string * list ascii) : Prop :=
  String.leb kv1.1 kv2.1 = true.
#[export] Instance key_le_dec : RelDecision key_le.
Proof. intros x y. unfold key_le. apply _. Defined.

Fixpoint canonical_chars (v : js) : list ascii :=
  match v with
  | JSNull | JSNonFinite | JSUndefined => text "null"
  | JSNum n => text (pretty n)
  | JSReal s => text s
  | JSBool b => text (if b then "true" else "false")
  | JSStr s => quote s
  | JSBigInt n => text (pretty n)
  | JSArr items => "["%char :: comma_sep (map canonical_chars items) ++ ["]"%char]
  | JSObj members =>
      let parts := (fix go l := match l with
        | [] => []
        | (k, JSUndefined) :: l => go l
        | (k, x) :: l => (k, quote k ++ ":"%char :: canonical_chars x) :: go l
        end) members in
      "{"%char :: comma_sep (snd <$> merge_sort key_le parts) ++ ["}"%char]
  end.

Definition canonicalize (v : js) : string :=
  String.string_of_list_ascii (canonical_chars v).

(** ** Reading a string literal back

    [read_char] undoes [escape_char] at the head of a text; it is what makes
    a quoted string self-delimiting. *)
Definition hex_value (c : ascii) : nat :=
  let n := nat_of_ascii c in
  if bool_decide (n < 58)%nat then n - 48 else n - 87.

Definition read_char (l : list ascii) : option (ascii * list ascii) :=
  match l with
  | "\"%char :: "u"%char :: _ :: _ :: h :: h' :: r =>
      Some (ascii_of_nat (hex_value h * 16 + hex_value h'), r)
  | "\"%char :: e :: r =>
      Some (match e with
            | "b"%char => ascii_of_nat 8
            | "t"%char => ascii_of_nat 9
            | "n"%char => ascii_of_nat 10
            | "f"%char => ascii_of_nat 12
            | "r"%char => ascii_of_nat 13
            | _ => e
            end, r)
  | c :: r => Some (c, r)
  | [] => None
  end.

Lemma read_escape c r : read_char (escape_char c ++ r) = Some (c, r).
Proof. by destruct c as [[] [] [] [] [] [] [] []]. Qed.

Lemma escape_not_quote c r r' : escape_char c ++ r ≠ dquote :: r'.
Proof. by destruct c as [[] [] [] [] [] [] [] []]. Qed.

Lemma escape_prefix c d r r' :
  escape_char c ++ r = escape_char d ++ r' → c = d ∧ r = r'.
Proof.
  intros H. apply (f_equal read_char) in H. rewrite !read_escape in H.
  by injection H.
Qed.

Lemma quote_chars_prefix s t r r' :
  quote_chars s ++ r = quote_chars t ++ r' → s = t ∧ r = r'.
Proof.
  unfold quote_chars. intros [= H]. revert t H.
  induction s as [|c s IH]; intros [|d t] H; simpl in *.
  - by injection H.
  - rewrite <- !app_assoc in H. by apply eq_sym, escape_not_quote in H.
  - rewrite <- !app_assoc in H. by apply escape_not_quote in H.
  - rewrite <- !app_assoc in H. apply escape_prefix in H as [-> H].
    rewrite !app_assoc in H. apply IH in H as [-> ->]. done.
Qed.

Lemma list_ascii_inj s t :
  String.list_ascii_of_string s = String.list_ascii_of_string t → s = t.
Proof.
  intros H. rewrite <- (String.string_of_list_ascii_of_string s), H.
  apply String.string_of_list_ascii_of_string.
Qed.

(** ** Arrays of nullable strings

    The hash chain serialises a row as one flat array of strings and nulls;
    its text determines the array. *)
Definition nullable_chars (o : option string) : list ascii :=
  match o with Some s => quote s | None => text "null" end.

Lemma stringify_nullables (l : list (option string)) :
  stringify_chars (JSArr (map JSNullable l))
  = Some ("["%char :: comma_sep (map nullable_chars l) ++ ["]"%char]).
Proof.
  simpl. do 3 f_equal. rewrite map_map. apply f_equal, map_ext.
  by intros [s|].
Qed.

Lemma nullable_prefix a b r r' :
  nullable_chars a ++ r = nullable_chars b ++ r' → a = b ∧ r = r'.
Proof.
  destruct a as [s|], b as [t|]; simpl; intros H.
  - apply quote_chars_prefix in H as [?%list_ascii_inj ->]. by subst.
  - discriminate.
  - discriminate.
  - by injection H.
Qed.

Lemma nullable_nonempty a r : nullable_chars a ++ r ≠ ["]"%char].
Proof. destruct a; simpl; discriminate. Qed.

Lemma comma_sep_nullables_inj l l' :
  comma_sep (map nullable_chars l) ++ ["]"%char]
  = comma_sep (map nullable_chars l') ++ ["]"%char] → l = l'.
Proof.
  revert l'. induction l as [|a l IH]; intros [|b l'] H; [done| | |].
  - exfalso. symmetry in H. destruct l'; simpl in H;
      rewrite <- ?app_assoc in H; by apply nullable_nonempty in H.
  - exfalso. destruct l; simpl in H;
      rewrite <- ?app_assoc in H; by apply nullable_nonempty in H.
  - destruct l as [|a' l], l' as [|b' l']; simpl in H;
      rewrite <- ?app_assoc in H; apply nullable_prefix in H as [-> H].
    + done.
    + discriminate.
    + discriminate.
    + injection H as H. f_equal. by apply IH.
Qed.

Lemma string_of_list_ascii_inj l l' :
  String.string_of_list_ascii l = String.string_of_list_ascii l' → l = l'.
Proof.
  intros H. rewrite <- (String.list_ascii_of_string_of_list_ascii l), H.
  apply String.list_ascii_of_string_of_list_ascii.
Qed.

(** [JSON.stringify] of an array of nullable strings is injective. *)
Lemma JSON_stringify_nullables_inj l l' :
  JSON_stringify (JSArr (map JSNullable l))
  = JSON_stringify (JSArr (map JSNullable l')) → l = l'.
Proof.
  unfold JSON_stringify. rewrite !stringify_nullables. simpl.
  intros [= H%string_of_list_ascii_inj]. by apply comma_sep_nullables_inj.
Qed.
