(* ===== verification/JsonParse.v ===== *)
(** * Reading JSON text

    [JSON.parse], as the services use it on columns they read back, and the
    round trip with [JSON.stringify]: what a column holds is the value that
    was written.  Text is UTF-8 bytes; a [\u] escape outside the basic plane
    stays the two surrogates it was written as. *)
From Stdlib Require Import Ascii.
From S2P Require Import Prelude Json.

(** ** The parser *)

Definition is_ws (c : ascii) : bool :=
  let n := nat_of_ascii c in bool_decide (n = 32 ∨ n = 9 ∨ n = 10 ∨ n = 13)%nat.
Fixpoint skip_ws (l : list ascii) : list ascii :=
  match l with
  | c :: r => if is_ws c then skip_ws r else l
  | [] => []
  end.

Definition is_dec (c : ascii) : bool :=
  let n := nat_of_ascii c in bool_decide (48 ≤ n ∧ n ≤ 57)%nat.
Definition hex_digit_value (c : ascii) : option nat :=
  let n := nat_of_ascii c in
  if bool_decide (48 ≤ n ∧ n ≤ 57)%nat then Some (n - 48)
  else if bool_decide (97 ≤ n ∧ n ≤ 102)%nat then Some (n - 87)
  else if bool_decide (65 ≤ n ∧ n ≤ 70)%nat then Some (n - 55)
  else None.

(** The UTF-8 bytes of a code unit. *)
Definition utf8 (n : nat) : list ascii :=
  if bool_decide (n < 128)%nat then [ascii_of_nat n]
  else if bool_decide (n < 2048)%nat then
    [ascii_of_nat (192 + n / 64); ascii_of_nat (128 + n mod 64)]
  else [ascii_of_nat (224 + n / 4096); ascii_of_nat (128 + n / 64 mod 64);
        ascii_of_nat (128 + n mod 64)].

Definition unescape (c : ascii) : option ascii :=
  let n := nat_of_ascii c in
  if bool_decide (n = 34 ∨ n = 92 ∨ n = 47)%nat then Some c
  else match c with
       | "b"%char => Some (ascii_of_nat 8)
       | "t"%char => Some (ascii_of_nat 9)
       | "n"%char => Some (ascii_of_nat 10)
       | "f"%char => Some (ascii_of_nat 12)
       | "r"%char => Some (ascii_of_nat 13)
       | _ => None
       end.

(** The rest of a string literal, after its opening quote. *)
Fixpoint string_body (l : list ascii) : option (list ascii * list ascii) :=
  match l with
  | [] => None
  | c :: r =>
      if bool_decide (c = dquote) then Some ([], r)
      else if bool_decide (c = "\"%char) then
        match r with
        | "u"%char :: a :: b :: x :: y :: r =>
            a ← hex_digit_value a; b ← hex_digit_value b;
            x ← hex_digit_value x; y ← hex_digit_value y;
            p ← string_body r;
            Some (utf8 (((a * 16 + b) * 16 + x) * 16 + y) ++ p.1, p.2)
        | e :: r => e ← unescape e; p ← string_body r; Some (e :: p.1, p.2)
        | [] => None
        end
      else if bool_decide (nat_of_ascii c < 32)%nat then None
      else p ← string_body r; Some (c :: p.1, p.2)
  end.

(** A number: its sign, its integer digits, and whatever fraction and
    exponent follow. *)
Fixpoint take_digits (l : list ascii) : list ascii * list ascii :=
  match l with
  | c :: r => if is_dec c then let p := take_digits r in (c :: p.1, p.2) else ([], l)
  | [] => ([], [])
  end.
Definition digits_value (l : list ascii) : Z :=
  foldl (λ acc c, acc * 10 + Z.of_nat (nat_of_ascii c - 48))%Z 0%Z l.
Definition fraction (l : list ascii) : option (list ascii * list ascii) :=
  match l with
  | "."%char :: r =>
      let p := take_digits r in
      if bool_decide (p.1 = []) then None else Some ("."%char :: p.1, p.2)
  | _ => Some ([], l)
  end.
Definition exponent (l : list ascii) : option (list ascii * list ascii) :=
  match l with
  | ("e"%char | "E"%char) as e :: r =>
      let sign := match r with ("+"%char | "-"%char) as s :: _ => [s] | _ => [] end in
      let p := take_digits (drop (length sign) r) in
      if bool_decide (p.1 = []) then None else Some (e :: sign ++ p.1, p.2)
  | _ => Some ([], l)
  end.
Definition number_value (l : list ascii) : option (js * list ascii) :=
  let neg := match l with "-"%char :: _ => true | _ => false end in
  let p := take_digits (if neg then drop 1 l else l) in
  if bool_decide (p.1 = []) || (bool_decide (1 < length p.1)%nat && bool_decide (head p.1 = Some "0"%char))
  then None
  else
    f ← fraction p.2; e ← exponent f.2;
    let n := digits_value p.1 in
    Some (if bool_decide (f.1 = [] ∧ e.1 = [])
          then JSNum (if neg then - n else n)%Z
          else JSReal (String.string_of_list_ascii
                 ((if neg then ["-"%char] else []) ++ p.1 ++ f.1 ++ e.1)), e.2).

(** A repeated key keeps its first place and takes its last value. *)
Fixpoint set_member (k : string) (v : js) (ms : list (string * js)) : list (string * js) :=
  match ms with
  | [] => [(k, v)]
  | m :: ms => if bool_decide (m.1 = k) then (k, v) :: ms else m :: set_member k v ms
  end.

Definition literal (w : string) (v : js) (l : list ascii) : option (js * list ascii) :=
  let w := text w in
  if bool_decide (take (length w) l = w) then Some (v, drop (length w) l) else None.

(** [n] bounds the depth of the calls: twice the length of the text is
    enough, since every second call consumes a character. *)
Fixpoint parse_value (n : nat) (l : list ascii) : option (js * list ascii) :=
  match n with
  | O => None
  | S n =>
      match skip_ws l with
      | [] => None
      | c :: r =>
          if bool_decide (c = dquote) then
            p ← string_body r; Some (JSStr (String.string_of_list_ascii p.1), p.2)
          else match c with
               | "["%char =>
                   match skip_ws r with
                   | "]"%char :: r => Some (JSArr [], r)
                   | _ => p ← parse_items n r; Some (JSArr p.1, p.2)
                   end
               | "{"%char =>
                   match skip_ws r with
                   | "}"%char :: r => Some (JSObj [], r)
                   | _ => p ← parse_members n [] r; Some (JSObj p.1, p.2)
                   end
               | "t"%char => literal "true" (JSBool true) (c :: r)
               | "f"%char => literal "false" (JSBool false) (c :: r)
               | "n"%char => literal "null" JSNull (c :: r)
               | _ => number_value (c :: r)
               end
      end
  end
(** One value and the comma or bracket after it. *)
with parse_items (n : nat) (l : list ascii) : option (list js * list ascii) :=
  match n with
  | O => None
  | S n =>
      v ← parse_value n l;
      match skip_ws v.2 with
      | "]"%char :: r => Some ([v.1], r)
      | ","%char :: r => p ← parse_items n r; Some (v.1 :: p.1, p.2)
      | _ => None
      end
  end
with parse_members (n : nat) (ms : list (string * js)) (l : list ascii)
    : option (list (string * js) * list ascii) :=
  match n with
  | O => None
  | S n =>
      match skip_ws l with
      | q :: r =>
          if bool_decide (q = dquote) then
            k ← string_body r;
            match skip_ws k.2 with
            | ":"%char :: r =>
                v ← parse_value n r;
                let ms := set_member (String.string_of_list_ascii k.1) v.1 ms in
                match skip_ws v.2 with
                | "}"%char :: r => Some (ms, r)
                | ","%char :: r => parse_members n ms r
                | _ => None
                end
            | _ => None
            end
          else None
      | [] => None
      end
  end.

(** [JSON.parse]; [None] is a [SyntaxError]. *)
Definition JSON_parse (s : string) : option js :=
  let l := text s in
  p ← parse_value (2 * length l + 2) l;
  if bool_decide (skip_ws p.2 = []) then Some p.1 else None.

(** ** Printed decimals *)

Lemma dec_char x :
  (x < 10)%N → is_dec (pretty_N_char x) = true ∧ nat_of_ascii (pretty_N_char x) - 48 = N.to_nat x ∧
  (x ≠ 0%N → pretty_N_char x ≠ "0"%char).
Proof.
  intros Hx. assert (x ∈ [0; 1; 2; 3; 4; 5; 6; 7; 8; 9]%N) as Hin by (rewrite !elem_of_cons; lia).
  repeat (apply elem_of_cons in Hin as [->|Hin]; [repeat split; vm_compute; done|]).
  by apply not_elem_of_nil in Hin.
Qed.

Lemma digits_value_snoc l c :
  digits_value (l ++ [c]) = (digits_value l * 10 + Z.of_nat (nat_of_ascii c - 48))%Z.
Proof. unfold digits_value. by rewrite foldl_app. Qed.

(** What [pretty] prints: digits only, no leading zero, of the right value. *)
Definition decimal_of (ds : list ascii) (x : N) : Prop :=
  Forall (λ c, is_dec c = true) ds ∧ digits_value ds = Z.of_N x ∧
  if decide (x = 0%N) then ds = [] else ds ≠ [] ∧ head ds ≠ Some "0"%char.
Lemma pretty_go_decimal x s : ∃ ds, text (pretty_N_go x s) = ds ++ text s ∧ decimal_of ds x.
Proof.
  revert s. induction (N.lt_wf_0 x) as [x _ IH]; intros s.
  destruct (decide (0 < x)%N) as [Hx|Hx].
  2: { assert (x = 0)%N as -> by lia. exists []. rewrite pretty_N_go_0. repeat split; [constructor|done..]. }
  destruct (dec_char (x `mod` 10)) as (Hd & Hv & Hz); [by apply N.mod_lt|].
  rewrite (pretty_N_go_step x s Hx).
  destruct (IH (x `div` 10)%N ltac:(by apply N.div_lt) (String (pretty_N_char (x `mod` 10)) s))
    as (ds & Et & Hds & Hval & Hhead).
  exists (ds ++ [pretty_N_char (x `mod` 10)]). split; [by rewrite Et, <- app_assoc|].
  pose proof (N.div_mod x 10 ltac:(done)) as Hdm.
  split; [apply Forall_app; by repeat constructor|]. split; [rewrite digits_value_snoc, Hval, Hv, N_nat_Z; lia|].
  rewrite decide_False by lia. destruct (decide (x `div` 10 = 0)%N) as [E|E].
  - rewrite Hhead. simpl. split; [done|]. intros [= Hc]. apply Hz; [lia|exact Hc].
  - destruct Hhead as [Hne Hh]. by destruct ds.
Qed.

(** ** Reading printed text back *)

(** Values whose text says all of them: those [JSON.parse] can return. *)
Fixpoint plain (v : js) : Prop :=
  match v with
  | JSUndefined | JSNonFinite | JSBigInt _ | JSReal _ => False
  | JSNull | JSBool _ | JSNum _ | JSStr _ => True
  | JSArr items => (fix go l := match l with [] => True | x :: l => plain x ∧ go l end) items
  | JSObj ms =>
      NoDup ms.*1 ∧ (fix go (l : list (string * js)) :=
                       match l with [] => True | m :: l => plain m.2 ∧ go l end) ms
  end.
Lemma plain_arr items : plain (JSArr items) ↔ Forall plain items.
Proof.
  simpl. induction items as [|x l IH]; [by rewrite Forall_nil|]. rewrite Forall_cons. by rewrite IH.
Qed.
Lemma plain_obj ms : plain (JSObj ms) ↔ NoDup ms.*1 ∧ Forall (λ m, plain m.2) ms.
Proof.
  simpl. apply and_iff_compat_l. induction ms as [|x l IH]; [by rewrite Forall_nil|].
  rewrite Forall_cons. by rewrite IH.
Qed.

(** The text that follows a value inside another: nothing, or a separator. *)
Definition ends (r : list ascii) : Prop :=
  match r with c :: _ => c ∈ [","%char; "]"%char; "}"%char] | [] => True end.

Lemma string_body_escape c l :
  string_body (escape_char c ++ l) = (p ← string_body l; Some (c :: p.1, p.2)).
Proof. by destruct c as [[] [] [] [] [] [] [] []]. Qed.
Lemma string_body_quoted s r : string_body (mjoin (escape_char <$> s) ++ dquote :: r) = Some (s, r).
Proof.
  induction s as [|c s IH]; [done|].
  change (mjoin (escape_char <$> c :: s)) with (escape_char c ++ mjoin (escape_char <$> s)).
  by rewrite <- app_assoc, string_body_escape, IH.
Qed.
Lemma string_body_quote s r :
  ∃ l, quote s ++ r = dquote :: l ∧ string_body l = Some (text s, r).
Proof.
  exists (mjoin (escape_char <$> text s) ++ dquote :: r). split; [|apply string_body_quoted].
  change (quote s ++ r) with (dquote :: (mjoin (escape_char <$> text s) ++ [dquote]) ++ r).
  by rewrite <- app_assoc.
Qed.

Lemma take_digits_app ds r :
  Forall (λ c, is_dec c = true) ds → ends r → take_digits (ds ++ r) = (ds, r).
Proof.
  induction 1 as [|c ds Hc _ IH]; intros Hr; simpl; [|by rewrite Hc, IH].
  destruct r as [|c r]; [done|]. simpl in *. 
  rewrite !elem_of_cons in Hr. destruct Hr as [->|[->|[->|Hr]]]; [done..|by apply not_elem_of_nil in Hr].
Qed.
Lemma number_value_digits ds x r :
  decimal_of ds x → x ≠ 0%N → ends r →
  number_value (ds ++ r) = Some (JSNum (Z.of_N x), r) ∧
  number_value ("-"%char :: ds ++ r) = Some (JSNum (- Z.of_N x), r).
Proof.
  intros (Hds & Hv & Hh) Hx Hr. rewrite decide_False in Hh by done. destruct Hh as [Hne Hh].
  assert (Hf : fraction r = Some ([], r) ∧ exponent r = Some ([], r)).
  { destruct r as [|c r]; [done|]. simpl in Hr. rewrite !elem_of_cons in Hr.
    destruct Hr as [->|[->|[->|Hr]]]; [done..|by apply not_elem_of_nil in Hr]. }
  destruct Hf as [Hf He].
  assert (Hneg : match ds ++ r with "-"%char :: _ => true | _ => false end = false).
  { destruct ds as [|c ds]; [done|]. apply Forall_cons in Hds as [Hc _].
    destruct c as [[] [] [] [] [] [] [] []]; try reflexivity. discriminate Hc. }
  assert (Hbad : bool_decide (ds = []) || (bool_decide (1 < length ds)%nat && bool_decide (head ds = Some "0"%char)) = false).
  { rewrite (bool_decide_false (ds = [])), (bool_decide_false (head ds = _)), andb_false_r; done. }
  assert (Ht : take_digits (ds ++ r) = (ds, r)) by by apply take_digits_app.
  unfold number_value. rewrite Hneg. change (drop 1 ("-"%char :: ds ++ r)) with (ds ++ r).
  rewrite Ht. cbn [fst snd]. rewrite Hbad, Hf. cbn [mbind option_bind fst snd]. rewrite He, Hv.
  by split.
Qed.
Lemma number_value_pretty n r :
  ends r → number_value (text (pretty n) ++ r) = Some (JSNum n, r).
Proof.
  intros Hr. destruct n as [|p|p].
  - destruct r as [|c r]; [done|]. simpl in Hr. rewrite !elem_of_cons in Hr.
    destruct Hr as [->|[->|[->|Hr]]]; [reflexivity..|by apply not_elem_of_nil in Hr].
  - change (pretty (Zpos p)) with (pretty_N_go (Npos p) "").
    destruct (pretty_go_decimal (Npos p) "") as (ds & -> & Hd). rewrite app_nil_r.
    by destruct (number_value_digits ds (Npos p) r Hd) as [-> _].
  - change (pretty (Zneg p)) with (String "-" (pretty_N_go (Npos p) "")).
    destruct (pretty_go_decimal (Npos p) "") as (ds & E & Hd). unfold text in *. simpl in *. rewrite E, app_nil_r.
    by destruct (number_value_digits ds (Npos p) r Hd) as [_ ->].
Qed.

(** How deep the text of a value makes the parser call itself. *)
Definition depth (l : list ascii) : nat := 2 * length l.

(** A printed value starts neither with space nor with a bracket that would
    close its container. *)
Definition starts (l : list ascii) : Prop :=
  ∃ c r, l = c :: r ∧ is_ws c = false ∧ c ≠ "]"%char ∧ c ≠ "}"%char.
Lemma starts_app l r : starts l → starts (l ++ r).
Proof. intros (c & l' & -> & H). exists c, (l' ++ r). done. Qed.
Lemma starts_skip l : starts l → skip_ws l = l.
Proof. intros (c & r & -> & Hc & _). simpl. by rewrite Hc. Qed.
Lemma quote_starts s : starts (quote s).
Proof. by eexists _, _. Qed.
Lemma number_head (n : Z) :
  ∃ c r, text (pretty n) = c :: r ∧ (c = "-"%char ∨ is_dec c = true).
Proof.
  destruct n as [|p|p]; [by eexists _, _; split; [|right]| |].
  - change (pretty (Zpos p)) with (pretty_N_go (Npos p) "").
    destruct (pretty_go_decimal (Npos p) "") as (ds & -> & Hds & _ & Hne). rewrite app_nil_r.
    rewrite decide_False in Hne by done. destruct Hne as [Hne _]. destruct ds as [|c ds]; [done|].
    apply Forall_cons in Hds as [Hc _]. exists c, ds. auto.
  - change (pretty (Zneg p)) with (String "-" (pretty_N_go (Npos p) "")).
    by eexists _, _; split; [|left].
Qed.
Lemma number_reads n m r :
  ends r → parse_value (S m) (text (pretty n) ++ r) = Some (JSNum n, r) ∧ starts (text (pretty n)).
Proof.
  intros Hr. pose proof (number_value_pretty n r Hr) as Hv. destruct (number_head n) as (c & l & E & Hc).
  rewrite E in Hv |- *. cbn [app] in *. split.
  - rewrite <- Hv. destruct Hc as [->|Hc]; [done|].
    destruct c as [[] [] [] [] [] [] [] []]; vm_compute in Hc; try discriminate Hc; done.
  - exists c, l. split; [done|]. destruct Hc as [->|Hc]; [done|].
    destruct c as [[] [] [] [] [] [] [] []]; vm_compute in Hc; try discriminate Hc; done.
Qed.
Lemma skip_sep r : ends r → skip_ws r = r.
Proof.
  destruct r as [|c r]; [done|]. simpl. rewrite !elem_of_cons.
  intros [->|[->|[->|Hr]]]; [reflexivity..|by apply not_elem_of_nil in Hr].
Qed.

(** The text of a container. *)
Definition member_text (m : string * js) : option (list ascii) :=
  t ← stringify_chars m.2; Some (quote m.1 ++ ":"%char :: t).
Lemma stringify_obj ms ts :
  mapM member_text ms = Some ts →
  stringify_chars (JSObj ms) = Some ("{"%char :: comma_sep ts ++ ["}"%char]).
Proof.
  intros Hts. cbn [stringify_chars]. do 3 f_equal. f_equal. apply mapM_Some in Hts. revert ts Hts.
  induction ms as [|[k x] ms IH]; intros ts Hts; [by apply Forall2_nil_inv_l in Hts as ->|].
  apply Forall2_cons_inv_l in Hts as (t' & ts' & Ht & Hts & ->). rewrite (IH ts' Hts).
  unfold member_text in Ht. simpl in *. destruct (stringify_chars x) as [t|]; [|discriminate].
  by injection Ht as <-.
Qed.
Lemma stringify_arr items ts :
  mapM stringify_chars items = Some ts →
  stringify_chars (JSArr items) = Some ("["%char :: comma_sep ts ++ ["]"%char]).
Proof.
  intros Hts%mapM_Some. cbn [stringify_chars].
  assert (map (λ x, stringify_chars x ?? text "null") items = ts) as ->; [|done].
  induction Hts as [|x t l ts Ht _ IH]; [done|]. cbn [map]. by rewrite Ht, IH.
Qed.

(** [v] prints, and its text, followed by a separator, reads as [v]. *)
Definition reads (v : js) : Prop :=
  ∃ t, stringify_chars v = Some t ∧ starts t ∧
    ∀ n r, (depth t < n)%nat → ends r → parse_value n (t ++ r) = Some (v, r).

Lemma reads_items items ts n r :
  Forall reads items → mapM stringify_chars items = Some ts → items ≠ [] →
  (depth (comma_sep ts) + 1 < n)%nat →
  parse_items n (comma_sep ts ++ "]"%char :: r) = Some (items, r).
Proof.
  intros Hi Hts. apply mapM_Some in Hts. revert n Hi.
  induction Hts as [|x t l ts Et Hts IH]; intros n Hi Hne Hn; [done|].
  apply Forall_cons in Hi as [(t' & Et' & _ & Hx) Hl]. rewrite Et in Et'. injection Et' as <-.
  destruct n as [|n]; [lia|]. unfold depth in *. destruct Hts as [|y t' l ts Et' Hts].
  - simpl in *. rewrite Hx by (unfold depth; simpl in *; lia || set_solver). done.
  - change (comma_sep (t :: t' :: ts)) with (t ++ ","%char :: comma_sep (t' :: ts)) in *.
    rewrite length_app in Hn. simpl length in Hn. rewrite <- app_assoc. cbn [parse_items].
    rewrite Hx by (unfold depth; simpl; lia || set_solver). cbn [mbind option_bind fst snd app skip_ws].
    change (is_ws ","%char) with false. cbn match. cbn [mbind option_bind].
    rewrite IH; [done|done|done|]. simpl in *. lia.
Qed.

Lemma set_member_new k v ms : k ∉ ms.*1 → set_member k v ms = ms ++ [(k, v)].
Proof.
  induction ms as [|m ms IH]; [done|]. intros [Hk Hm]%not_elem_of_cons. simpl.
  by rewrite bool_decide_false, IH by done.
Qed.
Lemma reads_members ms ts seen n r :
  Forall (λ m, reads m.2) ms → mapM member_text ms = Some ts → ms ≠ [] →
  NoDup (seen ++ ms).*1 → (depth (comma_sep ts) + 1 < n)%nat →
  parse_members n seen (comma_sep ts ++ "}"%char :: r) = Some (seen ++ ms, r).
Proof.
  intros Hi Hts. apply mapM_Some in Hts. revert n seen Hi.
  induction Hts as [|[k v] w ms ts Em Hts IH]; intros n seen Hi Hne Hnd Hn; [done|].
  apply Forall_cons in Hi as [(t & Et & St & Hx) Hl]. simpl in Et, St, Hx.
  unfold member_text in Em. cbn [fst snd] in Em. rewrite Et in Em. apply (inj Some) in Em as <-.
  assert (Hk : k ∉ seen.*1).
  { rewrite fmap_app in Hnd. apply NoDup_app in Hnd as (_ & Hd & _). intros Hin. apply (Hd k Hin).
    apply elem_of_cons. by left. }
  destruct n as [|n]; [lia|]. unfold depth in *. destruct (string_body_quote k (":"%char :: t ++ match ts with
    [] => "}"%char :: r | _ => ","%char :: comma_sep ts ++ "}"%char :: r end)) as (l & El & Hk').
  assert (Etext : comma_sep ((quote k ++ ":"%char :: t) :: ts) ++ "}"%char :: r = dquote :: l).
  { rewrite <- El. destruct ts; simpl; by rewrite <- !app_assoc; simpl; rewrite <- ?app_assoc. }
  assert (Hlen : (2 * length t + match ts with [] => 0 | _ => 2 * length (comma_sep ts) + 1 end + 1 < n)%nat).
  { destruct ts; simpl in Hn |- *; rewrite ?length_app in Hn; simpl in Hn; rewrite ?length_app in Hn; simpl in Hn; lia. }
  rewrite Etext. cbn [parse_members skip_ws]. change (is_ws dquote) with false. cbn match.
  rewrite bool_decide_true by done. rewrite Hk'. cbn [mbind option_bind fst snd skip_ws].
  change (is_ws ":"%char) with false. cbn match. cbn [mbind option_bind fst snd].
  destruct Hts as [|m' t' ms ts Et' Hts].
  - rewrite Hx by (unfold depth; simpl; lia || set_solver). cbn [mbind option_bind fst snd skip_ws].
    change (is_ws "}"%char) with false. cbn match. cbn [mbind option_bind fst snd].
    unfold text. rewrite String.string_of_list_ascii_of_string. by rewrite set_member_new.
  - rewrite Hx by (unfold depth; simpl in *; lia || set_solver). cbn [mbind option_bind fst snd skip_ws].
    change (is_ws ","%char) with false. cbn match. cbn [mbind option_bind fst snd].
    unfold text. rewrite String.string_of_list_ascii_of_string. rewrite set_member_new by done.
    rewrite IH; [by rewrite <- app_assoc|done|done|by rewrite <- app_assoc|lia].
Qed.

Lemma member_texts ms :
  Forall (λ m : string * js, reads m.2) ms → ∃ ts, mapM member_text ms = Some ts.
Proof.
  induction 1 as [|[k v] ms (t & Et & _) _ [ts Hts]]; [by exists []|].
  exists ((quote k ++ ":"%char :: t) :: ts). apply mapM_Some. constructor; [|by apply mapM_Some].
  unfold member_text. cbn [fst snd] in *. by rewrite Et.
Qed.
Lemma item_texts l : Forall reads l → ∃ ts, mapM stringify_chars l = Some ts.
Proof.
  induction 1 as [|v l (t & Et & _) _ [ts Hts]]; [by exists []|].
  exists (t :: ts). apply mapM_Some. constructor; [done|by apply mapM_Some].
Qed.
Lemma comma_sep_starts t ts : starts t → starts (comma_sep (t :: ts)).
Proof. intros H. destruct ts; [done|by apply starts_app]. Qed.

Lemma plain_reads v : plain v → reads v.
Proof.
  induction v as [| |b|n|s| |n|s|items IH|ms IH] using js_rec'; intros Hp; try (exfalso; exact Hp).
  - exists (text "null"). split; [done|]. split; [by eexists _, _|]. by intros [|n] r Hn Hr; [lia|].
  - exists (text (if b then "true" else "false")). split; [done|]. split; [by destruct b; eexists _, _|].
    intros [|n] r Hn Hr; [lia|]. by destruct b.
  - exists (text (pretty n)). split; [done|]. split; [by apply (number_reads n 0 [])|].
    intros [|m] r Hm Hr; [lia|]. by apply number_reads.
  - exists (quote s). split; [done|]. split; [apply quote_starts|]. intros [|n] r Hn Hr; [lia|].
    destruct (string_body_quote s r) as (l & -> & Hl). cbn [parse_value skip_ws].
    change (is_ws dquote) with false. cbn match. rewrite bool_decide_true, Hl by done. simpl.
    unfold text. by rewrite String.string_of_list_ascii_of_string.
  - apply plain_arr in Hp. assert (Hi : Forall reads items).
    { induction IH as [|x l Hx _ IHl]; [done|]. apply Forall_cons in Hp as [Hp Hps].
      constructor; [by apply Hx|by apply IHl]. }
    destruct (item_texts items Hi) as [ts Hts]. exists ("["%char :: comma_sep ts ++ ["]"%char]).
    split; [by apply stringify_arr|]. split; [by eexists _, _|].
    intros n r Hn Hr. destruct n as [|n]; [lia|]. unfold depth in Hn. simpl in Hn.
    rewrite length_app in Hn. simpl in Hn. cbn [app parse_value skip_ws]. change (is_ws "["%char) with false. cbn match.
    rewrite <- app_assoc. destruct items as [|x items]; [injection Hts as <-; done|].
    assert (Hs : starts (comma_sep ts)).
    { apply mapM_Some, Forall2_cons_inv_l in Hts as (t & ts' & Et & _ & ->). apply comma_sep_starts.
      apply Forall_cons in Hi as [(t' & Et' & St & _) _]. congruence. }
    change (bool_decide ("["%char = dquote)) with false. cbn match. cbn [app].
    pose proof (reads_items _ _ n r Hi Hts ltac:(done) ltac:(unfold depth; lia)) as Hp'.
    destruct Hs as (c & l & El & Hw & Hc & _). rewrite El in Hp' |- *. cbn [app skip_ws]. rewrite Hw.
    cbn [app] in Hp'. rewrite Hp'. destruct c as [[] [] [] [] [] [] [] []]; done.
  - apply plain_obj in Hp as [Hnd Hp]. assert (Hi : Forall (λ m, reads m.2) ms).
    { clear Hnd. induction IH as [|x l Hx _ IHl]; [done|]. apply Forall_cons in Hp as [Hp Hps].
      constructor; [by apply Hx|by apply IHl]. }
    destruct (member_texts ms Hi) as [ts Hts]. exists ("{"%char :: comma_sep ts ++ ["}"%char]).
    split; [by apply stringify_obj|]. split; [by eexists _, _|].
    intros n r Hn Hr. destruct n as [|n]; [lia|]. unfold depth in Hn. simpl in Hn.
    rewrite length_app in Hn. simpl in Hn. cbn [app parse_value skip_ws]. change (is_ws "{"%char) with false. cbn match.
    rewrite <- app_assoc. destruct ms as [|x ms]; [injection Hts as <-; done|].
    assert (Hs : starts (comma_sep ts)).
    { apply mapM_Some, Forall2_cons_inv_l in Hts as (t & ts' & Et & _ & ->). apply comma_sep_starts.
      unfold member_text in Et. destruct (stringify_chars x.2); [|done]. apply (inj Some) in Et as <-.
      apply starts_app, quote_starts. }
    change (bool_decide ("{"%char = dquote)) with false. cbn match. cbn [app].
    pose proof (reads_members _ _ [] n r Hi Hts ltac:(done) Hnd ltac:(unfold depth; lia)) as Hp'.
    destruct Hs as (c & l & El & Hw & _ & Hc). rewrite El in Hp' |- *. cbn [app skip_ws]. rewrite Hw.
    cbn [app] in Hp'. rewrite Hp'. destruct c as [[] [] [] [] [] [] [] []]; done.
Qed.

(** What a column holds is what was written.  Any value made of JSON's
    own constructors with distinct keys prints, and [JSON.parse] of its text
    gives it back: quoting, nesting and numbers lose nothing. *)
Theorem JSON_roundtrip v :
  plain v → ∃ s, JSON_stringify v = Some s ∧ JSON_parse s = Some v.
Proof.
  intros (t & Et & _ & Hr)%plain_reads. exists (String.string_of_list_ascii t).
  unfold JSON_stringify, JSON_parse, text. rewrite Et, String.list_ascii_of_string_of_list_ascii.
  split; [done|]. specialize (Hr (2 * length t + 2)%nat [] ltac:(unfold depth; lia) I).
  rewrite app_nil_r in Hr. by rewrite Hr.
Qed.

Definition example_value : js :=
  JSObj [("from", JSStr "ready"); ("to", JSStr "blocked"); ("items", JSArr [JSNum (-7); JSBool true; JSNull])].
Lemma JSON_roundtrip_witness :
  plain example_value ∧ ∃ s, JSON_stringify example_value = Some s ∧ JSON_parse s = Some example_value.
Proof.
  assert (Hp : plain example_value).
  { apply plain_obj. split; [by apply (bool_decide_eq_true_1 _)|]. repeat constructor. }
  split; [exact Hp|exact (JSON_roundtrip example_value Hp)].
Defined.
