(* ===== verification/Types.v ===== *)
(** * Domain types

    The enumerations, row shapes and errors of
    [src/packages/dispatch/src/domain/types.ts] and [util/errors.ts]: one
    inductive type per string union (with the string it is stored as), one
    record per table row.  An instant is the number of milliseconds since the
    epoch; the ISO-8601 UTC text the columns hold orders the same way.  Record
    fields keep the column names, prefixed where two tables share a name. *)
From S2P Require Import Prelude Json.

Abbreviation instant := Z (only parsing).

(** TICKET_STATUSES *)
Inductive TicketStatus :=
  Draft | Refining | Ready | Claimed | InProgress | Blocked | InReview | InTesting | ReadyForMerge | Done | Failed | Cancelled | Paused.
#[export] Instance TicketStatus_eq_dec : EqDecision TicketStatus.
Proof. solve_decision. Defined.
Definition status_name (x : TicketStatus) : string :=
  match x with
  | Draft => "draft"
  | Refining => "refining"
  | Ready => "ready"
  | Claimed => "claimed"
  | InProgress => "in_progress"
  | Blocked => "blocked"
  | InReview => "in_review"
  | InTesting => "in_testing"
  | ReadyForMerge => "ready_for_merge"
  | Done => "done"
  | Failed => "failed"
  | Cancelled => "cancelled"
  | Paused => "paused"
  end.

(** PAUSE_REASONS *)
Inductive PauseReason :=
  CapHit | BudgetCap | Timeout.
#[export] Instance PauseReason_eq_dec : EqDecision PauseReason.
Proof. solve_decision. Defined.
Definition pause_reason_name (x : PauseReason) : string :=
  match x with
  | CapHit => "cap_hit"
  | BudgetCap => "budget_cap"
  | Timeout => "timeout"
  end.

(** RISK_LEVELS *)
Inductive RiskLevel :=
  Low | Medium | High | Critical.
#[export] Instance RiskLevel_eq_dec : EqDecision RiskLevel.
Proof. solve_decision. Defined.
Definition risk_name (x : RiskLevel) : string :=
  match x with
  | Low => "low"
  | Medium => "medium"
  | High => "high"
  | Critical => "critical"
  end.

(** [RISK_LEVELS.indexOf(level)] *)
Definition riskRank (level : RiskLevel) : Z :=
  match level with Low => 0 | Medium => 1 | High => 2 | Critical => 3 end.

(** POLICY_PACKS *)
Inductive PolicyPack :=
  SoloLoose | TeamLight | FactoryStrict | Regulated.
#[export] Instance PolicyPack_eq_dec : EqDecision PolicyPack.
Proof. solve_decision. Defined.
Definition pack_name (x : PolicyPack) : string :=
  match x with
  | SoloLoose => "solo_loose"
  | TeamLight => "team_light"
  | FactoryStrict => "factory_strict"
  | Regulated => "regulated"
  end.

(** AC_STATUSES *)
Inductive AcStatus :=
  Pending | Satisfied | AcFailed | Waived.
#[export] Instance AcStatus_eq_dec : EqDecision AcStatus.
Proof. solve_decision. Defined.
Definition ac_status_name (x : AcStatus) : string :=
  match x with
  | Pending => "pending"
  | Satisfied => "satisfied"
  | AcFailed => "failed"
  | Waived => "waived"
  end.

(** DECISION_STATUSES *)
Inductive DecisionStatus :=
  Requested | AgentProposed | StHumanRequired | Accepted | Rejected | Superseded.
#[export] Instance DecisionStatus_eq_dec : EqDecision DecisionStatus.
Proof. solve_decision. Defined.
Definition decision_status_name (x : DecisionStatus) : string :=
  match x with
  | Requested => "requested"
  | AgentProposed => "agent_proposed"
  | StHumanRequired => "human_required"
  | Accepted => "accepted"
  | Rejected => "rejected"
  | Superseded => "superseded"
  end.

(** DECISION_SEVERITIES *)
Inductive DecisionSeverity :=
  LogOnly | AgentCanChoose | HumanPreferred | HumanRequired | SecurityRequired.
#[export] Instance DecisionSeverity_eq_dec : EqDecision DecisionSeverity.
Proof. solve_decision. Defined.
Definition severity_name (x : DecisionSeverity) : string :=
  match x with
  | LogOnly => "log_only"
  | AgentCanChoose => "agent_can_choose"
  | HumanPreferred => "human_preferred"
  | HumanRequired => "human_required"
  | SecurityRequired => "security_required"
  end.

(** CLAIM_STATUSES *)
Inductive ClaimStatus :=
  Active | Released | Expired | Revoked | Completed.
#[export] Instance ClaimStatus_eq_dec : EqDecision ClaimStatus.
Proof. solve_decision. Defined.
Definition claim_status_name (x : ClaimStatus) : string :=
  match x with
  | Active => "active"
  | Released => "released"
  | Expired => "expired"
  | Revoked => "revoked"
  | Completed => "completed"
  end.

(** EVIDENCE_TYPES *)
Inductive EvidenceType :=
  TestOutput | CoverageReport | Commit | Branch | PullRequest | DiffSummary | Screenshot | Log | ManualNote | CiRun | StaticAnalysis | LoreRecord | MemoryPrimed.
#[export] Instance EvidenceType_eq_dec : EqDecision EvidenceType.
Proof. solve_decision. Defined.
Definition evidence_type_name (x : EvidenceType) : string :=
  match x with
  | TestOutput => "test_output"
  | CoverageReport => "coverage_report"
  | Commit => "commit"
  | Branch => "branch"
  | PullRequest => "pull_request"
  | DiffSummary => "diff_summary"
  | Screenshot => "screenshot"
  | Log => "log"
  | ManualNote => "manual_note"
  | CiRun => "ci_run"
  | StaticAnalysis => "static_analysis"
  | LoreRecord => "lore_record"
  | MemoryPrimed => "memory_primed"
  end.

(** ACTOR_TYPES *)
Inductive ActorType :=
  Human | AgentActor | Admin | SystemActor.
#[export] Instance ActorType_eq_dec : EqDecision ActorType.
Proof. solve_decision. Defined.
Definition actor_type_name (x : ActorType) : string :=
  match x with
  | Human => "human"
  | AgentActor => "agent"
  | Admin => "admin"
  | SystemActor => "system"
  end.

(** Who performs an operation. *)
Record Actor := mk_Actor {
  actor_type : ActorType;
  actor_id : option string
}.


(** [Agent.status] *)
Inductive AgentStatus :=
  AgentActive | AgentPaused | AgentDisabled.
#[export] Instance AgentStatus_eq_dec : EqDecision AgentStatus.
Proof. solve_decision. Defined.
Definition agent_status_name (x : AgentStatus) : string :=
  match x with
  | AgentActive => "active"
  | AgentPaused => "paused"
  | AgentDisabled => "disabled"
  end.

(** TICKET_REPO_ACCESS *)
Inductive TicketRepoAccess :=
  Write | Read | Test | NoAccess.
#[export] Instance TicketRepoAccess_eq_dec : EqDecision TicketRepoAccess.
Proof. solve_decision. Defined.
Definition access_name (x : TicketRepoAccess) : string :=
  match x with
  | Write => "write"
  | Read => "read"
  | Test => "test"
  | NoAccess => "none"
  end.

(** TICKET_REPO_RELATIONS *)
Inductive TicketRepoRelation :=
  Confirmed | Suggested | RelRejected | ContextOnly | ImplicitSingleRepo.
#[export] Instance TicketRepoRelation_eq_dec : EqDecision TicketRepoRelation.
Proof. solve_decision. Defined.
Definition relation_name (x : TicketRepoRelation) : string :=
  match x with
  | Confirmed => "confirmed"
  | Suggested => "suggested"
  | RelRejected => "rejected"
  | ContextOnly => "context_only"
  | ImplicitSingleRepo => "implicit_single_repo"
  end.

Definition TICKET_REPO_ACTIVE_RELATIONS : list TicketRepoRelation :=
  [Confirmed; ImplicitSingleRepo].
Definition isActiveTicketRepoRelation (relation : TicketRepoRelation) : bool :=
  bool_decide (relation ∈ TICKET_REPO_ACTIVE_RELATIONS).

(** TICKET_REPO_DELIVERY_STATUSES *)
Inductive TicketRepoDeliveryStatus :=
  NotStarted | BranchCreated | ChangesMade | TestsFailed | TestsPassed | PrOpened | ReviewReady | DeliveryDone.
#[export] Instance TicketRepoDeliveryStatus_eq_dec : EqDecision TicketRepoDeliveryStatus.
Proof. solve_decision. Defined.
Definition delivery_status_name (x : TicketRepoDeliveryStatus) : string :=
  match x with
  | NotStarted => "not_started"
  | BranchCreated => "branch_created"
  | ChangesMade => "changes_made"
  | TestsFailed => "tests_failed"
  | TestsPassed => "tests_passed"
  | PrOpened => "pr_opened"
  | ReviewReady => "review_ready"
  | DeliveryDone => "done"
  end.

Definition TICKET_REPO_DELIVERY_EVIDENCED_STATUSES : list TicketRepoDeliveryStatus :=
  [ReviewReady; DeliveryDone].

(** The JSON column [tickets.last_review_feedback], kept decoded: every writer
    stringifies this record and [parseReviewFeedback] reads it back. *)
Record ReviewFeedback := mk_ReviewFeedback {
  rf_reason : string;
  rf_reviewer : option string;
  rf_at : instant;
  rf_code : option string;
  rf_attempt : option Z;
  rf_maxAttempts : option Z
}.


(** A row of [tickets]. *)
Record Ticket := mk_Ticket {
  tk_id : string;
  number : option Z;
  title : string;
  description : string;
  status : TicketStatus;
  priority : Z;
  risk_level : RiskLevel;
  policy_pack : PolicyPack;
  source : option string;
  tk_created_by : option string;
  reviewer : option string;
  branch_name : option string;
  pr_url : option string;
  attempt_count : Z;
  row_version : Z;
  scheduled_after : option instant;
  due_at : option instant;
  bootstrap : Z;
  last_review_feedback : option ReviewFeedback;
  can_be_tested : Z;
  test_contract : option string;
  acceptance : Z;
  allow_test_changes : Z;
  human_owner : option string;
  human_delivered : option string;
  delivery_budget_usd : option Z;
  created_at : instant;
  updated_at : instant
}.

Definition set_status (v : TicketStatus) (r : Ticket) : Ticket :=
  mk_Ticket (r.(tk_id)) (r.(number)) (r.(title)) (r.(description)) v (r.(priority)) (r.(risk_level)) (r.(policy_pack)) (r.(source)) (r.(tk_created_by)) (r.(reviewer)) (r.(branch_name)) (r.(pr_url)) (r.(attempt_count)) (r.(row_version)) (r.(scheduled_after)) (r.(due_at)) (r.(bootstrap)) (r.(last_review_feedback)) (r.(can_be_tested)) (r.(test_contract)) (r.(acceptance)) (r.(allow_test_changes)) (r.(human_owner)) (r.(human_delivered)) (r.(delivery_budget_usd)) (r.(created_at)) (r.(updated_at)).
Definition set_reviewer (v : option string) (r : Ticket) : Ticket :=
  mk_Ticket (r.(tk_id)) (r.(number)) (r.(title)) (r.(description)) (r.(status)) (r.(priority)) (r.(risk_level)) (r.(policy_pack)) (r.(source)) (r.(tk_created_by)) v (r.(branch_name)) (r.(pr_url)) (r.(attempt_count)) (r.(row_version)) (r.(scheduled_after)) (r.(due_at)) (r.(bootstrap)) (r.(last_review_feedback)) (r.(can_be_tested)) (r.(test_contract)) (r.(acceptance)) (r.(allow_test_changes)) (r.(human_owner)) (r.(human_delivered)) (r.(delivery_budget_usd)) (r.(created_at)) (r.(updated_at)).
Definition set_branch_name (v : option string) (r : Ticket) : Ticket :=
  mk_Ticket (r.(tk_id)) (r.(number)) (r.(title)) (r.(description)) (r.(status)) (r.(priority)) (r.(risk_level)) (r.(policy_pack)) (r.(source)) (r.(tk_created_by)) (r.(reviewer)) v (r.(pr_url)) (r.(attempt_count)) (r.(row_version)) (r.(scheduled_after)) (r.(due_at)) (r.(bootstrap)) (r.(last_review_feedback)) (r.(can_be_tested)) (r.(test_contract)) (r.(acceptance)) (r.(allow_test_changes)) (r.(human_owner)) (r.(human_delivered)) (r.(delivery_budget_usd)) (r.(created_at)) (r.(updated_at)).
Definition set_pr_url (v : option string) (r : Ticket) : Ticket :=
  mk_Ticket (r.(tk_id)) (r.(number)) (r.(title)) (r.(description)) (r.(status)) (r.(priority)) (r.(risk_level)) (r.(policy_pack)) (r.(source)) (r.(tk_created_by)) (r.(reviewer)) (r.(branch_name)) v (r.(attempt_count)) (r.(row_version)) (r.(scheduled_after)) (r.(due_at)) (r.(bootstrap)) (r.(last_review_feedback)) (r.(can_be_tested)) (r.(test_contract)) (r.(acceptance)) (r.(allow_test_changes)) (r.(human_owner)) (r.(human_delivered)) (r.(delivery_budget_usd)) (r.(created_at)) (r.(updated_at)).
Definition set_attempt_count (v : Z) (r : Ticket) : Ticket :=
  mk_Ticket (r.(tk_id)) (r.(number)) (r.(title)) (r.(description)) (r.(status)) (r.(priority)) (r.(risk_level)) (r.(policy_pack)) (r.(source)) (r.(tk_created_by)) (r.(reviewer)) (r.(branch_name)) (r.(pr_url)) v (r.(row_version)) (r.(scheduled_after)) (r.(due_at)) (r.(bootstrap)) (r.(last_review_feedback)) (r.(can_be_tested)) (r.(test_contract)) (r.(acceptance)) (r.(allow_test_changes)) (r.(human_owner)) (r.(human_delivered)) (r.(delivery_budget_usd)) (r.(created_at)) (r.(updated_at)).
Definition set_row_version (v : Z) (r : Ticket) : Ticket :=
  mk_Ticket (r.(tk_id)) (r.(number)) (r.(title)) (r.(description)) (r.(status)) (r.(priority)) (r.(risk_level)) (r.(policy_pack)) (r.(source)) (r.(tk_created_by)) (r.(reviewer)) (r.(branch_name)) (r.(pr_url)) (r.(attempt_count)) v (r.(scheduled_after)) (r.(due_at)) (r.(bootstrap)) (r.(last_review_feedback)) (r.(can_be_tested)) (r.(test_contract)) (r.(acceptance)) (r.(allow_test_changes)) (r.(human_owner)) (r.(human_delivered)) (r.(delivery_budget_usd)) (r.(created_at)) (r.(updated_at)).
Definition set_last_review_feedback (v : option ReviewFeedback) (r : Ticket) : Ticket :=
  mk_Ticket (r.(tk_id)) (r.(number)) (r.(title)) (r.(description)) (r.(status)) (r.(priority)) (r.(risk_level)) (r.(policy_pack)) (r.(source)) (r.(tk_created_by)) (r.(reviewer)) (r.(branch_name)) (r.(pr_url)) (r.(attempt_count)) (r.(row_version)) (r.(scheduled_after)) (r.(due_at)) (r.(bootstrap)) v (r.(can_be_tested)) (r.(test_contract)) (r.(acceptance)) (r.(allow_test_changes)) (r.(human_owner)) (r.(human_delivered)) (r.(delivery_budget_usd)) (r.(created_at)) (r.(updated_at)).
Definition set_human_owner (v : option string) (r : Ticket) : Ticket :=
  mk_Ticket (r.(tk_id)) (r.(number)) (r.(title)) (r.(description)) (r.(status)) (r.(priority)) (r.(risk_level)) (r.(policy_pack)) (r.(source)) (r.(tk_created_by)) (r.(reviewer)) (r.(branch_name)) (r.(pr_url)) (r.(attempt_count)) (r.(row_version)) (r.(scheduled_after)) (r.(due_at)) (r.(bootstrap)) (r.(last_review_feedback)) (r.(can_be_tested)) (r.(test_contract)) (r.(acceptance)) (r.(allow_test_changes)) v (r.(human_delivered)) (r.(delivery_budget_usd)) (r.(created_at)) (r.(updated_at)).
Definition set_human_delivered (v : option string) (r : Ticket) : Ticket :=
  mk_Ticket (r.(tk_id)) (r.(number)) (r.(title)) (r.(description)) (r.(status)) (r.(priority)) (r.(risk_level)) (r.(policy_pack)) (r.(source)) (r.(tk_created_by)) (r.(reviewer)) (r.(branch_name)) (r.(pr_url)) (r.(attempt_count)) (r.(row_version)) (r.(scheduled_after)) (r.(due_at)) (r.(bootstrap)) (r.(last_review_feedback)) (r.(can_be_tested)) (r.(test_contract)) (r.(acceptance)) (r.(allow_test_changes)) (r.(human_owner)) v (r.(delivery_budget_usd)) (r.(created_at)) (r.(updated_at)).
Definition set_updated_at (v : instant) (r : Ticket) : Ticket :=
  mk_Ticket (r.(tk_id)) (r.(number)) (r.(title)) (r.(description)) (r.(status)) (r.(priority)) (r.(risk_level)) (r.(policy_pack)) (r.(source)) (r.(tk_created_by)) (r.(reviewer)) (r.(branch_name)) (r.(pr_url)) (r.(attempt_count)) (r.(row_version)) (r.(scheduled_after)) (r.(due_at)) (r.(bootstrap)) (r.(last_review_feedback)) (r.(can_be_tested)) (r.(test_contract)) (r.(acceptance)) (r.(allow_test_changes)) (r.(human_owner)) (r.(human_delivered)) (r.(delivery_budget_usd)) (r.(created_at)) v.

(** A row of [ticket_claims]. *)
Record TicketClaim := mk_TicketClaim {
  cl_id : string;
  cl_ticket_id : string;
  cl_agent_id : string;
  claim_token_hash : string;
  cl_status : ClaimStatus;
  expires_at : instant;
  heartbeat_at : instant;
  cl_created_at : instant;
  released_at : option instant
}.

Definition set_cl_status (v : ClaimStatus) (r : TicketClaim) : TicketClaim :=
  mk_TicketClaim (r.(cl_id)) (r.(cl_ticket_id)) (r.(cl_agent_id)) (r.(claim_token_hash)) v (r.(expires_at)) (r.(heartbeat_at)) (r.(cl_created_at)) (r.(released_at)).
Definition set_expires_at (v : instant) (r : TicketClaim) : TicketClaim :=
  mk_TicketClaim (r.(cl_id)) (r.(cl_ticket_id)) (r.(cl_agent_id)) (r.(claim_token_hash)) (r.(cl_status)) v (r.(heartbeat_at)) (r.(cl_created_at)) (r.(released_at)).
Definition set_heartbeat_at (v : instant) (r : TicketClaim) : TicketClaim :=
  mk_TicketClaim (r.(cl_id)) (r.(cl_ticket_id)) (r.(cl_agent_id)) (r.(claim_token_hash)) (r.(cl_status)) (r.(expires_at)) v (r.(cl_created_at)) (r.(released_at)).
Definition set_released_at (v : option instant) (r : TicketClaim) : TicketClaim :=
  mk_TicketClaim (r.(cl_id)) (r.(cl_ticket_id)) (r.(cl_agent_id)) (r.(claim_token_hash)) (r.(cl_status)) (r.(expires_at)) (r.(heartbeat_at)) (r.(cl_created_at)) v.

(** A row of [agents]. *)
Record Agent := mk_Agent {
  ag_id : string;
  display_name : option string;
  agent_type : string;
  model : option string;
  runtime : option string;
  host : option string;
  max_risk : RiskLevel;
  ag_status : AgentStatus;
  ag_created_by : option string;
  last_seen_at : option instant;
  ag_created_at : instant;
  ag_updated_at : instant;
  squad_name : option string;
  shirt_number : option Z
}.

Definition set_last_seen_at (v : option instant) (r : Agent) : Agent :=
  mk_Agent (r.(ag_id)) (r.(display_name)) (r.(agent_type)) (r.(model)) (r.(runtime)) (r.(host)) (r.(max_risk)) (r.(ag_status)) (r.(ag_created_by)) v (r.(ag_created_at)) (r.(ag_updated_at)) (r.(squad_name)) (r.(shirt_number)).
Definition set_ag_updated_at (v : instant) (r : Agent) : Agent :=
  mk_Agent (r.(ag_id)) (r.(display_name)) (r.(agent_type)) (r.(model)) (r.(runtime)) (r.(host)) (r.(max_risk)) (r.(ag_status)) (r.(ag_created_by)) (r.(last_seen_at)) (r.(ag_created_at)) v (r.(squad_name)) (r.(shirt_number)).

(** A row of [acceptance_criteria]. *)
Record AcceptanceCriterion := mk_AcceptanceCriterion {
  ac_id : string;
  ac_ticket_id : string;
  ac_text : string;
  sort_order : Z;
  ac_status : AcStatus;
  verification_method : option string;
  evidence_required : Z;
  verified_by : option string;
  verified_at : option instant;
  check_command : option string;
  spec_clause_id : option string;
  ac_created_at : instant;
  ac_updated_at : instant
}.

Definition set_ac_status (v : AcStatus) (r : AcceptanceCriterion) : AcceptanceCriterion :=
  mk_AcceptanceCriterion (r.(ac_id)) (r.(ac_ticket_id)) (r.(ac_text)) (r.(sort_order)) v (r.(verification_method)) (r.(evidence_required)) (r.(verified_by)) (r.(verified_at)) (r.(check_command)) (r.(spec_clause_id)) (r.(ac_created_at)) (r.(ac_updated_at)).
Definition set_verified_by (v : option string) (r : AcceptanceCriterion) : AcceptanceCriterion :=
  mk_AcceptanceCriterion (r.(ac_id)) (r.(ac_ticket_id)) (r.(ac_text)) (r.(sort_order)) (r.(ac_status)) (r.(verification_method)) (r.(evidence_required)) v (r.(verified_at)) (r.(check_command)) (r.(spec_clause_id)) (r.(ac_created_at)) (r.(ac_updated_at)).
Definition set_verified_at (v : option instant) (r : AcceptanceCriterion) : AcceptanceCriterion :=
  mk_AcceptanceCriterion (r.(ac_id)) (r.(ac_ticket_id)) (r.(ac_text)) (r.(sort_order)) (r.(ac_status)) (r.(verification_method)) (r.(evidence_required)) (r.(verified_by)) v (r.(check_command)) (r.(spec_clause_id)) (r.(ac_created_at)) (r.(ac_updated_at)).
Definition set_ac_updated_at (v : instant) (r : AcceptanceCriterion) : AcceptanceCriterion :=
  mk_AcceptanceCriterion (r.(ac_id)) (r.(ac_ticket_id)) (r.(ac_text)) (r.(sort_order)) (r.(ac_status)) (r.(verification_method)) (r.(evidence_required)) (r.(verified_by)) (r.(verified_at)) (r.(check_command)) (r.(spec_clause_id)) (r.(ac_created_at)) v.

(** A row of [decisions]. *)
Record Decision := mk_Decision {
  de_id : string;
  de_title : string;
  question : string;
  rationale : option string;
  de_status : DecisionStatus;
  decision_type : string;
  severity : DecisionSeverity;
  proposed_answer : option string;
  proposed_by : option string;
  confidence : option string;
  resolved_answer : option string;
  resolved_by : option string;
  resolved_at : option instant;
  memory_record_id : option string;
  de_created_at : instant;
  de_updated_at : instant
}.

Definition set_rationale (v : option string) (r : Decision) : Decision :=
  mk_Decision (r.(de_id)) (r.(de_title)) (r.(question)) v (r.(de_status)) (r.(decision_type)) (r.(severity)) (r.(proposed_answer)) (r.(proposed_by)) (r.(confidence)) (r.(resolved_answer)) (r.(resolved_by)) (r.(resolved_at)) (r.(memory_record_id)) (r.(de_created_at)) (r.(de_updated_at)).
Definition set_de_status (v : DecisionStatus) (r : Decision) : Decision :=
  mk_Decision (r.(de_id)) (r.(de_title)) (r.(question)) (r.(rationale)) v (r.(decision_type)) (r.(severity)) (r.(proposed_answer)) (r.(proposed_by)) (r.(confidence)) (r.(resolved_answer)) (r.(resolved_by)) (r.(resolved_at)) (r.(memory_record_id)) (r.(de_created_at)) (r.(de_updated_at)).
Definition set_resolved_answer (v : option string) (r : Decision) : Decision :=
  mk_Decision (r.(de_id)) (r.(de_title)) (r.(question)) (r.(rationale)) (r.(de_status)) (r.(decision_type)) (r.(severity)) (r.(proposed_answer)) (r.(proposed_by)) (r.(confidence)) v (r.(resolved_by)) (r.(resolved_at)) (r.(memory_record_id)) (r.(de_created_at)) (r.(de_updated_at)).
Definition set_resolved_by (v : option string) (r : Decision) : Decision :=
  mk_Decision (r.(de_id)) (r.(de_title)) (r.(question)) (r.(rationale)) (r.(de_status)) (r.(decision_type)) (r.(severity)) (r.(proposed_answer)) (r.(proposed_by)) (r.(confidence)) (r.(resolved_answer)) v (r.(resolved_at)) (r.(memory_record_id)) (r.(de_created_at)) (r.(de_updated_at)).
Definition set_resolved_at (v : option instant) (r : Decision) : Decision :=
  mk_Decision (r.(de_id)) (r.(de_title)) (r.(question)) (r.(rationale)) (r.(de_status)) (r.(decision_type)) (r.(severity)) (r.(proposed_answer)) (r.(proposed_by)) (r.(confidence)) (r.(resolved_answer)) (r.(resolved_by)) v (r.(memory_record_id)) (r.(de_created_at)) (r.(de_updated_at)).
Definition set_de_updated_at (v : instant) (r : Decision) : Decision :=
  mk_Decision (r.(de_id)) (r.(de_title)) (r.(question)) (r.(rationale)) (r.(de_status)) (r.(decision_type)) (r.(severity)) (r.(proposed_answer)) (r.(proposed_by)) (r.(confidence)) (r.(resolved_answer)) (r.(resolved_by)) (r.(resolved_at)) (r.(memory_record_id)) (r.(de_created_at)) v.

(** A row of [ticket_decisions]. *)
Record TicketDecision := mk_TicketDecision {
  td_ticket_id : string;
  td_decision_id : string;
  td_relation : string;
  td_created_at : instant
}.


(** A row of [ticket_dependencies]. *)
Record TicketDependency := mk_TicketDependency {
  dep_ticket_id : string;
  depends_on_ticket_id : string;
  dep_created_at : instant
}.


(** A dependency joined to the ticket it points at. *)
Record TicketDependencyView := mk_TicketDependencyView {
  dv_depends_on_ticket_id : string;
  dv_number : option Z;
  dv_title : string;
  dv_status : TicketStatus;
  satisfied : bool
}.


(** A row of [evidence].  The payload is kept as the value that was
    serialised into its column. *)
Record Evidence := mk_Evidence {
  ev_id : string;
  ev_ticket_id : string;
  ev_ac_id : option string;
  ev_repo_id : option string;
  ev_decision_id : option string;
  evidence_type : EvidenceType;
  summary : string;
  uri : option string;
  ev_payload : option js;
  ev_created_by : string;
  recorded_by_actor_type : option string;
  ev_created_at : instant
}.


(** A row of [repositories]: the columns the modelled code reads. *)
Record Repository := mk_Repository {
  rp_id : string;
  rp_name : string;
  local_path : option string;
  default_branch : string;
  test_command : option string;
  lint_command : option string
}.


(** A row of [ticket_repos]: the columns the modelled code reads. *)
Record TicketRepo := mk_TicketRepo {
  tr_ticket_id : string;
  tr_repo_id : string;
  relation : TicketRepoRelation;
  access : TicketRepoAccess;
  role : string;
  tr_branch_name : option string;
  tr_pr_url : option string
}.


(** A row of [ticket_repo_delivery]: the columns the modelled code reads. *)
Record TicketRepoDelivery := mk_TicketRepoDelivery {
  rd_ticket_id : string;
  rd_repo_id : string;
  rd_branch_name : option string;
  base_sha : option string;
  commit_sha : option string;
  rd_pr_url : option string;
  rd_status : TicketRepoDeliveryStatus;
  evidence_ref : option string;
  rd_created_at : instant;
  rd_updated_at : instant
}.


(** A row of [paused_deliveries]. *)
Record PausedDelivery := mk_PausedDelivery {
  pd_ticket_id : string;
  pd_reason : PauseReason;
  pd_branch_name : option string;
  worktree_path : option string;
  worktrees_json : option string;
  pd_repo : option string;
  pd_attempt : Z;
  turns : option Z;
  spend : option string;
  resume_requested : Z;
  pd_created_at : instant;
  pd_updated_at : instant
}.

Definition set_resume_requested (v : Z) (r : PausedDelivery) : PausedDelivery :=
  mk_PausedDelivery (r.(pd_ticket_id)) (r.(pd_reason)) (r.(pd_branch_name)) (r.(worktree_path)) (r.(worktrees_json)) (r.(pd_repo)) (r.(pd_attempt)) (r.(turns)) (r.(spend)) v (r.(pd_created_at)) (r.(pd_updated_at)).
Definition set_pd_updated_at (v : instant) (r : PausedDelivery) : PausedDelivery :=
  mk_PausedDelivery (r.(pd_ticket_id)) (r.(pd_reason)) (r.(pd_branch_name)) (r.(worktree_path)) (r.(worktrees_json)) (r.(pd_repo)) (r.(pd_attempt)) (r.(turns)) (r.(spend)) (r.(resume_requested)) (r.(pd_created_at)) v.

(** A row of [rework_attempts]. *)
Record ReworkAttempt := mk_ReworkAttempt {
  rw_id : string;
  rw_ticket_id : string;
  rw_attempt : Z;
  max_attempts : option Z;
  gate : option string;
  distilled_failure : string;
  rw_ac_id : option string;
  rw_created_at : instant
}.


(** ** Errors

    The codes of [DISPATCH_ERROR_CODES] the modelled operations throw. *)
Inductive DispatchErrorCode :=
  | NOT_FOUND
  | VALIDATION_ERROR
  | POLICY_DENIED
  | STATE_CONFLICT
  | CONCURRENCY_CONFLICT
  | ILLEGAL_TRANSITION
  | NO_OP
  | DUPLICATE
  | CLAIM_INVALID
  | CLAIM_REQUIRED
  | TICKET_NOT_CLAIMABLE
  | TICKET_NOT_HUMAN_OWNED
  | DEPENDENCY_BLOCKED
  | AGENT_NOT_ELIGIBLE
  | INVALID_DEPENDENCY
  | ACTOR_NOT_PERMITTED
  | BINDING_REQUIRED
  | CONTRACT_MISMATCH
  | ACCEPTANCE_EVIDENCE_REQUIRED
  | OBSERVED_RISK_ESCALATED
  | PARTLY_LANDED
  | CONTRACT_FROZEN
  | AMBIGUOUS_REF
  | REPO_NOT_LINKED
  | TEST_CONTRACT_LEAK
  | PAYLOAD_TOO_LARGE
  | READ_ONLY_TOKEN
  | SCOPE_DENIED.
#[export] Instance DispatchErrorCode_eq_dec : EqDecision DispatchErrorCode.
Proof. solve_decision. Defined.

(** A thrown value: a [DispatchError] (its code, and its message where the
    message is part of the modelled behaviour), an SQLite constraint
    violation, or an input schema that refused its value ([ZodError]).  The
    [details] object of a [DispatchError] is not modelled. *)
Inductive error :=
| DispatchError (code : DispatchErrorCode) (message : string)
| SchemaError
| SqliteConstraintUnique
| SqliteConstraintPrimaryKey
| SqliteConstraintForeignKey.
#[export] Instance error_eq_dec : EqDecision error.
Proof. solve_decision. Defined.

Definition notFound (entity id : string) : error :=
  DispatchError NOT_FOUND (entity +:+ " not found: " +:+ id).

Definition isUniqueConstraint (err : error) : bool :=
  bool_decide (err = SqliteConstraintUnique).

(** [error.code] of a [DispatchError]. *)
Definition error_code (e : error) : option DispatchErrorCode :=
  match e with DispatchError c _ => Some c | _ => None end.
