(* ===== verification/EventChain.v ===== *)
(** * The tamper-evident event log

    [src/packages/dispatch/src/events/eventChain.ts]: the SHA-256 hash chain
    over [work_events], its verification walk and its backfill.  The digest
    ([node:crypto]) is a parameter; what the chain proves is stated for every
    digest, with the collision it would take to defeat it as the alternative. *)
From Stdlib Require Import Ascii.
From S2P Require Import Prelude Json Types.

Definition EVENT_CHAIN_GENESIS : string :=
  "0000000000000000000000000000000000000000000000000000000000000000".

(** A row of [work_events].  The payload is kept as the value that was
    serialised; [payload_json] is its column text. *)
Record ChainRow := mk_ChainRow {
  seq : Z;
  we_id : string;
  entity_type : string;
  entity_id : string;
  we_actor_type : string;
  we_actor_id : option string;
  event_type : string;
  payload : option js;
  correlation_id : option string;
  we_created_at : string;
  prev_hash : option string;
  hash : option string
}.

Definition payload_json (r : ChainRow) : option string := payload r ≫= JSON_stringify.

(** [ChainedEventFields] in the order the hash covers them. *)
Definition covered (r : ChainRow) : list (option string) :=
  [Some (we_id r); Some (entity_type r); Some (entity_id r);
   Some (we_actor_type r); we_actor_id r; Some (event_type r);
   payload_json r; correlation_id r; Some (we_created_at r)].

Definition set_hashes (prev h : option string) (r : ChainRow) : ChainRow :=
  mk_ChainRow (seq r) (we_id r) (entity_type r) (entity_id r) (we_actor_type r)
    (we_actor_id r) (event_type r) (payload r) (correlation_id r)
    (we_created_at r) prev h.

Inductive BreakReason := Unhashed | Link | Content.

Record ChainVerification := mk_ChainVerification {
  ok : bool;
  checked : Z;
  brokenAtSeq : option Z;
  brokenEventId : option string;
  reason : option BreakReason;
  headHash : option string
}.

Section chain.
Context (sha256 : string → string).

Definition eventHash (prevHash : string) (f : ChainRow) : string :=
  sha256 (JSON_stringify (JSArr (map JSNullable (Some prevHash :: covered f))) ?? "").

(** The newest row's hash; the log is in rowid order. *)
Definition latestEventHash (log : list ChainRow) : string :=
  (last log ≫= hash) ?? EVENT_CHAIN_GENESIS.

(** The walk of [verifyEventChain] from [expectedPrev], [n] rows in. *)
Fixpoint verify_from (expectedPrev : string) (n : Z) (log : list ChainRow)
    : ChainVerification :=
  match log with
  | [] => mk_ChainVerification true n None None None (Some expectedPrev)
  | row :: rest =>
      let n := (n + 1)%Z in
      let broken r :=
        mk_ChainVerification false n (Some (seq row)) (Some (we_id row)) (Some r) None in
      match hash row, prev_hash row with
      | Some h, Some p =>
          if negb (bool_decide (p = expectedPrev)) then broken Link
          else if negb (bool_decide (eventHash p row = h)) then broken Content
          else verify_from h n rest
      | _, _ => broken Unhashed
      end
  end.
Definition verifyEventChain (log : list ChainRow) : ChainVerification :=
  verify_from EVENT_CHAIN_GENESIS 0 log.

Definition is_unhashed (r : ChainRow) : bool :=
  bool_decide (hash r = None) || bool_decide (prev_hash r = None).

(** The loop of [backfillEventChain]: the filled log and how many rows were
    hashed. *)
Fixpoint backfill_from (prev : string) (log : list ChainRow) : list ChainRow * Z :=
  match log with
  | [] => ([], 0%Z)
  | row :: rest =>
      match hash row, prev_hash row with
      | Some h, Some _ => let '(l, n) := backfill_from h rest in (row :: l, n)
      | _, _ =>
          let h := eventHash prev row in
          let '(l, n) := backfill_from h rest in
          (set_hashes (Some prev) (Some h) row :: l, (n + 1)%Z)
      end
  end.
Definition backfillEventChain (log : list ChainRow) : list ChainRow * Z :=
  if existsb is_unhashed log then backfill_from EVENT_CHAIN_GENESIS log
  else (log, 0%Z).

(** ** What a verified log is *)

(** [row] is a sound successor of a row hashed [p], hashed [h] itself. *)
Definition links (p : string) (row : ChainRow) (h : string) : Prop :=
  prev_hash row = Some p ∧ hash row = Some h ∧ eventHash p row = h.

Inductive chained (p : string) : list ChainRow → string → Prop :=
| chained_nil : chained p [] p
| chained_snoc log m row h :
    chained p log m → links m row h → chained p (log ++ [row]) h.

Lemma chained_cons p row h log h' :
  links p row h → chained h log h' → chained p (row :: log) h'.
Proof.
  intros Hl. induction 1 as [|log m r h'' _ IH Hr].
  - apply (chained_snoc p [] p); [constructor|done].
  - apply (chained_snoc p (row :: log) m); done.
Qed.

Lemma chained_cons_inv p row log h' :
  chained p (row :: log) h' → ∃ h, links p row h ∧ chained h log h'.
Proof.
  revert h'. induction log as [|r log IH] using rev_ind; intros h' H; inversion H as [Hn|l m r' h Hc Hl Heq]; subst.
  - destruct l as [|x l]; [|by destruct l].
    injection Heq as <-. inversion Hc; [|by destruct log]. subst. exists h'. by split; [|constructor].
  - rewrite app_comm_cons in Heq. apply app_inj_tail in Heq as [-> ->].
    apply IH in Hc as (h1 & ? & ?). exists h1. split; [done|]. by eapply chained_snoc.
Qed.

Lemma verify_from_ok p n log :
  ok (verify_from p n log) = true →
  ∃ h, headHash (verify_from p n log) = Some h ∧ chained p log h ∧
       checked (verify_from p n log) = (n + Z.of_nat (length log))%Z.
Proof.
  revert p n. induction log as [|row rest IH]; intros p n; simpl.
  - intros _. exists p. repeat split; [constructor|lia].
  - destruct (hash row) as [h|] eqn:Hh; [|discriminate].
    destruct (prev_hash row) as [q|] eqn:Hq; [|discriminate].
    case_bool_decide as Hlink; [subst q; simpl|discriminate].
    case_bool_decide as Hc; [simpl|discriminate].
    intros Hok. apply IH in Hok as (h' & ? & ? & ?). exists h'.
    split; [done|]. split; [|lia]. by apply (chained_cons _ _ h).
Qed.

Lemma verify_from_chained p n log h :
  chained p log h →
  verify_from p n log = mk_ChainVerification true (n + Z.of_nat (length log))%Z None None None (Some h).
Proof.
  revert p n h. induction log as [|row rest IH]; intros p n h H; simpl.
  - inversion H as [Hn|l ? ? ? ? ? Heq]; [by rewrite Z.add_0_r|by destruct l].
  - apply chained_cons_inv in H as (h1 & (-> & -> & <-) & H).
    rewrite !bool_decide_true by done. simpl.
    rewrite (IH _ _ _ H). f_equal. lia.
Qed.

(** ** Appending, repairing *)

Lemma latest_of_chained p log h :
  chained p log h → log ≠ [] → latestEventHash log = h.
Proof.
  unfold latestEventHash. destruct 1 as [|log m row h _ (_ & Hh & _)]; [done|].
  intros _. by rewrite last_snoc; simpl; rewrite Hh.
Qed.

Lemma latest_of_genesis_chained log h :
  chained EVENT_CHAIN_GENESIS log h → latestEventHash log = h.
Proof.
  intros H. destruct (decide (log = [])) as [->|Hne].
  - inversion H as [|l ? ? ? ? ? Heq]; [done|by destruct l].
  - by eapply latest_of_chained.
Qed.

Lemma eventHash_set_hashes p p' h row :
  eventHash p (set_hashes p' h row) = eventHash p row.
Proof. done. Qed.

Lemma links_set_hashes p row :
  links p (set_hashes (Some p) (Some (eventHash p row)) row) (eventHash p row).
Proof. done. Qed.

Lemma backfill_unhashed_chained p log :
  forallb is_unhashed log = true →
  ∃ h, chained p (backfill_from p log).1 h ∧ (backfill_from p log).2 = Z.of_nat (length log).
Proof.
  revert p. induction log as [|row rest IH]; intros p; simpl.
  - intros _. exists p. split; [constructor|done].
  - intros [Hrow Hrest]%andb_true_iff.
    assert (∃ l n, backfill_from (eventHash p row) rest = (l, n)) as (l & n & E)
      by (destruct (backfill_from (eventHash p row) rest); eauto).
    destruct (IH (eventHash p row) Hrest) as (h & Hc & Hn).
    rewrite E in Hc, Hn; simpl in Hc, Hn.
    assert (Hgoal : ∃ h0, chained p
        (set_hashes (Some p) (Some (eventHash p row)) row :: l) h0 ∧ (n + 1)%Z = Z.of_nat (S (length rest))).
    { exists h. split; [|lia]. eapply chained_cons; [apply links_set_hashes|done]. }
    unfold is_unhashed in Hrow.
    destruct (hash row), (prev_hash row); simpl in *; try discriminate;
      rewrite E; exact Hgoal.
Qed.

Lemma backfill_from_covered p log :
  covered <$> (backfill_from p log).1 = covered <$> log.
Proof.
  revert p. induction log as [|row rest IH]; intros p; simpl; [done|].
  pose proof (IH (eventHash p row)) as IH1.
  destruct (hash row) as [h|] eqn:Hh, (prev_hash row) as [q|] eqn:Hq;
    [pose proof (IH h) as IH2; destruct (backfill_from h rest)| ..];
    try (destruct (backfill_from (eventHash p row) rest)); simpl in *; by f_equal.
Qed.

Lemma backfill_from_hashed p log :
  existsb is_unhashed (backfill_from p log).1 = false.
Proof.
  revert p. induction log as [|row rest IH]; intros p; simpl; [done|].
  pose proof (IH (eventHash p row)) as IH1.
  destruct (hash row) as [h|] eqn:Hh, (prev_hash row) as [q|] eqn:Hq;
    [pose proof (IH h) as IH2; destruct (backfill_from h rest)| ..];
    try (destruct (backfill_from (eventHash p row) rest)); simpl in *;
    unfold is_unhashed at 1; rewrite ?Hh, ?Hq; done.
Qed.

Lemma eventHash_collision p p' f f' :
  eventHash p f = eventHash p' f' →
  (p = p' ∧ covered f = covered f') ∨ (∃ x y, x ≠ y ∧ sha256 x = sha256 y).
Proof.
  unfold eventHash. intros H.
  set (t := JSON_stringify (JSArr (map JSNullable (Some p :: covered f)))) in *.
  set (t' := JSON_stringify (JSArr (map JSNullable (Some p' :: covered f')))) in *.
  destruct (decide (t ?? "" = t' ?? "")) as [Heq|Hne]; [left|right; eauto].
  assert (Ht : t = t').
  { subst t t'. unfold JSON_stringify in *. rewrite !stringify_nullables in *. simpl in *. by f_equal. }
  apply JSON_stringify_nullables_inj in Ht.
  injection Ht. intros. split; [done|]. unfold covered. congruence.
Qed.

(** ** Properties *)

Lemma headHash_chained log h :
  headHash (verifyEventChain log) = Some h → chained EVENT_CHAIN_GENESIS log h.
Proof.
  intros H. destruct (ok (verifyEventChain log)) eqn:Hok.
  - apply verify_from_ok in Hok as (h' & Hh & Hc & _).
    unfold verifyEventChain in H. rewrite Hh in H. by injection H as ->.
  - exfalso. unfold verifyEventChain in *. revert H Hok.
    generalize EVENT_CHAIN_GENESIS, 0%Z.
    induction log as [|row rest IH]; intros p n; simpl; [done|].
    destruct (hash row), (prev_hash row); simpl; [|done..].
    repeat case_bool_decide; simpl; [apply IH|done..].
Qed.

Lemma chained_same_head log1 log2 p h :
  chained p log1 h → chained p log2 h →
  covered <$> log1 = covered <$> log2 ∨
  (∃ x y, x ≠ y ∧ sha256 x = sha256 y) ∨ (∃ x, sha256 x = p).
Proof.
  intros H1. revert log2. induction H1 as [|log1 m1 r1 h Hc1 IH (_ & _ & Hr1)];
    intros log2 H2; inversion H2 as [|l m2 r2 ? Hc2 (_ & _ & Hr2)]; subst.
  - by left.
  - right; right. by eexists.
  - right; right. by eexists.
  - destruct (eventHash_collision _ _ _ _ Hr2) as [[-> Hcov]|?]; [|by right; left].
    destruct (IH _ Hc2) as [Hl|?]; [left|by right].
    by rewrite !fmap_app, Hl; simpl; rewrite Hcov.
Qed.

(** C40: two logs that verify to the same head hold the same events in the
    same order, unless the digest has a collision or a preimage of the
    all-zero genesis constant.  A head recorded elsewhere therefore pins the
    whole log. *)
Theorem verified_head_pins_log log1 log2 h :
  headHash (verifyEventChain log1) = Some h →
  headHash (verifyEventChain log2) = Some h →
  covered <$> log1 = covered <$> log2 ∨
  (∃ x y, x ≠ y ∧ sha256 x = sha256 y) ∨
  (∃ x, sha256 x = EVENT_CHAIN_GENESIS).
Proof. intros H1 H2. eapply chained_same_head; by apply headHash_chained. Qed.

(** The backfill hashes exactly the rows that had no hash.  It leaves
    what every row says unchanged and no row unhashed, and a log none of
    whose rows was hashed verifies afterwards. *)
Theorem backfillEventChain_spec log :
  let '(log', n) := backfillEventChain log in
  covered <$> log' = covered <$> log ∧
  existsb is_unhashed log' = false ∧
  (existsb is_unhashed log = false → log' = log ∧ n = 0%Z) ∧
  (forallb is_unhashed log = true →
     ok (verifyEventChain log') = true ∧ n = Z.of_nat (length log)).
Proof.
  unfold backfillEventChain. destruct (existsb is_unhashed log) eqn:Hex.
  - pose proof (backfill_from_covered EVENT_CHAIN_GENESIS log) as Hcov.
    pose proof (backfill_from_hashed EVENT_CHAIN_GENESIS log) as Hhash.
    pose proof (backfill_unhashed_chained EVENT_CHAIN_GENESIS log) as Hch.
    destruct (backfill_from EVENT_CHAIN_GENESIS log) as [log' n]; simpl in *.
    split_and!; [done|done|discriminate|].
    intros Hall. destruct (Hch Hall) as (h & Hc & Hn). split; [|done].
    unfold verifyEventChain. by rewrite (verify_from_chained _ _ _ _ Hc).
  - split_and!; [done|done|done|]. intros Hall. destruct log as [|r log]; [done|].
    simpl in *. rewrite orb_false_iff in Hex. rewrite andb_true_iff in Hall.
    destruct Hex, Hall. congruence.
Qed.

(** Where a walk fails, what precedes the row it names is sound and the row
    is not its sound successor. *)
Lemma verify_from_broken p n log :
  ok (verify_from p n log) = false →
  ∃ pre row post m,
    log = pre ++ row :: post ∧ chained p pre m ∧ (∀ h, ¬ links m row h) ∧
    brokenAtSeq (verify_from p n log) = Some (seq row) ∧
    brokenEventId (verify_from p n log) = Some (we_id row) ∧
    checked (verify_from p n log) = (n + Z.of_nat (length pre) + 1)%Z ∧
    reason (verify_from p n log) = Some
      (if is_unhashed row then Unhashed
       else if bool_decide (prev_hash row = Some m) then Content else Link).
Proof.
  revert p n. induction log as [|row rest IH]; intros p n; simpl; [done|].
  assert (Hhere : ∀ r,
    (∀ h, ¬ links p row h) →
    r = (if is_unhashed row then Unhashed
         else if bool_decide (prev_hash row = Some p) then Content else Link) →
    ∃ pre row' post m,
      row :: rest = pre ++ row' :: post ∧ chained p pre m ∧ (∀ h, ¬ links m row' h) ∧
      Some (seq row) = Some (seq row') ∧ Some (we_id row) = Some (we_id row') ∧
      (n + 1)%Z = (n + Z.of_nat (length pre) + 1)%Z ∧
      Some r = Some
        (if is_unhashed row' then Unhashed
         else if bool_decide (prev_hash row' = Some m) then Content else Link)).
  { intros r Hno ->. exists [], row, rest, p. split_and!; try done; [constructor|simpl; lia]. }
  unfold is_unhashed, links in *.
  destruct (hash row) as [h|] eqn:Hh; [destruct (prev_hash row) as [q|] eqn:Hq|].
  2: { intros _. apply Hhere; [intros h' ([=] & _)|].
       by rewrite (bool_decide_true (None = None)), orb_true_r. }
  2: { intros _. apply Hhere; [intros h' (_ & [=] & _)|].
       by rewrite (bool_decide_true (None = None)). }
  destruct (decide (q = p)) as [->|Hl];
    [rewrite (bool_decide_true (p = p)) by done|rewrite (bool_decide_false (q = p)) by done]; simpl.
  2: { intros _. apply Hhere; [intros h' ([= ->] & _); done|].
       by rewrite !bool_decide_false by congruence. }
  destruct (decide (eventHash p row = h)) as [Hc|Hc];
    [rewrite (bool_decide_true (eventHash p row = h)) by done
    |rewrite (bool_decide_false (eventHash p row = h)) by done]; simpl.
  2: { intros _. apply Hhere; [intros h' (_ & [= ->] & ?); done|].
       by rewrite (bool_decide_true (Some p = Some p)). }
  intros Hok. clear Hhere. destruct (IH _ _ Hok) as (pre & row' & post & m & -> & Hch & ? & ? & ? & Hn & ?).
  exists (row :: pre), row', post, m. split_and!; try done.
  - eapply chained_cons; [|done]. unfold links. naive_solver.
  - rewrite Hn. simpl. lia.
Qed.

(** A failed verification names the first broken row: everything before
    it is sound, it is not a sound successor of what precedes it, and the
    reason says which test it failed. *)
Theorem verifyEventChain_names_first_break log :
  ok (verifyEventChain log) = false →
  ∃ pre row post m,
    log = pre ++ row :: post ∧ chained EVENT_CHAIN_GENESIS pre m ∧
    (∀ h, ¬ links m row h) ∧
    brokenAtSeq (verifyEventChain log) = Some (seq row) ∧
    brokenEventId (verifyEventChain log) = Some (we_id row) ∧
    checked (verifyEventChain log) = (Z.of_nat (length pre) + 1)%Z ∧
    reason (verifyEventChain log) = Some
      (if is_unhashed row then Unhashed
       else if bool_decide (prev_hash row = Some m) then Content else Link).
Proof. apply verify_from_broken. Qed.
End chain.

(** ** Witnesses *)

(** A toy digest to evaluate the chain with. *)
Definition toy_digest (s : string) : string :=
  pretty (foldl (λ acc c, (acc * 131 + Z.of_nat (nat_of_ascii c)) mod 4294967296)%Z 7%Z
            (String.list_ascii_of_string s)).

Definition example_row (n : Z) (id : string) : ChainRow :=
  mk_ChainRow n id "ticket" "t1" "human" (Some "ana") "ticket.transitioned"
    (Some (JSObj [("from", JSStr "draft"); ("to", JSStr "ready")])) None
    "2026-01-01T00:00:00.000Z" None None.
Definition example_log : list ChainRow :=
  (backfillEventChain toy_digest [example_row 1 "e1"; example_row 2 "e2"; example_row 3 "e3"]).1.
Definition example_head : string :=
  headHash (verifyEventChain toy_digest example_log) ?? "".

Lemma verified_head_pins_log_witness :
  covered <$> example_log = covered <$> example_log ∨
  (∃ x y, x ≠ y ∧ toy_digest x = toy_digest y) ∨
  (∃ x, toy_digest x = EVENT_CHAIN_GENESIS).
Proof.
  apply (verified_head_pins_log toy_digest example_log example_log example_head);
    vm_compute; reflexivity.
Defined.

(** Rewriting the id of the second row breaks the chain there. *)
Definition tampered_log : list ChainRow :=
  match example_log with
  | [r1; r2; r3] =>
      [r1; mk_ChainRow 2 "forged" (entity_type r2) (entity_id r2) (we_actor_type r2)
             (we_actor_id r2) (event_type r2) (payload r2) (correlation_id r2)
             (we_created_at r2) (prev_hash r2) (hash r2); r3]
  | l => l
  end.

Lemma verifyEventChain_names_first_break_witness :
  ok (verifyEventChain toy_digest tampered_log) = false ∧
  ∃ pre row post m,
    tampered_log = pre ++ row :: post ∧
    chained toy_digest EVENT_CHAIN_GENESIS pre m ∧
    (∀ h, ¬ links toy_digest m row h) ∧
    brokenAtSeq (verifyEventChain toy_digest tampered_log) = Some (seq row) ∧
    brokenEventId (verifyEventChain toy_digest tampered_log) = Some (we_id row) ∧
    checked (verifyEventChain toy_digest tampered_log) = (Z.of_nat (length pre) + 1)%Z ∧
    reason (verifyEventChain toy_digest tampered_log) = Some
      (if is_unhashed row then Unhashed
       else if bool_decide (prev_hash row = Some m) then Content else Link).
Proof.
  assert (H : ok (verifyEventChain toy_digest tampered_log) = false)
    by (vm_compute; reflexivity).
  split; [exact H|]. exact (verifyEventChain_names_first_break toy_digest tampered_log H).
Defined.
