(* ===== verification/Store.v ===== *)
(** * The store

    The tables of [src/packages/dispatch/src/db/schema.ts] as one record, and
    the data-access classes of [src/packages/dispatch/src/repositories/] as
    functions on it: a read is a function of the database, a write a function
    from database to database.  [writeEvent] of [events/eventWriter.ts] is the
    one way into the event log. *)
From Stdlib Require Import Ascii.
From S2P Require Import Prelude Json Types EventChain.

(** ** The world outside the repository

    What the services call that is not their own code: the SHA-256 digest and
    the random source of [node:crypto], [Date.prototype.toISOString], the
    collation of the host's locale, the process environment, the file system
    and the [git] binary. *)
Record GitResult := mk_GitResult {
  git_status : Z;
  git_stdout : string;
  git_truncated : bool
}.

Class Env := {
  sha256_hex : string → string;
  randomUUID : nat → string;
  random_base64url : nat → string;
  toISOString : instant → string;
  localeCompare : string → string → comparison;
  process_env : string → option string;
  existsSync : string → bool;
  runGit : string → list string → GitResult
}.

(** The database: one field per table the modelled code touches, the two
    clocks (the injected [Clock] and [Date]) and how much randomness has been
    drawn.  A table keyed by an id is a finite map; a table without one is a
    list in rowid order.  [scope_repos] holds (repo, node) pairs,
    [ticket_scope_nodes] holds (ticket, node, relation), the capability tables
    hold (owner, capability). *)
Record db := mk_db {
  clock_now : instant;
  wall_now : instant;
  entropy : nat;
  tickets : gmap string Ticket;
  ticket_claims : gmap string TicketClaim;
  agents : gmap string Agent;
  agent_capabilities : list (string * string);
  ticket_required_capabilities : list (string * string);
  acceptance_criteria : gmap string AcceptanceCriterion;
  evidence : list Evidence;
  decisions : gmap string Decision;
  ticket_decisions : list TicketDecision;
  ticket_dependencies : list TicketDependency;
  repositories : gmap string Repository;
  ticket_repos : list TicketRepo;
  ticket_repo_delivery : list TicketRepoDelivery;
  scope_repos : list (string * string);
  ticket_scope_nodes : list (string * string * string);
  paused_deliveries : gmap string PausedDelivery;
  rework_attempts : list ReworkAttempt;
  work_events : list ChainRow
}.

Definition set_entropy (v : nat) (r : db) : db :=
  mk_db (r.(clock_now)) (r.(wall_now)) v (r.(tickets)) (r.(ticket_claims)) (r.(agents)) (r.(agent_capabilities)) (r.(ticket_required_capabilities)) (r.(acceptance_criteria)) (r.(evidence)) (r.(decisions)) (r.(ticket_decisions)) (r.(ticket_dependencies)) (r.(repositories)) (r.(ticket_repos)) (r.(ticket_repo_delivery)) (r.(scope_repos)) (r.(ticket_scope_nodes)) (r.(paused_deliveries)) (r.(rework_attempts)) (r.(work_events)).
Definition set_tickets (v : gmap string Ticket) (r : db) : db :=
  mk_db (r.(clock_now)) (r.(wall_now)) (r.(entropy)) v (r.(ticket_claims)) (r.(agents)) (r.(agent_capabilities)) (r.(ticket_required_capabilities)) (r.(acceptance_criteria)) (r.(evidence)) (r.(decisions)) (r.(ticket_decisions)) (r.(ticket_dependencies)) (r.(repositories)) (r.(ticket_repos)) (r.(ticket_repo_delivery)) (r.(scope_repos)) (r.(ticket_scope_nodes)) (r.(paused_deliveries)) (r.(rework_attempts)) (r.(work_events)).
Definition set_ticket_claims (v : gmap string TicketClaim) (r : db) : db :=
  mk_db (r.(clock_now)) (r.(wall_now)) (r.(entropy)) (r.(tickets)) v (r.(agents)) (r.(agent_capabilities)) (r.(ticket_required_capabilities)) (r.(acceptance_criteria)) (r.(evidence)) (r.(decisions)) (r.(ticket_decisions)) (r.(ticket_dependencies)) (r.(repositories)) (r.(ticket_repos)) (r.(ticket_repo_delivery)) (r.(scope_repos)) (r.(ticket_scope_nodes)) (r.(paused_deliveries)) (r.(rework_attempts)) (r.(work_events)).
Definition set_agents (v : gmap string Agent) (r : db) : db :=
  mk_db (r.(clock_now)) (r.(wall_now)) (r.(entropy)) (r.(tickets)) (r.(ticket_claims)) v (r.(agent_capabilities)) (r.(ticket_required_capabilities)) (r.(acceptance_criteria)) (r.(evidence)) (r.(decisions)) (r.(ticket_decisions)) (r.(ticket_dependencies)) (r.(repositories)) (r.(ticket_repos)) (r.(ticket_repo_delivery)) (r.(scope_repos)) (r.(ticket_scope_nodes)) (r.(paused_deliveries)) (r.(rework_attempts)) (r.(work_events)).
Definition set_agent_capabilities (v : list (string * string)) (r : db) : db :=
  mk_db (r.(clock_now)) (r.(wall_now)) (r.(entropy)) (r.(tickets)) (r.(ticket_claims)) (r.(agents)) v (r.(ticket_required_capabilities)) (r.(acceptance_criteria)) (r.(evidence)) (r.(decisions)) (r.(ticket_decisions)) (r.(ticket_dependencies)) (r.(repositories)) (r.(ticket_repos)) (r.(ticket_repo_delivery)) (r.(scope_repos)) (r.(ticket_scope_nodes)) (r.(paused_deliveries)) (r.(rework_attempts)) (r.(work_events)).
Definition set_ticket_required_capabilities (v : list (string * string)) (r : db) : db :=
  mk_db (r.(clock_now)) (r.(wall_now)) (r.(entropy)) (r.(tickets)) (r.(ticket_claims)) (r.(agents)) (r.(agent_capabilities)) v (r.(acceptance_criteria)) (r.(evidence)) (r.(decisions)) (r.(ticket_decisions)) (r.(ticket_dependencies)) (r.(repositories)) (r.(ticket_repos)) (r.(ticket_repo_delivery)) (r.(scope_repos)) (r.(ticket_scope_nodes)) (r.(paused_deliveries)) (r.(rework_attempts)) (r.(work_events)).
(** Time passes: the two clocks of the environment move. *)
Definition set_clocks (now wall : instant) (r : db) : db :=
  mk_db now wall (r.(entropy)) (r.(tickets)) (r.(ticket_claims)) (r.(agents)) (r.(agent_capabilities)) (r.(ticket_required_capabilities)) (r.(acceptance_criteria)) (r.(evidence)) (r.(decisions)) (r.(ticket_decisions)) (r.(ticket_dependencies)) (r.(repositories)) (r.(ticket_repos)) (r.(ticket_repo_delivery)) (r.(scope_repos)) (r.(ticket_scope_nodes)) (r.(paused_deliveries)) (r.(rework_attempts)) (r.(work_events)).
Definition set_acceptance_criteria (v : gmap string AcceptanceCriterion) (r : db) : db :=
  mk_db (r.(clock_now)) (r.(wall_now)) (r.(entropy)) (r.(tickets)) (r.(ticket_claims)) (r.(agents)) (r.(agent_capabilities)) (r.(ticket_required_capabilities)) v (r.(evidence)) (r.(decisions)) (r.(ticket_decisions)) (r.(ticket_dependencies)) (r.(repositories)) (r.(ticket_repos)) (r.(ticket_repo_delivery)) (r.(scope_repos)) (r.(ticket_scope_nodes)) (r.(paused_deliveries)) (r.(rework_attempts)) (r.(work_events)).
Definition set_evidence (v : list Evidence) (r : db) : db :=
  mk_db (r.(clock_now)) (r.(wall_now)) (r.(entropy)) (r.(tickets)) (r.(ticket_claims)) (r.(agents)) (r.(agent_capabilities)) (r.(ticket_required_capabilities)) (r.(acceptance_criteria)) v (r.(decisions)) (r.(ticket_decisions)) (r.(ticket_dependencies)) (r.(repositories)) (r.(ticket_repos)) (r.(ticket_repo_delivery)) (r.(scope_repos)) (r.(ticket_scope_nodes)) (r.(paused_deliveries)) (r.(rework_attempts)) (r.(work_events)).
Definition set_decisions (v : gmap string Decision) (r : db) : db :=
  mk_db (r.(clock_now)) (r.(wall_now)) (r.(entropy)) (r.(tickets)) (r.(ticket_claims)) (r.(agents)) (r.(agent_capabilities)) (r.(ticket_required_capabilities)) (r.(acceptance_criteria)) (r.(evidence)) v (r.(ticket_decisions)) (r.(ticket_dependencies)) (r.(repositories)) (r.(ticket_repos)) (r.(ticket_repo_delivery)) (r.(scope_repos)) (r.(ticket_scope_nodes)) (r.(paused_deliveries)) (r.(rework_attempts)) (r.(work_events)).
Definition set_ticket_decisions (v : list TicketDecision) (r : db) : db :=
  mk_db (r.(clock_now)) (r.(wall_now)) (r.(entropy)) (r.(tickets)) (r.(ticket_claims)) (r.(agents)) (r.(agent_capabilities)) (r.(ticket_required_capabilities)) (r.(acceptance_criteria)) (r.(evidence)) (r.(decisions)) v (r.(ticket_dependencies)) (r.(repositories)) (r.(ticket_repos)) (r.(ticket_repo_delivery)) (r.(scope_repos)) (r.(ticket_scope_nodes)) (r.(paused_deliveries)) (r.(rework_attempts)) (r.(work_events)).
Definition set_ticket_dependencies (v : list TicketDependency) (r : db) : db :=
  mk_db (r.(clock_now)) (r.(wall_now)) (r.(entropy)) (r.(tickets)) (r.(ticket_claims)) (r.(agents)) (r.(agent_capabilities)) (r.(ticket_required_capabilities)) (r.(acceptance_criteria)) (r.(evidence)) (r.(decisions)) (r.(ticket_decisions)) v (r.(repositories)) (r.(ticket_repos)) (r.(ticket_repo_delivery)) (r.(scope_repos)) (r.(ticket_scope_nodes)) (r.(paused_deliveries)) (r.(rework_attempts)) (r.(work_events)).
Definition set_paused_deliveries (v : gmap string PausedDelivery) (r : db) : db :=
  mk_db (r.(clock_now)) (r.(wall_now)) (r.(entropy)) (r.(tickets)) (r.(ticket_claims)) (r.(agents)) (r.(agent_capabilities)) (r.(ticket_required_capabilities)) (r.(acceptance_criteria)) (r.(evidence)) (r.(decisions)) (r.(ticket_decisions)) (r.(ticket_dependencies)) (r.(repositories)) (r.(ticket_repos)) (r.(ticket_repo_delivery)) (r.(scope_repos)) (r.(ticket_scope_nodes)) v (r.(rework_attempts)) (r.(work_events)).
Definition set_rework_attempts (v : list ReworkAttempt) (r : db) : db :=
  mk_db (r.(clock_now)) (r.(wall_now)) (r.(entropy)) (r.(tickets)) (r.(ticket_claims)) (r.(agents)) (r.(agent_capabilities)) (r.(ticket_required_capabilities)) (r.(acceptance_criteria)) (r.(evidence)) (r.(decisions)) (r.(ticket_decisions)) (r.(ticket_dependencies)) (r.(repositories)) (r.(ticket_repos)) (r.(ticket_repo_delivery)) (r.(scope_repos)) (r.(ticket_scope_nodes)) (r.(paused_deliveries)) v (r.(work_events)).
Definition set_work_events (v : list ChainRow) (r : db) : db :=
  mk_db (r.(clock_now)) (r.(wall_now)) (r.(entropy)) (r.(tickets)) (r.(ticket_claims)) (r.(agents)) (r.(agent_capabilities)) (r.(ticket_required_capabilities)) (r.(acceptance_criteria)) (r.(evidence)) (r.(decisions)) (r.(ticket_decisions)) (r.(ticket_dependencies)) (r.(repositories)) (r.(ticket_repos)) (r.(ticket_repo_delivery)) (r.(scope_repos)) (r.(ticket_scope_nodes)) (r.(paused_deliveries)) (r.(rework_attempts)) v.

Abbreviation Op := (M db error).

(** ** SQL helpers *)

(** The rows of a keyed table; [ORDER BY k ASC] over rows. *)
Definition rows {A} (m : gmap string A) : list A := (map_to_list m).*2.
Definition asc_le {A} (k : A → Z) (x y : A) : Prop := (k x ≤ k y)%Z.
#[export] Instance asc_le_dec {A} (k : A → Z) : RelDecision (asc_le k).
Proof. intros x y. unfold asc_le. apply _. Defined.
Definition order_by {A} (k : A → Z) (l : list A) : list A := merge_sort (asc_le k) l.

Definition str_le (x y : string) : Prop := String.leb x y = true.
#[export] Instance str_le_dec : RelDecision str_le.
Proof. intros x y. unfold str_le. apply _. Defined.

(** [UPDATE table SET ... WHERE id = @id] on a keyed table. *)
Definition update_row {A} (id : string) (f : A → A) (m : gmap string A) : gmap string A :=
  alter f id m.

(** [isoPlusSeconds] of [util/clock.ts]. *)
Definition isoPlusSeconds (seconds : Z) (fromIso : instant) : instant :=
  (fromIso + seconds * 1000)%Z.

Definition now : Op instant := gets clock_now.

(** ** Tickets ([ticketRepository.ts]) *)

Definition tickets_findById (id : string) (d : db) : option Ticket := tickets d !! id.

Definition tickets_findByNumber (n : Z) (d : db) : option Ticket :=
  head (filter (λ t, number t = Some n) (rows (tickets d))).

(** [ref.trim().replace(/^#/, "").replace(/^T-/i, "")] and [Number(...)], on
    the decimal spellings. *)
Definition is_space (c : Ascii.ascii) : bool :=
  let n := Ascii.nat_of_ascii c in
  bool_decide (n = 32 ∨ (9 ≤ n ∧ n ≤ 13))%nat.
Fixpoint drop_spaces (l : list Ascii.ascii) : list Ascii.ascii :=
  match l with
  | c :: r => if is_space c then drop_spaces r else l
  | [] => []
  end.
Definition trim_chars (l : list Ascii.ascii) : list Ascii.ascii :=
  rev (drop_spaces (rev (drop_spaces l))).
(** [String.prototype.trim] *)
Definition trim (s : string) : string :=
  String.string_of_list_ascii (trim_chars (String.list_ascii_of_string s)).

Definition strip_hash (s : string) : string :=
  match s with String "#"%char r => r | _ => s end.
Definition strip_T (s : string) : string :=
  match s with
  | String "T"%char (String "-"%char r) | String "t"%char (String "-"%char r) => r
  | _ => s
  end.
Fixpoint decimal (acc : Z) (s : string) : option Z :=
  match s with
  | EmptyString => Some acc
  | String c r =>
      let n := Ascii.nat_of_ascii c in
      if bool_decide (48 ≤ n ∧ n ≤ 57)%nat
      then decimal (acc * 10 + Z.of_nat (n - 48))%Z r else None
  end.
(** [Number(s)]: zero on the empty string, [None] for [NaN]. *)
Definition js_Number (s : string) : option Z := decimal 0 (trim s).

Definition tickets_resolveRef (ref : string) (d : db) : option Ticket :=
  match tickets_findById ref d with
  | Some t => Some t
  | None =>
      match js_Number (strip_T (strip_hash (trim ref))) with
      | Some n => if bool_decide (0 < n)%Z then tickets_findByNumber n d else None
      | None => None
      end
  end.
Definition resolveRef (ref : string) : Op Ticket :=
  let* o := gets (tickets_resolveRef ref) in require o (notFound "ticket" ref).

(** The [patch] of a status update: absent fields keep the column. *)
Record TicketPatch := mk_TicketPatch {
  p_branch_name : option string;
  p_pr_url : option string;
  p_reviewer : option string;
  p_attempt_count : option Z
}.
Definition no_patch : TicketPatch := mk_TicketPatch None None None None.

(** [if (s)] on an optional string: absent and empty are falsy. *)
Definition given (o : option string) : option string :=
  match o with Some s => if bool_decide (s = "") then None else Some s | None => None end.

Definition coalesce {A} (new old : option A) : option A :=
  match new with Some _ => new | None => old end.

(** [updateStatus]: the version check and the update are one statement. *)
Definition status_updated (to : TicketStatus) (patch : TicketPatch) (nowIso : instant)
    (t : Ticket) : Ticket :=
  set_status to $ set_row_version (row_version t + 1)%Z $
  set_attempt_count (p_attempt_count patch ?? attempt_count t) $
  set_branch_name (coalesce (p_branch_name patch) (branch_name t)) $
  set_pr_url (coalesce (p_pr_url patch) (pr_url t)) $
  set_reviewer (coalesce (p_reviewer patch) (reviewer t)) $
  set_updated_at nowIso t.

Definition tickets_updateStatus (id : string) (to : TicketStatus) (expectedRowVersion : Z)
    (patch : TicketPatch) (nowIso : instant) : Op bool := λ d,
  match tickets d !! id with
  | Some t =>
      if bool_decide (row_version t = expectedRowVersion)
      then Ok true (set_tickets (<[id := status_updated to patch nowIso t]> (tickets d)) d)
      else Ok false d
  | None => Ok false d
  end.

Definition tickets_setReviewFeedback (id : string) (v : option ReviewFeedback) (d : db) : db :=
  set_tickets (update_row id (set_last_review_feedback v) (tickets d)) d.
Definition tickets_setHumanOwner (id : string) (v : option string) (d : db) : db :=
  set_tickets (update_row id (set_human_owner v) (tickets d)) d.
Definition tickets_setHumanDelivered (id : string) (v : option string) (d : db) : db :=
  set_tickets (update_row id (set_human_delivered v) (tickets d)) d.

(** ** Claims ([claimRepository.ts]) *)

Definition is_active (c : TicketClaim) : bool := bool_decide (cl_status c = Active).

(** Active claims on a ticket, soonest expiry first. *)
Definition active_on (ticketId : string) (d : db) : list TicketClaim :=
  order_by expires_at
    (filter (λ c, cl_ticket_id c = ticketId ∧ cl_status c = Active) (rows (ticket_claims d))).
Definition claims_hasActiveForTicket (ticketId : string) (d : db) : bool :=
  existsb (λ c, bool_decide (cl_ticket_id c = ticketId) && is_active c) (rows (ticket_claims d)).

(** [INSERT INTO ticket_claims]: the primary key, the partial unique index
    [ON ticket_claims(ticket_id) WHERE status = 'active'] and the two foreign
    keys. *)
Definition claims_insert (c : TicketClaim) : Op unit := λ d,
  match ticket_claims d !! cl_id c with
  | Some _ => Err SqliteConstraintPrimaryKey
  | None =>
      if is_active c && claims_hasActiveForTicket (cl_ticket_id c) d
      then Err SqliteConstraintUnique
      else if bool_decide (tickets d !! cl_ticket_id c = None ∨ agents d !! cl_agent_id c = None)
      then Err SqliteConstraintForeignKey
      else Ok tt (set_ticket_claims (<[cl_id c := c]> (ticket_claims d)) d)
  end.

Definition claim_with_status (st : ClaimStatus) (nowIso : instant) (c : TicketClaim) : TicketClaim :=
  set_cl_status st
    (set_released_at (if bool_decide (st = Active) then released_at c else Some nowIso) c).
Definition claims_setStatus (id : string) (st : ClaimStatus) (nowIso : instant) (d : db) : db :=
  set_ticket_claims (update_row id (claim_with_status st nowIso) (ticket_claims d)) d.

Definition release_if_on (ticketId : string) (nowIso : instant) (c : TicketClaim) : TicketClaim :=
  if bool_decide (cl_ticket_id c = ticketId) && is_active c
  then set_cl_status Released (set_released_at (Some nowIso) c) else c.
Definition claims_releaseActiveForTicket (ticketId : string) (nowIso : instant) (d : db) : db :=
  set_ticket_claims (release_if_on ticketId nowIso <$> ticket_claims d) d.

Definition claims_extend (id : string) (expiresAt heartbeatAt : instant) : Op bool := λ d,
  match ticket_claims d !! id with
  | Some c =>
      if is_active c
      then Ok true (set_ticket_claims
             (<[id := set_expires_at expiresAt (set_heartbeat_at heartbeatAt c)]> (ticket_claims d)) d)
      else Ok false d
  | None => Ok false d
  end.

Definition claims_findById (id : string) (d : db) : option TicketClaim := ticket_claims d !! id.
Definition claims_findActiveByTokenHash (tokenHash : string) (nowIso : instant) (d : db)
    : option TicketClaim :=
  head (filter (λ c, claim_token_hash c = tokenHash ∧ cl_status c = Active ∧ (nowIso < expires_at c)%Z)
          (rows (ticket_claims d))).
Definition claims_findByTokenHash (tokenHash : string) (d : db) : option TicketClaim :=
  head (filter (λ c, claim_token_hash c = tokenHash ∧ cl_status c = Active) (rows (ticket_claims d))).
Definition claims_listExpired (nowIso : instant) (d : db) : list TicketClaim :=
  order_by expires_at
    (filter (λ c, cl_status c = Active ∧ (expires_at c < nowIso)%Z) (rows (ticket_claims d))).

(** *** Decisions and dependencies, as the queries below join them
    ([decisionRepository.ts], [ticketDependencyRepository.ts]) *)

Definition decision_resolved (s : DecisionStatus) : bool :=
  match s with Accepted | Rejected | Superseded => true | _ => false end.

Definition decisions_linked (ticketId relation : string) (d : db) : list Decision :=
  omap (λ td, if bool_decide (td_ticket_id td = ticketId ∧ td_relation td = relation)
              then decisions d !! td_decision_id td else None) (ticket_decisions d).
Definition decisions_blockingForTicket (ticketId : string) (d : db) : list Decision :=
  filter (λ x, decision_resolved (de_status x) = false) (decisions_linked ticketId "blocks" d).
Definition decisions_hasUnresolvedHumanRequired (ticketId : string) (d : db) : bool :=
  existsb (λ x, bool_decide (severity x = HumanRequired)) (decisions_blockingForTicket ticketId d).

Definition decisions_findById (id : string) (d : db) : option Decision := decisions d !! id.
Definition decisions_insert (x : Decision) : Op unit := λ d,
  match decisions d !! de_id x with
  | Some _ => Err SqliteConstraintPrimaryKey
  | None => Ok tt (set_decisions (<[de_id x := x]> (decisions d)) d)
  end.
(** [INSERT OR IGNORE]: the primary key is (ticket, decision, relation); a
    foreign key is not ignored. *)
Definition decisions_link (ticketId decisionId relation : string) (nowIso : instant) : Op unit := λ d,
  if existsb (λ td, bool_decide (td_ticket_id td = ticketId ∧ td_decision_id td = decisionId
                                 ∧ td_relation td = relation)) (ticket_decisions d)
  then Ok tt d
  else if bool_decide (tickets d !! ticketId = None ∨ decisions d !! decisionId = None)
  then Err SqliteConstraintForeignKey
  else Ok tt (set_ticket_decisions
         (ticket_decisions d ++ [mk_TicketDecision ticketId decisionId relation nowIso]) d).
Definition decision_resolve_row (st : DecisionStatus) (answer rat resolvedBy : option string)
    (nowIso : instant) (x : Decision) : Decision :=
  set_de_status st $ set_resolved_answer answer $
  set_rationale (coalesce rat (rationale x)) $ set_resolved_by resolvedBy $
  set_resolved_at (Some nowIso) $ set_de_updated_at nowIso x.
Definition decisions_resolve (id : string) (st : DecisionStatus)
    (answer rat resolvedBy : option string) (nowIso : instant) : Op bool := λ d,
  match decisions d !! id with
  | Some x =>
      Ok true (set_decisions
        (<[id := decision_resolve_row st answer rat resolvedBy nowIso x]> (decisions d)) d)
  | None => Ok false d
  end.
Definition decision_pending (s : DecisionStatus) : bool :=
  match s with Requested | AgentProposed | StHumanRequired => true | _ => false end.
Definition decisions_listPending (d : db) : list Decision :=
  order_by de_created_at (filter (λ x, decision_pending (de_status x) = true) (rows (decisions d))).
Definition decisions_resolvedForTicket (ticketId : string) (d : db) : list (Decision * string) :=
  merge_sort (λ x y : Decision * string,
      (resolved_at x.1 ?? 0 < resolved_at y.1 ?? 0)%Z ∨
      ((resolved_at x.1 ?? 0 = resolved_at y.1 ?? 0)%Z ∧
       (de_created_at x.1 ≤ de_created_at y.1)%Z))
    (omap (λ td,
       if bool_decide (td_ticket_id td = ticketId)
       then match decisions d !! td_decision_id td with
            | Some x => if bool_decide (de_status x = Accepted ∨ de_status x = Rejected)
                        then Some (x, td_relation td) else None
            | None => None
            end
       else None) (ticket_decisions d)).

(** Dependencies. *)
Definition deps_insert (x : TicketDependency) (d : db) : db :=
  set_ticket_dependencies (ticket_dependencies d ++ [x]) d.
Definition is_edge (ticketId dependsOn : string) (x : TicketDependency) : bool :=
  bool_decide (dep_ticket_id x = ticketId ∧ depends_on_ticket_id x = dependsOn).
Definition deps_exists (ticketId dependsOn : string) (d : db) : bool :=
  existsb (is_edge ticketId dependsOn) (ticket_dependencies d).
(** The pair is the primary key, so at most one row goes. *)
Definition deps_delete (ticketId dependsOn : string) : Op bool := λ d,
  Ok (deps_exists ticketId dependsOn d)
     (set_ticket_dependencies
        (filter (λ x, is_edge ticketId dependsOn x = false) (ticket_dependencies d)) d).
Definition deps_dependsOn (ticketId : string) (d : db) : list string :=
  depends_on_ticket_id <$> filter (λ x, dep_ticket_id x = ticketId) (ticket_dependencies d).
Definition dependency_view (d : db) (x : TicketDependency) : option TicketDependencyView :=
  t ← tickets d !! depends_on_ticket_id x;
  Some (mk_TicketDependencyView (depends_on_ticket_id x) (number t) (title t) (status t)
          (bool_decide (status t = Done))).
(** A null [number] sorts first. *)
Definition deps_listForTicket (ticketId : string) (d : db) : list TicketDependencyView :=
  order_by (λ v, dv_number v ?? (-1)%Z)
    (omap (dependency_view d) (filter (λ x, dep_ticket_id x = ticketId) (ticket_dependencies d))).
Definition deps_unsatisfiedDependencies (ticketId : string) (d : db) : list TicketDependencyView :=
  filter (λ v, satisfied v = false) (deps_listForTicket ticketId d).
Definition deps_hasUnsatisfiedDependencies (ticketId : string) (d : db) : bool :=
  existsb (λ x, bool_decide (dep_ticket_id x = ticketId) &&
                match tickets d !! depends_on_ticket_id x with
                | Some t => negb (bool_decide (status t = Done))
                | None => false
                end) (ticket_dependencies d).

(** *** The candidate queries *)

Record CandidateCriteria := mk_CandidateCriteria {
  maxRiskRank : Z;
  capabilities : list string
}.
Record CandidateRow := mk_CandidateRow {
  cr_id : string;
  cr_priority : Z;
  cr_created_at : instant;
  expired_claim_id : option string
}.

Definition expired_claims (ticketId : string) (nowIso : instant) (d : db) : list TicketClaim :=
  order_by expires_at
    (filter (λ c, cl_ticket_id c = ticketId ∧ cl_status c = Active ∧ (expires_at c ≤ nowIso)%Z)
       (rows (ticket_claims d))).
Definition has_live_claim (ticketId : string) (nowIso : instant) (d : db) : bool :=
  existsb (λ c, bool_decide (cl_ticket_id c = ticketId) && is_active c
                && bool_decide (nowIso < expires_at c)%Z) (rows (ticket_claims d)).
Definition required_capabilities (ticketId : string) (d : db) : list string :=
  (filter (λ p, p.1 = ticketId) (ticket_required_capabilities d)).*2.

(** The WHERE clause the two queries share, on the capabilities bound as
    parameters. *)
Definition claimable (nowIso : instant) (maxRisk : Z) (caps : list string) (d : db)
    (t : Ticket) : bool :=
  let id := tk_id t in
  (bool_decide (status t = Ready)
   || (bool_decide (status t = Claimed ∨ status t = InProgress)
       && bool_decide (expired_claims id nowIso d ≠ [])))
  && bool_decide (human_owner t = None)
  && match scheduled_after t with None => true | Some s => bool_decide (s ≤ nowIso)%Z end
  && bool_decide (riskRank (risk_level t) ≤ maxRisk)%Z
  && forallb (λ c, bool_decide (c ∈ caps)) (required_capabilities id d)
  && bool_decide (decisions_blockingForTicket id d = [])
  && negb (deps_hasUnsatisfiedDependencies id d)
  && negb (has_live_claim id nowIso d).

Definition candidate_row (nowIso : instant) (d : db) (t : Ticket) : CandidateRow :=
  mk_CandidateRow (tk_id t) (priority t) (created_at t)
    (cl_id <$> head (expired_claims (tk_id t) nowIso d)).

(** [ORDER BY t.priority DESC, t.created_at ASC] *)
Definition queue_le (x y : CandidateRow) : Prop :=
  (cr_priority y < cr_priority x)%Z ∨
  (cr_priority x = cr_priority y ∧ (cr_created_at x ≤ cr_created_at y)%Z).
#[export] Instance queue_le_dec : RelDecision queue_le.
Proof. intros x y. unfold queue_le. apply _. Defined.

(** The capabilities an empty set is bound as: [candidateTickets] writes a NUL
    before [__none__], [candidateForTicket] a space. *)
Definition bound_capabilities (sentinel : string) (caps : list string) : list string :=
  match caps with [] => [sentinel] | _ => caps end.
Definition nul_none : string := String (Ascii.ascii_of_nat 0) "__none__".
Definition space_none : string := " __none__".

Definition claims_candidateTickets (nowIso : instant) (criteria : CandidateCriteria) (d : db)
    : list CandidateRow :=
  merge_sort queue_le (candidate_row nowIso d <$>
    filter (λ t, claimable nowIso (maxRiskRank criteria)
                   (bound_capabilities nul_none (capabilities criteria)) d t = true)
      (rows (tickets d))).
Definition claims_candidateForTicket (ticketId : string) (nowIso : instant)
    (criteria : CandidateCriteria) (d : db) : option CandidateRow :=
  t ← tickets d !! ticketId;
  if claimable nowIso (maxRiskRank criteria)
       (bound_capabilities space_none (capabilities criteria)) d t
  then Some (candidate_row nowIso d t) else None.

(** ** Agents ([agentRepository.ts]) *)

Definition agents_insert (a : Agent) : Op unit := λ d,
  match agents d !! ag_id a with
  | Some _ => Err SqliteConstraintPrimaryKey
  | None => Ok tt (set_agents (<[ag_id a := a]> (agents d)) d)
  end.
(** [INSERT OR IGNORE] *)
Definition agents_addCapability (agentId cap : string) (d : db) : db :=
  if bool_decide ((agentId, cap) ∈ agent_capabilities d) then d
  else set_agent_capabilities (agent_capabilities d ++ [(agentId, cap)]) d.
Definition agents_findById (id : string) (d : db) : option Agent := agents d !! id.
Definition agents_capabilities (agentId : string) (d : db) : list string :=
  merge_sort str_le
    (filter (λ p, p.1 = agentId) (agent_capabilities d)).*2.
Definition agents_touchLastSeen (id : string) (nowIso : instant) (d : db) : db :=
  set_agents (update_row id (λ a, set_last_seen_at (Some nowIso) (set_ag_updated_at nowIso a))
    (agents d)) d.

(** ** Criteria, evidence, rework trail ([acRepository.ts],
    [evidenceRepository.ts], [reworkAttemptRepository.ts]) *)

Definition acs_findById (id : string) (d : db) : option AcceptanceCriterion :=
  acceptance_criteria d !! id.
Definition acs_listForTicket (ticketId : string) (d : db) : list AcceptanceCriterion :=
  order_by sort_order (filter (λ c, ac_ticket_id c = ticketId) (rows (acceptance_criteria d))).
Definition ac_with_status (st : AcStatus) (verifiedBy : option string) (nowIso : instant)
    (c : AcceptanceCriterion) : AcceptanceCriterion :=
  set_ac_status st $ set_verified_by verifiedBy $
  set_verified_at (if bool_decide (st = Satisfied) then Some nowIso else verified_at c) $
  set_ac_updated_at nowIso c.
Definition acs_setStatus (id : string) (st : AcStatus) (verifiedBy : option string)
    (nowIso : instant) (d : db) : db :=
  set_acceptance_criteria (update_row id (ac_with_status st verifiedBy nowIso)
    (acceptance_criteria d)) d.
Definition ac_reset (nowIso : instant) (c : AcceptanceCriterion) : AcceptanceCriterion :=
  set_ac_status Pending $ set_verified_by None $ set_verified_at None $ set_ac_updated_at nowIso c.
(** Returns the number of rows reset. *)
Definition acs_resetForTicket (ticketId : string) (nowIso : instant) : Op Z := λ d,
  Ok (Z.of_nat (length (filter (λ c, ac_ticket_id c = ticketId) (rows (acceptance_criteria d)))))
     (set_acceptance_criteria
        ((λ c, if bool_decide (ac_ticket_id c = ticketId) then ac_reset nowIso c else c)
           <$> acceptance_criteria d) d).

(** [true] when an optional reference names no row. *)
Definition dangling {A} (o : option string) (m : gmap string A) : bool :=
  match o with Some k => bool_decide (m !! k = None) | None => false end.
Definition evidence_insert (e : Evidence) : Op unit := λ d,
  if dangling (Some (ev_ticket_id e)) (tickets d)
     || dangling (ev_ac_id e) (acceptance_criteria d)
     || dangling (ev_repo_id e) (repositories d)
     || dangling (ev_decision_id e) (decisions d)
  then Err SqliteConstraintForeignKey
  else Ok tt (set_evidence (evidence d ++ [e]) d).
(** [countByAc(ticketId).get(acId) ?? 0] *)
Definition evidence_countByAc (ticketId : string) (d : db) (acId : string) : Z :=
  Z.of_nat (length (filter (λ e, ev_ticket_id e = ticketId ∧ ev_ac_id e = Some acId) (evidence d))).
Definition reworkAttempts_insert (r : ReworkAttempt) (d : db) : db :=
  set_rework_attempts (rework_attempts d ++ [r]) d.

(** ** Paused deliveries ([pausedDeliveryRepository.ts]) *)

Record PauseContext := mk_PauseContext {
  pc_reason : PauseReason;
  pc_branch_name : option string;
  pc_worktree_path : option string;
  pc_worktrees_json : option string;
  pc_repo : option string;
  pc_attempt : Z;
  pc_turns : option Z;
  pc_spend : option string
}.
(** [INSERT ... ON CONFLICT(ticket_id) DO UPDATE]: a re-pause keeps
    [created_at]. *)
Definition paused_upsert (ticketId : string) (ctx : PauseContext) (nowIso : instant) (d : db) : db :=
  let created := match paused_deliveries d !! ticketId with
                 | Some p => pd_created_at p | None => nowIso end in
  set_paused_deliveries (<[ticketId :=
    mk_PausedDelivery ticketId (pc_reason ctx) (pc_branch_name ctx) (pc_worktree_path ctx)
      (pc_worktrees_json ctx) (pc_repo ctx) (pc_attempt ctx) (pc_turns ctx) (pc_spend ctx)
      0 created nowIso]> (paused_deliveries d)) d.
Definition paused_find (ticketId : string) (d : db) : option PausedDelivery :=
  paused_deliveries d !! ticketId.
Definition paused_setResumeRequested (ticketId : string) (value : bool) (nowIso : instant) (d : db)
    : db :=
  set_paused_deliveries (update_row ticketId
    (λ p, set_resume_requested (if value then 1 else 0)%Z (set_pd_updated_at nowIso p))
    (paused_deliveries d)) d.
Definition paused_listResumeRequested (d : db) : list PausedDelivery :=
  order_by pd_created_at (filter (λ p, resume_requested p = 1%Z) (rows (paused_deliveries d))).
Definition paused_delete (ticketId : string) (d : db) : db :=
  set_paused_deliveries (delete ticketId (paused_deliveries d)) d.

(** ** Repositories and scopes, as the gates read them ([repoRepository.ts],
    [scopeRepoRepository.ts], [ticketScopeNodeRepository.ts],
    [ticketRepoDeliveryRepository.ts]) *)

(** [listForTicket], which [accessLinksForTicket] is: the links joined to their
    repositories, by role, then name. *)
Definition ticket_links (ticketId : string) (d : db) : list (TicketRepo * Repository) :=
  omap (λ tr, if bool_decide (tr_ticket_id tr = ticketId)
              then (λ r, (tr, r)) <$> repositories d !! tr_repo_id tr else None) (ticket_repos d).
Definition link_le (a b : TicketRepo * Repository) : Prop :=
  str_le (role a.1) (role b.1) ∧ (role a.1 = role b.1 → str_le (rp_name a.2) (rp_name b.2)).
#[export] Instance link_le_dec : RelDecision link_le.
Proof. intros a b. unfold link_le. apply _. Defined.
Definition repos_listForTicket (ticketId : string) (d : db) : list (TicketRepo * Repository) :=
  merge_sort link_le (ticket_links ticketId d).
Definition repos_accessLinksForTicket (ticketId : string) (d : db) : list (TicketRepo * Repository) :=
  repos_listForTicket ticketId d.
Definition repos_countForTicket (ticketId : string) (d : db) : Z :=
  Z.of_nat (length (filter (λ tr, tr_ticket_id tr = ticketId) (ticket_repos d))).
Definition repos_ticketRepoBranch (ticketId repoId : string) (d : db) : option string :=
  head (filter (λ tr, tr_ticket_id tr = ticketId ∧ tr_repo_id tr = repoId) (ticket_repos d))
    ≫= tr_branch_name.
Definition scopesForRepo (repoId : string) (d : db) : list string :=
  (filter (λ p, p.1 = repoId) (scope_repos d)).*2.
Definition ticketScopes_findPrimary (ticketId : string) (d : db) : option (string * string * string) :=
  head (filter (λ p, p.1.1 = ticketId ∧ p.2 = "primary") (ticket_scope_nodes d)).
Definition repoDeliveries_find (ticketId repoId : string) (d : db) : option TicketRepoDelivery :=
  head (filter (λ x, rd_ticket_id x = ticketId ∧ rd_repo_id x = repoId) (ticket_repo_delivery d)).

(** ** Identifiers ([util/id.ts]) and the event writer ([eventWriter.ts]) *)

Section writer.
Context `{Env}.

Definition draw : Op nat := λ d, Ok (entropy d) (set_entropy (S (entropy d)) d).
Definition newId : Op string := let* n := draw in mret (randomUUID n).
Definition newClaimToken : Op string :=
  let* n := draw in mret ("ct_" +:+ random_base64url n).
Definition hashClaimToken (token : string) : string := sha256_hex token.

(** [(env.DISPATCH_CORRELATION_ID ?? env.GAFFER_TICK_ID ?? "").trim()], cut
    to 128 characters. *)
Definition envCorrelationId : option string :=
  let raw := trim (coalesce (process_env "DISPATCH_CORRELATION_ID")
                     (process_env "GAFFER_TICK_ID") ?? "") in
  if bool_decide (raw = "") then None else Some (String.substring 0 128 raw).

Definition event_row (d : db) (id entityType entityId : string) (actor : Actor)
    (eventType : string) (pl : option js) (correlation : option string) : ChainRow :=
  mk_ChainRow (Z.of_nat (S (length (work_events d)))) id entityType entityId
    (actor_type_name (actor_type actor)) (actor_id actor) eventType pl
    (coalesce correlation envCorrelationId) (toISOString (wall_now d)) None None.

Definition append_event (row : ChainRow) (d : db) : db :=
  let prev := latestEventHash (work_events d) in
  set_work_events (work_events d ++
    [set_hashes (Some prev) (Some (eventHash sha256_hex prev row)) row]) d.

Definition writeEvent (entityType entityId : string) (actor : Actor) (eventType : string)
    (pl : option js) (correlation : option string) : Op string :=
  let* id := newId in
  let* d := gets (λ d, d) in
  modify (append_event (event_row d id entityType entityId actor eventType pl correlation));;;
  mret id.

(** Almost every event is about a ticket and carries a payload. *)
Definition ticket_event (ticketId : string) (actor : Actor) (eventType : string) (pl : js)
    : Op string :=
  writeEvent "ticket" ticketId actor eventType (Some pl) None.

Definition listEvents (entityType entityId : string) (d : db) : list ChainRow :=
  filter (λ r, EventChain.entity_type r = entityType ∧ EventChain.entity_id r = entityId)
    (work_events d).
End writer.
