(* ===== verification/Policy.v ===== *)
(** * Policy packs

    [src/packages/dispatch/src/policy/policy.ts]: the readiness, claim and
    done gates as one pure function of a pack and the facts a transition
    gathers.  The properties: the packs are layered, and what each gate
    guarantees about a ticket it lets through. *)
From Stdlib Require Import Ascii.
From S2P Require Import Prelude Json Types Store.

Inductive PolicyGate := GateReady | GateClaim | GateDone.
#[export] Instance PolicyGate_eq_dec : EqDecision PolicyGate.
Proof. solve_decision. Defined.

Record PolicyFailure := mk_PolicyFailure { pf_code : string; pf_message : string }.

Record PolicyResult := mk_PolicyResult {
  allowed : bool;
  res_pack : PolicyPack;
  res_gate : PolicyGate;
  failures : list PolicyFailure;
  warnings : list PolicyFailure
}.

Record ScopeRepoContext := mk_ScopeRepoContext {
  hasAnyRepo : bool;
  writeRepoCount : Z;
  hasPrimaryScope : bool;
  monoFallbackApplies : bool;
  unresolvedSuggestedRepoCount : Z
}.

Definition AC_CHECK_VERIFIER : string := "runner:check".

Record PolicyContext := mk_PolicyContext {
  ctx_ticket : Ticket;
  acceptanceCriteria : list AcceptanceCriterion;
  repoCount : Z;
  blockingDecisions : list Decision;
  hasUnresolvedHumanRequired : bool;
  evidenceCountByAc : string → Z;
  hasPrOrDiff : bool;
  humanDelivered : bool;
  hasReviewer : bool;
  humanApprovedReady : bool;
  scopeRepo : ScopeRepoContext;
  writeReposWithoutDelivery : list string
}.

Definition fail_ (code message : string) : PolicyFailure := mk_PolicyFailure code message.
(** [if (c) failures.push(f)] *)
Definition push_if (c : bool) (f : PolicyFailure) : list PolicyFailure := if c then [f] else [].

Definition quoted (s : string) : string := String dquote s +:+ String dquote "".
(** JavaScript truthiness of a nullable string. *)
Definition truthy (o : option string) : bool :=
  match o with Some s => negb (bool_decide (s = "")) | None => false end.
Definition is_blank (s : string) : bool := bool_decide (trim s = "").
Definition pack_in (pack : PolicyPack) (l : list PolicyPack) : bool := bool_decide (pack ∈ l).
Definition strict_packs : list PolicyPack := [FactoryStrict; Regulated].
Definition team_packs : list PolicyPack := [TeamLight; FactoryStrict; Regulated].

(** ** The readiness gate *)
Definition ready_failures (pack : PolicyPack) (ctx : PolicyContext) : list PolicyFailure :=
  let ticket := ctx_ticket ctx in
  let ac := acceptanceCriteria ctx in
  let sr := scopeRepo ctx in
  let boot := bool_decide (bootstrap ticket = 1%Z) in
  push_if (is_blank (title ticket)) (fail_ "TITLE_REQUIRED" "Ticket title is required.") ++
  push_if (bool_decide (ac = []))
    (fail_ "AC_REQUIRED" "At least one acceptance criterion is required.") ++
  (if bool_decide (pack = SoloLoose) then
     if negb (hasAnyRepo sr) then
       push_if (hasPrimaryScope sr && negb boot)
         (fail_ "SCOPE_REPO_UNCONFIRMED"
            ("This ticket is scoped to a product/system node, but none of its repos is " +:+
             "confirmed yet — the node's repos are only suggestions. Accept a suggested " +:+
             "repo (or set a repo's access to write) before readying it."))
     else
       push_if (bool_decide (writeRepoCount sr = 0%Z) && negb boot)
         (fail_ "WRITE_REPO_REQUIRED"
            ("No linked repo has confirmed write access, so the factory cannot deliver this " +:+
             "ticket. Set a repo's access to write (or accept a suggested repo)."))
   else []) ++
  (if pack_in pack team_packs then
     push_if (is_blank (description ticket))
       (fail_ "DESCRIPTION_REQUIRED" "Description is required.") ++
     (if negb (hasAnyRepo sr) then
        [fail_ "REPO_REQUIRED" "At least one repository must be linked before this ticket is ready."]
      else
        push_if (bool_decide (writeRepoCount sr = 0%Z))
          (fail_ "WRITE_REPO_REQUIRED"
             ("At least one confirmed write repo is required. Confirm a repo with access='write' " +:+
              "(an unmapped single repo can be promoted via mono_fallback), or accept a suggested repo."))) ++
     push_if (hasUnresolvedHumanRequired ctx)
       (fail_ "HUMAN_BLOCKER_OPEN" "An unresolved human-required blocker prevents readiness.")
   else []) ++
  (if pack_in pack strict_packs then
     push_if (negb (hasPrimaryScope sr) && negb (monoFallbackApplies sr))
       (fail_ "PRIMARY_SCOPE_REQUIRED"
          ("A primary scope is required. Set one with setPrimaryScope, or — for a single " +:+
           "unmapped repo — apply mono_fallback to execute in single-repo mode.")) ++
     push_if (bool_decide (0 < unresolvedSuggestedRepoCount sr)%Z)
       (fail_ "SUGGESTED_REPO_UNRESOLVED"
          (pretty (unresolvedSuggestedRepoCount sr) +:+
           " suggested repo(s) are unresolved. Accept them " +:+
           "(confirm write/read/test access) or reject them before this ticket can be ready.")) ++
     mjoin ((λ c, push_if (negb (truthy (verification_method c))
                           || is_blank (verification_method c ?? ""))
               (fail_ "AC_VERIFICATION_REQUIRED"
                  ("AC " +:+ quoted (ac_text c) +:+ " needs a verification method."))) <$> ac) ++
     push_if (negb (hasReviewer ctx)) (fail_ "REVIEWER_REQUIRED" "A reviewer must be set.") ++
     push_if (bool_decide (blockingDecisions ctx ≠ []))
       (fail_ "BLOCKING_DECISION_OPEN" "An unresolved blocking decision exists.")
   else []) ++
  push_if (bool_decide (pack = Regulated) && negb (humanApprovedReady ctx))
    (fail_ "HUMAN_APPROVAL_REQUIRED" "Human approval is required before ready.").

Definition ready_warnings (pack : PolicyPack) (ctx : PolicyContext) : list PolicyFailure :=
  let sr := scopeRepo ctx in
  let boot := bool_decide (bootstrap (ctx_ticket ctx) = 1%Z) in
  if bool_decide (pack = SoloLoose) then
    push_if (is_blank (description (ctx_ticket ctx)))
      (fail_ "DESCRIPTION_RECOMMENDED" "A description is recommended.") ++
    push_if (negb (hasAnyRepo sr) && negb (hasPrimaryScope sr && negb boot))
      (fail_ "REPO_RECOMMENDED" "No repository linked to this ticket.")
  else [].

(** ** The claim gate *)
Definition claim_failures (pack : PolicyPack) (ctx : PolicyContext) : list PolicyFailure :=
  push_if (hasUnresolvedHumanRequired ctx)
    (fail_ "HUMAN_BLOCKER_OPEN" "A human-required blocker prevents claiming.") ++
  push_if (pack_in pack strict_packs && bool_decide (blockingDecisions ctx ≠ []))
    (fail_ "BLOCKING_DECISION_OPEN" "An unresolved blocking decision exists.").

(** ** The done gate *)
Definition check_unverified (c : AcceptanceCriterion) : bool :=
  truthy (check_command c) && negb (bool_decide (ac_status c = Waived))
  && (negb (bool_decide (ac_status c = Satisfied))
      || negb (bool_decide (verified_by c = Some AC_CHECK_VERIFIER))).
Definition unresolved (c : AcceptanceCriterion) : bool :=
  bool_decide (ac_status c = Pending) || bool_decide (ac_status c = AcFailed).
Fixpoint join (sep : string) (l : list string) : string :=
  match l with [] => "" | [x] => x | x :: r => x +:+ sep +:+ join sep r end.

Definition done_failures (pack : PolicyPack) (ctx : PolicyContext) : list PolicyFailure :=
  let ac := acceptanceCriteria ctx in
  mjoin ((λ c, push_if (check_unverified c)
            (fail_ "AC_CHECK_UNVERIFIED"
               ("AC " +:+ quoted (ac_text c) +:+
                " has an executable check that the runner has not passed (status: " +:+
                ac_status_name (ac_status c) +:+
                (if truthy (verified_by c) then ", verified_by: " +:+ (verified_by c ?? "") else "") +:+
                "). " +:+
                "The check must run and exit 0 in the delivery worktree."))) <$> ac) ++
  push_if (negb (hasPrOrDiff ctx) && negb (humanDelivered ctx))
    (fail_ "PR_OR_DIFF_REQUIRED" "A PR or diff summary is required.") ++
  (if pack_in pack team_packs then
     let open := filter (λ c, unresolved c = true) ac in
     push_if (bool_decide (open ≠ []))
       (fail_ "AC_UNRESOLVED"
          (pretty (length open) +:+ " acceptance criteria are unresolved."))
   else []) ++
  (if pack_in pack strict_packs then
     mjoin ((λ c, push_if (negb (bool_decide (ac_status c = Waived))
                           && bool_decide (evidenceCountByAc ctx (ac_id c) = 0%Z))
               (fail_ "AC_EVIDENCE_MISSING"
                  ("AC " +:+ quoted (ac_text c) +:+ " requires evidence."))) <$> ac) ++
     push_if (negb (truthy (branch_name (ctx_ticket ctx))))
       (fail_ "BRANCH_REQUIRED" "A branch must be recorded.") ++
     (let missing := writeReposWithoutDelivery ctx in
      push_if (bool_decide (missing ≠ []))
        (fail_ "REPO_DELIVERY_REQUIRED"
           (pretty (length missing) +:+ " write repo(s) lack per-repo delivery evidence: " +:+
            join ", " missing +:+ ". " +:+
            "Record a delivery (a branch/PR, or status review_ready/done) for each write repo " +:+
            "with recordRepoDelivery before this ticket can be done.")))
   else []).

Definition evaluatePolicy (pack : PolicyPack) (g : PolicyGate) (ctx : PolicyContext)
    : PolicyResult :=
  let fs := match g with
            | GateReady => ready_failures pack ctx
            | GateClaim => claim_failures pack ctx
            | GateDone => done_failures pack ctx
            end in
  let ws := match g with GateReady => ready_warnings pack ctx | _ => [] end in
  mk_PolicyResult (bool_decide (length fs = 0%nat)) pack g fs ws.

(** ** Properties *)

Lemma push_if_nil c f : push_if c f = [] ↔ c = false.
Proof. by destruct c. Qed.

Lemma mjoin_push_nil {A} (c : A → bool) (f : A → PolicyFailure) l :
  mjoin ((λ x, push_if (c x) (f x)) <$> l) = [] ↔ ∀ x, x ∈ l → c x = false.
Proof.
  induction l as [|x l IH]; simpl.
  - split; [|done]. intros _ x Hx. by apply not_elem_of_nil in Hx.
  - rewrite app_nil, push_if_nil, IH. set_solver.
Qed.

Lemma allowed_iff pack g ctx :
  allowed (evaluatePolicy pack g ctx) = true ↔ failures (evaluatePolicy pack g ctx) = [].
Proof.
  simpl. rewrite bool_decide_eq_true. split; [apply nil_length_inv|by intros ->].
Qed.

(** Turn "no failures" into the list of conditions that hold. *)
Ltac policy_facts H :=
  rewrite ?app_nil, ?push_if_nil, ?mjoin_push_nil in H.

Definition stricter (p q : PolicyPack) : Prop :=
  match p, q with
  | _, SoloLoose | Regulated, _ | FactoryStrict, TeamLight => True
  | TeamLight, TeamLight | FactoryStrict, FactoryStrict => True
  | _, _ => False
  end.

(** The packs are layered.  What a stricter pack lets through a gate, every
    looser pack lets through too, for each of the three gates. *)
Theorem packs_are_layered p q g ctx :
  stricter p q →
  allowed (evaluatePolicy p g ctx) = true →
  allowed (evaluatePolicy q g ctx) = true.
Proof.
  rewrite !allowed_iff. intros Hs H.
  destruct g; simpl in *;
    unfold ready_failures, claim_failures, done_failures, pack_in in *;
    destruct p, q; simpl in *; try done;
    rewrite ?app_nil_r, ?app_nil, ?push_if_nil in *; try tauto;
    destruct (hasAnyRepo (scopeRepo ctx)); simpl in *;
    rewrite ?app_nil, ?push_if_nil in *; intuition (try congruence);
    try (rewrite andb_false_iff; tauto); try done.
Qed.

Lemma check_unverified_false c :
  check_unverified c = false ↔
  (truthy (check_command c) = true → ac_status c ≠ Waived →
   ac_status c = Satisfied ∧ verified_by c = Some AC_CHECK_VERIFIER).
Proof.
  unfold check_unverified.
  rewrite !andb_false_iff, orb_false_iff, !negb_false_iff, !bool_decide_eq_true.
  destruct (truthy (check_command c)); [|naive_solver].
  destruct (decide (ac_status c = Waived)); naive_solver.
Qed.

(** what the done gate demands, exactly, of each pack: every executable
    check passed by the runner itself (or waived), a server-recomputed diff
    unless the work was delivered by hand; for the team packs no criterion
    left pending or failed; for the strict packs also evidence for every
    criterion not waived, a recorded branch, and delivery evidence for every
    write repository. *)
Theorem done_gate_iff pack ctx :
  allowed (evaluatePolicy pack GateDone ctx) = true ↔
  (∀ c, c ∈ acceptanceCriteria ctx → truthy (check_command c) = true → ac_status c ≠ Waived →
     ac_status c = Satisfied ∧ verified_by c = Some AC_CHECK_VERIFIER) ∧
  (hasPrOrDiff ctx = true ∨ humanDelivered ctx = true) ∧
  (pack ≠ SoloLoose → ∀ c, c ∈ acceptanceCriteria ctx →
     ac_status c = Satisfied ∨ ac_status c = Waived) ∧
  (pack = FactoryStrict ∨ pack = Regulated →
     (∀ c, c ∈ acceptanceCriteria ctx → ac_status c ≠ Waived →
        evidenceCountByAc ctx (ac_id c) ≠ 0%Z) ∧
     truthy (branch_name (ctx_ticket ctx)) = true ∧
     writeReposWithoutDelivery ctx = []).
Proof.
  rewrite allowed_iff. simpl. unfold done_failures.
  rewrite !app_nil, mjoin_push_nil, push_if_nil, andb_false_iff, !negb_false_iff.
  apply and_iff_compat_both.
  { split; intros Hall c Hc.
    - by apply (proj1 (check_unverified_false c)), Hall.
    - by apply (proj2 (check_unverified_false c)), Hall. }
  apply and_iff_compat_both; [done|].
  assert (Hopen : filter (λ c, unresolved c = true) (acceptanceCriteria ctx) = [] ↔
     ∀ c, c ∈ acceptanceCriteria ctx → ac_status c = Satisfied ∨ ac_status c = Waived).
  { split.
    - intros Hf c Hc.
      assert (Hu : unresolved c = true → False).
      { intros Hu. apply (not_elem_of_nil c). rewrite <- Hf.
        by apply list_elem_of_filter. }
      unfold unresolved in Hu. destruct (ac_status c); naive_solver.
    - intros Hall. destruct (filter _ _) as [|c l] eqn:E; [done|exfalso].
      assert (Hc : c ∈ c :: l) by set_solver. rewrite <- E in Hc.
      apply list_elem_of_filter in Hc as [Hu Hc]. unfold unresolved in Hu.
      by destruct (Hall c Hc) as [E1|E1]; rewrite E1 in Hu. }
  apply and_iff_compat_both.
  - destruct pack; simpl;
      rewrite ?push_if_nil, ?bool_decide_nonempty, ?Hopen;
      (split; [intros Hq Hs; first [exact Hq|exfalso; apply Hs; reflexivity]
              |intros Hq; first [reflexivity|apply Hq; discriminate]]).
  - assert (Hev : (∀ c, c ∈ acceptanceCriteria ctx →
        negb (bool_decide (ac_status c = Waived)) &&
        bool_decide (evidenceCountByAc ctx (ac_id c) = 0%Z) = false) ↔
        ∀ c, c ∈ acceptanceCriteria ctx → ac_status c ≠ Waived →
          evidenceCountByAc ctx (ac_id c) ≠ 0%Z).
    { split; intros Hall c Hc; specialize (Hall c Hc);
        rewrite andb_false_iff, negb_false_iff, bool_decide_eq_true, bool_decide_eq_false in *;
        destruct (decide (ac_status c = Waived)); tauto. }
    destruct pack; simpl;
      [split; [intros _ [?|?]; discriminate|done]|split; [intros _ [?|?]; discriminate|done]| |];
      rewrite !app_nil, mjoin_push_nil, !push_if_nil, negb_false_iff,
        bool_decide_nonempty, Hev;
      (split; [intros Hq _; exact Hq|intros Hq; apply Hq; tauto]).
Qed.

(** What readiness guarantees in every pack: a title, a criterion to verify,
    and a delivery that has somewhere to go.  The team packs always have a
    confirmed write repository; the default pack has one unless the ticket is
    a bootstrap or no repository and no scope is linked at all. *)
Theorem ready_gate_guarantees pack ctx :
  allowed (evaluatePolicy pack GateReady ctx) = true →
  is_blank (title (ctx_ticket ctx)) = false ∧
  acceptanceCriteria ctx ≠ [] ∧
  (pack ≠ SoloLoose →
     hasAnyRepo (scopeRepo ctx) = true ∧ writeRepoCount (scopeRepo ctx) ≠ 0%Z ∧
     hasUnresolvedHumanRequired ctx = false ∧
     is_blank (description (ctx_ticket ctx)) = false) ∧
  (pack = SoloLoose →
     bootstrap (ctx_ticket ctx) = 1%Z ∨
     (hasAnyRepo (scopeRepo ctx) = true ∧ writeRepoCount (scopeRepo ctx) ≠ 0%Z) ∨
     (hasAnyRepo (scopeRepo ctx) = false ∧ hasPrimaryScope (scopeRepo ctx) = false)) ∧
  (pack = Regulated → humanApprovedReady ctx = true).
Proof.
  rewrite allowed_iff. simpl. unfold ready_failures, pack_in.
  rewrite !app_nil, !push_if_nil, bool_decide_eq_false.
  destruct (hasAnyRepo (scopeRepo ctx)) eqn:Hr; simpl;
    destruct pack; simpl; rewrite ?app_nil, ?push_if_nil, ?andb_false_iff, ?bool_decide_eq_false,
      ?negb_false_iff, ?bool_decide_eq_true; naive_solver.
Qed.

(** ** Witnesses *)
Definition example_ticket (pack : PolicyPack) : Ticket :=
  mk_Ticket "t1" (Some 1%Z) "Fix the queue" "It drops tickets" Ready 5 Low pack None None
    (Some "ana") (Some "gaffer/ticket-1") None 0 1 None None 0 None 0 None 0 0 None None None 0 0.
Definition example_ac (st : AcStatus) (by_ : option string) : AcceptanceCriterion :=
  mk_AcceptanceCriterion "ac1" "t1" "tests pass" 0 st (Some "run them") 1 by_ None
    (Some "npm test") None 0 0.
Definition example_ctx (pack : PolicyPack) (c : AcceptanceCriterion) : PolicyContext :=
  mk_PolicyContext (example_ticket pack) [c] 1 [] false (λ _, 1%Z) true false true true
    (mk_ScopeRepoContext true 1 true false 0) [].

Lemma packs_are_layered_witness :
  stricter Regulated SoloLoose ∧
  allowed (evaluatePolicy SoloLoose GateReady
    (example_ctx Regulated (example_ac Pending None))) = true.
Proof.
  split; [exact I|].
  apply (packs_are_layered Regulated SoloLoose); [exact I|vm_compute; reflexivity].
Defined.

(** An agent that marks a checked criterion satisfied itself does not pass. *)
Example agent_stamp_is_refused :
  allowed (evaluatePolicy SoloLoose GateDone
    (example_ctx SoloLoose (example_ac Satisfied (Some "agent-7")))) = false.
Proof. reflexivity. Qed.

Lemma ready_gate_guarantees_witness :
  allowed (evaluatePolicy Regulated GateReady
    (example_ctx Regulated (example_ac Pending None))) = true ∧
  acceptanceCriteria (example_ctx Regulated (example_ac Pending None)) ≠ [].
Proof.
  assert (H : allowed (evaluatePolicy Regulated GateReady
    (example_ctx Regulated (example_ac Pending None))) = true) by (vm_compute; reflexivity).
  split; [exact H|]. exact (proj1 (proj2 (ready_gate_guarantees _ _ H))).
Defined.
