(* ===== verification/Diff.v ===== *)
(** * Delivery diff

    The part of [src/packages/dispatch/src/services/diffService.ts] the done
    gate rests on: which repositories a ticket's diff is taken in, the
    git-free fingerprint of that choice, and the proof that some repository
    has a non-empty diff.  The [git] binary and the file system are the
    environment's. *)
From Stdlib Require Import Ascii.
From S2P Require Import Prelude Json Types EventChain Store.

Definition GIT_EMPTY_TREE : string := "4b825dc642cb6eb9a060e54bf8d69288fbee4904".
Definition SAFE_DIFF_FLAGS : list string := ["--no-ext-diff"; "--no-textconv"].

(** [String.prototype.split] on one character. *)
Fixpoint split_on (c : ascii) (l : list ascii) : list (list ascii) :=
  match l with
  | [] => [[]]
  | x :: r =>
      if bool_decide (x = c) then [] :: split_on c r
      else match split_on c r with
           | [] => [[x]]
           | w :: ws => (x :: w) :: ws
           end
  end.
Definition newline : ascii := ascii_of_nat 10.
Definition tab : ascii := ascii_of_nat 9.

Definition is_digit (c : ascii) : bool :=
  let n := nat_of_ascii c in bool_decide (48 ≤ n ∧ n ≤ 57)%nat.
Fixpoint digits (acc : Z) (l : list ascii) : Z :=
  match l with
  | c :: r => if is_digit c then digits (acc * 10 + Z.of_nat (nat_of_ascii c - 48))%Z r else acc
  | [] => acc
  end.
(** [Number.parseInt(s, 10)]; [None] is [NaN]. *)
Definition parseInt10 (l : list ascii) : option Z :=
  let unsigned l := match l with
                    | c :: _ => if is_digit c then Some (digits 0 l) else None
                    | [] => None
                    end in
  match drop_spaces l with
  | "-"%char :: r => Z.opp <$> unsigned r
  | "+"%char :: r => unsigned r
  | l => unsigned l
  end.

Record Numstat := mk_Numstat {
  ns_files : Z; ns_additions : Z; ns_deletions : Z; ns_paths : list string
}.
Definition numstat_line (acc : Numstat) (line : list ascii) : Numstat :=
  let trimmed := trim_chars line in
  if bool_decide (trimmed = []) then acc else
  let parts := split_on tab trimmed in
  if bool_decide (length parts < 3)%nat then acc else
  let add := parseInt10 (nth 0 parts []) in
  let del := parseInt10 (nth 1 parts []) in
  mk_Numstat (ns_files acc + 1)%Z (ns_additions acc + (add ?? 0%Z))%Z (ns_deletions acc + (del ?? 0%Z))%Z
    (ns_paths acc ++ [String.string_of_list_ascii (last parts ?? [])]).
Definition parseNumstat (out : string) : Numstat :=
  foldl numstat_line (mk_Numstat 0 0 0 [])
    (split_on newline (String.list_ascii_of_string out)).

Definition nonEmpty (value : option string) : option string :=
  match value with
  | Some s => if bool_decide (trim s = "") then None else Some (trim s)
  | None => None
  end.

Record DiffTarget := mk_DiffTarget {
  dt_repoId : string;
  dt_repo : string;
  dt_localPath : string;
  dt_baseBranch : string;
  dt_branch : option string;
  dt_isBootstrap : bool;
  dt_diffArgs : list string;
  dt_label : string;
  dt_rangeDesc : string;
  dt_gateCommands : list string;
  dt_baseSha : option string
}.

(** What [resolveDiffTargets] yields per repository: a runnable target, or an
    unavailable entry (its repository, branch, base branch and reason). *)
Inductive DiffEntry :=
| Target (t : DiffTarget)
| Unavailable (repo : string) (branch : option string) (baseBranch why : string).

(** [/^[0-9a-f]{40,64}$/] *)
Definition is_hex (c : ascii) : bool :=
  let n := nat_of_ascii c in
  is_digit c || bool_decide (97 ≤ n ∧ n ≤ 102)%nat.
Definition is_sha (s : string) : bool :=
  bool_decide (40 ≤ String.length s ∧ String.length s ≤ 64)%nat
  && forallb is_hex (String.list_ascii_of_string s).
(** [a || b] on a string. *)
Definition or_else (a b : string) : string := if bool_decide (a = "") then b else a.

Record DeliveryDiffProof := mk_DeliveryDiffProof { hasDiff : bool; fingerprint : string }.

Section diff.
Context `{Env}.

Definition active_write_links (ticketId : string) (d : db) : list (TicketRepo * Repository) :=
  filter (λ l, isActiveTicketRepoRelation (relation l.1) = true ∧ access l.1 = Write)
    (repos_accessLinksForTicket ticketId d).

Definition resolve_target (ticket : Ticket) (d : db) (link : TicketRepo * Repository) : DiffEntry :=
  let repo := link.2 in
  let baseBranch := or_else (default_branch repo) "main" in
  let delivery := repoDeliveries_find (tk_id ticket) (rp_id repo) d in
  let branch :=
    coalesce (nonEmpty (repos_ticketRepoBranch (tk_id ticket) (rp_id repo) d))
      (coalesce (nonEmpty (delivery ≫= rd_branch_name)) (nonEmpty (branch_name ticket))) in
  let isBootstrap := bool_decide (branch = None) && negb (bool_decide (bootstrap ticket = 0%Z)) in
  if bool_decide (branch = None) && negb isBootstrap
  then Unavailable (rp_name repo) None baseBranch "no_branch"
  else match local_path repo with
  | None => Unavailable (rp_name repo) branch baseBranch "no_local_path"
  | Some path =>
      if bool_decide (trim path = "")
      then Unavailable (rp_name repo) branch baseBranch "no_local_path"
      else if negb (existsSync path)
      then Unavailable (rp_name repo) branch baseBranch "repo_not_on_disk"
      else
        let range := baseBranch +:+ "..." +:+ (branch ?? "") in
        Target (mk_DiffTarget (rp_id repo) (rp_name repo) path baseBranch branch isBootstrap
          (if isBootstrap then [GIT_EMPTY_TREE; "HEAD"] else [range])
          (if isBootstrap then "initial commit" else branch ?? "")
          (if isBootstrap then "the initial commit" else range)
          (filter (λ c : string, trim c ≠ "") (omap (λ o : option string, o) [test_command repo; lint_command repo]))
          (delivery ≫= λ x, base_sha x ≫= λ s : string, if is_sha s then Some s else None))
  end.

Definition resolveDiffTargets (ticket : Ticket) (d : db) : list DiffEntry :=
  resolve_target ticket d <$> active_write_links (tk_id ticket) d.

Definition entry_key (e : DiffEntry) : list string :=
  match e with
  | Unavailable repo _ _ why => ["unavailable"; repo; why]
  | Target t => dt_repoId t :: dt_localPath t :: dt_diffArgs t
  end.
Definition deliveryDiffFingerprint (ticket : Ticket) (d : db) : string :=
  JSON_stringify (JSArr ((λ e, JSArr (JSStr <$> entry_key e)) <$> resolveDiffTargets ticket d)) ?? "".

(** A truncated read drops its partial last line. *)
Definition cut_last_line (out : string) : string :=
  String.string_of_list_ascii (rev ((fix go l := match l with
    | c :: r => if bool_decide (c = newline) then l else go r
    | [] => []
    end) (rev (String.list_ascii_of_string out)))).
Definition runNumstat (t : DiffTarget) : GitResult :=
  let res := runGit (dt_localPath t) (["diff"; "--numstat"] ++ SAFE_DIFF_FLAGS ++ dt_diffArgs t) in
  if git_truncated res
  then mk_GitResult (git_status res) (cut_last_line (git_stdout res)) true else res.

Definition entry_has_diff (e : DiffEntry) : bool :=
  match e with
  | Unavailable _ _ _ _ => false
  | Target t =>
      let stat := runNumstat t in
      bool_decide (git_status stat = 0%Z)
      && bool_decide (0 < ns_files (parseNumstat (git_stdout stat)))%Z
  end.
Definition deliveryDiffProof (ticket : Ticket) (d : db) : DeliveryDiffProof :=
  mk_DeliveryDiffProof (existsb entry_has_diff (resolveDiffTargets ticket d))
    (deliveryDiffFingerprint ticket d).
End diff.
