(* ===== verification/Transition.v ===== *)
(** * The ticket state machine

    [src/packages/dispatch/src/services/transitionService.ts]: the table of
    allowed edges, the guarded edges and the flags that open them, the policy
    context, and [transition] itself, the only writer of a ticket's status.
    Edges are the [from->to] strings of the source. *)
From Stdlib Require Import Ascii.
From S2P Require Import Prelude Json Types EventChain Store Policy Diff.

(** Allowed ticket transitions: the single source of truth for the state machine. *)
Definition ALLOWED : list string := [
  "draft->refining"; "draft->ready"; "refining->ready";
  "ready->claimed"; "ready->in_progress"; "claimed->in_progress";
  "claimed->ready"; "claimed->blocked"; "in_progress->blocked";
  "in_progress->in_review"; "in_progress->failed"; "claimed->refining";
  "in_progress->ready"; "in_progress->refining"; "blocked->ready";
  "blocked->refining"; "draft->blocked"; "refining->blocked";
  "ready->blocked"; "blocked->draft"; "in_review->ready_for_merge";
  "in_review->ready"; "in_review->refining"; "in_review->in_testing";
  "in_testing->ready_for_merge"; "in_testing->refining"; "in_testing->in_review";
  "in_testing->ready"; "in_testing->blocked"; "in_testing->cancelled";
  "ready_for_merge->done"; "ready_for_merge->in_review"; "ready_for_merge->refining";
  "ready_for_merge->cancelled"; "in_review->cancelled"; "blocked->cancelled";
  "failed->cancelled"; "done->in_review"; "in_review->blocked";
  "ready_for_merge->blocked"; "ready->cancelled"; "refining->cancelled";
  "draft->cancelled"; "failed->ready"; "failed->refining";
  "ready->draft"; "refining->draft"; "cancelled->refining";
  "cancelled->draft"; "in_progress->paused"; "in_review->paused";
  "claimed->paused"; "paused->in_progress"; "paused->cancelled";
  "paused->refining"
].

Definition REVIEW_LANE_STATUSES : list TicketStatus := [InReview; InTesting; ReadyForMerge; Done].
Definition REQUEUE_STATES : list TicketStatus := [Ready; Draft; Refining; Blocked; Cancelled].

Definition gateFor (to : TicketStatus) : option PolicyGate :=
  match to with
  | Ready => Some GateReady
  | Claimed => Some GateClaim
  | ReadyForMerge => Some GateDone
  | _ => None
  end.

(** The opt-in flags of [TransitionInput]. *)
Inductive Flag :=
  | agentClaim
  | agentSubmit
  | humanBlock
  | humanClaim
  | humanRelease
  | markMerged
  | park
  | pauseDelivery
  | reopenForReview
  | resumeDelivery
  | reviewApprove
  | reviewReject
  | runnerRelease
  | systemOverride
  | testerVerdict
  | unleasedSubmit
  | wontDo.
#[export] Instance Flag_eq_dec : EqDecision Flag.
Proof. solve_decision. Defined.

(** [TransitionInput]; its boolean flags are the list of those that are set. *)
Record TransitionInput := mk_TransitionInput {
  ticketId : string;
  actor : Actor;
  toStatus : TicketStatus;
  tr_reason : option string;
  expectedFromStatus : option TicketStatus;
  patch : option TicketPatch;
  correlationId : option string;
  approvedUnchanged : option (option bool);
  deliveryDiff : option DeliveryDiffProof;
  flags : list Flag
}.
Definition flag (f : Flag) (input : TransitionInput) : bool := bool_decide (f ∈ flags input).

(** The common call: a reason, an optional pinned source, some flags. *)
Definition move (ticketId : string) (actor : Actor) (to : TicketStatus) (why : string)
    (expected : option TicketStatus) (fs : list Flag) : TransitionInput :=
  mk_TransitionInput ticketId actor to (Some why) expected None None None None fs.

Record GuardedEdge := mk_GuardedEdge {
  edges : list string;
  anyOf : list Flag;
  message : string
}.

Definition GUARDED_EDGES : list GuardedEdge := [
  mk_GuardedEdge ["done->in_review"; "ready_for_merge->in_review"] [reopenForReview]
    "A ticket can only return to review via the reopen-for-review path.";
  mk_GuardedEdge ["ready_for_merge->done"] [markMerged]
    "A ticket can only be marked merged via the mark-merged path.";
  mk_GuardedEdge ["in_review->blocked"; "ready_for_merge->blocked"; "in_testing->blocked"] [park]
    "A ticket can only be parked to blocked via the retry-cap reject path.";
  mk_GuardedEdge ["in_review->in_testing"; "in_testing->ready_for_merge"; "in_testing->refining";
     "in_testing->ready"; "in_testing->in_review"] [testerVerdict]
    "A ticket can only move into or out of testing via the testing-lane paths.";
  mk_GuardedEdge ["to:paused"] [pauseDelivery]
    "A ticket can only be paused via the pause-on-cap path.";
  mk_GuardedEdge ["paused->in_progress"] [resumeDelivery]
    "A paused ticket can only resume delivery via the resume path.";
  mk_GuardedEdge ["ready->in_progress"] [humanClaim]
    "A ready ticket can only be taken by hand via the human-claim path.";
  mk_GuardedEdge ["draft->blocked"; "refining->blocked"; "ready->blocked"; "blocked->draft"] [humanBlock]
    "Only a person can block a ticket that is not in delivery (gaffer wg block <n>).";
  mk_GuardedEdge ["claimed->refining"; "in_progress->refining"] [runnerRelease]
    "An in-flight delivery can only be released/parked via the runner-release path.";
  mk_GuardedEdge ["in_progress->ready"] [runnerRelease; humanRelease; systemOverride]
    "An in-flight delivery can only be released/parked to ready via the runner-release path (or human hand-back).";
  mk_GuardedEdge ["to:cancelled"] [wontDo]
    "A ticket can only be abandoned via the won't-do path.";
  mk_GuardedEdge ["ready->claimed"] [agentClaim]
    "A ticket can only be claimed via the claim path (which creates the lease).";
  mk_GuardedEdge ["claimed->in_progress"] [agentSubmit]
    "A claimed ticket can only start delivery via the claim-gated submit path.";
  mk_GuardedEdge ["in_progress->in_review"] [agentSubmit; unleasedSubmit]
    "An agent-leased delivery can only be submitted for review via its claim-gated submit path.";
  mk_GuardedEdge ["in_review->ready"; "in_review->refining"; "ready_for_merge->refining"] [reviewReject]
    "A reviewed ticket can only go back for rework via the reject path.";
  mk_GuardedEdge ["in_review->ready_for_merge"] [reviewApprove]
    "A ticket can only be approved for merge via the review-approve path."
].

Definition edge_key (from to : TicketStatus) : string :=
  status_name from +:+ "->" +:+ status_name to.

(** The first guarded-edge rule [key] violates given the flags, or none. *)
Definition rule_violated (key : string) (to : TicketStatus) (fs : list Flag) (rule : GuardedEdge)
    : bool :=
  let toKey := "to:" +:+ status_name to in
  existsb (λ e, bool_decide (e = key) || bool_decide (e = toKey)) (edges rule)
  && negb (existsb (λ f, bool_decide (f ∈ fs)) (anyOf rule)).
Definition violatedGuard (key : string) (to : TicketStatus) (fs : list Flag) : option GuardedEdge :=
  find (rule_violated key to fs) GUARDED_EDGES.

(** ** The service *)
Section service.
Context `{Env}.

(** [scopeRepoContext]. *)
Definition scopeRepoContext (id : string) (d : db) : ScopeRepoContext :=
  let links := repos_accessLinksForTicket id d in
  mk_ScopeRepoContext
    (bool_decide (0 < length links)%nat)
    (Z.of_nat (length (active_write_links id d)))
    (bool_decide (ticketScopes_findPrimary id d ≠ None))
    (match links with
     | [only] => bool_decide (length (scopesForRepo (rp_id only.2) d) = 0%nat)
     | _ => false
     end)
    (Z.of_nat (length (filter (λ l, relation l.1 = Suggested) links))).

(** [repoDeliveryContext]: the names of active write repositories without
    delivery evidence. *)
Definition delivery_evidenced (x : option TicketRepoDelivery) : bool :=
  match x with
  | Some x => bool_decide (rd_status x ∈ TICKET_REPO_DELIVERY_EVIDENCED_STATUSES)
              || bool_decide (rd_branch_name x ≠ None) || bool_decide (rd_pr_url x ≠ None)
  | None => false
  end.
Definition repoDeliveryContext (id : string) (d : db) : list string :=
  (λ l : TicketRepo * Repository, rp_name l.2) <$>
    filter (λ l, delivery_evidenced (repoDeliveries_find id (rp_id l.2) d) = false)
      (active_write_links id d).

Definition hasReadyApproval (id : string) (d : db) : bool :=
  existsb (λ r, bool_decide (EventChain.entity_type r = "ticket" ∧ EventChain.entity_id r = id
                             ∧ EventChain.event_type r = "ticket.ready_approved")) (work_events d).

(** A proof computed before the transaction counts while its fingerprint
    still matches; otherwise the diff is computed in place. *)
Definition hasRealDeliveryDiff (ticket : Ticket) (proof : option DeliveryDiffProof) (d : db) : bool :=
  match proof with
  | Some p =>
      if bool_decide (fingerprint p = deliveryDiffFingerprint ticket d) then hasDiff p
      else hasDiff (deliveryDiffProof ticket d)
  | None => hasDiff (deliveryDiffProof ticket d)
  end.

Definition policy_context (ticket : Ticket) (g : PolicyGate) (proof : option DeliveryDiffProof)
    (d : db) : PolicyContext :=
  let id := tk_id ticket in
  mk_PolicyContext ticket (acs_listForTicket id d) (repos_countForTicket id d)
    (decisions_blockingForTicket id d) (decisions_hasUnresolvedHumanRequired id d)
    (evidence_countByAc id d)
    (if bool_decide (g = GateDone) then hasRealDeliveryDiff ticket proof d else false)
    (bool_decide (human_delivered ticket ≠ None))
    (match reviewer ticket with Some r => negb (bool_decide (r = "")) | None => false end)
    (hasReadyApproval id d) (scopeRepoContext id d) (repoDeliveryContext id d).

Definition evaluate (ticket : Ticket) (g : PolicyGate) (proof : option DeliveryDiffProof) (d : db)
    : PolicyResult :=
  evaluatePolicy (policy_pack ticket) g (policy_context ticket g proof d).

(** [preview]: would a gated transition pass?  [None] for an ungated one. *)
Definition preview (id : string) (to : TicketStatus) : Op (option PolicyResult) :=
  match gateFor to with
  | None => mret None
  | Some g =>
      let* o := gets (tickets_findById id) in
      let* ticket := require o (notFound "ticket" id) in
      let* res := gets (evaluate ticket g None) in
      mret (Some res)
  end.

Record TransitionResult := mk_TransitionResult {
  result_ticket : Ticket;
  eventId : string;
  policy : option PolicyResult
}.

Definition nullable_num (o : option Z) : js := match o with Some n => JSNum n | None => JSNull end.
Definition patch_js (p : TicketPatch) : js :=
  let field k o := match o with Some v => [(k, v)] | None => [] end in
  JSObj (field "branch_name" (JSStr <$> p_branch_name p) ++
         field "pr_url" (JSStr <$> p_pr_url p) ++
         field "attempt_count" (JSNum <$> p_attempt_count p) ++
         field "reviewer" (JSStr <$> p_reviewer p)).
Definition transition_payload (from : TicketStatus) (input : TransitionInput) : js :=
  JSObj ([("from", JSStr (status_name from)); ("to", JSStr (status_name (toStatus input)));
          ("reason", JSNullable (tr_reason input));
          ("patch", match patch input with Some p => patch_js p | None => JSNull end)] ++
         match approvedUnchanged input with
         | None => []
         | Some None => [("approved_unchanged", JSNull)]
         | Some (Some b) => [("approved_unchanged", JSBool b)]
         end).

(** The checks [transition] makes before it writes: the source status, the
    edge, the actor, the guard and the policy gate, in that order. *)
Definition transition_checks (input : TransitionInput) (ticket : Ticket) : Op (option PolicyResult) :=
  let to := toStatus input in
  let key := edge_key (status ticket) to in
  guard_ match expectedFromStatus input with
         | Some s => bool_decide (status ticket = s)
         | None => true
         end
    (DispatchError STATE_CONFLICT
       ("Expected ticket in '" +:+ status_name (expectedFromStatus input ?? Draft) +:+
        "' but it is '" +:+ status_name (status ticket) +:+ "'."));;;
  guard_ (negb (bool_decide (status ticket = to)))
    (DispatchError NO_OP ("Ticket already '" +:+ status_name to +:+ "'."));;;
  guard_ (bool_decide (key ∈ ALLOWED))
    (DispatchError ILLEGAL_TRANSITION ("Transition not allowed: " +:+ key +:+ "."));;;
  guard_ (negb (flag humanBlock input && negb (bool_decide (actor_type (actor input) = Human))
                && negb (bool_decide (actor_type (actor input) = Admin))))
    (DispatchError ACTOR_NOT_PERMITTED
       ("Only a human or admin may block or unblock a ticket this way; an agent blocks its own "
        +:+ "claim with its claim token."));;;
  match violatedGuard key to (flags input) with
  | Some guard => throw (DispatchError ILLEGAL_TRANSITION (message guard))
  | None =>
      match gateFor to with
      | Some g =>
          if flag systemOverride input then mret None else
          let* res := gets (evaluate ticket g (deliveryDiff input)) in
          if allowed res then mret (Some res)
          else throw (DispatchError POLICY_DENIED
                 ("Policy '" +:+ pack_name (policy_pack ticket) +:+ "' denied " +:+
                  match g with GateReady => "ready" | GateClaim => "claim" | GateDone => "done" end
                  +:+ "."))
      | None => mret None
      end
  end.

(** The column writes that accompany the status change, in order. *)
Definition transition_effects (input : TransitionInput) (ticket : Ticket) (nowIso : instant)
    (d : db) : db :=
  let to := toStatus input in
  let id := tk_id ticket in
  let d := if bool_decide (to ∈ REQUEUE_STATES) then claims_releaseActiveForTicket id nowIso d else d in
  let d := if bool_decide (to = Paused) then claims_releaseActiveForTicket id nowIso d else d in
  let d := if bool_decide (to = InReview) then tickets_setReviewFeedback id None d else d in
  let d := if bool_decide (human_owner ticket ≠ None) && negb (bool_decide (to = InProgress)) then
             let d := tickets_setHumanOwner id None d in
             if bool_decide (to = InReview)
             then tickets_setHumanDelivered id (human_owner ticket) d else d
           else d in
  if bool_decide (human_delivered ticket ≠ None)
     && negb (bool_decide (to ∈ REVIEW_LANE_STATUSES))
  then tickets_setHumanDelivered id None d else d.

(** [TransitionService.transition]. *)
Definition transition (input : TransitionInput) : Op TransitionResult :=
  inTransaction (
    let* o := gets (tickets_findById (ticketId input)) in
    let* ticket := require o (notFound "ticket" (ticketId input)) in
    let* res := transition_checks input ticket in
    let* nowIso := now in
    let* ok := tickets_updateStatus (tk_id ticket) (toStatus input) (row_version ticket)
                 (patch input ?? no_patch) nowIso in
    guard_ ok (DispatchError CONCURRENCY_CONFLICT "Ticket changed concurrently; retry.");;;
    modify (transition_effects input ticket nowIso);;;
    let* eventId := writeEvent "ticket" (tk_id ticket) (actor input) "ticket.transitioned"
                      (Some (transition_payload (status ticket) input)) (given (correlationId input)) in
    when (negb (bool_decide (toStatus input = Paused))
          && negb (bool_decide (toStatus input = InProgress)))
      (modify (paused_delete (tk_id ticket)));;;
    let* updated := gets (tickets_findById (tk_id ticket)) in
    let* updated := require updated (notFound "ticket" (tk_id ticket)) in
    mret (mk_TransitionResult updated eventId res)).
End service.

(** ** What a committed transition did *)
Section spec.
Context `{Env}.

(** The ticket row a transition leaves behind. *)
Definition moved_ticket (input : TransitionInput) (nowIso : instant) (t : Ticket) : Ticket :=
  let to := toStatus input in
  let t1 := status_updated to (patch input ?? no_patch) nowIso t in
  let t2 := if bool_decide (to = InReview) then set_last_review_feedback None t1 else t1 in
  let leaves := bool_decide (human_owner t ≠ None) && negb (bool_decide (to = InProgress)) in
  let t3 := if leaves then set_human_owner None t2 else t2 in
  let t4 := if leaves && bool_decide (to = InReview)
            then set_human_delivered (human_owner t) t3 else t3 in
  if bool_decide (human_delivered t ≠ None) && negb (bool_decide (to ∈ REVIEW_LANE_STATUSES))
  then set_human_delivered None t4 else t4.

(** The destinations that end a lease. *)
Definition ends_lease (to : TicketStatus) : bool :=
  bool_decide (to ∈ REQUEUE_STATES) || bool_decide (to = Paused).
(** The destinations that keep the pause context. *)
Definition keeps_context (to : TicketStatus) : bool :=
  bool_decide (to = Paused) || bool_decide (to = InProgress).

Lemma ends_lease_claims to id nowIso d :
  (let d := if bool_decide (to ∈ REQUEUE_STATES) then claims_releaseActiveForTicket id nowIso d
            else d in
   if bool_decide (to = Paused) then claims_releaseActiveForTicket id nowIso d else d)
  = set_ticket_claims
      (if ends_lease to then release_if_on id nowIso <$> ticket_claims d else ticket_claims d) d.
Proof. destruct d, to; reflexivity. Qed.

Lemma update_row_insert {A} id (f : A → A) t m :
  update_row id f (<[id := t]> m) = <[id := f t]> m.
Proof. apply alter_insert_eq. Qed.

(** A column write on the row just written replaces it. *)
Lemma ticket_write id f t d :
  set_tickets (update_row id f (tickets (set_tickets (<[id := t]> (tickets d)) d)))
    (set_tickets (<[id := t]> (tickets d)) d)
  = set_tickets (<[id := f t]> (tickets d)) d.
Proof. cbn [tickets set_tickets]. by rewrite update_row_insert. Qed.

Lemma transition_effects_tables input t nowIso d :
  transition_effects input t nowIso
    (set_tickets (<[tk_id t := status_updated (toStatus input) (patch input ?? no_patch) nowIso t]>
       (tickets d)) d)
  = set_tickets (<[tk_id t := moved_ticket input nowIso t]> (tickets d))
      (set_ticket_claims
         (if ends_lease (toStatus input)
          then release_if_on (tk_id t) nowIso <$> ticket_claims d else ticket_claims d) d).
Proof.
  unfold transition_effects, moved_ticket. cbv zeta. rewrite ends_lease_claims.
  set (t1 := status_updated _ _ _ t). cbn [ticket_claims set_tickets].
  set (cs := if ends_lease _ then _ else _).
  change (set_ticket_claims cs (set_tickets (<[tk_id t:=t1]> (tickets d)) d))
    with (set_tickets (<[tk_id t:=t1]> (tickets (set_ticket_claims cs d))) (set_ticket_claims cs d)).
  set (d1 := set_ticket_claims cs d). change (tickets d) with (tickets d1). clearbody d1 t1. clear cs.
  unfold tickets_setReviewFeedback, tickets_setHumanOwner, tickets_setHumanDelivered.
  destruct (bool_decide (toStatus input = InReview)), (bool_decide (human_owner t ≠ None) && _),
    (bool_decide (human_delivered t ≠ None) && _); cbn [andb];
    rewrite ?ticket_write; reflexivity.
Qed.

Definition transition_row (input : TransitionInput) (t : Ticket) (d : db) : ChainRow :=
  event_row d (randomUUID (entropy d)) "ticket" (tk_id t) (actor input) "ticket.transitioned"
    (Some (transition_payload (status t) input)) (given (correlationId input)).
(** A row as the log stores it: linked to the newest one. *)
Definition linked (log : list ChainRow) (row : ChainRow) : ChainRow :=
  let prev := latestEventHash log in
  set_hashes (Some prev) (Some (eventHash sha256_hex prev row)) row.

Definition after_transition (input : TransitionInput) (t : Ticket) (d : db) : db :=
  set_entropy (S (entropy d)) $
  set_work_events (work_events d ++ [linked (work_events d) (transition_row input t d)]) $
  set_paused_deliveries
    (if keeps_context (toStatus input) then paused_deliveries d
     else delete (tk_id t) (paused_deliveries d)) $
  set_tickets (<[tk_id t := moved_ticket input (clock_now d) t]> (tickets d)) $
  set_ticket_claims
    (if ends_lease (toStatus input)
     then release_if_on (tk_id t) (clock_now d) <$> ticket_claims d else ticket_claims d) d.

(** The checks read only. *)
Lemma transition_checks_pure input t d res d' :
  transition_checks input t d = Ok res d' → d' = d.
Proof.
  unfold transition_checks. intros Hr.
  run_steps Hr. destruct (violatedGuard _ _ _); [discriminate|].
  destruct (gateFor _) as [g|]; [|by injection Hr].
  destruct (flag systemOverride input); [by injection Hr|].
  run_steps Hr. destruct (allowed _); [by injection Hr|discriminate].
Qed.

(** A committed transition is exactly: the checks passed, and the database
    is [after_transition]. *)
Lemma transition_ok input d res d' :
  (∀ t, tickets d !! ticketId input = Some t → tk_id t = ticketId input) →
  transition input d = Ok res d' ↔
  ∃ t pol, tickets d !! ticketId input = Some t ∧
    transition_checks input t d = Ok pol d ∧
    d' = after_transition input t d ∧
    res = mk_TransitionResult (moved_ticket input (clock_now d) t) (randomUUID (entropy d)) pol.
Proof.
  intros Hkey. unfold transition, inTransaction, mbind, M_bind, gets, now. simpl.
  unfold tickets_findById, require.
  destruct (tickets d !! ticketId input) as [t|] eqn:Ht; [|split; [discriminate|naive_solver]].
  specialize (Hkey t eq_refl). unfold mret, M_ret.
  destruct (transition_checks input t d) as [pol d1|e] eqn:Hc.
  2: { split; [discriminate|]. intros (t' & pol & [= <-] & Hc' & _). congruence. }
  pose proof (transition_checks_pure _ _ _ _ _ Hc) as ->.
  unfold tickets_updateStatus. rewrite Hkey, Ht, bool_decide_true by done.
  unfold guard_, mret, M_ret, modify. rewrite <- Hkey, transition_effects_tables.
  assert (Hfinal :
    (let d3 := set_work_events (work_events d ++ [linked (work_events d) (transition_row input t d)])
           (set_entropy (S (entropy d))
           (set_tickets (<[tk_id t := moved_ticket input (clock_now d) t]> (tickets d))
           (set_ticket_claims
             (if ends_lease (toStatus input)
              then release_if_on (tk_id t) (clock_now d) <$> ticket_claims d else ticket_claims d)
             d))) in
     (if keeps_context (toStatus input) then d3 else paused_delete (tk_id t) d3))
    = after_transition input t d).
  { unfold after_transition, paused_delete. destruct d; simpl. by destruct (keeps_context _). }
  unfold writeEvent, newId, draw, mbind, M_bind, mret, M_ret, gets, modify, append_event. simpl.
  unfold when. simpl in Hfinal. unfold linked, transition_row, event_row in Hfinal. simpl in Hfinal.
  unfold linked, transition_row, event_row. simpl.
  assert (Hup : tickets (after_transition input t d) !! tk_id t
                = Some (moved_ticket input (clock_now d) t)) by (by simpl; rewrite lookup_insert_eq).
  unfold keeps_context in Hfinal.
  destruct (bool_decide (toStatus input = Paused)), (bool_decide (toStatus input = InProgress));
    simpl in *; rewrite Hfinal, Hup; (split;
    [ intros [= <- <-]; by exists t, pol
    | intros (t' & pol' & [= <-] & Hc' & -> & ->); rewrite Hc in Hc'; by injection Hc' as <- ]).
Qed.
End spec.
