(* ===== verification/Claims.v ===== *)
(** * Claims

    [src/packages/dispatch/src/services/claimService.ts]: agents, the atomic
    claim of a ticket, a person's by-hand claim, heartbeats, evidence, review
    submission, blocking, release, the expiry sweep and the resume lease.
    Every status change goes through [transition]. *)
From Stdlib Require Import Ascii.
From S2P Require Import Prelude Json Types EventChain Store Policy Diff Transition.

(** ** Inputs and results *)

(** [RegisterAgentInput] after [registerAgentInput.parse], which fills in the
    defaults of [agent_type], [max_risk] and [capabilities]. *)
Record RegisterAgentInput := mk_RegisterAgentInput {
  ra_display_name : option string;
  ra_agent_type : option string;
  ra_model : option string;
  ra_runtime : option string;
  ra_host : option string;
  ra_max_risk : option RiskLevel;
  ra_capabilities : option (list string);
  ra_created_by : option string
}.

(** [ClaimNextInput] and [ClaimTicketInput]; the [capabilities] field is never
    read. *)
Record ClaimNextInput := mk_ClaimNextInput {
  cn_agentId : string;
  cn_ttlSeconds : Z
}.
Record ClaimTicketInput := mk_ClaimTicketInput {
  ct_ticketId : string;
  ct_agentId : string;
  ct_ttlSeconds : Z
}.
Record ClaimResult := mk_ClaimResult {
  res_ticketId : string;
  res_number : Z;
  res_claimToken : string;
  lastReviewFeedback : option ReviewFeedback
}.
Record RecordEvidenceInput := mk_RecordEvidenceInput {
  re_claimToken : option string;
  re_reviewOf : option string;
  re_ticket_id : string;
  re_ac_id : option string;
  re_repo_id : option string;
  re_evidence_type : EvidenceType;
  re_summary : string;
  re_uri : option string;
  re_payload : option js
}.
Record SubmitForReviewInput := mk_SubmitForReviewInput {
  sr_claimToken : string;
  sr_ticket_id : string;
  sr_reason : option string
}.
Record MarkBlockedInput := mk_MarkBlockedInput {
  mb_claimToken : option string;
  mb_ticket_id : string;
  mb_reason : string
}.
(** [to: "ready" | "refining" | "blocked"]; [rr_pausedUntil] is the instant
    [Date.parse] reads, absent when it reads none. *)
Inductive ReleaseTarget := ToReady | ToRefining | ToBlocked.
#[export] Instance ReleaseTarget_eq_dec : EqDecision ReleaseTarget.
Proof. solve_decision. Defined.
Definition release_status (t : ReleaseTarget) : TicketStatus :=
  match t with ToReady => Ready | ToRefining => Refining | ToBlocked => Blocked end.
Record RunnerReleaseInput := mk_RunnerReleaseInput {
  rr_ticket_id : string;
  rr_to : ReleaseTarget;
  rr_claimToken : option string;
  rr_reason : option string;
  rr_reasonCode : option string;
  rr_attempt : option Z;
  rr_maxAttempts : option Z;
  rr_pausedUntil : option instant
}.
Record ReworkInput := mk_ReworkInput {
  ri_ticket_id : string;
  ri_attempt : Z;
  ri_maxAttempts : Z;
  ri_reason : string;
  ri_gate : option string;
  ri_distilledFailure : option string;
  ri_acId : option string;
  ri_final : bool
}.

(** ** Messages *)

Definition join (sep : string) (l : list string) : string := String.concat sep l.
(** [ticket.number ?? ticket.id], in a template. *)
Definition ticket_label (t : Ticket) : string :=
  match number t with Some n => pretty n | None => tk_id t end.

(** [dependencyBlockedError]; the structured [blocked_by] detail is not
    modelled. *)
Definition dependencyBlockedError (ticketLabel : string) (unsatisfied : list TicketDependencyView)
    : error :=
  let refs := (λ v, match dv_number v with
                    | Some n => "#" +:+ pretty n
                    | None => dv_depends_on_ticket_id v
                    end) <$> unsatisfied in
  DispatchError DEPENDENCY_BLOCKED
    ("Ticket '" +:+ ticketLabel +:+ "' is blocked by " +:+ join ", " refs
     +:+ " (must be done first).").

Definition claim_mismatch : error :=
  DispatchError CLAIM_INVALID "Claim token does not match an active claim on this ticket.".

Section service.
Context `{Env}.

(** [notClaimableReasons]: the candidate query's conditions in words. *)
Definition notClaimableReasons (ticket : Ticket) (agent : Agent) (capabilities : list string)
    (nowIso : instant) (d : db) : list string :=
  let missing := filter (λ c, c ∉ capabilities) (required_capabilities (tk_id ticket) d) in
  (if bool_decide (status ticket ≠ Ready)
   then ["it is " +:+ status_name (status ticket) +:+ ", not ready"] else []) ++
  (match given (human_owner ticket) with Some o => [o +:+ " took it by hand"] | None => [] end) ++
  (match scheduled_after ticket with
   | Some s => if bool_decide (nowIso < s)%Z
               then ["it is scheduled for after " +:+ toISOString s] else []
   | None => []
   end) ++
  (if bool_decide (riskRank (max_risk agent) < riskRank (risk_level ticket))%Z
   then ["its risk (" +:+ risk_name (risk_level ticket) +:+ ") is above the agent's ceiling ("
         +:+ risk_name (max_risk agent) +:+ ")"] else []) ++
  (match missing with [] => [] | _ => ["the agent lacks " +:+ join ", " missing] end) ++
  ((λ x, let short := String.substring 0 8 (de_id x) in
     "blocked by open decision " +:+ short +:+ " " +:+ quoted (de_title x)
     +:+ " (a person answers it: `gaffer wg decisions resolve " +:+ short
     +:+ " --answer …` or the dashboard)") <$> decisions_blockingForTicket (tk_id ticket) d) ++
  (if has_live_claim (tk_id ticket) nowIso d then ["another claim on it is still live"] else []).

(** ** Agents *)

Definition registerAgent (raw : RegisterAgentInput) (actor : Actor) : Op Agent :=
  let* nowIso := now in
  inTransaction (
    let* id := newId in
    let agent := mk_Agent id (ra_display_name raw) (ra_agent_type raw ?? "coding_agent")
      (ra_model raw) (ra_runtime raw) (ra_host raw) (ra_max_risk raw ?? Medium) AgentActive
      (coalesce (ra_created_by raw) (actor_id actor)) None nowIso nowIso None None in
    let caps := ra_capabilities raw ?? [] in
    agents_insert agent;;;
    for_each caps (λ c, modify (agents_addCapability id c));;;
    writeEvent "agent" id actor "agent.registered"
      (Some (JSObj [("agent_type", JSStr (agent_type agent));
                    ("capabilities", JSArr (JSStr <$> caps))])) None;;;
    mret agent).

(** ** Leases *)

Definition activeClaimForToken (claimToken : string) (nowIso : instant) : Op TicketClaim :=
  let* o := gets (claims_findActiveByTokenHash (hashClaimToken claimToken) nowIso) in
  require o (DispatchError CLAIM_INVALID "Unknown or expired claim token.").

(** [Math.max(1, Math.round(leaseMs / 1000))]: [Math.round] rounds half up. *)
Definition ttlForClaim (claim : TicketClaim) : Z :=
  let leaseMs := (expires_at claim - heartbeat_at claim)%Z in
  Z.max 1 ((leaseMs + 500) `div` 1000).

(** The row every lease starts as. *)
Definition new_claim (id ticketId agentId claimToken : string) (ttlSeconds : Z)
    (nowIso : instant) : TicketClaim :=
  mk_TicketClaim id ticketId agentId (hashClaimToken claimToken) Active
    (isoPlusSeconds ttlSeconds nowIso) nowIso nowIso None.

Definition not_active_agent (agent : Agent) : error :=
  DispatchError AGENT_NOT_ELIGIBLE
    ("Agent is '" +:+ agent_status_name (ag_status agent) +:+ "', not active.").
(** Find the agent, refuse one that is not active, stamp [last_seen_at]. *)
Definition eligible_agent (agentId : string) (nowIso : instant) : Op Agent :=
  let* o := gets (agents_findById agentId) in
  let* agent := require o (notFound "agent" agentId) in
  guard_ (bool_decide (ag_status agent = AgentActive)) (not_active_agent agent);;;
  modify (agents_touchLastSeen (ag_id agent) nowIso);;;
  mret agent.

(** [returnLapsedResumeToPaused] *)
Definition returnLapsedResumeToPaused (ticket : Ticket) (claimId : string) (actor : Actor)
    : Op bool :=
  if negb (bool_decide (status ticket = InProgress)) || bool_decide (human_owner ticket ≠ None)
  then mret false else
  let* ctx := gets (paused_find (tk_id ticket)) in
  match ctx with
  | None => mret false
  | Some _ =>
      transition (move (tk_id ticket) actor Paused "claim_expired_mid_resume" (Some InProgress)
                    [systemOverride; pauseDelivery]);;;
      let* nowIso := now in
      modify (paused_setResumeRequested (tk_id ticket) false nowIso);;;
      ticket_event (tk_id ticket) actor "claim.expired"
        (JSObj [("claim_id", JSStr claimId); ("returned_to", JSStr "paused")]);;;
      mret true
  end.

Definition in_delivery (s : TicketStatus) : bool := bool_decide (s = Claimed ∨ s = InProgress).

(** The reap of a candidate's expired claim; [true] when the ticket went
    back to [paused] and the candidate is skipped. *)
Definition reap_expired (candidate : CandidateRow) (actor : Actor) (nowIso : instant) : Op bool :=
  match given (expired_claim_id candidate) with
  | None => mret false
  | Some eid =>
      modify (claims_setStatus eid Expired nowIso);;;
      let* stuck := gets (tickets_findById (cr_id candidate)) in
      let* lapsed := match stuck with
                     | Some t => returnLapsedResumeToPaused t eid actor
                     | None => mret false
                     end in
      if lapsed : bool then mret true else
      match stuck with
      | Some t =>
          when (in_delivery (status t))
            (transition (move (cr_id candidate) actor Ready "claim_expired_reclaim" None
                           [systemOverride]);;; mret tt)
      | None => mret tt
      end;;;
      ticket_event (cr_id candidate) actor "claim.expired"
        (JSObj [("claim_id", JSStr eid); ("returned_to", JSStr "reclaimed")]);;;
      mret false
  end.

(** [attemptClaim]; [None] is the sentinel ["skip"]. *)
Definition attemptClaim (candidate : CandidateRow) (agent : Agent) (ttlSeconds : Z)
    (actor : Actor) (nowIso : instant) : Op (option ClaimResult) :=
  let* skip := reap_expired candidate actor nowIso in
  if skip : bool then mret None else
  let* claimToken := newClaimToken in
  let* id := newId in
  let claim := new_claim id (cr_id candidate) (ag_id agent) claimToken ttlSeconds nowIso in
  let* inserted := catch (claims_insert claim;;; mret true)
    (λ e, if isUniqueConstraint e then mret false else throw e) in
  if negb inserted then mret None else
  let* moved := catch
    (transition (move (cr_id candidate) actor Claimed "claim_next" (Some Ready) [agentClaim]);;;
     mret true)
    (λ e, modify (claims_setStatus id Released nowIso);;;
          if bool_decide (error_code e = Some POLICY_DENIED)
             || bool_decide (error_code e = Some STATE_CONFLICT)
          then mret false else throw e) in
  if negb moved then mret None else
  let* o := gets (tickets_findById (cr_id candidate)) in
  let* ticket := require o (notFound "ticket" (cr_id candidate)) in
  ticket_event (tk_id ticket) actor "claim.created"
    (JSObj [("claim_id", JSStr id); ("agent_id", JSStr (ag_id agent));
            ("expires_at", JSStr (toISOString (expires_at claim)))]);;;
  mret (Some (mk_ClaimResult (tk_id ticket) (number ticket ?? 0%Z) claimToken
                (last_review_feedback ticket))).

(** The loop of [claimNextTicket]: the first candidate that is not skipped. *)
Fixpoint claim_first (candidates : list CandidateRow) (agent : Agent) (ttlSeconds : Z)
    (actor : Actor) (nowIso : instant) : Op (option ClaimResult) :=
  match candidates with
  | [] => mret None
  | candidate :: rest =>
      let* result := attemptClaim candidate agent ttlSeconds actor nowIso in
      match result with
      | None => claim_first rest agent ttlSeconds actor nowIso
      | Some r => mret (Some r)
      end
  end.

Definition agent_criteria (agent : Agent) (d : db) : CandidateCriteria :=
  mk_CandidateCriteria (riskRank (max_risk agent)) (agents_capabilities (ag_id agent) d).

Definition claimNextTicket (input : ClaimNextInput) (actor : Actor) : Op (option ClaimResult) :=
  let* nowIso := now in
  inTransaction (
    let* agent := eligible_agent (cn_agentId input) nowIso in
    let* candidates := gets (λ d, claims_candidateTickets nowIso (agent_criteria agent d) d) in
    claim_first candidates agent (cn_ttlSeconds input) actor nowIso).

Definition claimTicket (input : ClaimTicketInput) (actor : Actor) : Op ClaimResult :=
  let* nowIso := now in
  inTransaction (
    let* o := gets (tickets_findById (ct_ticketId input)) in
    let* ticket := require o (notFound "ticket" (ct_ticketId input)) in
    let* agent := eligible_agent (ct_agentId input) nowIso in
    let* candidate := gets (λ d, claims_candidateForTicket (tk_id ticket) nowIso
                                   (agent_criteria agent d) d) in
    match candidate with
    | None =>
        let* unsatisfied := gets (deps_unsatisfiedDependencies (tk_id ticket)) in
        match unsatisfied with
        | _ :: _ => throw (dependencyBlockedError (ticket_label ticket) unsatisfied)
        | [] =>
            let* reasons := gets (λ d, notClaimableReasons ticket agent
                                         (agents_capabilities (ag_id agent) d) nowIso d) in
            throw (DispatchError TICKET_NOT_CLAIMABLE
              ("Ticket '" +:+ ticket_label ticket +:+ "' is not claimable by this agent" +:+
               match reasons with [] => "." | _ => ": " +:+ join "; " reasons +:+ "." end))
        end
    | Some candidate =>
        let* result := attemptClaim candidate agent (ct_ttlSeconds input) actor nowIso in
        require result (DispatchError TICKET_NOT_CLAIMABLE
          ("Ticket '" +:+ ticket_label ticket
           +:+ "' could not be claimed (raced or policy-denied)."))
    end).

(** ** A person's by-hand claim *)

Definition humanClaimTicket (ticketId : string) (actor : Actor) : Op (string * Z) :=
  inTransaction (
    let* o := gets (tickets_findById ticketId) in
    let* ticket := require o (notFound "ticket" ticketId) in
    let* held := gets (claims_hasActiveForTicket (tk_id ticket)) in
    guard_ (bool_decide (status ticket = Ready) && negb held)
      (DispatchError TICKET_NOT_CLAIMABLE
         ("Ticket '" +:+ ticket_label ticket +:+ "' cannot be taken by hand (status '"
          +:+ status_name (status ticket) +:+ "')."));;;
    transition (move (tk_id ticket) actor InProgress "human_claim" (Some Ready) [humanClaim]);;;
    let owner := actor_id actor ?? "human" in
    modify (tickets_setHumanOwner (tk_id ticket) (Some owner));;;
    ticket_event (tk_id ticket) actor "ticket.human_claimed" (JSObj [("owner", JSStr owner)]);;;
    mret (tk_id ticket, number ticket ?? 0%Z)).

Definition humanReleaseTicket (ticketId : string) (actor : Actor)
    : Op (string * TicketStatus * string) :=
  inTransaction (
    let* o := gets (tickets_findById ticketId) in
    let* ticket := require o (notFound "ticket" ticketId) in
    guard_ (bool_decide (status ticket = InProgress) && bool_decide (human_owner ticket ≠ None))
      (DispatchError TICKET_NOT_HUMAN_OWNED
         ("Ticket '" +:+ ticket_label ticket
          +:+ "' is not human-owned in-flight work; nothing to hand back."));;;
    guard_ (negb (bool_decide (actor_type actor = Human)
                  && negb (bool_decide (Some (actor_id actor ?? "human") = human_owner ticket))))
      (DispatchError ACTOR_NOT_PERMITTED
         ("Ticket '" +:+ ticket_label ticket +:+ "' is being done by hand by "
          +:+ (human_owner ticket ?? "")
          +:+ "; only they can hand it back (or an admin: human-release --admin)."));;;
    let* result := transition (move (tk_id ticket) actor Ready "human_release" (Some InProgress)
                                 [humanRelease]) in
    let* eventId := ticket_event (tk_id ticket) actor "ticket.human_released"
                      (JSObj [("returned_to", JSStr "ready")]) in
    mret (tk_id ticket, status (result_ticket result), eventId)).

(** ** The claim holder's calls *)

Definition heartbeat (claimToken : string) : Op instant :=
  let* nowIso := now in
  inTransaction (
    let* claim := activeClaimForToken claimToken nowIso in
    let expiresAt := isoPlusSeconds (ttlForClaim claim) nowIso in
    let* ok := claims_extend (cl_id claim) expiresAt nowIso in
    guard_ ok (DispatchError CLAIM_INVALID "Claim is no longer active.");;;
    mret expiresAt).

(** The token names a live claim, and it is on this ticket. *)
Definition claim_on (claimToken : string) (ticketId : string) (nowIso : instant) : Op TicketClaim :=
  let* claim := activeClaimForToken claimToken nowIso in
  guard_ (bool_decide (cl_ticket_id claim = ticketId)) claim_mismatch;;;
  mret claim.

(** A reviewer or tester without a claim annotates the ticket it was mounted
    on. *)
Definition is_review (input : RecordEvidenceInput) (actor : Actor) (ticket : Ticket) : bool :=
  let reviewOf := match re_reviewOf input with
                  | Some r => if bool_decide (trim r = "") then None else Some (trim r)
                  | None => None
                  end in
  bool_decide (given (re_claimToken input) = None)
  && negb (bool_decide (actor_type actor = Human))
  && match reviewOf with
     | Some r => (bool_decide (status ticket = InReview) || bool_decide (status ticket = InTesting))
                 && (bool_decide (r = tk_id ticket)
                     || bool_decide (r = match number ticket with
                                         | Some n => pretty n | None => "null" end))
     | None => false
     end.

Definition recordEvidence (input : RecordEvidenceInput) (actor : Actor) : Op (string * string) :=
  let* nowIso := now in
  inTransaction (
    let* ticket := resolveRef (re_ticket_id input) in
    let isReview := is_review input actor ticket in
    match given (re_claimToken input) with
    | Some token => claim_on token (tk_id ticket) nowIso;;; mret tt
    | None => guard_ (bool_decide (actor_type actor = Human) || isReview)
                (DispatchError CLAIM_INVALID "A claim token is required to record evidence.")
    end;;;
    match re_ac_id input with
    | Some id =>
        let* o := gets (acs_findById id) in
        let* ac := require o (notFound "acceptance_criterion" id) in
        guard_ (bool_decide (ac_ticket_id ac = tk_id ticket)) (notFound "acceptance_criterion" id)
    | None => mret tt
    end;;;
    let* evidenceId := newId in
    let by_ := actor_id actor ?? actor_type_name (actor_type actor) in
    evidence_insert (mk_Evidence evidenceId (tk_id ticket) (re_ac_id input) (re_repo_id input) None
      (re_evidence_type input) (re_summary input) (re_uri input)
      (re_payload input) by_
      (Some (actor_type_name (actor_type actor))) nowIso);;;
    match re_ac_id input with
    | Some id => when (negb isReview) (modify (acs_setStatus id Satisfied (Some by_) nowIso))
    | None => mret tt
    end;;;
    let* eventId := ticket_event (tk_id ticket) actor "evidence.recorded"
      (JSObj [("evidence_id", JSStr evidenceId); ("ac_id", JSNullable (re_ac_id input));
              ("evidence_type", JSStr (evidence_type_name (re_evidence_type input)))]) in
    mret (evidenceId, eventId)).

Definition submitForReview (input : SubmitForReviewInput) (actor : Actor)
    : Op (string * TicketStatus * string) :=
  let* nowIso := now in
  inTransaction (
    let* claim := activeClaimForToken (sr_claimToken input) nowIso in
    let* ticket := resolveRef (sr_ticket_id input) in
    guard_ (bool_decide (cl_ticket_id claim = tk_id ticket)) claim_mismatch;;;
    when (bool_decide (status ticket = Claimed))
      (transition (move (tk_id ticket) actor InProgress "submit_for_review" (Some Claimed)
                     [agentSubmit]);;; mret tt);;;
    let* result := transition (move (tk_id ticket) actor InReview
                                 (sr_reason input ?? "submit_for_review") (Some InProgress)
                                 [agentSubmit]) in
    modify (claims_setStatus (cl_id claim) Completed nowIso);;;
    let* eventId := ticket_event (tk_id ticket) actor "claim.completed"
                      (JSObj [("claim_id", JSStr (cl_id claim))]) in
    mret (tk_id ticket, status (result_ticket result), eventId)).

Definition markBlocked (input : MarkBlockedInput) (actor : Actor) : Op (string * string) :=
  let* nowIso := now in
  inTransaction (
    let* ticket := resolveRef (mb_ticket_id input) in
    match given (mb_claimToken input) with
    | Some token => claim_on token (tk_id ticket) nowIso;;; mret tt
    | None => guard_ (negb (bool_decide (actor_type actor = AgentActor)))
                (DispatchError CLAIM_REQUIRED
                   "An agent must present a valid claim token to block a ticket.")
    end;;;
    transition (move (tk_id ticket) actor Blocked (mb_reason input) None []);;;
    let* eventId := ticket_event (tk_id ticket) actor "ticket.blocked"
                      (JSObj [("reason", JSStr (mb_reason input))]) in
    mret (tk_id ticket, eventId)).

Definition releaseClaim (claimToken : string) (actor : Actor) : Op unit :=
  let* nowIso := now in
  inTransaction (
    let* claim := activeClaimForToken claimToken nowIso in
    modify (claims_setStatus (cl_id claim) Released nowIso);;;
    let* ticket := gets (tickets_findById (cl_ticket_id claim)) in
    match ticket with
    | Some t => when (in_delivery (status t))
                  (transition (move (tk_id t) actor Ready "release_claim" None [systemOverride]);;;
                   mret tt)
    | None => mret tt
    end;;;
    ticket_event (cl_ticket_id claim) actor "claim.released"
      (JSObj [("claim_id", JSStr (cl_id claim))]);;;
    mret tt).

(** ** The runner's calls *)

Definition target_name (t : ReleaseTarget) : string := status_name (release_status t).

Definition runnerRelease (input : RunnerReleaseInput) (actor : Actor)
    : Op (TicketStatus * string) :=
  let* nowIso := now in
  inTransaction (
    let* ticket := resolveRef (rr_ticket_id input) in
    let id := tk_id ticket in
    match given (rr_claimToken input) with
    | Some token =>
        let* claim := claim_on token id nowIso in
        modify (claims_setStatus (cl_id claim) Released nowIso);;;
        ticket_event id actor "claim.released" (JSObj [("claim_id", JSStr (cl_id claim))]);;;
        mret tt
    | None => mret tt
    end;;;
    let reason := rr_reason input ?? ("runner_release_" +:+ target_name (rr_to input)) in
    let* result := transition (move id actor (release_status (rr_to input)) reason None
                                 [systemOverride; runnerRelease]) in
    when (negb (bool_decide (rr_to input = ToReady)))
      (modify (tickets_setReviewFeedback id
         (Some (mk_ReviewFeedback reason (actor_id actor) nowIso (given (rr_reasonCode input))
                  (rr_attempt input) (rr_maxAttempts input)))));;;
    when (bool_decide (rr_to input = ToBlocked))
      (ticket_event id actor "ticket.blocked"
         (JSObj [("reason", JSStr reason); ("reason_code", JSNullable (rr_reasonCode input))]);;;
       mret tt);;;
    when (bool_decide (rr_to input = ToReady)
          && bool_decide (rr_reasonCode input = Some "usage_limit"))
      (ticket_event id actor "ticket.usage_limited"
         (JSObj [("reason", JSStr reason); ("reason_code", JSStr "usage_limit");
                 ("paused_until", JSNullable (toISOString <$> rr_pausedUntil input))]);;;
       mret tt);;;
    mret (status (result_ticket result), eventId result)).

Definition recordReworkAttempt (input : ReworkInput) (actor : Actor) : Op (option string) :=
  let* nowIso := now in
  inTransaction (
    let* ticket := resolveRef (ri_ticket_id input) in
    let* id := newId in
    let row := mk_ReworkAttempt id (tk_id ticket) (ri_attempt input) (Some (ri_maxAttempts input))
      (ri_gate input) (ri_distilledFailure input ?? ri_reason input) (ri_acId input) nowIso in
    if ri_final input
    then modify (reworkAttempts_insert row);;; mret None
    else
      modify (tickets_setReviewFeedback (tk_id ticket)
        (Some (mk_ReviewFeedback (ri_reason input) (actor_id actor) nowIso (Some "reworking")
                 (Some (ri_attempt input)) (Some (ri_maxAttempts input)))));;;
      modify (reworkAttempts_insert row);;;
      let* eventId := ticket_event (tk_id ticket) actor "ticket.reworking"
        (JSObj [("attempt", JSNum (ri_attempt input));
                ("max_attempts", JSNum (ri_maxAttempts input));
                ("reason", JSStr (ri_reason input)); ("gate", JSNullable (ri_gate input))]) in
      mret (Some eventId)).

(** One round of the expiry sweep on the accumulated
    [(expired, blockedTicketIds)]. *)
Definition expire_claim (actor : Actor) (nowIso : instant) (acc : Z * list string)
    (claim : TicketClaim) : Op (Z * list string) :=
  modify (claims_setStatus (cl_id claim) Expired nowIso);;;
  let* o := gets (tickets_findById (cl_ticket_id claim)) in
  match o with
  | None => mret ((acc.1 + 1)%Z, acc.2)
  | Some ticket =>
      if negb (in_delivery (status ticket)) then mret ((acc.1 + 1)%Z, acc.2) else
      let* lapsed := returnLapsedResumeToPaused ticket (cl_id claim) actor in
      if lapsed : bool then mret ((acc.1 + 1)%Z, acc.2) else
      let* blockers := gets (decisions_blockingForTicket (tk_id ticket)) in
      let blocked := bool_decide (0 < length blockers)%nat in
      let to := if blocked then Blocked else Ready in
      transition (move (tk_id ticket) actor to "claim_expired" None [systemOverride]);;;
      ticket_event (tk_id ticket) actor "claim.expired"
        (JSObj [("claim_id", JSStr (cl_id claim)); ("returned_to", JSStr (status_name to))]);;;
      mret ((acc.1 + 1)%Z, if blocked then acc.2 ++ [tk_id ticket] else acc.2)
  end.
Definition expireStaleClaims (actor : Actor) : Op (Z * list string) :=
  let* nowIso := now in
  inTransaction (
    let* stale := gets (claims_listExpired nowIso) in
    for_fold (expire_claim actor nowIso) (0%Z, []) stale).

Definition assertClaimOnTicket (claimToken ticketId : string) : Op TicketClaim :=
  let* nowIso := now in
  claim_on claimToken ticketId nowIso.

Definition leaseResumedDelivery (ticketId agentId : string) (ttlSeconds : Z) (actor : Actor)
    : Op (string * instant) :=
  let* nowIso := now in
  inTransaction (
    let* agent := eligible_agent agentId nowIso in
    modify (claims_releaseActiveForTicket ticketId nowIso);;;
    let* claimToken := newClaimToken in
    let* id := newId in
    let claim := new_claim id ticketId (ag_id agent) claimToken ttlSeconds nowIso in
    claims_insert claim;;;
    ticket_event ticketId actor "claim.created"
      (JSObj [("claim_id", JSStr id); ("agent_id", JSStr (ag_id agent));
              ("expires_at", JSStr (toISOString (expires_at claim))); ("resumed", JSBool true)]);;;
    mret (claimToken, expires_at claim)).

(** [ticketIdForToken]: the lease may have lapsed. *)
Definition ticketIdForToken (claimToken : string) (d : db) : option string :=
  cl_ticket_id <$> claims_findByTokenHash (hashClaimToken claimToken) d.
End service.
