(* ===== verification/Tickets.v ===== *)
(** * Tickets and their dependencies

    The parts of [src/packages/dispatch/src/services/ticketService.ts] that
    decide when a ticket may be worked: creation, the human block and unblock,
    the dependency graph with its cycle check, claimability, the ready
    approval, the reviewer and the required capabilities. *)
From S2P Require Import Prelude Json Types EventChain Store Policy Diff Transition Claims.

(** [createTicketInput.parse(raw)]: the parsed input, its defaults filled in. *)
Record CreateTicketInput := mk_CreateTicketInput {
  in_title : string;
  in_description : string;
  in_priority : Z;
  in_risk_level : RiskLevel;
  in_policy_pack : PolicyPack;
  in_source : option string;
  in_created_by : option string;
  in_bootstrap : bool;
  in_acceptance : bool;
  in_delivery_budget_usd : option Z
}.

(** [COALESCE(MAX(number), 0) + 1] *)
Definition tickets_nextNumber (d : db) : Z :=
  (foldr (λ t m, Z.max (number t ?? 0) m) 0 (rows (tickets d)) + 1)%Z.
Definition tickets_insert (t : Ticket) : Op unit := λ d,
  match tickets d !! tk_id t with
  | Some _ => Err SqliteConstraintPrimaryKey
  | None =>
      if match number t with
         | Some n => bool_decide (tickets_findByNumber n d ≠ None) | None => false
         end
      then Err SqliteConstraintUnique
      else Ok tt (set_tickets (<[tk_id t := t]> (tickets d)) d)
  end.

(** [requiredCapabilities.setForTicket] and [listForTicket]. *)
Definition requiredCapabilities_setForTicket (ticketId : string) (capabilities : list string)
    (d : db) : db :=
  set_ticket_required_capabilities
    (filter (λ p, p.1 ≠ ticketId) (ticket_required_capabilities d)
     ++ (pair ticketId <$> distinct capabilities)) d.

Definition requiredCapabilities_listForTicket (ticketId : string) (d : db) : list string :=
  merge_sort str_le (required_capabilities ticketId d).

(** ** The dependency graph *)

(** [dependencyCycleWouldForm]: the worklist loop, [None] when the fuel runs
    out.  [stack.pop()] takes the last entry pushed, the head here. *)
Fixpoint cycle_walk (fuel : nat) (target : string) (seen : gset string) (stack : list string)
    (d : db) : option bool :=
  match fuel with
  | O => None
  | S fuel =>
      match stack with
      | [] => Some false
      | current :: stack =>
          if bool_decide (current = target) then Some true
          else if bool_decide (current ∈ seen) then cycle_walk fuel target seen stack d
          else cycle_walk fuel target ({[current]} ∪ seen)
                 (rev (deps_dependsOn current d) ++ stack) d
      end
  end.
(** One round per entry ever pushed (the start, and each edge once) and the
    round that finds the stack empty. *)
Definition cycle_fuel (d : db) : nat := S (S (length (ticket_dependencies d))).
Definition dependencyCycleWouldForm (startTicketId targetTicketId : string) (d : db) : bool :=
  cycle_walk (cycle_fuel d) targetTicketId ∅ [startTicketId] d ?? false.

Record Claimability := mk_Claimability {
  cb_ticketId : string;
  cb_ready : bool;
  cb_blockers : list PolicyFailure;
  cb_warnings : list PolicyFailure
}.

Section service.
Context `{Env}.

Definition human_or_admin (actor : Actor) : bool :=
  bool_decide (actor_type actor = Human) || bool_decide (actor_type actor = Admin).
Definition assertHumanOrAdmin (actor : Actor) (what : string) : Op unit :=
  guard_ (human_or_admin actor)
    (DispatchError ACTOR_NOT_PERMITTED
       ("Only a human or admin may " +:+ what
        +:+ "; an agent blocks its own claim with its claim token.")).

Definition createTicket (input : CreateTicketInput) (actor : Actor) : Op Ticket :=
  let* nowIso := now in
  inTransaction (
    let* id := newId in
    let* n := gets tickets_nextNumber in
    let ticket := mk_Ticket id (Some n) (in_title input) (in_description input) Draft
      (in_priority input) (in_risk_level input) (in_policy_pack input) (in_source input)
      (coalesce (in_created_by input) (actor_id actor)) None None None 0 0 None None
      (if in_bootstrap input then 1 else 0)%Z None 0 None
      (if in_acceptance input then 1 else 0)%Z 0 None None (in_delivery_budget_usd input)
      nowIso nowIso in
    tickets_insert ticket;;;
    ticket_event id actor "ticket.created"
      (JSObj ([("title", JSStr (title ticket)); ("policy_pack", JSStr (pack_name (policy_pack ticket)))]
              ++ (if in_bootstrap input then [("bootstrap", JSBool true)] else [])
              ++ (if in_acceptance input then [("acceptance", JSBool true)] else [])));;;
    mret ticket).

(** ** Human block and unblock *)

Definition humanBlockTicket (ref reason : string) (actor : Actor)
    : Op (string * TicketStatus * string) :=
  assertHumanOrAdmin actor "block a ticket without a claim token";;;
  let why := trim reason in
  guard_ (negb (bool_decide (why = "")))
    (DispatchError VALIDATION_ERROR "A reason is required.");;;
  inTransaction (
    let* ticket := resolveRef ref in
    let from := status ticket in
    let humanOwned := bool_decide (from = InProgress) && bool_decide (human_owner ticket ≠ None) in
    guard_ (bool_decide (from = Draft) || bool_decide (from = Refining)
            || bool_decide (from = Ready) || humanOwned)
      (DispatchError STATE_CONFLICT
         (if in_delivery from
          then "Ticket #" +:+ ticket_label ticket +:+ " is '" +:+ status_name from
               +:+ "' under an agent's claim: the agent "
               +:+ "blocks it with its claim token (--token), or release the claim first."
          else "Ticket #" +:+ ticket_label ticket +:+ " is '" +:+ status_name from
               +:+ "'; a person can block a draft, " +:+ "refining, ready or by-hand ticket."));;;
    transition (move (tk_id ticket) actor Blocked why None [humanBlock]);;;
    let* eventId := ticket_event (tk_id ticket) actor "ticket.blocked"
      (JSObj [("reason", JSStr why); ("from", JSStr (status_name from))]) in
    mret (tk_id ticket, from, eventId)).

(** A member of a JSON object payload. *)
Definition js_member (k : string) (v : js) : option js :=
  match v with
  | JSObj ms => snd <$> head (filter (λ m : string * js, m.1 = k) ms)
  | _ => None
  end.
Definition payload_string (k : string) (r : ChainRow) : option string :=
  match payload r ≫= js_member k with Some (JSStr s) => Some s | _ => None end.

(** The newest transition into [blocked]: the greatest [created_at], the last
    row among equals. *)
Definition newer (best : option ChainRow) (r : ChainRow) : option ChainRow :=
  match best with
  | Some b => if bool_decide (str_le (we_created_at b) (we_created_at r)) then Some r else Some b
  | None => Some r
  end.
Definition last_block (id : string) (d : db) : option ChainRow :=
  foldl newer None
    (filter (λ r, EventChain.entity_type r = "ticket" ∧ EventChain.entity_id r = id ∧
                  EventChain.event_type r = "ticket.transitioned" ∧
                  payload_string "to" r = Some "blocked") (work_events d)).
Definition blocked_from (id : string) (d : db) : option string :=
  last_block id d ≫= payload_string "from".
Definition unblock_target (to : option TicketStatus) (blockedFrom : option string) : TicketStatus :=
  match to with
  | Some t => t
  | None => if bool_decide (blockedFrom = Some "draft") then Draft
            else if bool_decide (blockedFrom = Some "refining") then Refining else Ready
  end.

(** [to] is one of ready, refining and draft. *)
Definition humanUnblockTicket (ref : string) (actor : Actor) (to : option TicketStatus)
    : Op (string * TicketStatus * string) :=
  assertHumanOrAdmin actor "unblock a ticket";;;
  inTransaction (
    let* ticket := resolveRef ref in
    guard_ (bool_decide (status ticket = Blocked))
      (DispatchError STATE_CONFLICT
         ("Ticket #" +:+ ticket_label ticket +:+ " is '" +:+ status_name (status ticket)
          +:+ "', not blocked."));;;
    let* from := gets (blocked_from (tk_id ticket)) in
    let target := unblock_target to from in
    transition (move (tk_id ticket) actor target "unblock" None [humanBlock]);;;
    let* eventId := ticket_event (tk_id ticket) actor "ticket.unblocked"
                      (JSObj [("to", JSStr (status_name target))]) in
    mret (tk_id ticket, target, eventId)).
(** ** Dependencies *)

Definition addDependency (ticketRef dependsOnRef : string) (actor : Actor)
    : Op (string * string * string) :=
  let* nowIso := now in
  inTransaction (
    let* ticket := resolveRef ticketRef in
    let* dependsOn := resolveRef dependsOnRef in
    guard_ (negb (bool_decide (tk_id ticket = tk_id dependsOn)))
      (DispatchError INVALID_DEPENDENCY "A ticket cannot depend on itself.");;;
    let* exists_ := gets (deps_exists (tk_id ticket) (tk_id dependsOn)) in
    guard_ (negb exists_) (DispatchError DUPLICATE "That dependency already exists.");;;
    let* cycle := gets (dependencyCycleWouldForm (tk_id dependsOn) (tk_id ticket)) in
    guard_ (negb cycle)
      (DispatchError INVALID_DEPENDENCY "This dependency would create a cycle.");;;
    modify (deps_insert (mk_TicketDependency (tk_id ticket) (tk_id dependsOn) nowIso));;;
    let* eventId := ticket_event (tk_id ticket) actor "ticket.dependency_added"
      (JSObj [("depends_on_ticket_id", JSStr (tk_id dependsOn));
              ("depends_on_number", nullable_num (number dependsOn))]) in
    mret (tk_id ticket, tk_id dependsOn, eventId)).

Definition listDependencies (ticketRef : string) : Op (list TicketDependencyView) :=
  let* ticket := resolveRef ticketRef in
  gets (deps_listForTicket (tk_id ticket)).

(** [#n], or the id of a ticket without a number. *)
Definition ticket_ref (t : Ticket) : string :=
  match number t with Some n => "#" +:+ pretty n | None => tk_id t end.

Definition removeDependency (ticketRef dependsOnRef : string) (actor : Actor)
    : Op (string * string * string) :=
  inTransaction (
    let* ticket := resolveRef ticketRef in
    let* dependsOn := resolveRef dependsOnRef in
    let* removed := deps_delete (tk_id ticket) (tk_id dependsOn) in
    guard_ removed
      (DispatchError NOT_FOUND
         ("Ticket " +:+ ticket_ref ticket +:+ " does not depend on " +:+ ticket_ref dependsOn
          +:+ " (`ticket dep list " +:+ ticket_label ticket
          +:+ "` shows what it does depend on)."));;;
    let* eventId := ticket_event (tk_id ticket) actor "ticket.dependency_removed"
      (JSObj [("depends_on_ticket_id", JSStr (tk_id dependsOn))]) in
    mret (tk_id ticket, tk_id dependsOn, eventId)).

(** ** Claimability *)

Definition dependency_blocker (unsatisfied : list TicketDependencyView) : list PolicyFailure :=
  match unsatisfied with
  | [] => []
  | _ => [mk_PolicyFailure "DEPENDENCY_BLOCKED"
           ("Blocked by " +:+ join ", " ((λ v, match dv_number v with
                                             | Some n => "#" +:+ pretty n
                                             | None => dv_depends_on_ticket_id v
                                             end) <$> unsatisfied)
            +:+ " (must be done first).")]
  end.
Definition decision_blocker (open_ : list Decision) : list PolicyFailure :=
  match open_ with
  | [] => []
  | _ => [mk_PolicyFailure "DECISION_BLOCKED"
           ("Waiting on " +:+ (match open_ with
                               | [_] => "a decision"
                               | _ => pretty (Z.of_nat (length open_)) +:+ " decisions"
                               end)
            +:+ ": " +:+ join "; " (de_title <$> open_)
            +:+ " (answer it: gaffer wg decisions resolve <id>).")]
  end.

Definition claimability (ticketRef : string) : Op Claimability :=
  let* ticket := resolveRef ticketRef in
  let id := tk_id ticket in
  let* unsatisfied := gets (deps_unsatisfiedDependencies id) in
  let* open_ := gets (decisions_blockingForTicket id) in
  let blockers := dependency_blocker unsatisfied ++ decision_blocker open_ in
  let clear := bool_decide (length blockers = 0%nat) in
  if negb (bool_decide (status ticket = Draft) || bool_decide (status ticket = Refining))
  then mret (mk_Claimability id clear blockers [])
  else
    let* p := preview id Ready in
    mret match p with
         | None => mk_Claimability id clear blockers []
         | Some p => mk_Claimability id (allowed p && clear) (failures p ++ blockers) (warnings p)
         end.

Definition isClaimableNow (ticket : Ticket) : Op bool :=
  if negb (bool_decide (status ticket = Ready)) || bool_decide (human_owner ticket ≠ None)
  then mret false
  else let* c := claimability (tk_id ticket) in mret (cb_ready c).

(** ** Smaller mutations *)

Definition resetAcceptanceCriteria (ref : string) (actor : Actor) : Op (string * Z * string) :=
  inTransaction (
    let* ticket := resolveRef ref in
    let* nowIso := now in
    let* reset := acs_resetForTicket (tk_id ticket) nowIso in
    let* eventId := ticket_event (tk_id ticket) actor "ticket.acceptance_criteria_reset"
                      (JSObj [("reset", JSNum reset)]) in
    mret (tk_id ticket, reset, eventId)).

Definition grantReadyApproval (ref : string) (actor : Actor) : Op (string * string) :=
  guard_ (human_or_admin actor)
    (DispatchError ACTOR_NOT_PERMITTED "Only a human or admin may grant a ready-approval.");;;
  inTransaction (
    let* ticket := resolveRef ref in
    let* eventId := ticket_event (tk_id ticket) actor "ticket.ready_approved"
      (JSObj [("granted_by", JSStr (actor_id actor ?? actor_type_name (actor_type actor)))]) in
    mret (tk_id ticket, eventId)).

Definition assignReviewer (ref reviewerId : string) (actor : Actor)
    : Op (string * string * string) :=
  guard_ (human_or_admin actor)
    (DispatchError ACTOR_NOT_PERMITTED "Only a human or admin may assign a reviewer.");;;
  let reviewer := trim reviewerId in
  guard_ (negb (bool_decide (reviewer = "")))
    (DispatchError VALIDATION_ERROR "A reviewer id is required.");;;
  let* nowIso := now in
  inTransaction (
    let* ticket := resolveRef ref in
    let* ok := tickets_updateStatus (tk_id ticket) (status ticket) (row_version ticket)
                 (mk_TicketPatch None None (Some reviewer) None) nowIso in
    guard_ ok (DispatchError CONCURRENCY_CONFLICT "Ticket changed concurrently; retry.");;;
    let* eventId := ticket_event (tk_id ticket) actor "ticket.reviewer_assigned"
                      (JSObj [("reviewer", JSStr reviewer)]) in
    mret (tk_id ticket, reviewer, eventId)).

(** [setRequiredCapabilitiesInput] trims each capability and wants one to a
    hundred characters of it. *)
Definition capability_ok (c : string) : bool :=
  bool_decide (1 ≤ String.length (trim c) ∧ String.length (trim c) ≤ 100)%nat.
Definition setRequiredCapabilities (ref : string) (caps : list string) (actor : Actor)
    : Op (string * list string * string) :=
  guard_ (forallb capability_ok caps) SchemaError;;;
  let capabilities := distinct (trim <$> caps) in
  inTransaction (
    let* ticket := resolveRef ref in
    modify (requiredCapabilities_setForTicket (tk_id ticket) capabilities);;;
    let* eventId := ticket_event (tk_id ticket) actor "ticket.required_capabilities_set"
                      (JSObj [("capabilities", JSArr (JSStr <$> capabilities))]) in
    mret (tk_id ticket, capabilities, eventId)).
Definition listRequiredCapabilities (ref : string) : Op (list string) :=
  let* ticket := resolveRef ref in gets (requiredCapabilities_listForTicket (tk_id ticket)).
End service.
