(* ===== verification/Decisions.v ===== *)
(** * Decisions

    [src/packages/dispatch/src/services/decisionService.ts]: a question a
    person answers, linked to the tickets it blocks or informs.  The
    best-effort notification sent after the commit is not modelled. *)
From S2P Require Import Prelude Json Types EventChain Store.

Record CreateDecisionInput := mk_CreateDecisionInput {
  dc_title : string;
  dc_question : string;
  dc_severity : option DecisionSeverity;
  dc_ticketId : option string;
  dc_ticketIds : option (list string)
}.
(** [ResolveDecisionInput]; its [status] is accepted or rejected. *)
Record ResolveDecisionInput := mk_ResolveDecisionInput {
  rs_decisionId : string;
  rs_accepted : bool;
  rs_answer : option string;
  rs_rationale : option string
}.
Definition resolution (input : ResolveDecisionInput) : DecisionStatus :=
  if rs_accepted input then Accepted else Rejected.

(** [[...new Set([ticketId, ...ticketIds])]], without the empty entries. *)
Definition linked_tickets (input : CreateDecisionInput) : list string :=
  filter (λ id, id ≠ "") (distinct
    (match dc_ticketId input with Some id => [id] | None => [] end ++ (dc_ticketIds input ?? []))).
Definition informational (s : DecisionSeverity) : bool :=
  bool_decide (s = LogOnly) || bool_decide (s = AgentCanChoose).

Section service.
Context `{Env}.

Definition needs (field : string) (value : string) : Op unit :=
  guard_ (negb (bool_decide (trim value = "")))
    (DispatchError VALIDATION_ERROR ("A decision needs a " +:+ field +:+ ".")).

Definition createDecision (input : CreateDecisionInput) (actor : Actor) : Op Decision :=
  needs "title" (dc_title input);;;
  needs "question" (dc_question input);;;
  let* nowIso := now in
  inTransaction (
    let* id := newId in
    let created := mk_Decision id (dc_title input) (dc_question input) None
      (if bool_decide (dc_severity input = Some HumanRequired) then StHumanRequired else Requested)
      "product" (dc_severity input ?? HumanPreferred) None None None None None None None
      nowIso nowIso in
    decisions_insert created;;;
    for_each (linked_tickets input) (λ ticketId,
      decisions_link ticketId id (if informational (severity created) then "informs" else "blocks")
        nowIso);;;
    writeEvent "decision" id actor "decision.created"
      (Some (JSObj [("title", JSStr (de_title created));
                    ("severity", JSStr (severity_name (severity created)))])) None;;;
    mret created).

Definition listPendingDecisions : Op (list Decision) := gets decisions_listPending.
Definition getDecision (decisionId : string) : Op Decision :=
  let* o := gets (decisions_findById decisionId) in
  require o (notFound "decision" decisionId).

Definition resolveDecision (input : ResolveDecisionInput) (actor : Actor) : Op Decision :=
  let* nowIso := now in
  inTransaction (
    let* decision := getDecision (rs_decisionId input) in
    guard_ (negb (decision_resolved (de_status decision)))
      (DispatchError STATE_CONFLICT
         ("Decision is already '" +:+ decision_status_name (de_status decision)
          +:+ "' and cannot be resolved again."));;;
    let* ok := decisions_resolve (de_id decision) (resolution input) (rs_answer input)
                 (rs_rationale input)
                 (Some (actor_id actor ?? actor_type_name (actor_type actor))) nowIso in
    guard_ ok (DispatchError CONCURRENCY_CONFLICT "Decision changed concurrently; retry.");;;
    writeEvent "decision" (de_id decision) actor "decision.resolved"
      (Some (JSObj [("status", JSStr (decision_status_name (resolution input)));
                    ("answer", JSNullable (rs_answer input))])) None;;;
    getDecision (de_id decision)).
End service.
