(* ===== verification/Pause.v ===== *)
(** * Pause and resume

    [src/packages/dispatch/src/services/pauseService.ts]: a delivery that hit
    a cap is paused with the context to resume it, continued by a person,
    re-entered by the runner or stopped.  The notification sent after the
    commit is not modelled. *)
From S2P Require Import Prelude Json Types EventChain Store Policy Diff Transition Claims Tickets.

Definition PAUSABLE_FROM : list TicketStatus := [InProgress; InReview; Claimed].

(** [PauseInput]; [null] and absent fields behave alike. *)
Record PauseInput := mk_PauseInput {
  pi_reason : PauseReason;
  pi_branch_name : option string;
  pi_worktree_path : option string;
  pi_worktrees_json : option string;
  pi_repo : option string;
  pi_attempt : option Z;
  pi_turns : option Z;
  pi_spend : option string
}.
Definition pause_context (input : PauseInput) : PauseContext :=
  mk_PauseContext (pi_reason input) (pi_branch_name input) (pi_worktree_path input)
    (pi_worktrees_json input) (pi_repo input) (pi_attempt input ?? 0%Z) (pi_turns input)
    (pi_spend input).

Definition no_resume_context : error :=
  DispatchError NOT_FOUND "No paused-delivery resume context found for this ticket.".

Section service.
Context `{Env}.

Definition pauseDelivery (ticketRef : string) (input : PauseInput) (actor : Actor)
    : Op TransitionResult :=
  inTransaction (
    let* ticket := resolveRef ticketRef in
    guard_ (bool_decide (status ticket ∈ PAUSABLE_FROM))
      (DispatchError ILLEGAL_TRANSITION
         ("Only an in-flight delivery can be paused (status was '"
          +:+ status_name (status ticket) +:+ "')."));;;
    let* res := transition (move (tk_id ticket) actor Paused
                  ("paused_" +:+ pause_reason_name (pi_reason input))
                  (Some (status ticket)) [Transition.pauseDelivery]) in
    let ctx := pause_context input in
    let* nowIso := now in
    modify (paused_upsert (tk_id ticket) ctx nowIso);;;
    ticket_event (tk_id ticket) actor "ticket.paused"
      (JSObj [("reason", JSStr (pause_reason_name (pi_reason input)));
              ("branch_name", JSNullable (pc_branch_name ctx));
              ("worktree_path", JSNullable (pc_worktree_path ctx));
              ("attempt", JSNum (pc_attempt ctx)); ("turns", nullable_num (pc_turns ctx));
              ("spend", JSNullable (pc_spend ctx))]);;;
    mret res).

Definition requestContinue (ticketRef : string) (actor : Actor) : Op (string * string) :=
  inTransaction (
    let* ticket := resolveRef ticketRef in
    guard_ (bool_decide (status ticket = Paused))
      (DispatchError ILLEGAL_TRANSITION
         ("Only a paused ticket can be continued (status was '"
          +:+ status_name (status ticket) +:+ "')."));;;
    let* ctx := gets (paused_find (tk_id ticket)) in
    guard_ (bool_decide (ctx ≠ None)) no_resume_context;;;
    let* nowIso := now in
    modify (paused_setResumeRequested (tk_id ticket) true nowIso);;;
    let* eventId := ticket_event (tk_id ticket) actor "ticket.resume_requested" (JSObj []) in
    mret (tk_id ticket, eventId)).

Record Resumed := mk_Resumed {
  rm_ticketId : string;
  rm_eventId : string;
  rm_context : PausedDelivery;
  rm_claimToken : option string
}.

Definition beginResume (ticketRef : string) (actor : Actor) : Op Resumed :=
  inTransaction (
    let* ticket := resolveRef ticketRef in
    guard_ (bool_decide (status ticket = Paused))
      (DispatchError ILLEGAL_TRANSITION
         ("Only a paused ticket can resume delivery (status was '"
          +:+ status_name (status ticket) +:+ "')."));;;
    let* o := gets (paused_find (tk_id ticket)) in
    let* context := require o no_resume_context in
    transition (move (tk_id ticket) actor InProgress "resume_delivery" (Some Paused)
                  [resumeDelivery]);;;
    let* nowIso := now in
    modify (paused_setResumeRequested (tk_id ticket) false nowIso);;;
    let* eventId := ticket_event (tk_id ticket) actor "ticket.resumed"
      (JSObj [("branch_name", JSNullable (pd_branch_name context));
              ("attempt", JSNum (pd_attempt context))]) in
    mret (mk_Resumed (tk_id ticket) eventId context None)).

(** [reason && reason.trim().length > 0 ? reason : fallback] *)
Definition reason_or (reason : option string) (fallback : string) : string :=
  match reason with
  | Some r => if bool_decide (trim r = "") then fallback else r
  | None => fallback
  end.

Definition stop (ticketRef : string) (actor : Actor) (reason : option string)
    : Op TransitionResult :=
  inTransaction (
    let* ticket := resolveRef ticketRef in
    guard_ (bool_decide (status ticket = Paused))
      (DispatchError ILLEGAL_TRANSITION
         ("Only a paused ticket can be stopped (status was '"
          +:+ status_name (status ticket) +:+ "')."));;;
    let* res := transition (move (tk_id ticket) actor Cancelled
                  (reason_or reason "paused_delivery_stopped") (Some Paused) [wontDo]) in
    resetAcceptanceCriteria (tk_id ticket) actor;;;
    modify (paused_delete (tk_id ticket));;;
    ticket_event (tk_id ticket) actor "ticket.paused_stopped"
      (JSObj [("reason", JSNullable reason)]);;;
    mret res).

Definition getContext (ticketRef : string) : Op (option PausedDelivery) :=
  let* ticket := resolveRef ticketRef in gets (paused_find (tk_id ticket)).
Definition listResumeRequested : Op (list PausedDelivery) := gets paused_listResumeRequested.
Definition clearContext (ticketRef : string) : Op unit :=
  let* ticket := resolveRef ticketRef in modify (paused_delete (tk_id ticket)).
End service.
