(* ===== verification/Lifecycle.v ===== *)
(** * The facade

    [src/packages/dispatch/src/services/ticketLifecycleService.ts] and the
    parts of [reviewLifecycleService.ts] and [reviewGateService.ts] that move
    a ticket without the review gate: the calls a client of the
    control plane makes.  The gate notifications they send after the commit
    are not modelled. *)
From S2P Require Import Prelude Json Types EventChain Store Policy Diff Transition Claims Tickets.
From S2P Require Import Pause Decisions.

Section facade.
Context `{Env}.

(** [beginResume] with its optional lease, in one transaction. *)
Definition lease_resume (ref : string) (actor : Actor) (lease : option (string * Z)) : Op Resumed :=
  inTransaction (
    let* res := beginResume ref actor in
    match lease with
    | None => mret res
    | Some (agentId, ttlSeconds) =>
        let* l := leaseResumedDelivery (rm_ticketId res) agentId ttlSeconds actor in
        mret (mk_Resumed (rm_ticketId res) (rm_eventId res) (rm_context res) (Some l.1))
    end).

Definition facade_claimTicket (ref agentId : string) (ttlSeconds : Z) (actor : Actor)
    : Op ClaimResult :=
  let* ticket := resolveRef ref in
  claimTicket (mk_ClaimTicketInput (tk_id ticket) agentId ttlSeconds) actor.
Definition facade_humanClaimTicket (ref : string) (actor : Actor) : Op (string * Z) :=
  let* ticket := resolveRef ref in humanClaimTicket (tk_id ticket) actor.
Definition facade_humanReleaseTicket (ref : string) (actor : Actor)
    : Op (string * TicketStatus * string) :=
  let* ticket := resolveRef ref in humanReleaseTicket (tk_id ticket) actor.

Definition revokeClaim (claimId : string) (actor : Actor) : Op (string * string) :=
  let* nowIso := now in
  inTransaction (
    let* o := gets (claims_findById claimId) in
    let* claim := require o (notFound "claim" claimId) in
    guard_ (bool_decide (cl_status claim = Active))
      (DispatchError STATE_CONFLICT
         ("Claim is '" +:+ claim_status_name (cl_status claim) +:+ "' and cannot be revoked."));;;
    modify (claims_setStatus (cl_id claim) Revoked nowIso);;;
    let* ticket := gets (tickets_findById (cl_ticket_id claim)) in
    match ticket with
    | Some t => when (in_delivery (status t))
                  (transition (move (tk_id t) actor Ready "claim_revoked" None [systemOverride]);;;
                   mret tt)
    | None => mret tt
    end;;;
    ticket_event (cl_ticket_id claim) actor "claim.revoked"
      (JSObj [("claim_id", JSStr (cl_id claim)); ("agent_id", JSStr (cl_agent_id claim))]);;;
    mret (cl_id claim, cl_ticket_id claim)).

(** The transaction of [moveTicket] for a ticket that is not being sent back
    from review (that drop takes the reject path). *)
Definition board_move (ticket : Ticket) (toStatus : TicketStatus) (actor : Actor)
    : Op TransitionResult :=
  inTransaction (
    let* leased := gets (claims_hasActiveForTicket (tk_id ticket)) in
    let handing_in := bool_decide (status ticket = InProgress) && bool_decide (toStatus = InReview)
                      && negb leased in
    transition (move (tk_id ticket) actor toStatus "board_move" (Some (status ticket))
                  (if handing_in then [unleasedSubmit] else []))).

Definition reopenFromWontDo (ref : string) (to_draft : bool) (actor : Actor) : Op TransitionResult :=
  let* ticket := resolveRef ref in
  transition (move (tk_id ticket) actor (if to_draft then Draft else Refining)
                "reopened_from_wont_do" (Some Cancelled) []).
End facade.
