(* ===== verification/Landing.v ===== *)
(** * Landing

    [src/packages/dispatch/src/services/landingStatus.ts]: which approved
    revisions of a ticket have landed, read off the review pins and landings
    on record; and [services/landingState.ts]: the label of an approved
    change. *)
From Stdlib Require Import Ascii.
From S2P Require Import Prelude Json Types EventChain Store Diff Tickets.

(** ** Text helpers of the queries *)

Definition lower_char (c : ascii) : ascii :=
  let n := nat_of_ascii c in
  if bool_decide (65 ≤ n ∧ n ≤ 90)%nat then ascii_of_nat (n + 32) else c.
(** [String.prototype.toLowerCase], on ASCII letters. *)
Definition toLowerCase (s : string) : string :=
  String.string_of_list_ascii (lower_char <$> String.list_ascii_of_string s).
(** [s LIKE 'prefix%'], which ignores the case of ASCII letters. *)
Definition like_prefix (prefix s : string) : bool :=
  String.prefix (toLowerCase prefix) (toLowerCase s).
Definition slice_from (n : nat) (s : string) : string :=
  String.substring n (String.length s - n) s.
(** [s.slice(0, 12)] *)
Definition short (s : string) : string := String.substring 0 12 s.

Definition is_hex_lower (c : ascii) : bool :=
  let n := nat_of_ascii c in bool_decide ((48 ≤ n ∧ n ≤ 57) ∨ (97 ≤ n ∧ n ≤ 102))%nat.
(** [/^[0-9a-f]{lo,hi}$/] *)
Definition is_hex_between (lo hi : nat) (s : string) : bool :=
  bool_decide (lo ≤ String.length s ∧ String.length s ≤ hi)%nat
  && forallb is_hex_lower (String.list_ascii_of_string s).
(** [/^[0-9a-f]{40}$|^[0-9a-f]{64}$/] *)
Definition SHA_RE (s : string) : bool := is_hex_between 40 40 s || is_hex_between 64 64 s.

(** [NULLIF(x, '')] is [given]; [COALESCE] of several columns. *)
Definition first_of {A} (l : list (option A)) : option A := foldr coalesce None l.

(** The newest row a test accepts: [ORDER BY rowid DESC LIMIT 1]. *)
Definition last_event (P : ChainRow → bool) (d : db) : option ChainRow :=
  find P (rev (work_events d)).
Definition ticket_row (id ty : string) (r : ChainRow) : bool :=
  bool_decide (EventChain.entity_type r = "ticket") && bool_decide (EventChain.entity_id r = id)
  && bool_decide (EventChain.event_type r = ty).
(** A transition of the ticket into a status that passes [P]. *)
Definition transitioned_to (id : string) (P : string → bool) (r : ChainRow) : bool :=
  ticket_row id "ticket.transitioned" r
  && match payload_string "to" r with Some s => P s | None => false end.

(** ** [landingStatus.ts] *)

Definition PR_LANDING_VIAS : list string := ["pr"; "pr-stale"; "local-fallback"].
Definition REVIEW_PIN_PREFIX : string := "gaffer-reviewed-commit:".
Definition LANDING_PREFIX : string := "gaffer-landed-commit:".
Definition REJECT_PIN_PREFIX : string := "gaffer-rejected-commit:".

Record LandingRepoState := mk_LandingRepoState {
  lr_repoId : string;
  lr_repo : string;
  lr_sha : string;
  pinned : bool;
  landed : bool;
  prUrl : option string;
  lr_localPath : option string;
  lr_defaultBranch : string;
  lr_branch : option string
}.
Record LandingStatus := mk_LandingStatus {
  landing_repos : list LandingRepoState;
  landed_count : Z;
  pending : Z;
  partial : bool;
  unpinned : list string
}.

Definition APPROVAL_PATH : list string := ["in_testing"; "ready_for_merge"; "blocked"; "done"].

Definition shaOf (uri : option string) (prefix : string) : option string :=
  let s := uri ?? "" in
  if String.prefix prefix s then
    let sha := toLowerCase (slice_from (String.length prefix) s) in
    if SHA_RE sha then Some sha else None
  else None.

(** A [commit] row the system recorded for a repository, with a uri of the
    given kind. *)
Definition system_commit (ticketId prefix : string) (e : Evidence) : bool :=
  bool_decide (ev_ticket_id e = ticketId) && bool_decide (evidence_type e = Commit)
  && bool_decide (recorded_by_actor_type e = Some "system") && bool_decide (ev_repo_id e ≠ None)
  && match uri e with Some u => like_prefix prefix u | None => false end.

Definition recordedLandingRepos (ticketId : string) (d : db) : list string :=
  merge_sort str_le (distinct (omap (λ e,
    if system_commit ticketId LANDING_PREFIX e
    then rp_name <$> (ev_repo_id e ≫= λ r, repositories d !! r) else None) (evidence d))).

Definition repo_link (ticketId repoId : string) (d : db) : option TicketRepo :=
  head (filter (λ tr, tr_ticket_id tr = ticketId ∧ tr_repo_id tr = repoId) (ticket_repos d)).
(** The columns the pin and the write-repo queries select for a repository. *)
Definition landing_row (ticket : Ticket) (repo : Repository) (sha : string) (pin done_ : bool) (d : db)
    : LandingRepoState :=
  let tr := repo_link (tk_id ticket) (rp_id repo) d in
  let x := repoDeliveries_find (tk_id ticket) (rp_id repo) d in
  mk_LandingRepoState (rp_id repo) (rp_name repo) sha pin done_
    (first_of [given (x ≫= rd_pr_url); given (tr ≫= tr_pr_url)])
    (local_path repo)
    (if bool_decide (default_branch repo = "") then "main" else default_branch repo)
    (first_of [given (tr ≫= tr_branch_name); given (x ≫= rd_branch_name); branch_name ticket]).

Section landing.
Context `{Env}.

(** The latest move of the ticket off the approval's path: when, and where. *)
Definition off_path (ticketId : string) (d : db) : option ChainRow :=
  last_event (transitioned_to ticketId (λ s, negb (bool_decide (s ∈ APPROVAL_PATH)))) d.
Definition stale (entered : option ChainRow) (pinAt : instant) : bool :=
  match entered with
  | None => false
  | Some r =>
      if bool_decide (payload_string "to" r = Some "in_review")
      then negb (String.leb (we_created_at r) (toISOString pinAt))
      else String.leb (toISOString pinAt) (we_created_at r)
  end.

(** [ORDER BY created_at DESC, rowid DESC] *)
Definition newest_evidence (P : Evidence → bool) (d : db) : list Evidence :=
  order_by (λ e, - ev_created_at e)%Z (rev (filter (λ e, P e = true) (evidence d))).

Definition landing_vias (ticketId repoId sha : string) (d : db) : list string :=
  omap (λ e, if system_commit ticketId LANDING_PREFIX e && bool_decide (ev_repo_id e = Some repoId)
                && bool_decide (shaOf (uri e) LANDING_PREFIX = Some sha)
             then Some (match ev_payload e ≫= js_member "via" with Some (JSStr v) => v | _ => "" end)
             else None) (evidence d).
Definition isLanded (ticketId repoId sha : string) (pr : option string) (d : db) : bool :=
  let vias := landing_vias ticketId repoId sha d in
  match vias with
  | [] => false
  | _ => match given pr with
         | Some _ => existsb (λ v, bool_decide (v ∈ PR_LANDING_VIAS)) vias
         | None => true
         end
  end.

(** The latest pin of each repository, unless stale. *)
Fixpoint pinned_repos (ticket : Ticket) (entered : option ChainRow) (seen : list string)
    (pins : list Evidence) (d : db) : list LandingRepoState :=
  match pins with
  | [] => []
  | e :: pins =>
      match ev_repo_id e ≫= λ r, repositories d !! r with
      | None => pinned_repos ticket entered seen pins d
      | Some repo =>
          if bool_decide (rp_id repo ∈ seen) then pinned_repos ticket entered seen pins d else
          let rest := pinned_repos ticket entered (rp_id repo :: seen) pins d in
          if stale entered (ev_created_at e) then rest else
          match shaOf (uri e) REVIEW_PIN_PREFIX with
          | None => rest
          | Some sha =>
              let row := landing_row ticket repo sha true false d in
              landing_row ticket repo sha true
                (isLanded (tk_id ticket) (rp_id repo) sha (prUrl row) d) d :: rest
          end
      end
  end.

(** Under a per-repo approval, the active write repositories it did not pin. *)
Definition unpinned_repos (ticket : Ticket) (repos : list LandingRepoState) (d : db)
    : list LandingRepoState :=
  match repos with
  | [] => []
  | _ => omap (λ l : TicketRepo * Repository,
           if bool_decide (lr_repoId <$> find (λ r, bool_decide (lr_repoId r = rp_id l.2)) repos ≠ None)
           then None else Some (landing_row ticket l.2 "" false false d))
           (active_write_links (tk_id ticket) d)
  end.

Definition by_name (a b : LandingRepoState) : Prop := localeCompare (lr_repo a) (lr_repo b) ≠ Gt.
#[export] Instance by_name_dec : RelDecision by_name.
Proof. intros a b. unfold by_name. apply _. Defined.

Definition computeLandingStatus (ticketId : string) (d : db) : LandingStatus :=
  match tickets d !! ticketId with
  | None => mk_LandingStatus [] 0 0 false []
  | Some ticket =>
      let pinned := pinned_repos ticket (off_path ticketId d) []
                      (newest_evidence (system_commit ticketId REVIEW_PIN_PREFIX) d) d in
      let rest := unpinned_repos ticket pinned d in
      let repos := merge_sort by_name (pinned ++ rest) in
      let landed_ := Z.of_nat (length (filter (λ r, landed r = true) repos)) in
      let pending_ := (Z.of_nat (length repos) - landed_)%Z in
      mk_LandingStatus repos landed_ pending_
        (bool_decide (0 < landed_)%Z && bool_decide (0 < pending_)%Z)
        (merge_sort str_le (lr_repo <$> rest))
  end.
End landing.

(** ** [landingState.ts] *)

Inductive LandingKind := Held | LandingNow | PartlyLanded | LandsNextTick | WaitingForMerge.
Inductive LandingHold := moved_since_review | unpinned_repo | merge_gate_red | ci_red.

Inductive PauseKind := usage_limit | rate_limit.
Record LandingFacts := mk_LandingFacts {
  lf_status : string;
  lf_hold : option LandingHold;
  mergeRunning : bool;
  landedRepos : list string;
  writeRepos : list string;
  movedRepos : list string;
  unpinnedRepos : list string;
  lf_pause : option (string * PauseKind);
  autoMerge : bool;
  mergeLane : bool;
  mergeGateEarned : bool;
  approver : string
}.
Record LandingState := mk_LandingState {
  ls_kind : LandingKind;
  ls_label : string;
  ls_detail : string;
  ls_hold : option LandingHold;
  paused_until : option string
}.

Fixpoint join_with (sep : string) (l : list string) : string :=
  match l with
  | [] => ""
  | [s] => s
  | s :: l => s +:+ sep +:+ join_with sep l
  end.
Definition comma_list : list string → string := join_with ", ".

Definition back_to_review : string :=
  "(Back to review on its ticket page, or `gaffer wg ticket reopen-for-review <n> --reason … --resolution … --as admin`)".
Definition HOLD_WORDS (h : LandingHold) : string * string :=
  match h with
  | moved_since_review =>
      ("Held · moved since review",
       "The branch moved since the review approved it; no landing path merges commits nobody reviewed. Send it back to review "
         +:+ back_to_review +:+ " and approve the new commits.")
  | unpinned_repo =>
      ("Held · approval does not cover every repository",
       "A write repository on this ticket has no approved commit (its delivery head could not be read when the ticket was approved), so no landing path can land it and the ticket can never be done as approved. Send it back to review "
         +:+ back_to_review +:+ " and approve every repository together.")
  | merge_gate_red =>
      ("Held · merge gate failed",
       "The merge onto the current default branch failed its gates; the default branch was not touched. The merge gate runs on every landing path (the merge lane, Merge now, gaffer merge), so none lands it until a person looks.")
  | ci_red =>
      ("Held · CI red",
       "Required CI failed for the commit that would land; no landing path merges it until CI passes or a person looks.")
  end.

(** The write repositories still to land, given that some have. *)
Definition partly (f : LandingFacts) : bool :=
  bool_decide (0 < length (landedRepos f))%nat
  && bool_decide (length (landedRepos f) < length (writeRepos f))%nat.
Definition still_to_land (f : LandingFacts) : list string :=
  filter (λ r, r ∉ landedRepos f) (writeRepos f).
Definition partWords (f : LandingFacts) : string :=
  if partly f
  then " Partly landed: " +:+ comma_list (landedRepos f) +:+ " landed; "
         +:+ comma_list (still_to_land f) +:+ " held."
  else "".

(** The merge lane's own rule. *)
Definition lane_lands (f : LandingFacts) : bool :=
  mergeLane f && (mergeGateEarned f
    || (autoMerge f && (bool_decide (approver f = "human") || bool_decide (approver f = "admin")))).

Definition moved_words (f : LandingFacts) (h : LandingHold) : string :=
  match h, movedRepos f, unpinnedRepos f with
  | moved_since_review, _ :: _, _ => " Moved: " +:+ comma_list (movedRepos f) +:+ "."
  | unpinned_repo, _, _ :: _ => " Not approved: " +:+ comma_list (unpinnedRepos f) +:+ "."
  | _, _, _ => ""
  end.

Definition decideLandingState (f : LandingFacts) : option LandingState :=
  let approved := bool_decide (lf_status f = "ready_for_merge") in
  match lf_hold f with
  | Some h =>
      if approved || bool_decide (lf_status f = "blocked") then
        Some (mk_LandingState Held (HOLD_WORDS h).1
                ((HOLD_WORDS h).2 +:+ moved_words f h +:+ partWords f) (Some h) None)
      else None
  | None =>
      if negb approved then None
      else if mergeRunning f then
        Some (mk_LandingState LandingNow "Approved · landing" "The merge runner is landing it now." None None)
      else if partly f then
        let who := if lane_lands f
          then "The runner's merge lane lands the rest on its next tick (the merge gate and the tester replay run per repository), or Merge now lands the rest at once"
          else "Nothing lands the rest on its own (the merge policy holds this approval now): Merge now lands the rest" in
        Some (mk_LandingState PartlyLanded "Approved · partly landed"
                (comma_list (landedRepos f) +:+ " landed; " +:+ comma_list (still_to_land f)
                 +:+ " not yet landed (pending, still on the delivery branch). " +:+ who
                 +:+ "; a landed repo is never merged again, and the ticket is done when every repository has landed.")
                None None)
      else if lane_lands f then
        let why := if mergeGateEarned f
          then "An earned merge grant covers it: the runner's merge lane lands it on its next tick."
          else "Auto-merge on approval is on: the runner's merge lane lands this human approval on its next tick." in
        match lf_pause f with
        | Some (until, k) =>
            let what := match k with rate_limit => "rate limit" | usage_limit => "usage limit" end in
            Some (mk_LandingState LandsNextTick ("Approved · lands next tick (paused: " +:+ what +:+ ")")
                    (why +:+ " The runner is paused for the " +:+ what +:+ " until " +:+ until
                     +:+ " and runs no tick before then; it lands on the first tick after.")
                    None (Some until))
        | None => Some (mk_LandingState LandsNextTick "Approved · lands next tick" why None None)
        end
      else
        Some (mk_LandingState WaitingForMerge "Approved · waiting for Merge now"
                (if autoMerge f
                 then "Nothing lands it on its own (an agent's approval needs an earned merge grant, or the merge lane is off): press Merge now."
                 else "Auto-merge on approval is off: it lands when someone presses Merge now.")
                None None)
  end.
