(* ===== verification/Autonomy.v ===== *)
(** * Graduated autonomy

    When may an agent's work ship without a person?
    [src/packages/dispatch/src/services/autonomyPolicyService.ts]: the
    environment's floor and the stored policy; [services/observedRisk.ts]: the
    risk read off the real diff, which can only hold a change back;
    [util/testingLane.ts]: which tickets the independent tester gates. *)
From Stdlib Require Import Ascii.
From S2P Require Import Prelude Json JsonParse Types EventChain Store Diff Tickets Landing.

(** ** [autonomyPolicyService.ts] *)

Inductive AutonomyPolicyGate := GApprove | GMerge | GMemory.
Inductive AutonomyMode := ModeOff | ModeRecommend | ModeAuto.
#[export] Instance AutonomyMode_eq_dec : EqDecision AutonomyMode.
Proof. solve_decision. Defined.

(** The point lookup: (repository, risk, gate). *)
Abbreviation PolicyLookup := (string → string → AutonomyPolicyGate → option AutonomyMode) (only parsing).

Definition policyGrantsAuto (lookup : PolicyLookup) (repoIds : list string) (riskLevel : string)
    (gate : AutonomyPolicyGate) : bool :=
  if bool_decide (length repoIds = 0%nat) then false
  else forallb (λ repoId, bool_decide (lookup repoId riskLevel gate = Some ModeAuto)) repoIds.

Definition envFlagOn (value : option string) : bool :=
  bool_decide (toLowerCase (trim (value ?? "")) ∈ ["1"; "true"; "yes"; "on"]).

Section autonomy.
Context `{Env}.

Definition envAllowsAuto (gate : AutonomyPolicyGate) : bool :=
  match gate with
  | GApprove => envFlagOn (process_env "DISPATCH_ALLOW_AGENT_APPROVE")
  | GMerge => envFlagOn (process_env "AUTO_MERGE") && envFlagOn (process_env "MERGE_ON_AGENT_REVIEW")
  | GMemory => envFlagOn (process_env "MEMORY_AUTO_APPROVE")
  end.

Definition isAutonomyAllowed (lookup : PolicyLookup) (repoIds : list string) (riskLevel : string)
    (gate : AutonomyPolicyGate) : bool :=
  envAllowsAuto gate || policyGrantsAuto lookup repoIds riskLevel gate.

Definition writeRepoIdsForTicket (ticket : Ticket) (d : db) : list string :=
  (λ l : TicketRepo * Repository, rp_id l.2) <$> active_write_links (tk_id ticket) d.

(** [autonomyGateDecision]: the decision and the repositories it was taken over. *)
Definition autonomyGateDecision (lookup : PolicyLookup) (ticket : Ticket) (gate : AutonomyPolicyGate)
    (d : db) : bool * list string :=
  let ids := writeRepoIdsForTicket ticket d in
  (isAutonomyAllowed lookup ids (risk_name (risk_level ticket)) gate, ids).
End autonomy.

(** ** [observedRisk.ts] *)

Inductive RiskKind := SensitivePath | DependencyChange | LargeDeletion | TestModified.
Record RiskAnnotation := mk_RiskAnnotation {
  ann_kind : RiskKind;
  severity_high : bool;
  ann_detail : string
}.
(** The columns of [RepoDiff] the observation reads. *)
Record RepoDiff := mk_RepoDiff {
  rd_repo : string;
  rd_files : Z;
  rd_additions : Z;
  rd_deletions : Z;
  rd_unavailable : bool;
  riskAnnotations : list RiskAnnotation
}.
Record ObservedRisk := mk_ObservedRisk {
  level : RiskLevel;
  determinate : bool;
  or_reasons : list string;
  or_files : Z;
  or_lines : Z;
  holds : list string
}.

Definition maxLevel (a b : RiskLevel) : RiskLevel :=
  if bool_decide (riskRank a < riskRank b)%Z then b else a.

(** One annotation of a repository, folded into the observation. *)
Definition observe_annotation (repo : string) (acc : RiskLevel * list string * list string)
    (ann : RiskAnnotation) : RiskLevel * list string * list string :=
  let '(lvl, reasons, hs) := acc in
  match ann_kind ann with
  | SensitivePath => (maxLevel lvl High, reasons ++ [repo +:+ ": " +:+ ann_detail ann], hs)
  | TestModified =>
      let reason := repo +:+ ": tests modified — " +:+ ann_detail ann in
      (maxLevel lvl (if severity_high ann then High else Medium), reasons ++ [reason],
       if severity_high ann then hs ++ [reason] else hs)
  | _ => (maxLevel lvl Medium, reasons ++ [repo +:+ ": " +:+ ann_detail ann], hs)
  end.
Definition observe_repo (acc : RiskLevel * list string * list string) (r : RepoDiff)
    : RiskLevel * list string * list string :=
  foldl (observe_annotation (rd_repo r)) acc (riskAnnotations r).

Definition sum_of {A} (f : A → Z) (l : list A) : Z := foldr (λ x n, f x + n)%Z 0%Z l.

Section observed.
Context `{Env}.

(** A positive integer knob, or its default. *)
Definition intEnv (key : string) (fallback : Z) : Z :=
  match parseInt10 (String.list_ascii_of_string (process_env key ?? "")) with
  | Some n => if bool_decide (0 < n)%Z then n else fallback
  | None => fallback
  end.
Record Thresholds := mk_Thresholds { filesMed : Z; filesHigh : Z; linesMed : Z; linesHigh : Z }.
Definition sizeThresholds : Thresholds :=
  mk_Thresholds (intEnv "DISPATCH_OBSERVED_RISK_FILES_MEDIUM" 10)
    (intEnv "DISPATCH_OBSERVED_RISK_FILES_HIGH" 25)
    (intEnv "DISPATCH_OBSERVED_RISK_LINES_MEDIUM" 200)
    (intEnv "DISPATCH_OBSERVED_RISK_LINES_HIGH" 600).

(** The size of a change, as a level and its reason. *)
Definition size_words (what : string) (files lines : Z) : string :=
  what +:+ " change (" +:+ pretty files +:+ " files, " +:+ pretty lines +:+ " lines)".
Definition size_level (files lines : Z) : option RiskLevel :=
  let t := sizeThresholds in
  if bool_decide (filesHigh t ≤ files)%Z || bool_decide (linesHigh t ≤ lines)%Z then Some High
  else if bool_decide (filesMed t ≤ files)%Z || bool_decide (linesMed t ≤ lines)%Z then Some Medium
  else None.

Definition observedRisk (repos : list RepoDiff) : ObservedRisk :=
  let '(lvl, reasons, hs) := foldl observe_repo (Low, [], []) repos in
  let files := sum_of rd_files repos in
  let lines := sum_of (λ r, rd_additions r + rd_deletions r)%Z repos in
  let lvl' := match size_level files lines with Some l => maxLevel lvl l | None => lvl end in
  let size_reasons := match size_level files lines with
                      | Some High => [size_words "large" files lines]
                      | Some _ => [size_words "sizeable" files lines]
                      | None => []
                      end in
  let sure := bool_decide (0 < length repos)%nat && forallb (λ r, negb (rd_unavailable r)) repos in
  let unsure := if sure then [] else
    match repos with
    | [] => ["no write-repo diff available to observe"]
    | _ => ["diff unavailable for at least one write repo"]
    end in
  mk_ObservedRisk lvl' sure (reasons ++ size_reasons ++ unsure) files lines hs.

Definition observedRiskCeiling : option RiskLevel :=
  let raw := toLowerCase (trim (process_env "DISPATCH_OBSERVED_RISK_CEILING" ?? "")) in
  find (λ l, bool_decide (risk_name l = raw)) [Low; Medium; High; Critical].

Definition shouldEscalate (observed : ObservedRisk) (declared : RiskLevel) : bool :=
  negb (determinate observed)
  || bool_decide (0 < length (holds observed))%nat
  || bool_decide (riskRank declared < riskRank (level observed))%Z
  || match observedRiskCeiling with
     | Some c => bool_decide (riskRank c ≤ riskRank (level observed))%Z
     | None => false
     end.
End observed.

Definition withRunnerIntegrityHolds (observed : ObservedRisk) (hs : list string) : ObservedRisk :=
  match hs with
  | [] => observed
  | _ => mk_ObservedRisk High (determinate observed) (or_reasons observed ++ hs)
           (or_files observed) (or_lines observed) (holds observed ++ hs)
  end.

(** The holds of a runner's DoD summary; [None] is a [TypeError]: a member of
    [null] is read. *)
Definition member_of (k : string) (v : js) : option (option js) :=
  match v with
  | JSNull | JSUndefined => None
  | _ => Some (js_member k v)
  end.
Definition nonempty_string (o : option js) : option string :=
  match o with Some (JSStr s) => given (Some s) | _ => None end.
Definition is_text (s : string) (o : option js) : bool :=
  match o with Some (JSStr s') => bool_decide (s' = s) | _ => false end.
Fixpoint integrity_holds (gates : list js) : option (list string) :=
  match gates with
  | [] => Some []
  | g :: gates =>
      gate ← member_of "gate" g; status_ ← member_of "status" g;
      repo ← member_of "repo" g; note ← member_of "note" g;
      rest ← integrity_holds gates;
      if is_text "integrity" gate && is_text "FLAG" status_
      then Some (((nonempty_string repo ?? "repo") +:+ ": tests modified (runner integrity gate) — "
                  +:+ (nonempty_string note ?? "flagged")) :: rest)
      else Some rest
  end.
Definition runnerIntegrityHolds (summary : option string) : option (list string) :=
  match given summary with
  | None => Some []
  | Some s =>
      if negb (String.prefix "DoD: " s) then Some [] else
      let lines := split_on newline (String.list_ascii_of_string s) in
      match JSON_parse (String.string_of_list_ascii (nth 1 lines [])) with
      | None => Some []
      | Some parsed =>
          gates ← member_of "gates" parsed;
          match gates with
          | Some (JSArr gates) => integrity_holds gates
          | _ => Some []
          end
      end
  end.

(** ** [testingLane.ts] *)

Inductive TestingLaneMode := LaneOn | LaneOff | LaneAuto.
#[export] Instance TestingLaneMode_eq_dec : EqDecision TestingLaneMode.
Proof. solve_decision. Defined.
Record TesterLaneDecision := mk_TesterLaneDecision {
  lane_mode : TestingLaneMode;
  lane_on : bool;
  missing_test_command : list string
}.
Definition testerLaneFor (mode : TestingLaneMode) (writeRepos : list (string * option string))
    : TesterLaneDecision :=
  let missing := (filter (λ r : string * option string, trim (r.2 ?? "") = "") writeRepos).*1 in
  mk_TesterLaneDecision mode
    (match mode with
     | LaneAuto => bool_decide (0 < length writeRepos)%nat && bool_decide (length missing = 0%nat)
     | _ => bool_decide (mode = LaneOn)
     end) missing.

Inductive Provenance := ByAgent | ByHuman | BySystem.
#[export] Instance Provenance_eq_dec : EqDecision Provenance.
Proof. solve_decision. Defined.
Definition provenance_name (p : Provenance) : string :=
  match p with ByAgent => "agent" | ByHuman => "human" | BySystem => "system" end.
Definition testerProvenance (actor : Actor) : Provenance :=
  match actor_type actor with
  | AgentActor => ByAgent
  | SystemActor => BySystem
  | Human | Admin => ByHuman
  end.

Section lane.
Context `{Env}.
Definition testingLaneMode : TestingLaneMode :=
  let raw := toLowerCase (trim (process_env "GAFFER_TESTING" ?? "")) in
  if bool_decide (raw ∈ [""; "auto"]) then LaneAuto
  else if bool_decide (raw ∈ ["1"; "true"; "yes"; "on"]) then LaneOn
  else LaneOff.
Definition isTestingEnabled : bool := bool_decide (testingLaneMode = LaneOn).
End lane.
