(* ===== verification/Verdicts.v ===== *)
(** * Tester verdicts

    What an independent tester's verdict is bound to:
    [src/packages/dispatch/src/util/contractHash.ts], the acceptance profiles
    of [domain/acceptanceProfileNames.ts], the test identities of
    [services/testerReplay.ts], and [validatedBinding] of
    [services/reviewGateService.ts]. *)
From Stdlib Require Import Ascii.
From S2P Require Import Prelude Json JsonParse Types EventChain Store Tickets Landing Autonomy.

(** ** [contractHash.ts] *)

Definition nul : string := String (ascii_of_nat 0) "".
Definition REPLAY_STATES : list string := ["passed"; "failed"; "skipped"].
Record VerdictBinding := mk_VerdictBinding {
  tested_commit : option string;
  contract_hash : option string;
  replay : option string;
  tests_commit : option string
}.
Definition optional_field (k : string) (o : option string) : list (string * js) :=
  match o with Some s => [(k, JSStr s)] | None => [] end.
(** The members the binding spreads into a payload. *)
Definition binding_members (b : VerdictBinding) : list (string * js) :=
  optional_field "tested_commit" (tested_commit b) ++ optional_field "contract_hash" (contract_hash b)
  ++ optional_field "replay" (replay b) ++ optional_field "tests_commit" (tests_commit b).

Section contract.
Context `{Env}.
Definition contractHash (ticketId : string) (d : db) : option string :=
  t ← tickets d !! ticketId;
  Some (sha256_hex (join_with nul
    ([title t; description t] ++ (ac_text <$> acs_listForTicket ticketId d)
     ++ [test_contract t ?? ""]))).
End contract.

(** ** Acceptance profiles *)

Inductive AcceptanceProfile := PUnit | PCli | PApi | PWeb | PMigration | PPerformance.
#[export] Instance AcceptanceProfile_eq_dec : EqDecision AcceptanceProfile.
Proof. solve_decision. Defined.
Definition profile_name (p : AcceptanceProfile) : string :=
  match p with
  | PUnit => "unit" | PCli => "cli" | PApi => "api" | PWeb => "web"
  | PMigration => "migration" | PPerformance => "performance"
  end.
Definition ACCEPTANCE_PROFILES : list AcceptanceProfile :=
  [PUnit; PCli; PApi; PWeb; PMigration; PPerformance].
Definition EXECUTABLE_PROFILES : list AcceptanceProfile := [PCli; PApi].
(** [isAcceptanceProfile], as the profile of that name. *)
Definition profile_of (v : option js) : option AcceptanceProfile :=
  match v with
  | Some (JSStr s) => find (λ p, bool_decide (profile_name p = s)) ACCEPTANCE_PROFILES
  | _ => None
  end.
(** [contractProfile (parseTestContract raw)]: the contract keeps a profile
    that is known and not [unit]; everything else is [unit]. *)
Definition contractProfile (raw : option string) : AcceptanceProfile :=
  match given raw ≫= JSON_parse with
  | Some parsed => profile_of (js_member "profile" parsed) ?? PUnit
  | None => PUnit
  end.
Definition ACCEPTANCE_EVIDENCE_PREFIX : string := "gaffer-acceptance:".

(** ** [testerReplay.ts] *)

Definition TESTER_REPLAY_PREFIX : string := "gaffer-tester-replayed:".
Record TesterTestIdentity := mk_TesterTestIdentity {
  tt_file : string;
  tt_name : string;
  tt_line : option Z;
  tt_column : option Z
}.
Definition MAX_TESTER_IDENTITIES : nat := 5000.

Definition has_char (P : ascii → bool) (s : string) : bool :=
  existsb P (String.list_ascii_of_string s).
Definition is_char (n : nat) (c : ascii) : bool := bool_decide (nat_of_ascii c = n).
Definition is_newline (c : ascii) : bool := is_char 10 c || is_char 13 c.

Definition agree (a b : option Z) : bool :=
  match a, b with Some x, Some y => bool_decide (x = y) | _, _ => true end.
Definition sameTesterIdentity (a b : TesterTestIdentity) : bool :=
  bool_decide (tt_file a = tt_file b) && bool_decide (tt_name a = tt_name b)
  && agree (tt_line a) (tt_line b) && agree (tt_column a) (tt_column b).

Definition text_or_empty (o : option js) : string := match o with Some (JSStr s) => s | _ => "" end.
(** An absent position, a position, or neither. *)
Definition position_of (o : option js) : option (option Z) :=
  match o with
  | None | Some JSUndefined | Some JSNull => Some None
  | Some (JSNum n) => if bool_decide (0 < n)%Z then Some (Some n) else None
  | Some _ => None
  end.
Definition parse_identity (t : js) : option TesterTestIdentity :=
  match t with
  | JSObj _ =>
      let file := trim (text_or_empty (js_member "file" t)) in
      let name := text_or_empty (js_member "name" t) in
      if bool_decide (file = "" ∨ name = "") then None
      else if bool_decide (1000 < String.length file ∨ 2000 < String.length name)%nat then None
      else if has_char (is_char 0) file || has_char (is_char 0) name || has_char is_newline file then None
      else line ← position_of (js_member "line" t); column ← position_of (js_member "column" t);
           Some (mk_TesterTestIdentity file name line column)
  | _ => None
  end.
Fixpoint parse_identities (out : list TesterTestIdentity) (l : list js) : option (list TesterTestIdentity) :=
  match l with
  | [] => Some out
  | t :: l =>
      id ← parse_identity t;
      parse_identities (if existsb (λ x, sameTesterIdentity x id) out then out else out ++ [id]) l
  end.
Definition parseTesterIdentities (raw : js) : option (list TesterTestIdentity) :=
  match raw with
  | JSArr l =>
      if bool_decide (MAX_TESTER_IDENTITIES < length l)%nat then None else parse_identities [] l
  | _ => None
  end.
Definition identity_js (t : TesterTestIdentity) : js :=
  let num k o := match o with Some n => [(k, JSNum n)] | None => [] end in
  JSObj ([("file", JSStr (tt_file t)); ("name", JSStr (tt_name t))]
         ++ num "line" (tt_line t) ++ num "column" (tt_column t)).

Record TesterAgentRef := mk_TesterAgentRef { ta_id : string; ta_run : option string }.
Definition is_alnum (c : ascii) : bool :=
  let n := nat_of_ascii c in
  bool_decide ((48 ≤ n ∧ n ≤ 57) ∨ (65 ≤ n ∧ n ≤ 90) ∨ (97 ≤ n ∧ n ≤ 122))%nat.
Definition plain_id (extra : list ascii) (max : nat) (s : string) : bool :=
  match String.list_ascii_of_string s with
  | [] => false
  | c :: r => is_alnum c && bool_decide (length r ≤ max)%nat
              && forallb (λ c, is_alnum c || bool_decide (c ∈ extra)) r
  end.
Definition TESTER_AGENT_ID_RE : string → bool :=
  plain_id ["."; "_"; ":"; "@"; "-"]%char 63.
Definition TESTER_RUN_ID_RE : string → bool := plain_id ["."; "_"; ":"; "-"]%char 127.
Definition parseTesterAgent (raw : js) : option TesterAgentRef :=
  match raw with
  | JSObj _ =>
      let id := text_or_empty (js_member "id" raw) in
      if negb (TESTER_AGENT_ID_RE id) then None else
      match js_member "run" raw with
      | None | Some JSUndefined | Some JSNull => Some (mk_TesterAgentRef id None)
      | Some (JSStr r) => if TESTER_RUN_ID_RE r then Some (mk_TesterAgentRef id (Some r)) else None
      | Some _ => None
      end
  | _ => None
  end.
Definition tester_agent_js (t : TesterAgentRef) : js :=
  JSObj (("id", JSStr (ta_id t)) :: optional_field "run" (ta_run t)).

Record BoundTesterPass := mk_BoundTesterPass {
  bp_evidenceId : string;
  bp_testedCommit : option string;
  bp_provenance : option string;
  bp_tests : option (list TesterTestIdentity)
}.

(** [s LIKE '%sub%'] *)
Definition like_contains (sub s : string) : bool :=
  match String.index 0 (toLowerCase sub) (toLowerCase s) with Some _ => true | None => false end.
Definition payload_text (e : Evidence) : string := (ev_payload e ≫= JSON_stringify) ?? "".
Definition verdict_pass : string :=
  String.string_of_list_ascii (quote "verdict" ++ ":"%char :: quote "pass").
(** The [test_output] row a [ticket.tester_passed] event of the ticket names. *)
Definition is_bound_pass (ticketId : string) (d : db) (e : Evidence) : bool :=
  bool_decide (ev_ticket_id e = ticketId) && bool_decide (evidence_type e = TestOutput)
  && like_contains verdict_pass (payload_text e)
  && existsb (λ r, ticket_row ticketId "ticket.tester_passed" r
                   && bool_decide (payload_string "evidence_id" r = Some (ev_id e))) (work_events d).
Definition readBoundTesterPass (ticketId : string) (d : db) : option BoundTesterPass :=
  e ← head (newest_evidence (is_bound_pass ticketId d) d);
  let member k := ev_payload e ≫= js_member k in
  let tested := match member "tested_commit" with Some (JSStr s) => toLowerCase s | _ => "" end in
  Some (mk_BoundTesterPass (ev_id e)
    (if SHA_RE tested then Some tested else None)
    (match member "provenance" with Some (JSStr s) => Some s | _ => None end)
    (match member "tests" with
     | None | Some JSUndefined | Some JSNull => None
     | Some v => Some (parseTesterIdentities v ?? [])
     end)).

(** ** [validatedBinding] *)

Record BindingInput := mk_BindingInput {
  bi_tested_commit : option string;
  bi_contract_hash : option string;
  bi_replay : option string;
  bi_tests_commit : option string
}.
(** Validate one optional field, or throw. *)
Definition checked (o : option string) (f : string → string) (P : string → bool) (e : error)
    : Op (option string) :=
  match o with
  | None => mret None
  | Some s => guard_ (P (f s)) e;;; mret (Some (f s))
  end.
Definition invalid (why : string) : error := DispatchError VALIDATION_ERROR why.
Definition quoted_word (s : string) : string := String.string_of_list_ascii (quote s).

Definition binding_missing (out : VerdictBinding) : list string :=
  (match tested_commit out with Some _ => [] | None => ["tested_commit"] end)
  ++ (match contract_hash out with Some _ => [] | None => ["contract_hash"] end)
  ++ (if bool_decide (replay out = Some "passed") then [] else ["replay=passed"]).

Definition validatedBinding (input : BindingInput) (strict : bool) (currentHash : option string)
    (pass human : bool) : Op VerdictBinding :=
  let* commit := checked (bi_tested_commit input) (λ s, toLowerCase (trim s)) SHA_RE
    (invalid "tested_commit must be a full git commit id (40 or 64 hex characters).") in
  let* hash := checked (bi_contract_hash input) (λ s, toLowerCase (trim s)) (is_hex_between 64 64)
    (invalid "contract_hash must be a sha256 hex digest.") in
  let* rep := checked (bi_replay input) id (λ s, bool_decide (s ∈ REPLAY_STATES))
    (invalid ("replay must be one of " +:+ comma_list REPLAY_STATES +:+ ".")) in
  let* tests := checked (bi_tests_commit input) (λ s, toLowerCase (trim s))
    (λ s, bool_decide (s = "none") || SHA_RE s)
    (invalid ("tests_commit must be a full git commit id (40 or 64 hex characters) or "
              +:+ quoted_word "none" +:+ ".")) in
  let out := mk_VerdictBinding commit hash rep tests in
  match hash, given currentHash with
  | Some h, Some c => guard_ (bool_decide (h = c)) (DispatchError CONTRACT_MISMATCH
      "The verdict was recorded against a different contract than the one on record (the ticket's title, description, criteria or test contract changed since the tester started). Re-test.")
  | _, _ => mret tt
  end;;;
  guard_ (negb (strict && pass) || bool_decide (binding_missing out = []))
    (DispatchError BINDING_REQUIRED
       ("An automated PASS on an acceptance ticket must be bound to what was tested; missing: "
        +:+ comma_list (binding_missing out)
        +:+ ". A human can waive instead (tester-pass --as human), which is reported as waived, not verified."));;;
  guard_ (negb (pass && negb human) || bool_decide (rep = Some "passed"))
    (DispatchError BINDING_REQUIRED
       (match rep with
        | Some state =>
            "An automated PASS whose clean replay is '" +:+ state
            +:+ "' is not a verified PASS: the runner did not show the candidate passes the tester's tests (register the repo's test command and re-test). A human can record the verdict instead (tester-pass --as human), which is reported as a waiver."
        | None =>
            "An automated PASS must carry the runner's clean replay (replay=passed): without it nothing shows the candidate passes the tester's tests. A human can record the verdict instead (tester-pass --as human), which is reported as a waiver."
        end));;;
  mret out.
