(* ===== verification/Pattern.v ===== *)
(** * Regular expressions

    [RegExp.prototype.test] on the constructs the control plane's patterns
    use: character classes, sequences, alternation, [*], and the assertions
    [\b], [^] and [$].  A pattern is matched against every position of the text;
    which of several matches the engine would report first does not matter to
    a test, so a pattern denotes the set of places a match may end. *)
From Stdlib Require Import Ascii.
From S2P Require Import Prelude Json JsonParse Types EventChain Store Landing Verdicts.

Inductive re :=
  | Empty
  | Class (P : ascii → bool)
  | Then (r s : re)
  | Or (r s : re)
  | Star (r : re)
  | Boundary
  | Begin
  | Finish.

(** A place in the text: the character before it and the text after it. *)
Definition place : Type := option ascii * list ascii.

(** [\w], and [\s] and [\d] on ASCII. *)
Definition word_char (c : ascii) : bool := is_alnum c || bool_decide (c = "_"%char).
Definition space_char (c : ascii) : bool := is_space c.
Definition digit_char (c : ascii) : bool := is_dec c.
Definition is_word (o : option ascii) : bool := match o with Some c => word_char c | None => false end.

(** [star_ends f n p]: the places reached by iterating [f], each round
    consuming something; [n] bounds the rounds by the length of the text. *)
Fixpoint star_ends (f : place → list place) (n : nat) (p : place) : list place :=
  p :: match n with
       | O => []
       | S n => mjoin (star_ends f n <$> filter (λ q : place, length q.2 < length p.2)%nat (f p))
       end.
Fixpoint ends (r : re) (p : place) : list place :=
  match r with
  | Empty => [p]
  | Class P => match p.2 with
               | c :: rest => if P c then [(Some c, rest)] else []
               | [] => []
               end
  | Then r s => mjoin (ends s <$> ends r p)
  | Or r s => ends r p ++ ends s p
  | Star r => star_ends (ends r) (length p.2) p
  | Boundary => if xorb (is_word p.1) (is_word (head p.2)) then [p] else []
  | Begin => match p.1 with None => [p] | Some _ => [] end
  | Finish => match p.2 with [] => [p] | _ :: _ => [] end
  end.

Definition nonempty {A} (l : list A) : bool := match l with [] => false | _ => true end.
Fixpoint test_from (r : re) (prev : option ascii) (l : list ascii) : bool :=
  nonempty (ends r (prev, l))
  || match l with [] => false | c :: l => test_from r (Some c) l end.
(** [r.test(s)] *)
Definition test (r : re) (s : string) : bool := test_from r None (String.list_ascii_of_string s).

(** ** Notation of the patterns *)

Definition Plus (r : re) : re := Then r (Star r).
Definition Opt (r : re) : re := Or r Empty.
Fixpoint Times (n : nat) (r : re) : re := match n with O => Empty | S n => Then r (Times n r) end.
(** [r{lo,lo+more}] *)
Fixpoint UpTo (n : nat) (r : re) : re := match n with O => Empty | S n => Opt (Then r (UpTo n r)) end.
Definition Range (lo more : nat) (r : re) : re := Then (Times lo r) (UpTo more r).
Definition AnyOf (l : list re) : re := foldr Or (Class (λ _, false)) l.
Definition All (l : list re) : re := foldr Then Empty l.
(** A literal under the [i] flag. *)
Definition Lit (s : string) : re :=
  All ((λ c, Class (λ x, bool_decide (lower_char x = lower_char c))) <$> String.list_ascii_of_string s).
Definition OneOf (s : string) : re :=
  Class (λ x, bool_decide (x ∈ String.list_ascii_of_string s)).
Definition Word : re := Class word_char.
Definition Space : re := Class space_char.
Definition NotSpace : re := Class (λ c, negb (space_char c)).
Definition Digit : re := Class digit_char.
(** [[0-9a-f]] under the [i] flag. *)
Definition Hex : re := Class (λ c, is_hex_lower (lower_char c)).

(** ** What a pattern means *)

Inductive matches : re → place → place → Prop :=
| match_empty p : matches Empty p p
| match_class P c o l : P c = true → matches (Class P) (o, c :: l) (Some c, l)
| match_then r s p q x : matches r p q → matches s q x → matches (Then r s) p x
| match_left r s p q : matches r p q → matches (Or r s) p q
| match_right r s p q : matches s p q → matches (Or r s) p q
| match_stop r p : matches (Star r) p p
| match_more r p q x : matches r p q → matches (Star r) q x → matches (Star r) p x
| match_boundary p : is_word p.1 ≠ is_word (head p.2) → matches Boundary p p
| match_begin l : matches Begin (None, l) (None, l)
| match_finish o : matches Finish (o, []) (o, []).

(** A match consumes a prefix of the text or stays where it is. *)
Lemma matches_progress r p q : matches r p q → q = p ∨ (length q.2 < length p.2)%nat.
Proof.
  induction 1 as [| | | | | |r p q x _ IH1 _ IH2| | |]; simpl; auto.
  - destruct IHmatches1 as [->|], IHmatches2 as [->|]; auto; right; lia.
  - destruct IH1 as [->|], IH2 as [->|]; auto; right; lia.
Qed.

Lemma elem_of_bind {A B} (f : A → list B) l y : y ∈ mjoin (f <$> l) ↔ ∃ x, x ∈ l ∧ y ∈ f x.
Proof.
  rewrite list_elem_of_join. split.
  - intros (k & Hy & (x & -> & Hx)%list_elem_of_fmap). by exists x.
  - intros (x & Hx & Hy). exists (f x). split; [done|]. apply list_elem_of_fmap. by exists x.
Qed.

Section star.
Context (r : re) (f : place → list place) (Hf : ∀ p q, q ∈ f p ↔ matches r p q).

Lemma star_ends_sound n p q : q ∈ star_ends f n p → matches (Star r) p q.
Proof.
  revert p. induction n as [|n IH]; intros p; simpl; rewrite elem_of_cons; intros [->|Hq];
    try apply match_stop.
  - by apply elem_of_nil in Hq.
  - apply elem_of_bind in Hq as (x & [_ Hx%Hf]%list_elem_of_filter & Hq%IH). by eapply match_more.
Qed.
Lemma star_ends_complete n p q :
  (length p.2 ≤ n)%nat → matches (Star r) p q → q ∈ star_ends f n p.
Proof.
  intros Hn Hm. remember (Star r) as s eqn:Es. revert n Hn.
  induction Hm as [| | | | |? p|? p q x H1 _ H2 IH| | |]; simplify_eq; intros n Hn.
  - destruct n; apply elem_of_cons; by left.
  - destruct (matches_progress _ _ _ H1) as [->|Hlt]; [by apply IH|].
    destruct n as [|n]; [lia|]. simpl. apply elem_of_cons. right. apply elem_of_bind.
    exists q. split; [by apply list_elem_of_filter; rewrite Hf|]. apply IH; [done|lia].
Qed.
End star.

(** The matcher finds every end and nothing else; the bound on the rounds of
    a star is never what stops it. *)
Lemma ends_spec r p q : q ∈ ends r p ↔ matches r p q.
Proof.
  revert p q. induction r as [|P|r IHr s IHs|r IHr s IHs|r IHr| | |]; intros [o l] q; simpl.
  - rewrite list_elem_of_singleton. split; [intros ->; constructor|by inversion 1].
  - destruct l as [|c l]; [split; [by intros ?%elem_of_nil|by inversion 1]|].
    destruct (P c) eqn:Hc.
    + rewrite list_elem_of_singleton. split; [intros ->; by constructor|by inversion 1].
    + split; [by intros ?%elem_of_nil|inversion 1; congruence].
  - rewrite elem_of_bind. setoid_rewrite IHr. setoid_rewrite IHs.
    split; [intros (x & ? & ?); by eapply match_then|inversion 1; eauto].
  - rewrite elem_of_app, IHr, IHs. split; [intros []; by constructor|inversion 1; auto].
  - split; [by apply star_ends_sound|by apply star_ends_complete].
  - destruct (is_word o) eqn:E1, (is_word (head l)) eqn:E2; simpl;
      rewrite ?list_elem_of_singleton, ?elem_of_nil; split;
      first [intros ->; constructor; simpl; congruence | done | inversion 1; simpl in *; congruence].
  - destruct o; rewrite ?list_elem_of_singleton, ?elem_of_nil; split;
      first [intros ->; constructor | done | by inversion 1].
  - destruct l; rewrite ?list_elem_of_singleton, ?elem_of_nil; split;
      first [intros ->; constructor | done | by inversion 1].
Qed.

(** The places of a text: its splits into what was read and what is left. *)
Inductive place_of : option ascii → list ascii → place → Prop :=
| place_here o l : place_of o l (o, l)
| place_next o c l p : place_of (Some c) l p → place_of o (c :: l) p.
Lemma test_from_spec r o l :
  test_from r o l = true ↔ ∃ p q, place_of o l p ∧ matches r p q.
Proof.
  assert (∀ p, nonempty (ends r p) = true ↔ ∃ q, matches r p q) as Hhere.
  { intros p. setoid_rewrite <- ends_spec. destruct (ends r p) as [|x xs]; simpl.
    - split; [done|intros [q Hq%elem_of_nil]; done].
    - split; [intros _; exists x; apply elem_of_cons; by left|done]. }
  revert o. induction l as [|c l IH]; intros o; simpl; rewrite orb_true_iff, Hhere.
  - split; [intros [[q Hq]|]; [|done]; exists (o, []), q; split; [constructor|done]|].
    intros (p & q & Hp & Hq). inversion Hp; subst. left. eauto.
  - rewrite IH. split.
    + intros [[q Hq]|(p & q & Hp & Hq)]; [exists (o, c :: l), q; split; [constructor|done]|].
      exists p, q. split; [by constructor|done].
    + intros (p & q & Hp & Hq). inversion Hp; subst; [left; eauto|right; eauto].
Qed.
Lemma test_spec r s :
  test r s = true ↔ ∃ p q, place_of None (String.list_ascii_of_string s) p ∧ matches r p q.
Proof. apply test_from_spec. Qed.
