(* ===== verification/Contract.v ===== *)
(** * The test contract

    What the independent tester is given in place of the diff:
    [parseTestContract] and [validateTestContract] of
    [src/packages/dispatch/src/domain/types.ts], [profileFromTitle] of
    [domain/acceptanceProfile.ts], and the contract seeded from a title in
    [services/ticketService.ts]. *)
From Stdlib Require Import Ascii.
From S2P Require Import Prelude Json JsonParse Types EventChain Store Tickets Landing Autonomy Verdicts.
From S2P Require Import Pattern.

Record TestContract := mk_TestContract {
  changed_surfaces : list string;
  runtime_deps : list string;
  env_vars : list string;
  run_command : string;
  harness_ready : bool;
  tc_profile : option AcceptanceProfile;
  profile_spec : option js
}.

Definition string_list (v : option js) : list string :=
  match v with
  | Some (JSArr l) => omap (λ x, match x with JSStr s => Some s | _ => None end) l
  | _ => []
  end.
(** A profile that is known and not [unit]. *)
Definition named_profile (v : option js) : option AcceptanceProfile :=
  match profile_of v with Some PUnit => None | o => o end.
(** An object or an array parses to a contract; anything else is none. *)
Definition parseTestContract (raw : option string) : option TestContract :=
  parsed ← given raw ≫= JSON_parse;
  match parsed with
  | JSObj _ | JSArr _ =>
      let field k := js_member k parsed in
      let profile := named_profile (field "profile") in
      Some (mk_TestContract (string_list (field "changed_surfaces")) (string_list (field "runtime_deps"))
        (string_list (field "env_vars")) (text_or_empty (field "run_command"))
        (match field "harness_ready" with Some (JSBool b) => b | _ => false end)
        profile
        (if bool_decide (profile = None) then None
         else match field "profile_spec" with Some (JSObj m) => Some (JSObj m) | _ => None end))
  | _ => None
  end.
Definition profileOf (c : option TestContract) : AcceptanceProfile := (c ≫= tc_profile) ?? PUnit.

Definition str_arr (l : list string) : js := JSArr (JSStr <$> l).
Definition profile_member (p : option AcceptanceProfile) : list (string * js) :=
  match p with Some p => [("profile", JSStr (profile_name p))] | None => [] end.
Definition spec_member (s : option js) : list (string * js) :=
  match s with Some v => [("profile_spec", v)] | None => [] end.
(** The members in the order [setTestContract] writes them. *)
Definition contract_js (c : TestContract) : js :=
  JSObj ([("changed_surfaces", str_arr (changed_surfaces c)); ("runtime_deps", str_arr (runtime_deps c));
          ("env_vars", str_arr (env_vars c)); ("run_command", JSStr (run_command c));
          ("harness_ready", JSBool (harness_ready c))]
         ++ profile_member (tc_profile c) ++ spec_member (profile_spec c)).
(** [{ ...base, changed_surfaces }] of the seeded contract. *)
Definition seeded_js (c : TestContract) : js :=
  JSObj ([("runtime_deps", str_arr (runtime_deps c)); ("env_vars", str_arr (env_vars c));
          ("run_command", JSStr (run_command c)); ("harness_ready", JSBool (harness_ready c))]
         ++ profile_member (tc_profile c) ++ [("changed_surfaces", str_arr (changed_surfaces c))]).

(** ** Leak rules *)

Inductive ContractField := FChangedSurfaces | FRunCommand | FRuntimeDeps.
Definition field_name (f : ContractField) : string :=
  match f with
  | FChangedSurfaces => "changed_surfaces" | FRunCommand => "run_command" | FRuntimeDeps => "runtime_deps"
  end.
Record LeakRule := mk_LeakRule { marker : string; leak : re; fields : list ContractField }.

(** A double quote, which a string literal here may not hold. *)
Definition dquote_text : string := String dquote "".
(** [[\w./-]] *)
Definition path_char : re := Class (λ c, word_char c || bool_decide (c ∈ ["."; "/"; "-"]%char)).

(** [gaffer\/[\w./-]+] at the start or after white space, a quote, a parenthesis or
    a slash; or [ticket-\d+] *)
Definition branch_re : re :=
  Or (All [Or Begin (Class (λ c, space_char c || bool_decide (c ∈ [dquote; "'"; "("; "/"]%char)));
           Lit "gaffer/"; Plus path_char])
     (Then (Lit "ticket-") (Plus Digit)).
(** [https?:\/\/\S*\/(pull|commit|commits|compare)\/\S+|https?:\/\/\S*\.diff] *)
Definition scheme_re : re := All [Lit "http"; Opt (Lit "s"); Lit "://"].
Definition url_re : re :=
  Or (All [scheme_re; Star NotSpace; Lit "/";
           AnyOf [Lit "pull"; Lit "commit"; Lit "commits"; Lit "compare"]; Lit "/"; Plus NotSpace])
     (All [scheme_re; Star NotSpace; Lit ".diff"]).
(** [\b[0-9a-f]{7,40}\b] *)
Definition hash_re : re := All [Boundary; Range 7 33 Hex; Boundary].
(** [\b(diff|pr_url|branch_name|commit)\b] *)
Definition token_re : re :=
  All [Boundary; AnyOf [Lit "diff"; Lit "pr_url"; Lit "branch_name"; Lit "commit"]; Boundary].
(** [\bi\s+changed\b|\bchanged\s+\S+\s+to\s+\S+] *)
Definition changed_re : re :=
  Or (All [Boundary; Lit "i"; Plus Space; Lit "changed"; Boundary])
     (All [Boundary; Lit "changed"; Plus Space; Plus NotSpace; Plus Space; Lit "to"; Plus Space; Plus NotSpace]).
(** [[\w./-]*\.(ts|tsx|...)\b] *)
Definition source_re : re :=
  All [Star path_char; Lit ".";
       AnyOf (Lit <$> ["ts"; "tsx"; "js"; "mjs"; "cjs"; "jsx"; "py"; "go"; "rs"; "java"; "rb"; "php"; "cs";
                       "cpp"; "kt"; "swift"; "scala"; "vue"; "svelte"]); Boundary].

Definition LEAK_RULES : list LeakRule :=
  [ mk_LeakRule "branch name (gaffer/… or …/ticket-<n>…)" branch_re
      [FChangedSurfaces; FRunCommand; FRuntimeDeps];
    mk_LeakRule "PR / diff / commit URL" url_re [FChangedSurfaces; FRunCommand; FRuntimeDeps];
    mk_LeakRule "bare commit hash" hash_re [FChangedSurfaces; FRunCommand];
    mk_LeakRule "leakage token (diff / pr_url / branch_name / commit)" token_re
      [FChangedSurfaces; FRunCommand];
    mk_LeakRule (dquote_text +:+ "I changed …" +:+ dquote_text +:+ " / " +:+ dquote_text
                 +:+ "changed X to Y" +:+ dquote_text +:+ " phrasing") changed_re
      [FChangedSurfaces; FRunCommand];
    mk_LeakRule "internal source-file path" source_re [FChangedSurfaces] ].

Definition valueFor (c : TestContract) (f : ContractField) : list string :=
  match f with
  | FChangedSurfaces => changed_surfaces c
  | FRuntimeDeps => runtime_deps c
  | FRunCommand => [run_command c]
  end.
(** The strings of a profile spec, in the order [walk] meets them. *)
Fixpoint spec_strings (v : js) : list string :=
  match v with
  | JSStr s => [s]
  | JSArr l => mjoin (spec_strings <$> l)
  | JSObj ms => mjoin ((λ m : string * js, spec_strings m.2) <$> ms)
  | _ => []
  end.

Definition spec_leak (rule : LeakRule) (entry : string) : option error :=
  if test (leak rule) entry then
    Some (DispatchError TEST_CONTRACT_LEAK
      ("test_contract.profile_spec leaks an implementation pointer (" +:+ marker rule
       +:+ "). Offending entry: " +:+ quoted_word (String.substring 0 200 entry)))
  else None.
Definition field_leak (rule : LeakRule) (f : ContractField) (entry : string) : option error :=
  if test (leak rule) entry then
    Some (DispatchError TEST_CONTRACT_LEAK
      ("test_contract." +:+ field_name f +:+ " leaks an implementation pointer (" +:+ marker rule +:+ "). "
       +:+ "The tester gets the operational contract + how to run it — never the diff, "
       +:+ "a branch/PR/commit, or implementation class/function names. Offending entry: "
       +:+ quoted_word entry))
  else None.
Definition leaks (c : TestContract) : list error :=
  let strings := spec_strings (profile_spec c ?? JSNull) in
  mjoin ((λ rule, omap (spec_leak rule) strings) <$> take 2 LEAK_RULES)
  ++ mjoin ((λ rule, mjoin ((λ f, omap (field_leak rule f) (valueFor c f)) <$> fields rule)) <$> LEAK_RULES).
(** The first leak is thrown. *)
Definition validateTestContract (c : TestContract) : error + TestContract :=
  match head (leaks c) with Some e => inl e | None => inr c end.

(** ** The seeded contract *)

(** [\b(cli|command[- ]line|sub-?commands?)\b] and
    [\b(endpoints?|rest(ful)? api|http api|api routes?|api endpoints?)\b] *)
Definition cli_title : re :=
  All [Boundary; AnyOf [Lit "cli"; All [Lit "command"; OneOf "- "; Lit "line"];
                        All [Lit "sub"; Opt (Lit "-"); Lit "command"; Opt (Lit "s")]]; Boundary].
Definition api_title : re :=
  All [Boundary; AnyOf [Then (Lit "endpoint") (Opt (Lit "s")); All [Lit "rest"; Opt (Lit "ful"); Lit " api"];
                        Lit "http api"; Then (Lit "api route") (Opt (Lit "s"));
                        Then (Lit "api endpoint") (Opt (Lit "s"))]; Boundary].

Definition SEEDED_GENERIC_SURFACE : string :=
  "the behaviour this ticket's acceptance criteria name, exercised from the outside".
(** [replace(/\s+/g, " ")] *)
Fixpoint collapse (P : ascii → bool) (inside : bool) (l : list ascii) : list ascii :=
  match l with
  | [] => []
  | c :: l => if P c then (if inside then collapse P true l else " "%char :: collapse P true l)
              else c :: collapse P false l
  end.
Definition collapse_text (P : ascii → bool) (s : string) : string :=
  String.string_of_list_ascii (collapse P false (String.list_ascii_of_string s)).
Definition clean_title (title : string) : string :=
  String.substring 0 300 (trim (String.string_of_list_ascii
    ((λ c, if bool_decide (c = dquote) then "'"%char else c)
       <$> collapse space_char false (String.list_ascii_of_string title)))).

Section seeding.
Context `{Env}.

Definition profileFromTitle (title : string) (seed : option string) : option AcceptanceProfile :=
  if negb (envFlagOn seed) then None
  else if test cli_title title then Some PCli
  else if test api_title title then Some PApi
  else None.

Definition seededTestContract (title : string) (seed : option string) : TestContract :=
  let base surfaces := mk_TestContract surfaces [] [] "" false (profileFromTitle title seed) None in
  let generic := base [SEEDED_GENERIC_SURFACE] in
  let clean := clean_title title in
  if bool_decide (clean = "") then generic
  else match validateTestContract (base ["the behaviour " +:+ dquote_text +:+ clean +:+ dquote_text
               +:+ " describes, exercised from the outside as its acceptance criteria state it"]) with
       | inr c => c
       | inl _ => generic
       end.
End seeding.
