(* ===== verification/Profiles.v ===== *)
(** * Acceptance profiles

    [src/packages/dispatch/src/domain/acceptanceProfile.ts]: the specs a
    person registers for the runner to execute, and the evidence payload the
    runner records.  A schema of the validation library is a partial function
    on JSON values: [None] refuses, [Some] is the parsed value, with unknown
    members dropped and defaults filled in.  The issues the library lists are
    not modelled. *)
From Stdlib Require Import Ascii.
From S2P Require Import Prelude Json JsonParse Types EventChain Store Tickets Landing Verdicts Pattern.

Definition schema : Type := js → option js.

(** ** The constructs of the schemas *)

Definition keep (P : js → bool) : schema := λ v, if P v then Some v else None.
Definition z_string (P : string → bool) : schema := keep (λ v, match v with JSStr s => P s | _ => false end).
Definition z_trimmed (P : string → bool) : schema := λ v,
  match v with JSStr s => if P (trim s) then Some (JSStr (trim s)) else None | _ => None end.
Definition z_boolean : schema := keep (λ v, match v with JSBool _ => true | _ => false end).
Definition z_int (lo hi : Z) : schema :=
  keep (λ v, match v with JSNum n => bool_decide (lo ≤ n ≤ hi)%Z | _ => false end).
Definition z_enum (l : list string) : schema := z_string (λ s, bool_decide (s ∈ l)).
Definition z_unknown : schema := Some.
Definition z_array (lo hi : nat) (s : schema) : schema := λ v,
  match v with
  | JSArr l => if bool_decide (lo ≤ length l ∧ length l ≤ hi)%nat then JSArr <$> mapM s l else None
  | _ => None
  end.
Definition z_record (key : string → bool) (max : option nat) (s : schema) : schema := λ v,
  match v with
  | JSObj ms =>
      if forallb (λ m : string * js, key m.1) ms
         && match max with Some n => bool_decide (length ms ≤ n)%nat | None => true end
      then JSObj <$> mapM (λ m : string * js, pair m.1 <$> s m.2) ms else None
  | _ => None
  end.
Definition z_union (a b : schema) : schema := λ v, match a v with Some x => Some x | None => b v end.

Inductive presence := Required | Optional | Default (v : js).
Record member := mk_member { m_key : string; m_presence : presence; m_schema : schema }.
Definition parse_member (v : js) (m : member) : option (list (string * js)) :=
  match js_member (m_key m) v, m_presence m with
  | Some JSUndefined, Optional | None, Optional => Some []
  | Some JSUndefined, Default x | None, Default x => Some [(m_key m, x)]
  | Some x, _ => y ← m_schema m x; Some [(m_key m, y)]
  | None, Required => None
  end.
Definition z_object (ms : list member) : schema := λ v,
  match v with JSObj _ => (λ l, JSObj (mjoin l)) <$> mapM (parse_member v) ms | _ => None end.

Definition between (lo hi : nat) (s : string) : bool :=
  bool_decide (lo ≤ String.length s ∧ String.length s ≤ hi)%nat.
Definition req (k : string) (s : schema) : member := mk_member k Required s.
Definition opt (k : string) (s : schema) : member := mk_member k Optional s.
Definition dflt (k : string) (x : js) (s : schema) : member := mk_member k (Default x) s.

(** ** The pieces of the specs *)

Definition argv : schema := z_array 1 64 (z_string (between 1 2000)).
(** [RESERVED_ENV_NAME], on names [envName] lets through. *)
Definition RESERVED_ENV_NAME (k : string) : bool :=
  bool_decide (k ∈ ["HOME"; "TMPDIR"; "BASH_ENV"; "ENV"; "SHELLOPTS"; "BASHOPTS"; "PROMPT_COMMAND"; "IFS";
                    "STRICT_MODE"])
  || existsb (λ p, String.prefix p k) ["LD_"; "DYLD_"; "BASH_FUNC_"; "GAFFER_"; "SANDBOX_"].
Definition is_letter (c : ascii) : bool := is_alnum c && negb (is_dec c).
(** [/^[A-Za-z_][A-Za-z0-9_]{0,63}$/] *)
Definition env_word (k : string) : bool :=
  match String.list_ascii_of_string k with
  | [] => false
  | c :: r => (is_letter c || bool_decide (c = "_"%char)) && bool_decide (length r ≤ 63)%nat
              && forallb word_char r
  end.
Definition envName (k : string) : bool := env_word k && negb (RESERVED_ENV_NAME k).
Definition envMap : schema := z_record envName (Some 32%nat) (z_string (between 0 2000)).
Definition patterns : schema := z_array 0 20 (z_string (between 1 500)).

(** [p.split(/[\\/]/)] *)
Fixpoint segments (cur l : list ascii) : list (list ascii) :=
  match l with
  | [] => [rev cur]
  | c :: l => if bool_decide (c ∈ ["\"; "/"]%char) then rev cur :: segments [] l else segments (c :: cur) l
  end.
Definition inside_checkout (p : string) : bool :=
  negb (String.prefix "/" p) && negb (has_char (is_char 0) p)
  && negb (existsb (λ s, bool_decide (s = ["."; "."]%char)) (segments [] (String.list_ascii_of_string p))).
Definition relPath : schema := z_string (λ p, between 1 500 p && inside_checkout p).
Definition timeoutMs : schema := z_int 100 300000.
Definition case_name : schema := z_trimmed (between 1 120).

(** ** [cliCaseSpec], [cliProfileSpec] *)

Definition cli_file : schema :=
  z_object [req "path" relPath; dflt "exists" (JSBool true) z_boolean; opt "contains" (z_string (between 1 500))].
Definition cliCaseSpec : schema :=
  z_object [opt "name" case_name; req "argv" argv; opt "stdin" (z_string (between 0 16000)); opt "env" envMap;
            opt "timeout_ms" timeoutMs;
            dflt "expect" (JSObj [("exit", JSNum 0)])
              (z_object [dflt "exit" (JSNum 0) (z_int 0 255); opt "stdout" patterns; opt "stderr" patterns;
                         opt "stdout_absent" patterns; opt "files" (z_array 0 20 cli_file)])].
Definition cliProfileSpec : schema := z_object [req "cases" (z_array 1 20 cliCaseSpec)].

(** ** [apiProbeSpec], [apiProfileSpec] *)

Definition httpMethod : schema := z_enum ["GET"; "HEAD"; "POST"; "PUT"; "PATCH"; "DELETE"; "OPTIONS"].
Definition urlPath : schema :=
  z_string (λ p, between 1 2000 p && String.prefix "/" p && negb (String.prefix "//" p)).
Definition apiProbeSpec : schema :=
  z_object [opt "name" case_name; dflt "method" (JSStr "GET") httpMethod; req "path" urlPath;
            opt "headers" (z_record (between 1 100) (Some 20%nat) (z_string (between 0 2000)));
            opt "body" (z_union (z_string (between 0 16000)) (z_record (λ _, true) None z_unknown));
            req "expect"
              (z_object [req "status" (z_int 100 599); opt "body_contains" patterns;
                         opt "json_keys" (z_array 0 50 (z_string (between 1 200)));
                         opt "schema_ref" (z_string (between 1 500))])].
Definition apiProfileSpec : schema :=
  z_object [req "boot_argv" argv; dflt "port_env" (JSStr "PORT") (z_string envName); req "health_path" urlPath;
            opt "boot_timeout_ms" timeoutMs; opt "env" envMap; opt "schema_path" relPath;
            req "probes" (z_array 1 30 apiProbeSpec)].

(** ** The profiles the runner cannot run yet *)

Definition webProfileSpec : schema :=
  z_object [opt "boot_argv" argv; opt "base_path" urlPath;
            opt "flows" (z_array 0 20 (z_object [req "name" case_name;
                                                 req "steps" (z_array 0 50 (z_string (between 1 500)))]))].
Definition migrationProfileSpec : schema :=
  z_object [opt "seed_argv" argv; opt "up_argv" argv; opt "down_argv" argv;
            opt "tables" (z_array 0 50 (z_string (between 1 200)))].
Definition performanceProfileSpec : schema :=
  z_object [opt "bench_argv" argv; opt "rounds" (z_int 1 50); opt "threshold" (z_string (between 0 200))].

Definition PROFILE_SPEC_SCHEMAS (p : AcceptanceProfile) : schema :=
  match p with
  | PCli => cliProfileSpec
  | PApi => apiProfileSpec
  | PWeb => webProfileSpec
  | PMigration => migrationProfileSpec
  | PPerformance => performanceProfileSpec
  | PUnit => λ _, None
  end.
(** [None] is a refused spec, [Some None] no spec. *)
Definition parseProfileSpec (p : AcceptanceProfile) (spec : option js) : option (option js) :=
  if bool_decide (p = PUnit) then Some None
  else match spec with
       | None | Some JSUndefined | Some JSNull => Some None
       | Some v => Some <$> PROFILE_SPEC_SCHEMAS p v
       end.

(** ** [acceptanceEvidencePayload] *)

Definition ACCEPTANCE_EVIDENCE_PAYLOAD_MAX : nat := 65536.
Definition hex_either (lens : list nat) (s : string) : bool :=
  bool_decide (String.length s ∈ lens) && forallb is_hex_lower (String.list_ascii_of_string (toLowerCase s)).
Definition acceptanceEvidencePayload : schema :=
  z_object [req "kind" (z_enum ["transcript"; "api_response"]); req "profile" (z_enum ["cli"; "api"]);
            req "tested_commit" (z_string (hex_either [40; 64]%nat));
            req "contract_hash" (z_string (hex_either [64]%nat)); req "passed" z_boolean;
            opt "reason" (z_string (between 0 2000)); req "digest" (z_string (hex_either [64]%nat));
            opt "signature" (z_string (between 0 200)); opt "sandbox" (z_string (between 0 200));
            req "cases" (z_array 0 50 (z_record (λ _, true) None z_unknown));
            opt "boot" (z_record (λ _, true) None z_unknown)].
