(* ===== verification/Conform.v ===== *)
(** * What a stored spec conforms to

    The schemas of the acceptance profiles are types: what one of them
    returns is a value of it, which it returns again unchanged. *)
From Stdlib Require Import Ascii.
From S2P Require Import Prelude Json JsonParse Types EventChain Store Tickets Landing Verdicts Pattern Profiles.

(** ** Trimming *)

Lemma drop_spaces_idem l : drop_spaces (drop_spaces l) = drop_spaces l.
Proof. induction l as [|c l IH]; [done|]. simpl. destruct (is_space c) eqn:E; [done|]. simpl. by rewrite E. Qed.
Lemma drop_spaces_snoc l c : is_space c = false → ∃ y, drop_spaces (l ++ [c]) = y ++ [c].
Proof.
  intros Hc. induction l as [|x l [y IH]]; [by exists []; simpl; rewrite Hc|]. simpl.
  destruct (is_space x); [by exists y|by exists (x :: l)].
Qed.
Lemma trim_chars_idem l : trim_chars (trim_chars l) = trim_chars l.
Proof.
  unfold trim_chars at 1. replace (drop_spaces (trim_chars l)) with (trim_chars l).
  { unfold trim_chars. by rewrite rev_involutive, drop_spaces_idem. }
  unfold trim_chars. pose proof (drop_spaces_idem l) as Hm.
  destruct (drop_spaces l) as [|c r] eqn:E; [done|]. simpl in Hm |- *. destruct (is_space c) eqn:Hc.
  - exfalso. clear -Hm Hc. assert (∀ m, length (drop_spaces m) ≤ length m)%nat as Hl.
    { induction m as [|x m IH]; simpl; [done|]. destruct (is_space x); simpl; lia. }
    specialize (Hl r). rewrite Hm in Hl. simpl in Hl. lia.
  - destruct (drop_spaces_snoc (rev r) c Hc) as [y ->]. rewrite rev_app_distr. simpl. by rewrite Hc.
Qed.
Lemma trim_idem s : trim (trim s) = trim s.
Proof. unfold trim. by rewrite String.list_ascii_of_string_of_list_ascii, trim_chars_idem. Qed.

(** ** Schemas as types *)

(** A schema accepts what it returns, as it is. *)
Class Normal (s : schema) : Prop := normal v w : s v = Some w → s w = Some w.
(** A schema never returns [undefined], which a member must not be. *)
Class Defined_ (s : schema) : Prop := defined v w : s v = Some w → w ≠ JSUndefined.
Class Narrows (s : schema) : Prop := narrows v w : s v = Some w → w = v.

Lemma keep_narrows P : Narrows (keep P).
Proof. intros v w. unfold keep. by destruct (P v); intros [= <-]. Qed.
#[export] Instance z_string_narrows P : Narrows (z_string P).
Proof. apply keep_narrows. Qed.
#[export] Instance z_boolean_narrows : Narrows z_boolean.
Proof. apply keep_narrows. Qed.
#[export] Instance z_int_narrows lo hi : Narrows (z_int lo hi).
Proof. apply keep_narrows. Qed.
#[export] Instance narrows_normal s : Narrows s → Normal s | 10.
Proof. intros Hs v w Hw. by rewrite <- (narrows _ _ Hw) in Hw at 1. Qed.
#[export] Instance z_string_defined P : Defined_ (z_string P).
Proof. intros v w. unfold z_string, keep. by destruct v; try done; destruct (P s); intros [= <-]. Qed.
#[export] Instance z_boolean_defined : Defined_ z_boolean.
Proof. intros v w. unfold z_boolean, keep. by destruct v; intros [= <-]. Qed.
#[export] Instance z_int_defined lo hi : Defined_ (z_int lo hi).
Proof. intros v w. unfold z_int, keep. by destruct v; try done; case_bool_decide; intros [= <-]. Qed.
#[export] Instance z_trimmed_normal P : Normal (z_trimmed P).
Proof.
  intros v w. destruct v; try done. simpl. destruct (P (trim s)) eqn:E; [|done]. intros [= <-].
  simpl. by rewrite trim_idem, E.
Qed.
#[export] Instance z_trimmed_defined P : Defined_ (z_trimmed P).
Proof. intros v w. destruct v; try done. simpl. by destruct (P _); intros [= <-]. Qed.
#[export] Instance z_unknown_narrows : Narrows z_unknown.
Proof. by intros v w [= <-]. Qed.

Lemma mapM_normal {A} (f : A → option A) l l' :
  (∀ x y, f x = Some y → f y = Some y) → mapM f l = Some l' → mapM f l' = Some l'.
Proof.
  intros Hf H. apply mapM_Some in H. apply mapM_Some.
  induction H as [|x y l l' Hxy _ IH]; constructor; eauto.
Qed.
Lemma mapM_len {A B} (f : A → option B) l l' : mapM f l = Some l' → length l' = length l.
Proof. intros H%mapM_Some. by symmetry; eapply Forall2_length. Qed.
#[export] Instance z_array_normal lo hi s : Normal s → Normal (z_array lo hi s).
Proof.
  intros Hs v w. destruct v; try done. simpl. case_bool_decide as Hl; [|done].
  intros (l' & Hm & ->)%fmap_Some. simpl. rewrite bool_decide_true.
  - by rewrite (mapM_normal s _ _ normal Hm).
  - by rewrite (mapM_len _ _ _ Hm).
Qed.
#[export] Instance z_array_defined lo hi s : Defined_ (z_array lo hi s).
Proof. intros v w. destruct v; try done. simpl. case_bool_decide; [|done]. by intros (? & _ & ->)%fmap_Some. Qed.

#[export] Instance z_record_normal key n s : Normal s → Normal (z_record key n s).
Proof.
  intros Hs v w. destruct v as [| | | | | | | | |ms]; try done. simpl.
  destruct (_ && _) eqn:Hc; [|done]. intros (ms' & Hm & ->)%fmap_Some. simpl.
  assert (Hk : ms'.*1 = ms.*1).
  { clear Hc. apply mapM_Some in Hm. induction Hm as [|x y l l' Hxy _ IH]; [done|].
    apply fmap_Some in Hxy as (z & _ & ->). simpl. by f_equal. }
  assert (Hkeys : ∀ l : list (string * js), forallb (λ m, key m.1) l = forallb key l.*1).
  { intros l. induction l as [|x l IH]; [done|]. simpl. by rewrite IH. }
  rewrite (Hkeys ms'), Hk, <- Hkeys, (mapM_len _ _ _ Hm), Hc.
  rewrite (mapM_normal _ ms ms'); [done| |done].
  intros x y (z & Hz & ->)%fmap_Some. simpl. by rewrite (normal _ _ Hz).
Qed.
#[export] Instance z_record_defined key n s : Defined_ (z_record key n s).
Proof. intros v w. destruct v; try done. simpl. destruct (_ && _); [|done]. by intros (? & _ & ->)%fmap_Some. Qed.

#[export] Instance z_union_normal a b : Narrows a → Normal b → Normal (z_union a b).
Proof.
  intros Ha Hb v w. unfold z_union. destruct (a v) as [x|] eqn:E.
  - intros [= <-]. by rewrite (narrows_normal a Ha _ _ E).
  - intros Hw. destruct (a w) as [x|] eqn:Ew; [by rewrite (narrows _ _ Ew)|]. by eapply normal.
Qed.
#[export] Instance z_union_defined a b : Defined_ a → Defined_ b → Defined_ (z_union a b).
Proof. intros Ha Hb v w. unfold z_union. destruct (a v) eqn:E; [intros [= <-]; by eapply Ha|apply Hb]. Qed.

(** ** Objects *)

Class Fine (m : member) : Prop := {
  fine_normal : Normal (m_schema m);
  fine_defined : Defined_ (m_schema m);
  fine_default x : m_presence m = Default x → m_schema m x = Some x
}.
#[export] Instance req_fine k s : Normal s → Defined_ s → Fine (req k s).
Proof. by split. Qed.
#[export] Instance opt_fine k s : Normal s → Defined_ s → Fine (opt k s).
Proof. by split. Qed.
Lemma dflt_fine k x s : Normal s → Defined_ s → s x = Some x → Fine (dflt k x s).
Proof. split; try done. by intros ? [= <-]. Qed.
#[export] Hint Extern 2 (Fine (dflt _ _ _)) =>
  apply dflt_fine; [apply _|apply _|vm_compute; reflexivity] : typeclass_instances.

(** What a member contributes: nothing, or itself with a value it accepts. *)
Definition contributes (m : member) (l : list (string * js)) : Prop :=
  (l = [] ∧ ∀ v, js_member (m_key m) v = None → parse_member v m = Some []) ∨
  ∃ y, l = [(m_key m, y)] ∧ y ≠ JSUndefined ∧ m_schema m y = Some y.
Lemma parse_member_contributes m v l : Fine m → parse_member v m = Some l → contributes m l.
Proof.
  intros [Hn Hd Hx]. unfold parse_member, contributes.
  assert (∀ x, (y ← m_schema m x; Some [(m_key m, y)]) = Some l →
    ∃ y, l = [(m_key m, y)] ∧ y ≠ JSUndefined ∧ m_schema m y = Some y) as Hs.
  { intros x (y & Hy & [= <-])%bind_Some. exists y. split; [done|]. split; [by eapply Hd|by eapply Hn]. }
  assert (∀ x, m_presence m = Default x → ∃ y, [(m_key m, x)] = [(m_key m, y)] ∧ y ≠ JSUndefined ∧ m_schema m y = Some y) as Hdf.
  { intros x Ex. exists x. split; [done|]. apply Hx in Ex. split; [by eapply Hd|done]. }
  destruct (js_member (m_key m) v) as [[]|], (m_presence m) eqn:E; try (by eauto);
    intros [= <-]; first [by left; split; [done|]; intros v' Hv; unfold parse_member; rewrite Hv, E|right; eauto].
Qed.
Lemma contributes_other m l k : contributes m l → k ≠ m_key m → filter (λ x : string * js, x.1 = k) l = [].
Proof. intros [[-> _]|(y & -> & _)] Hk; [done|]. rewrite filter_cons, decide_False; [done|simpl; congruence]. Qed.
Lemma filter_absent k ms ls :
  Forall2 contributes ms ls → k ∉ m_key <$> ms → filter (λ x : string * js, x.1 = k) (mjoin ls) = [].
Proof.
  induction 1 as [|m l ms ls Hm _ IH]; [done|]. rewrite fmap_cons, not_elem_of_cons. intros [Hk Hms].
  change (mjoin (l :: ls)) with (l ++ mjoin ls). by rewrite filter_app, (contributes_other _ _ _ Hm), IH.
Qed.
(** The members of the result are read back one by one. *)
Lemma contributes_reparse ms ls :
  NoDup (m_key <$> ms) → Forall2 contributes ms ls →
  Forall2 (λ m l, filter (λ x : string * js, x.1 = m_key m) (mjoin ls) = l) ms ls.
Proof.
  intros Hnd H. induction H as [|m l ms ls Hm Hms IH]; [constructor|].
  rewrite fmap_cons, NoDup_cons in Hnd. destruct Hnd as [Hk Hnd].
  change (mjoin (l :: ls)) with (l ++ mjoin ls). constructor.
  - rewrite filter_app, (filter_absent _ _ _ Hms Hk), app_nil_r.
    destruct Hm as [[-> _]|(y & -> & _)]; [done|]. by rewrite filter_cons, decide_True.
  - specialize (IH Hnd). rewrite Forall2_lookup in IH |- *. intros i. specialize (IH i).
    destruct (ms !! i) as [m'|] eqn:Em; inversion IH as [? l' Hl El|]; subst; constructor.
    rewrite filter_app, (contributes_other m l (m_key m')); [done|done|].
    intros E. apply Hk. rewrite <- E. apply list_elem_of_fmap. exists m'. split; [done|].
    by eapply list_elem_of_lookup_2.
Qed.
Lemma z_object_normal ms : NoDup (m_key <$> ms) → Forall Fine ms → Normal (z_object ms).
Proof.
  intros Hnd Hf v w. destruct v as [| | | | | | | | |vs]; try done. simpl.
  intros (ls & Hls & ->)%fmap_Some. apply mapM_Some in Hls. simpl.
  assert (Hc : Forall2 contributes ms ls).
  { clear Hnd. induction Hls as [|m l ms ls Hm _ IH]; [constructor|]. apply Forall_cons in Hf as [Hm' Hf].
    constructor; [by eapply parse_member_contributes|by apply IH]. }
  pose proof (contributes_reparse _ _ Hnd Hc) as Hr.
  rewrite (proj2 (mapM_Some (parse_member (JSObj (mjoin ls))) ms ls)); [done|].
  apply Forall2_same_length_lookup_2; [by eapply Forall2_length|]. intros i m l Em El.
  pose proof (Forall2_lookup_lr _ _ _ _ _ _ Hc Em El) as Hm.
  pose proof (Forall2_lookup_lr _ _ _ _ _ _ Hr Em El) as Hl. simpl in Hl.
  assert (Hj : js_member (m_key m) (JSObj (mjoin ls)) = snd <$> head l) by (unfold js_member; by rewrite Hl).
  destruct Hm as [[E Hn]|(z & E & Hz & Hs)]; rewrite E in Hj |- *; [by apply Hn|].
  unfold parse_member. rewrite Hj. simpl. destruct z; try done; by rewrite Hs.
Qed.
#[export] Instance z_object_defined ms : Defined_ (z_object ms).
Proof. intros v w. destruct v; try done. simpl. by intros (? & _ & ->)%fmap_Some. Qed.
#[export] Hint Extern 2 (Normal (z_object _)) =>
  apply z_object_normal;
  [apply (bool_decide_unpack _); vm_compute; reflexivity
  |repeat (apply Forall_cons; split; [apply _|]); apply Forall_nil; exact I] : typeclass_instances.

(** ** The profiles *)

#[local] Typeclasses Opaque keep z_string z_trimmed z_boolean z_int z_enum z_unknown z_array z_record z_union
  z_object req opt dflt between.
Ltac by_schema := unfold argv, envMap, relPath, timeoutMs, case_name, patterns, urlPath, httpMethod, z_enum; apply _.
#[export] Instance argv_defined : Defined_ argv.
Proof. by_schema. Qed.
#[export] Instance cli_file_normal : Normal cli_file.
Proof. unfold cli_file. by_schema. Qed.
#[export] Instance cliCaseSpec_normal : Normal cliCaseSpec.
Proof. unfold cliCaseSpec. by_schema. Qed.
#[export] Instance apiProbeSpec_normal : Normal apiProbeSpec.
Proof. unfold apiProbeSpec. by_schema. Qed.
#[export] Instance profile_specs_normal p : Normal (PROFILE_SPEC_SCHEMAS p).
Proof.
  destruct p; simpl.
  - by intros v w.
  - unfold cliProfileSpec. by_schema.
  - unfold apiProfileSpec. by_schema.
  - unfold webProfileSpec. by_schema.
  - unfold migrationProfileSpec. by_schema.
  - unfold performanceProfileSpec. by_schema.
Qed.
Lemma profile_specs_objects p v w : PROFILE_SPEC_SCHEMAS p v = Some w → ∃ ms, w = JSObj ms.
Proof.
  assert (∀ ms, z_object ms v = Some w → ∃ ms, w = JSObj ms) as Ho.
  { intros ms. destruct v; try done. simpl. intros (? & _ & ->)%fmap_Some. eauto. }
  destruct p; simpl; [done|..]; apply Ho.
Qed.

Definition sent_spec : js :=
  JSObj [("note", JSStr "mine");
         ("cases", JSArr [JSObj [("argv", JSArr [JSStr "gaffer"; JSStr "status"]); ("name", JSStr " status ")]])].
Definition stored_spec : js :=
  JSObj [("cases", JSArr [JSObj [("name", JSStr "status"); ("argv", JSArr [JSStr "gaffer"; JSStr "status"]);
                                 ("expect", JSObj [("exit", JSNum 0)])]])].
