(* ===== verification/Review.v ===== *)
(** * The review gate

    [src/packages/dispatch/src/services/reviewGateService.ts]: approval and
    its pins, the independent tester's route and verdicts, required CI,
    rejection with its retry cap, and the record of what landed.  What the
    service is handed at construction (git reads, the autonomy policy, the
    observed risk, the tester lane) is the class [ReviewDeps]; a resolver that
    throws answers [None].  git reads happen before the write transaction, on
    the same database. *)
From Stdlib Require Import Ascii.
From S2P Require Import Prelude Json JsonParse Types EventChain Store Policy Diff Transition Claims.
From S2P Require Import Tickets Landing Autonomy Verdicts.

Record ReviewedHead := mk_ReviewedHead {
  h_repoId : string;
  h_repo : string;
  h_branch : string;
  h_sha : string
}.
Inductive UnavailableKind := NoCheckout | UnreadableCheckout | NoBranch | BranchMissing | UnknownKind.
Record UnavailableWriteRepo := mk_UnavailableWriteRepo {
  u_repoId : string;
  u_repo : string;
  u_why : string;
  u_kind : UnavailableKind
}.
(** The runner's own tester lane, where it differs: its mode, when it was
    recorded, whether it gates the ticket. *)
Record RunnerLane := mk_RunnerLane { rl_mode : string; rl_at : string; rl_gates : bool }.

Class ReviewDeps := {
  maxAttempts : Z;
  testerLaneApplies : option (Ticket → db → bool);
  runnerTesterLane : option (Ticket → db → option (option RunnerLane));
  requireRegisteredAgentApprover : bool;
  approvalShaResolver : option (Ticket → db → option (option (option string * option string)));
  reviewedHeadsResolver : option (Ticket → db → option (list ReviewedHead));
  unavailableWriteReposResolver : option (Ticket → db → string + list UnavailableWriteRepo);
  landedOnDefaultResolver : option (string → string → option bool);
  changeOnRefsResolver : option (string → string → list string → option (option bool));
  policyAllowsAgentApprove : option (Ticket → db → option bool);
  observedRiskResolver : option (Ticket → db → option (option ObservedRisk))
}.

(** ** Shared helpers *)

Definition capRetry (currentAttemptCount maxAttempts : Z) : Z * bool :=
  let nextAttempt := (currentAttemptCount + 1)%Z in
  (nextAttempt, bool_decide (maxAttempts ≤ nextAttempt)%Z).

Definition approvalUnchanged (deliverySha mergeSha : option string) : option bool :=
  a ← given deliverySha; b ← given mergeSha; Some (bool_decide (a = b)).

Definition ticket_ref_label (ticket : Ticket) (absent : string) : string :=
  match number ticket with Some n => pretty n | None => absent end.
Definition hash_label (ticket : Ticket) : string := "#" +:+ ticket_ref_label ticket "null".

Definition unavailableRepoRemedy (m : UnavailableWriteRepo) (ticketNumber : option Z) : string :=
  let n := match ticketNumber with Some n => pretty n | None => "<ticket>" end in
  let readOnly := "or, if this ticket should not change " +:+ u_repo m
    +:+ ", make it read-only on the ticket (`runner/gaffer wg ticket repo-access set " +:+ n +:+ " "
    +:+ u_repo m +:+ " --access read`)" in
  match u_kind m with
  | NoCheckout => "attach " +:+ u_repo m
      +:+ "'s checkout on this machine (register the repository with its local path, `runner/gaffer wg repo add -n "
      +:+ u_repo m +:+ " --path <dir>`), " +:+ readOnly
  | UnreadableCheckout => "restore " +:+ u_repo m
      +:+ "'s checkout at its registered path (or register the path it lives at now), " +:+ readOnly
  | NoBranch | BranchMissing => "restore " +:+ u_repo m
      +:+ "'s delivery branch (or deliver to it again), " +:+ readOnly
  | UnknownKind => "make " +:+ u_repo m +:+ "'s delivery head readable again, " +:+ readOnly
  end.

Definition UNVERIFIABLE_LANDING_VIAS : list string := ["pr"; "pr-stale"].

(** An unassigned ticket takes the person who decided it as its reviewer. *)
Definition reviewerPatch (ticket : Ticket) (actor : Actor) : option string :=
  match reviewer ticket with
  | Some _ => None
  | None => if human_or_admin actor then given (actor_id actor) else None
  end.
Definition patch_of (attempt : option Z) (who : option string) : option TicketPatch :=
  match attempt, who with
  | None, None => None
  | _, _ => Some (mk_TicketPatch None None who attempt)
  end.

Definition system_or_admin (actor : Actor) : bool :=
  bool_decide (actor_type actor = SystemActor) || bool_decide (actor_type actor = Admin).
Definition who_of (actor : Actor) : string := actor_id actor ?? actor_type_name (actor_type actor).
Definition conflict (why : string) : error := DispatchError STATE_CONFLICT why.

(** Run [m] and keep what it wrote; a throw becomes the value [inl]. *)
Definition attempt {A} (m : Op A) : Op (error + A) := λ d,
  match m d with
  | Ok a d' => Ok (inr a) d'
  | Err e => Ok (inl e) d
  end.

(** [startsWith] one way or the other: abbreviated commit ids. *)
Definition same_commit (a b : string) : bool := String.prefix b a || String.prefix a b.

Section review.
Context `{Env, ReviewDeps}.

(** A [commit] row the service records as the system. *)
Definition system_evidence (ticketId : string) (repoId : option string) (what url : string) (pl : js)
    : Op unit :=
  let* id := newId in
  let* nowIso := now in
  evidence_insert (mk_Evidence id ticketId None repoId None Commit what (Some url) (Some pl)
    "dispatch" (Some "system") nowIso).
(** A row the actor records; answers its id. *)
Definition actor_evidence (ticketId : string) (ac : option string) (ty : EvidenceType) (what : string)
    (url : option string) (pl : option js) (actor : Actor) (nowIso : instant) : Op string :=
  let* id := newId in
  evidence_insert (mk_Evidence id ticketId ac None None ty what url pl (who_of actor)
    (Some (actor_type_name (actor_type actor))) nowIso);;;
  mret id.

(** A transition of the gate. *)
Definition gate_move (ticket : Ticket) (actor : Actor) (to : TicketStatus) (why : string)
    (from : TicketStatus) (p : option TicketPatch) (unchanged : option (option bool))
    (diff : option DeliveryDiffProof) (fs : list Flag) : TransitionInput :=
  mk_TransitionInput (tk_id ticket) actor to (Some why) (Some from) p None unchanged diff fs.

(** ** Reads *)

Definition resolveReviewedHeads (ticket : Ticket) (d : db) : list ReviewedHead :=
  match reviewedHeadsResolver with
  | Some f => f ticket d ?? []
  | None => []
  end.
Definition ciCandidateHead (ticket : Ticket) (d : db) : option ReviewedHead :=
  head (resolveReviewedHeads ticket d).

Definition unavailableWriteRepos (ticket : Ticket) (d : db) : list UnavailableWriteRepo :=
  match unavailableWriteReposResolver with
  | None => []
  | Some f =>
      match f ticket d with
      | inr l => l
      | inl e => [mk_UnavailableWriteRepo "" "(unknown)"
                    ("the ticket's write repositories could not be read (" +:+ e +:+ ")") UnknownKind]
      end
  end.

Definition runnerLaneSafe (ticket : Ticket) (d : db) : option RunnerLane :=
  match runnerTesterLane with
  | Some f => f ticket d ?? None
  | None => None
  end.
Definition laneApplies (ticket : Ticket) (d : db) : bool :=
  if bool_decide (acceptance ticket = 1%Z) then true
  else if negb (bool_decide (can_be_tested ticket = 1%Z)) then false
  else match testerLaneApplies with
       | Some f => f ticket d
       | None => isTestingEnabled
       end.

(** The required-CI record: [(commit, state)], newest first. *)
Definition ci_results (ticketId : string) (d : db) : list (option string * option string) :=
  (λ r, (payload_string "commit" r, payload_string "state" r))
    <$> filter (λ r, ticket_row ticketId "ticket.ci_result" r = true) (rev (work_events d)).
Definition ci_marked (ticketId : string) (d : db) : bool :=
  existsb (ticket_row ticketId "ticket.ci_required") (work_events d).
Record CiStatus := mk_CiStatus { required : bool; ci_state : option string; ci_commit : option string }.
Definition ciStatus (ticketId : string) (commit : option string) (d : db) : CiStatus :=
  let rows := ci_results ticketId d in
  if negb (bool_decide (0 < length rows)%nat || ci_marked ticketId d) then mk_CiStatus false None commit
  else match rows with
       | [] => mk_CiStatus true None commit
       | newest :: _ =>
           let c := toLowerCase <$> given commit in
           let hit := match c with
                      | Some c => find (λ r : option string * option string,
                            let rc := toLowerCase (r.1 ?? "") in
                            negb (bool_decide (rc = "")) && same_commit c rc) rows
                      | None => Some newest
                      end in
           mk_CiStatus true (hit ≫= snd) (coalesce c newest.1)
       end.
Definition assertCiPassed (ticket : Ticket) (candidate : option string) : Op unit :=
  let* ci := gets (ciStatus (tk_id ticket) candidate) in
  guard_ (negb (required ci)
          || (bool_decide (candidate ≠ None) && bool_decide (ci_state ci = Some "pass")))
    (let at_ := match given (ci_commit ci) with Some c => " for " +:+ short c | None => "" end in
     DispatchError POLICY_DENIED
       (match ci_state ci with
        | Some s =>
            if bool_decide (s = "fail")
            then "Required CI failed" +:+ at_ +:+ "; the ticket cannot advance to merge."
            else "Required CI has not passed" +:+ at_ +:+ " (" +:+ s
                 +:+ "); approval waits for a passing CI result for the candidate commit."
        | None => "CI required: not reported" +:+ at_
                  +:+ "; approval waits for a passing CI result for the candidate commit."
        end)).
Definition approveCiCandidate (ticket : Ticket) (d : db) : option string :=
  if required (ciStatus (tk_id ticket) None d) then h_sha <$> ciCandidateHead ticket d else None.
(** [approveCiHold]: the state and commit an approve would be held on. *)
Definition approveCiHold (ticket : Ticket) (d : db) : option (option string * option string) :=
  let candidate := approveCiCandidate ticket d in
  let ci := ciStatus (tk_id ticket) candidate d in
  if negb (required ci) || (bool_decide (candidate ≠ None) && bool_decide (ci_state ci = Some "pass"))
  then None else Some (ci_state ci, ci_commit ci).

(** The agent on the most recent claim. *)
Definition deliveringAgentId (ticketId : string) (d : db) : option string :=
  cl_agent_id <$> head (order_by (λ c, - cl_created_at c)%Z
    (filter (λ c, cl_ticket_id c = ticketId) (rows (ticket_claims d)))).

Definition computeApprovedUnchanged (ticket : Ticket) (d : db) : option bool :=
  match approvalShaResolver with
  | None => None
  | Some f => match f ticket d with
              | Some (Some (a, b)) => approvalUnchanged a b
              | _ => None
              end
  end.
Definition policyGrantsAgentApprove (ticketRef : string) (d : db) : bool :=
  match policyAllowsAgentApprove, tickets_resolveRef ticketRef d with
  | Some f, Some ticket => f ticket d ?? false
  | _, _ => false
  end.
End review.
