(* ===== verification/Approval.v ===== *)
(** * Approval and the tester's route

    [src/packages/dispatch/src/services/reviewGateService.ts]: an approval of
    a reviewed change, the commits it pins, and the way a candidate takes
    through the independent tester before a person approves it. *)
From Stdlib Require Import Ascii.
From S2P Require Import Prelude Json JsonParse Types EventChain Store Policy Diff Transition Claims.
From S2P Require Import Tickets Landing Autonomy Verdicts Review.

Record ShownCommit := mk_ShownCommit { sc_repo : option string; sc_sha : string }.
Record ApproveReviewOptions := mk_ApproveReviewOptions {
  commits : list ShownCommit;      (** absent and empty read the same *)
  requireCommits : bool
}.

(** A check that either refuses or answers. *)
Definition lift_result {A} (r : error + A) : Op A :=
  match r with inl e => throw e | inr a => mret a end.
(** [n === 1 ? one : many] *)
Definition plural {A} (l : list A) (one many : string) : string :=
  match l with [_] => one | _ => many end.
Definition num_label (ticket : Ticket) : string := "#" +:+ ticket_ref_label ticket "null".

(** ** The commits an approval names *)

Definition matches (heads : list ReviewedHead) (c : ShownCommit) (h : ReviewedHead) : bool :=
  match sc_repo c with
  | None => bool_decide (length heads = 1%nat)
  | Some r => bool_decide (r = h_repoId h) || bool_decide (r = h_repo h)
  end.
Definition named (heads : list ReviewedHead) (c : ShownCommit) : string :=
  match sc_repo c with
  | None => (h_repoId <$> head heads) ?? "(unnamed)"
  | Some r => (h_repoId <$> find (matches heads c) heads) ?? r
  end.
Definition dupes (heads : list ReviewedHead) (cs : list ShownCommit) : list string :=
  let names := named heads <$> cs in
  filter (λ n, 1 < length (filter (λ m, m = n) names))%nat (distinct names).
Definition head_label (heads : list ReviewedHead) (k : string) : string :=
  (h_repo <$> find (λ h, bool_decide (h_repoId h = k)) heads) ?? k.

Record Moved := mk_Moved { mv_repo : string; mv_shown : option string; mv_current : option string }.
Definition shown_sha (c : ShownCommit) : string := toLowerCase (trim (sc_sha c)).
Definition head_moved (heads : list ReviewedHead) (cs : list ShownCommit) (h : ReviewedHead)
    : option Moved :=
  let sha := shown_sha <$> find (λ c, matches heads c h) cs in
  if bool_decide (sha = Some (h_sha h)) then None else Some (mk_Moved (h_repo h) sha (Some (h_sha h))).
Definition is_unavailable (unavailable : list UnavailableWriteRepo) (c : ShownCommit) : bool :=
  match sc_repo c with
  | None => false
  | Some r => existsb (λ u, bool_decide (u_repoId u = r) || bool_decide (u_repo u = r)) unavailable
  end.
Definition commit_gone (heads : list ReviewedHead) (unavailable : list UnavailableWriteRepo)
    (c : ShownCommit) : option Moved :=
  if existsb (matches heads c) heads || is_unavailable unavailable c then None
  else Some (mk_Moved (sc_repo c ?? "(unnamed)") (Some (shown_sha c)) None).
Definition moved_phrase (m : Moved) : string :=
  match mv_current m, mv_shown m with
  | None, _ => mv_repo m +:+ " no longer has a delivery head to approve"
  | Some cur, None => mv_repo m +:+ " (" +:+ short cur +:+ ") was not in what you approved"
  | Some cur, Some seen => mv_repo m +:+ " is now " +:+ short cur +:+ " (you reviewed " +:+ short seen +:+ ")"
  end.

Definition checkShownCommits (heads : list ReviewedHead) (actor : Actor) (opts : ApproveReviewOptions)
    (unavailable : list UnavailableWriteRepo) : error + list ReviewedHead :=
  match commits opts with
  | [] =>
      if requireCommits opts && bool_decide (0 < length heads)%nat then
        inl (conflict ("Approve names the commit you reviewed. Current head"
          +:+ (if bool_decide (1 < length heads)%nat then "s" else "") +:+ ": "
          +:+ comma_list ((λ h, h_repo h +:+ "=" +:+ h_sha h) <$> heads)
          +:+ ". Look at the diff, then approve with those commits (the dashboard sends them; "
          +:+ "on the CLI pass --commit <repo>=<sha> for each repo)."))
      else inr (if human_or_admin actor then heads else [])
  | cs =>
      let ds := dupes heads cs in
      if bool_decide (0 < length ds)%nat then
        inl (invalid ("Each repository can be approved at one commit only; "
          +:+ comma_list (head_label heads <$> ds) +:+ " "
          +:+ "was named more than once. Nothing was approved."))
      else
        let moved := omap (head_moved heads cs) heads ++ omap (commit_gone heads unavailable) cs in
        let what := join_with "; " (moved_phrase <$> moved) in
        if bool_decide (0 < length moved)%nat then
          inl (conflict
            (if forallb (λ m, bool_decide (mv_shown m = None)) moved
             then "The approval does not cover every repository this ticket changes: " +:+ what
                  +:+ ". Nothing was approved — review every repository's diff and approve them together."
             else "The change moved since it was shown: " +:+ what
                  +:+ ". Nothing was approved — reload the diff and review it again."))
        else inr heads
  end.

(** ** Pins *)
Section approval.
Context `{Env, ReviewDeps}.

Definition actor_words (actor : Actor) (system_word : string) : string :=
  match actor_type actor with
  | AgentActor => "agent review"
  | SystemActor => system_word
  | _ => "human review"
  end.
Definition recordApprovalPins (ticket : Ticket) (actor : Actor) (pins : list ReviewedHead) : Op unit :=
  for_each pins (λ pin,
    system_evidence (tk_id ticket) (Some (h_repoId pin))
      (actor_words actor "human review" +:+ " (" +:+ who_of actor +:+ ") approved commit " +:+ h_sha pin
       +:+ " of " +:+ h_branch pin +:+ " in " +:+ h_repo pin)
      (REVIEW_PIN_PREFIX +:+ h_sha pin)
      (JSObj [("kind", JSStr "review_pin"); ("approver_type", JSStr (actor_type_name (actor_type actor)));
              ("repo", JSStr (h_repo pin))])).
Definition recordRejectPins (ticket : Ticket) (actor : Actor) (heads : list ReviewedHead) (attempt : Z)
    : Op unit :=
  for_each heads (λ pin,
    system_evidence (tk_id ticket) (Some (h_repoId pin))
      (actor_words actor "the runner" +:+ " (" +:+ who_of actor +:+ ") sent back commit " +:+ h_sha pin
       +:+ " of " +:+ h_branch pin +:+ " in " +:+ h_repo pin)
      (REJECT_PIN_PREFIX +:+ h_sha pin)
      (JSObj [("kind", JSStr "reject_pin"); ("rejecter_type", JSStr (actor_type_name (actor_type actor)));
              ("repo", JSStr (h_repo pin)); ("attempt", JSNum attempt)])).

Definition assertWriteReposAvailable (ticket : Ticket) (missing : list UnavailableWriteRepo) : Op unit :=
  match missing with
  | [] => mret tt
  | _ => throw (conflict
      ("Approve held: " +:+ comma_list (u_repo <$> missing) +:+ " " +:+ plural missing "is" "are"
       +:+ " unavailable — " +:+ join_with "; " ((λ m, u_repo m +:+ ": " +:+ u_why m) <$> missing)
       +:+ ". An approval covers every repository this ticket writes to, and nothing was approved. To approve: "
       +:+ join_with "; " ((λ m, unavailableRepoRemedy m (number ticket)) <$> missing)
       +:+ "; then review again."))
  end.

(** ** The tester's coverage of a candidate *)

Inductive NotCovered := no_verdict | failed | other_commit | contract_changed.
#[local] Instance NotCovered_eq_dec : EqDecision NotCovered.
Proof. solve_decision. Defined.
(** [covered] is [why = None]. *)
Record TesterCoverage := mk_TesterCoverage {
  cov_why : option NotCovered;
  cov_tested : option string;
  cov_head : option string
}.
Definition cov_covered (c : TesterCoverage) : bool := bool_decide (cov_why c = None).

Definition asSha (v : option js) : option string :=
  match v with
  | Some (JSStr s) => let c := toLowerCase (trim s) in if is_hex_between 7 64 c then Some c else None
  | _ => None
  end.
Definition tester_verdict (ticketId : string) (r : ChainRow) : bool :=
  ticket_row ticketId "ticket.tester_passed" r || ticket_row ticketId "ticket.tester_failed" r.
(** The entry into review that began this round. *)
Definition round_start (ticketId : string) (d : db) : option ChainRow :=
  last_event (λ r, transitioned_to ticketId (λ s, bool_decide (s = "in_review")) r
                   && negb (bool_decide (payload_string "from" r = Some "in_testing"))) d.
Definition head_shas (heads : list ReviewedHead) : list string :=
  filter (λ s, s ≠ "") (toLowerCase ∘ h_sha <$> heads).
Definition text_member (k : string) (v : option js) : option string :=
  match v ≫= js_member k with Some (JSStr s) => Some s | _ => None end.
(** The payload of the evidence row a verdict names. *)
Definition verdict_binding (ticketId : string) (v : ChainRow) (d : db) : option js :=
  eid ← payload_string "evidence_id" v;
  e ← find (λ e, bool_decide (ev_id e = eid ∧ ev_ticket_id e = ticketId)) (evidence d);
  ev_payload e.

Definition testerCoverage (ticket : Ticket) (heads : list ReviewedHead) (d : db) : TesterCoverage :=
  let id := tk_id ticket in
  let allHeads := head_shas heads in
  let head_ := head allHeads in
  match last_event (tester_verdict id) d with
  | None => mk_TesterCoverage (Some no_verdict) None head_
  | Some verdict =>
      if match round_start id d with Some r => bool_decide (seq verdict < seq r)%Z | None => false end
      then mk_TesterCoverage (Some no_verdict) None head_
      else
        let binding := verdict_binding id verdict d in
        let tested := coalesce (asSha (payload verdict ≫= js_member "tested_head"))
                               (asSha (binding ≫= js_member "tested_commit")) in
        let found := t ← tested; find (λ h, same_commit h t) allHeads in
        let recorded := given (coalesce (text_member "contract_hash" binding)
                                        (payload_string "contract_hash" verdict)) in
        if negb (bool_decide (EventChain.event_type verdict = "ticket.tester_passed"))
        then mk_TesterCoverage (Some failed) tested head_
        else if bool_decide (0 < length allHeads)%nat && bool_decide (found = None)
        then mk_TesterCoverage (Some other_commit) tested head_
        else if bool_decide (recorded ≠ None) && negb (bool_decide (recorded = contractHash id d))
        then mk_TesterCoverage (Some contract_changed) tested head_
        else mk_TesterCoverage None tested (coalesce found head_)
  end.
Definition approveRoutesToTesting (ticket : Ticket) (d : db) : bool :=
  laneApplies ticket d && negb (cov_covered (testerCoverage ticket (resolveReviewedHeads ticket d) d)).

Definition at_minute (s : string) : string :=
  let t := String.substring 0 16 s in
  match String.index 0 "T" t with
  | Some n => String.substring 0 n t +:+ " " +:+ slice_from (S n) t
  | None => t
  end.
Definition notTestedMessage (ticket : Ticket) (c : TesterCoverage) (split : option RunnerLane) : string :=
  let n := match number ticket with Some n => "#" +:+ pretty n | None => "This ticket" end in
  let head_ := match given (cov_head c) with Some h => " " +:+ short h | None => "" end in
  let what := match cov_why c with
    | Some other_commit => "the independent tester passed "
        +:+ (match given (cov_tested c) with Some t => short t | None => "another commit" end)
        +:+ ", but the branch is now at" +:+ head_
    | Some failed => "the independent tester's latest verdict is a FAIL"
    | Some contract_changed => "the ticket's contract changed after the tester passed it"
    | _ => "the independent tester has not passed this commit" +:+ head_ +:+ " yet"
    end in
  match split with
  | Some lane => n +:+ " is not tested on this commit: " +:+ what
      +:+ ". A person approves only the commit the tester passed, but the runner last routed with GAFFER_TESTING "
      +:+ rl_mode lane +:+ " (recorded " +:+ at_minute (rl_at lane)
      +:+ " UTC), which does not send this ticket to the tester, while this dashboard's setting does. Set GAFFER_TESTING the same for the dashboard and the runner (Settings, with neither environment overriding it); the runner then sends it to the tester."
  | None => n +:+ " is not tested on this commit: " +:+ what
      +:+ ". A person approves only the commit the tester passed; the runner sends this one to the tester, and it returns to review after a PASS."
  end.

Definition acceptance_field (ticket : Ticket) : list (string * js) :=
  if bool_decide (acceptance ticket = 1%Z) then [("acceptance", JSBool true)] else [].

(** ** The tester's route *)

Inductive RoutePlan :=
  | Route (coverage : TesterCoverage)
  | Stay (why : string) (coverage : option TesterCoverage).
Definition testerRoutePlan (ticket : Ticket) (d : db) : RoutePlan :=
  if negb (bool_decide (status ticket = InReview))
  then Stay ("not in review (" +:+ status_name (status ticket) +:+ ")") None
  else if negb (laneApplies ticket d)
  then Stay "the independent tester does not gate this ticket" None
  else match unavailableWriteRepos ticket d with
  | (u :: _) as missing =>
      Stay ("the delivery head of " +:+ comma_list (u_repo <$> missing) +:+ " cannot be read: " +:+ u_why u) None
  | [] =>
      let coverage := testerCoverage ticket (resolveReviewedHeads ticket d) d in
      if cov_covered coverage then
        Stay ("the tester already passed "
              +:+ (match given (cov_tested coverage) with Some t => short t | None => "this candidate" end))
             (Some coverage)
      else
        let ci := ciStatus (tk_id ticket) (cov_head coverage) d in
        if required ci && negb (bool_decide (ci_state ci = Some "pass")) then
          Stay ("CI has not passed on "
                +:+ (match given (cov_head coverage) with Some h => short h | None => "the candidate" end)
                +:+ " yet (" +:+ (ci_state ci ?? "no result") +:+ "): the tester runs after the gates")
               (Some coverage)
        else Route coverage
  end.

Record TesterRoute := mk_TesterRoute {
  route_ticketId : string;
  route_number : option Z;
  routed : bool;
  route_why : option string;
  route_head : option string
}.
Definition assertSystemOrAdmin (actor : Actor) (message : string) : Op unit :=
  guard_ (system_or_admin actor) (DispatchError ACTOR_NOT_PERMITTED message).
Definition route_refusal : string :=
  "Only the runner (system) or an admin may send a ticket to the independent tester.".

Definition routeToTester (ref : string) (actor : Actor) : Op TesterRoute :=
  assertSystemOrAdmin actor route_refusal;;;
  let* pre := resolveRef ref in
  let out := mk_TesterRoute (tk_id pre) (number pre) in
  let* plan := gets (testerRoutePlan pre) in
  match plan with
  | Stay why coverage => mret (out false (Some why) (coverage ≫= cov_head))
  | Route coverage =>
      inTransaction (
        let* ticket := resolveRef ref in
        if negb (bool_decide (status ticket = InReview))
        then mret (out false (Some ("not in review (" +:+ status_name (status ticket) +:+ ")")) None)
        else
          transition (gate_move ticket actor InTesting "tester_before_review" InReview None None None
                        [testerVerdict]);;;
          ticket_event (tk_id ticket) actor "ticket.routed_to_testing"
            (JSObj ([("from", JSStr "in_review"); ("before_review", JSBool true);
                     ("head", JSNullable (cov_head coverage))]
                    ++ (if bool_decide (cov_why coverage = Some other_commit)
                        then optional_field "tested" (given (cov_tested coverage)) else [])
                    ++ acceptance_field ticket));;;
          mret (out true None (cov_head coverage)))
  end.

(** What a caught exception says, where the code words it. *)
Definition error_message (e : error) : string :=
  match e with DispatchError _ m => m | _ => "" end.
Definition routeAllToTester (actor : Actor) : Op (list TesterRoute) :=
  assertSystemOrAdmin actor route_refusal;;;
  let* ids := gets (λ d, tk_id <$> order_by (λ t, number t ?? (-1)%Z)
                       (filter (λ t, status t = InReview) (rows (tickets d)))) in
  for_fold (λ out id,
    let* r := catch (routeToTester id actor)
                (λ e, mret (mk_TesterRoute id None false (Some (error_message e)) None)) in
    mret (out ++ [r])) [] ids.

(** The newest entry into testing was the route above. *)
Definition enteredTestingBeforeReview (ticketId : string) (d : db) : bool :=
  match last_event (ticket_row ticketId "ticket.routed_to_testing") d with
  | Some r => match payload r ≫= js_member "before_review" with
              | Some (JSBool b) => b
              | Some (JSNum n) => bool_decide (n = 1%Z)
              | _ => false
              end
  | None => false
  end.

(** ** Approval *)

Definition level_or_unknown (o : option ObservedRisk) : string :=
  match o with Some r => risk_name (level r) | None => "unknown" end.
Definition risk_reasons (o : option ObservedRisk) : list string :=
  match o with
  | Some r => match or_reasons r with [] => ["diff unavailable to observe"] | rs => rs end
  | None => ["diff unavailable to observe"]
  end.
Definition risk_holds (o : option ObservedRisk) : list string :=
  match o with Some r => holds r | None => [] end.
(** The hold is on record when it is thrown: the event is written outside any
    transaction, so the refusal is a value beside the write. *)
Definition enforceObservedRiskCeiling (ticketRef : string) (actor : Actor) : Op (option error) :=
  match observedRiskResolver with
  | None => mret None
  | Some resolver =>
      let* ticket := resolveRef ticketRef in
      let* observed := gets (λ d, resolver ticket d ?? None) in
      if match observed with Some o => shouldEscalate o (risk_level ticket) | None => true end then
        let hs := risk_holds observed in
        let declared := risk_name (risk_level ticket) in
        ticket_event (tk_id ticket) actor "ticket.autoship_escalated"
          (JSObj ([("declared", JSStr declared); ("observed", JSStr (level_or_unknown observed));
                   ("determinate", JSBool ((determinate <$> observed) ?? false));
                   ("reasons", JSArr (JSStr <$> risk_reasons observed));
                   ("files", nullable_num (or_files <$> observed));
                   ("lines", nullable_num (or_lines <$> observed))]
                  ++ match hs with [] => [] | _ => [("holds", JSArr (JSStr <$> hs))] end));;;
        mret (Some (DispatchError OBSERVED_RISK_ESCALATED
          (match hs with
           | [] => "Auto-approve held for human review: observed risk '" +:+ level_or_unknown observed
                   +:+ "' exceeds declared '" +:+ declared +:+ "'."
           | _ => "Auto-approve held for human review: the delivery modified the tests that gate it ("
                  +:+ join_with "; " hs
                  +:+ "). A human can approve, or allow test changes on the ticket."
           end)))
      else mret None
  end.

Definition approvalPermitted (ticketRef : string) (actor : Actor) (d : db) : bool :=
  bool_decide (actor_type actor = AgentActor)
  && (envFlagOn (process_env "DISPATCH_ALLOW_AGENT_APPROVE") || policyGrantsAgentApprove ticketRef d).

(** The approver is a registered principal and not the delivery's author. *)
Definition assertNotAuthor (ticket : Ticket) (actor : Actor) : Op unit :=
  let* registered := gets (λ d, match actor_id actor with
                                | Some a => bool_decide (agents d !! a ≠ None) | None => false end) in
  guard_ (negb (bool_decide (actor_type actor = AgentActor) && requireRegisteredAgentApprover)
          || registered)
    (DispatchError ACTOR_NOT_PERMITTED
       "An agent may approve only as a REGISTERED agent principal: the approving actor id is not a registered agent (register a distinct reviewer agent and approve as its id, or approve as a human).");;;
  let* author := gets (deliveringAgentId (tk_id ticket)) in
  match author, actor_id actor with
  | Some a, Some me =>
      guard_ (negb (bool_decide (toLowerCase (trim me) = toLowerCase a)))
        (DispatchError ACTOR_NOT_PERMITTED
           (if bool_decide (actor_type actor = AgentActor)
            then "An agent may not approve its own delivery: the approving actor id matches the agent that claimed and delivered this ticket. Approve as a distinct reviewer principal (or a human)."
            else "The approving " +:+ actor_type_name (actor_type actor) +:+ " id '" +:+ me
                 +:+ "' is the id of the agent that claimed and delivered this ticket; nobody may approve a delivery under its author's id. Approve under your own identity."))
  | _, _ => mret tt
  end.

(** The transaction of an approval that goes to the tester first. *)
Definition approve_to_testing (ticket : Ticket) (actor : Actor) (unchanged : option bool)
    (unavailable : list UnavailableWriteRepo) (pins : list ReviewedHead) : Op TransitionResult :=
  inTransaction (
    let* result := transition (gate_move ticket actor InTesting "review_approved_to_testing" InReview
        (patch_of None (reviewerPatch ticket actor)) (Some unchanged) None [testerVerdict]) in
    assertWriteReposAvailable ticket unavailable;;;
    ticket_event (tk_id ticket) actor "ticket.routed_to_testing"
      (JSObj (("from", JSStr "in_review") :: acceptance_field ticket));;;
    recordApprovalPins ticket actor pins;;;
    mret result).
(** The transaction of an approval that goes to merge. *)
Definition approve_to_merge (ticket : Ticket) (actor : Actor) (unchanged : option bool)
    (unavailable : list UnavailableWriteRepo) (pins : list ReviewedHead) : Op TransitionResult :=
  let* proof := gets (deliveryDiffProof ticket) in
  inTransaction (
    let* result := transition (gate_move ticket actor ReadyForMerge "review_approved" InReview
        (patch_of None (reviewerPatch ticket actor)) (Some unchanged) (Some proof) [reviewApprove]) in
    assertWriteReposAvailable ticket unavailable;;;
    recordApprovalPins ticket actor pins;;;
    mret result).

(** From the CI check on: what every permitted approval goes through. *)
Definition approve_permitted (ticketRef : string) (actor : Actor) (opts : ApproveReviewOptions)
    (unavailable : list UnavailableWriteRepo) : Op TransitionResult :=
  let* ticket := resolveRef ticketRef in
  let* candidate := gets (approveCiCandidate ticket) in
  assertCiPassed ticket candidate;;;
  assertNotAuthor ticket actor;;;
  let* unchanged := gets (computeApprovedUnchanged ticket) in
  let* heads := gets (resolveReviewedHeads ticket) in
  let* pins := lift_result (checkShownCommits heads actor opts unavailable) in
  let* gated := gets (laneApplies ticket) in
  let* coverage := gets (testerCoverage ticket heads) in
  let* lane := gets (runnerLaneSafe ticket) in
  let untested := gated && negb (cov_covered coverage) in
  guard_ (negb (untested && human_or_admin actor))
    (conflict (notTestedMessage ticket coverage
       (match lane with Some l => if rl_gates l then None else Some l | None => None end)));;;
  if untested then approve_to_testing ticket actor unchanged unavailable pins
  else approve_to_merge ticket actor unchanged unavailable pins.

(** Only an approval without a person is held on the observed risk. *)
Definition auto_ship_hold (agentApproveAllowed : bool) (ticketRef : string) (actor : Actor)
    : Op (option error) :=
  if agentApproveAllowed then enforceObservedRiskCeiling ticketRef actor else mret None.

Definition approveReview (ticketRef : string) (actor : Actor) (opts : ApproveReviewOptions)
    : Op (error + TransitionResult) :=
  let* agentApproveAllowed := gets (approvalPermitted ticketRef actor) in
  guard_ (human_or_admin actor || agentApproveAllowed)
    (DispatchError ACTOR_NOT_PERMITTED
       "Only a human or admin may approve a review (set DISPATCH_ALLOW_AGENT_APPROVE=1 to allow autonomous agent approval).");;;
  let* covered := resolveRef ticketRef in
  let* unavailable := gets (unavailableWriteRepos covered) in
  when agentApproveAllowed (assertWriteReposAvailable covered unavailable);;;
  let* held := auto_ship_hold agentApproveAllowed ticketRef actor in
  match held with
  | Some e => mret (inl e)
  | None => let* result := approve_permitted ticketRef actor opts unavailable in mret (inr result)
  end.
End approval.
