(* ===== verification/Landings.v ===== *)
(** * Landing an approved change

    [src/packages/dispatch/src/services/reviewGateService.ts]: starting and
    recording the landing of each approved revision, the replay of the
    tester's tests on the landed revision, and [markMerged], which closes a
    ticket once everything its approval covers has landed. *)
From Stdlib Require Import Ascii.
From S2P Require Import Prelude Json JsonParse Types EventChain Store Policy Diff Transition Claims.
From S2P Require Import Tickets Landing Autonomy Verdicts Review Approval.

Record LandingInput := mk_LandingInput {
  li_repo : string;
  li_commit : string;
  li_via : option string;
  li_approval : option string     (** [beginLanding] only *)
}.
Record LandingRecorded := mk_LandingRecorded {
  ld_ticketId : string;
  ld_repo : string;
  ld_commit : string;
  recorded : bool;
  ld_status : LandingStatus
}.
Record LandingBegun := mk_LandingBegun {
  lb_ticketId : string;
  lb_repo : string;
  lb_repoId : string;
  lb_commit : string;
  lb_approval : option string;
  lb_eventId : string
}.
Record LandingStarted := mk_LandingStarted {
  st_repo : string;
  st_repoId : string;
  st_commit : string;
  st_landed : bool;
  st_via : option string;
  st_at : string
}.
Definition started_js (l : LandingStarted) : js :=
  JSObj [("repo", JSStr (st_repo l)); ("repoId", JSStr (st_repoId l)); ("commit", JSStr (st_commit l));
         ("landed", JSBool (st_landed l)); ("via", JSNullable (st_via l)); ("at", JSStr (st_at l))].

(** What [recordLanding] lands: a repository, its revision, landed or not. *)
Record Target := mk_Target { tg_repoId : string; tg_repo : string; tg_sha : string; tg_landed : bool }.
Definition target_of (r : LandingRepoState) : Target :=
  mk_Target (lr_repoId r) (lr_repo r) (lr_sha r) (landed r).
Definition landing_target (repo : string) (status : LandingStatus) : option LandingRepoState :=
  find (λ r, bool_decide (lr_repoId r = repo) || bool_decide (lr_repo r = repo)) (landing_repos status).

(** A resolver that throws answers no. *)
Definition or_false (o : option bool) : bool := o ?? false.
Definition unverifiable (via : option string) : bool :=
  bool_decide ((via ?? "") ∈ UNVERIFIABLE_LANDING_VIAS).
Definition full_commit_message : string :=
  " must be a full git commit id (40 or 64 hex characters).".

Section landings.
Context `{Env, ReviewDeps}.

(** ** The approval a landing acts on *)

Definition approvalRef (ticketId : string) (d : db) : option string :=
  we_id <$> last_event (transitioned_to ticketId (λ s, bool_decide (s = "ready_for_merge"))) d.
Definition landing_started_on (ticketId approval sha repo : string) (r : ChainRow) : bool :=
  ticket_row ticketId "ticket.landing_started" r
  && bool_decide (payload_string "approval" r = Some approval)
  && bool_decide (toLowerCase <$> payload_string "commit" r = Some sha)
  && (bool_decide (payload_string "repo_id" r = Some repo) || bool_decide (payload_string "repo" r = Some repo)).
Definition startedOnApproval (ticketId repo sha : string) (d : db) : option (string * string) :=
  approval ← given (approvalRef ticketId d);
  row ← last_event (landing_started_on ticketId approval sha repo) d;
  repoId ← given (payload_string "repo_id" row);
  r ← repositories d !! repoId;
  Some (rp_id r, rp_name r).

(** ** Landings already started *)

Definition landing_event (ticketId since : string) (r : ChainRow) : bool :=
  (ticket_row ticketId "ticket.landing_started" r || ticket_row ticketId "ticket.repo_landed" r)
  && String.leb since (we_created_at r).
Definition row_text (k : string) (r : ChainRow) : string := payload_string k r ?? "".
(** [Map.prototype.set]: a known key keeps its place. *)
Fixpoint map_set {A} (k : string) (v : A) (m : list (string * A)) : list (string * A) :=
  match m with
  | [] => [(k, v)]
  | (k', v') :: m => if bool_decide (k' = k) then (k, v) :: m else (k', v') :: map_set k v m
  end.
Definition map_get {A} (k : string) (m : list (string * A)) : option A :=
  snd <$> find (λ kv : string * A, bool_decide (kv.1 = k)) m.
Definition collect_started (status : LandingStatus) (out : list (string * LandingStarted)) (row : ChainRow)
    : list (string * LandingStarted) :=
  let commit := toLowerCase (row_text "commit" row) in
  let repo := row_text "repo" row in
  let repo_id := payload_string "repo_id" row in
  let st := find (λ r, bool_decide (lr_repoId r = repo_id ?? "") || bool_decide (lr_repo r = repo))
              (landing_repos status) in
  if bool_decide (commit = "") then out else
  let key := ((lr_repoId <$> st) ?? repo) +:+ nul +:+ commit in
  let prev := map_get key out in
  map_set key (mk_LandingStarted ((lr_repo <$> st) ?? repo)
                 ((lr_repoId <$> st) ?? (repo_id ?? repo)) commit
                 ((st_landed <$> prev) ?? false)
                 (coalesce (payload_string "via" row) (prev ≫= st_via))
                 ((st_at <$> prev) ?? we_created_at row)) out.
Definition settle_started (status : LandingStatus) (l : LandingStarted) : LandingStarted :=
  let on_record := existsb (λ r, bool_decide (lr_repoId r = st_repoId l) && bool_decide (lr_sha r = st_commit l)
                                 && landed r) (landing_repos status) in
  let seen := match landedOnDefaultResolver with
              | Some f => negb (unverifiable (st_via l)) && or_false (f (st_repoId l) (st_commit l))
              | None => false
              end in
  mk_LandingStarted (st_repo l) (st_repoId l) (st_commit l) (on_record || seen) (st_via l) (st_at l).
Definition landingsStarted (ticketId : string) (d : db) : list LandingStarted :=
  let entered := last_event (transitioned_to ticketId (λ s, bool_decide (s = "in_review"))) d in
  let since := (we_created_at <$> entered) ?? "" in
  let status := computeLandingStatus ticketId d in
  settle_started status <$>
    (foldl (collect_started status) [] (filter (λ r, landing_event ticketId since r = true) (work_events d))).*2.

(** ** Recording a landing *)

Definition primary_write_repo (ticketId : string) (d : db) : option string :=
  tr_repo_id <$> head (order_by
    (λ tr, - ((if bool_decide (access tr = Write) then 2 else 0)
              + (if bool_decide (role tr = "primary") then 1 else 0)))%Z
    (filter (λ tr, tr_ticket_id tr = ticketId) (ticket_repos d))).
(** The pull request on record for a repository of the ticket; empty for none. *)
Definition recorded_pr (ticket : Ticket) (repoId : string) (d : db) : string :=
  let repoPr := tr ← repo_link (tk_id ticket) repoId d;
                first_of [given (tr_pr_url tr); given (repoDeliveries_find (tk_id ticket) repoId d ≫= rd_pr_url)] in
  let own := trim (repoPr ?? "") in
  if negb (bool_decide (own = "")) then own
  else if bool_decide (primary_write_repo (tk_id ticket) d = Some repoId)
  then trim (pr_url ticket ?? "") else "".

Definition assertPrLanding (ticket : Ticket) (target : Target) (sha via : string) : Op unit :=
  let* pr := gets (recorded_pr ticket (tg_repoId target)) in
  guard_ (negb (bool_decide (pr = "")))
    (conflict ("#" +:+ ticket_ref_label ticket "?" +:+ " has no pull request on record for " +:+ tg_repo target
       +:+ "; a landing --via " +:+ via
       +:+ " is recorded only for a PR the delivery opened. A local merge records --via local (checked against git)."));;;
  match changeOnRefsResolver with
  | None => mret tt
  | Some f =>
      let refs := if bool_decide (via = "pr") then ["default"] else ["remote-default"; "default"] in
      let carried := f (tg_repoId target) sha refs ?? Some false in
      guard_ (bool_decide (carried = Some true)
              || (bool_decide (via = "pr-stale") && bool_decide (carried = None)))
        (conflict
          (if bool_decide (via = "pr")
           then tg_repo target +:+ "'s default branch does not carry " +:+ short sha
                +:+ "; a PR landing is recorded once the merged PR has been pulled into the local default branch (git shows the approved change there)."
           else "Neither " +:+ tg_repo target +:+ "'s default branch nor its remote-tracking copy carries " +:+ short sha
                +:+ "; fetch or pull the default branch, then record the landing again (--via pr once it is pulled)."))
  end.

(** A [commit] row of the system with exactly this uri. *)
Definition system_uri (ticketId u : string) (e : Evidence) : bool :=
  bool_decide (ev_ticket_id e = ticketId) && bool_decide (uri e = Some u)
  && bool_decide (evidence_type e = Commit) && bool_decide (recorded_by_actor_type e = Some "system").
Definition already_landed (ticketId repoId sha : string) (d : db) : bool :=
  existsb (λ e, system_uri ticketId (LANDING_PREFIX +:+ sha) e && bool_decide (ev_repo_id e = Some repoId))
    (evidence d).

Definition not_approved (ticket : Ticket) (repo sha : string) : error :=
  conflict (repo +:+ " has no approved revision " +:+ short sha +:+ " on " +:+ num_label ticket
    +:+ "; only an approved commit can be recorded as landed.").

(** A local landing must show on the default branch. *)
Definition assertLocalLanding (target : Target) (sha : string) (via : option string) : Op unit :=
  match landedOnDefaultResolver with
  | Some f => guard_ (unverifiable via || or_false (f (tg_repoId target) sha))
      (conflict (tg_repo target +:+ "'s default branch does not contain " +:+ short sha
         +:+ "; a local landing is recorded only once git shows the approved commit there."))
  | None => mret tt
  end.
(** The evidence row and the event of a landing. *)
Definition insert_landing (ticket : Ticket) (target : Target) (sha : string) (via : option string)
    (actor : Actor) : Op unit :=
  system_evidence (tk_id ticket) (Some (tg_repoId target))
    ("landed " +:+ sha +:+ " of " +:+ num_label ticket +:+ " on " +:+ tg_repo target +:+ "'s default branch"
     +:+ (match given via with Some v => " (via " +:+ v +:+ ")" | None => "" end))
    (LANDING_PREFIX +:+ sha)
    (JSObj [("kind", JSStr "landing"); ("repo", JSStr (tg_repo target)); ("via", JSNullable via)]);;;
  ticket_event (tk_id ticket) actor "ticket.repo_landed"
    (JSObj [("repo", JSStr (tg_repo target)); ("commit", JSStr sha); ("via", JSNullable via)]);;;
  mret tt.

Definition recordLanding (ref : string) (input : LandingInput) (actor : Actor) : Op LandingRecorded :=
  assertSystemOrAdmin actor "Only a system or admin actor may record a landing.";;;
  let sha := toLowerCase (trim (li_commit input)) in
  guard_ (SHA_RE sha) (invalid ("commit" +:+ full_commit_message));;;
  inTransaction (
    let* ticket := resolveRef ref in
    let id := tk_id ticket in
    let mergeable := bool_decide (status ticket = ReadyForMerge) in
    let* started := gets (λ d, if mergeable then None else startedOnApproval id (li_repo input) sha d) in
    guard_ (mergeable || bool_decide (started ≠ None))
      (DispatchError ILLEGAL_TRANSITION
         "A landing can only be recorded for an approved ticket (ready_for_merge), or for a landing that started before its approval was revoked.");;;
    let* before := gets (computeLandingStatus id) in
    let answer repo rec st := mk_LandingRecorded id repo sha rec st in
    let* already := gets (λ d, match started with
                               | Some (rid, _) => already_landed id rid sha d | None => false end) in
    match started, already with
    | Some (_, name), true => mret (answer name false before)
    | _, _ =>
        let target := match started with
                      | Some (rid, name) => Some (mk_Target rid name sha false)
                      | None => target_of <$> landing_target (li_repo input) before
                      end in
        match target with
        | Some target =>
            guard_ (bool_decide (tg_sha target = sha)) (not_approved ticket (li_repo input) sha);;;
            if tg_landed target then mret (answer (tg_repo target) false before) else
            (if unverifiable (li_via input) then assertPrLanding ticket target sha (li_via input ?? "") else mret tt);;;
            assertLocalLanding target sha (li_via input);;;
            insert_landing ticket target sha (li_via input) actor;;;
            let* after := gets (computeLandingStatus id) in
            mret (answer (tg_repo target) true after)
        | None => throw (not_approved ticket (li_repo input) sha)
        end
    end).

(** ** Starting a landing *)

(** Required CI of the approved commits: the commit that holds it, and its
    state. *)
Definition ci_red_commit (ticketId sha : string) (landing : LandingStatus) (d : db)
    : option (string * option string) :=
  if negb (required (ciStatus ticketId None d)) then None else
  let pins := lr_sha <$> filter (λ r, pinned r = true) (landing_repos landing) in
  let states := (λ c, (c, ci_state (ciStatus ticketId (Some c) d)))
                  <$> match pins with [] => [sha] | _ => pins end in
  let red := find (λ x : string * option string,
                     bool_decide (x.2 ≠ None) && negb (bool_decide (x.2 = Some "pass"))) states in
  let anyPass := existsb (λ x : string * option string, bool_decide (x.2 = Some "pass")) states in
  match red with
  | Some x => Some x
  | None => if anyPass then None else Some (head pins ?? sha, None)
  end.

Definition beginLanding (ref : string) (input : LandingInput) (actor : Actor) : Op LandingBegun :=
  assertSystemOrAdmin actor "Only a system or admin actor may start a landing.";;;
  let sha := toLowerCase (trim (li_commit input)) in
  guard_ (SHA_RE sha) (invalid ("commit" +:+ full_commit_message));;;
  inTransaction (
    let* ticket := resolveRef ref in
    let id := tk_id ticket in
    guard_ (bool_decide (status ticket = ReadyForMerge))
      (conflict (num_label ticket +:+ " is " +:+ status_name (status ticket)
         +:+ ", no longer ready_for_merge: its approval was revoked while the landing was being prepared."));;;
    let* approval := gets (approvalRef id) in
    guard_ (bool_decide (given (li_approval input) = None) || bool_decide (approval = li_approval input))
      (conflict (num_label ticket
         +:+ " was re-approved while the landing was being prepared; the approval it started on is no longer current."));;;
    let* landing := gets (computeLandingStatus id) in
    let target := landing_target (li_repo input) landing in
    guard_ (bool_decide (landing_repos landing = []) || bool_decide (lr_sha <$> target = Some sha))
      (conflict (li_repo input +:+ " has no approved revision " +:+ short sha +:+ " on " +:+ num_label ticket
         +:+ " any more; the approval changed while the landing was being prepared."));;;
    let* held := gets (ci_red_commit id sha landing) in
    match held with
    | Some (at_, st) => throw (conflict ("Required CI for " +:+ short at_ +:+ " on " +:+ num_label ticket
        +:+ " is " +:+ (st ?? "not passed") +:+ "; nothing may land on it."))
    | None => mret tt
    end;;;
    let repoId := (lr_repoId <$> target) ?? li_repo input in
    let repo := (lr_repo <$> target) ?? li_repo input in
    let* eventId := ticket_event id actor "ticket.landing_started"
      (JSObj [("repo", JSStr repo); ("repo_id", JSStr repoId); ("commit", JSStr sha);
              ("via", JSNullable (li_via input)); ("approval", JSNullable approval)]) in
    mret (mk_LandingBegun id repo repoId sha approval eventId)).

(** ** Everything approved has landed *)

Definition git_verified (r : LandingRepoState) : bool :=
  negb (landed r) && pinned r && bool_decide (given (prUrl r) = None)
  && match landedOnDefaultResolver with Some f => or_false (f (lr_repoId r) (lr_sha r)) | None => false end.
(** Record what git shows landed, repository by repository; each record is its
    own transaction, and a refusal ends the loop. *)
Fixpoint verify_landed (ticketId : string) (repos : list LandingRepoState) : Op (option error) :=
  match repos with
  | [] => mret None
  | r :: repos =>
      if git_verified r then
        let* res := attempt (recordLanding ticketId
          (mk_LandingInput (lr_repoId r) (lr_sha r) (Some "git-verified") None) (mk_Actor SystemActor None)) in
        match res with
        | inl e => mret (Some e)
        | inr _ => verify_landed ticketId repos
        end
      else verify_landed ticketId repos
  end.

Definition pending_words (r : LandingRepoState) : string :=
  if pinned r
  then lr_repo r +:+ " (" +:+ short (lr_sha r)
       +:+ (match given (prUrl r) with
            | Some u => ", its PR " +:+ u +:+ " has not merged upstream" | None => "" end) +:+ ")"
  else lr_repo r +:+ " (not covered by the approval)".
Definition not_done (ticket : Ticket) (landing : LandingStatus) : error :=
  let pending_ := filter (λ r, landed r = false) (landing_repos landing) in
  let unpinned_ := filter (λ r, pinned r = false) pending_ in
  conflict (num_label ticket +:+ " is not done: " +:+ comma_list (pending_words <$> pending_) +:+ " "
    +:+ plural pending_ "has" "have" +:+ " not landed yet"
    +:+ (if bool_decide (0 < landed_count landing)%Z
         then " (" +:+ pretty (landed_count landing) +:+ " of "
              +:+ pretty (Z.of_nat (length (landing_repos landing))) +:+ " landed)" else "")
    +:+ ". Merge the remaining repositories; the ticket is done when every write repository has landed."
    +:+ (match unpinned_ with
         | [] => ""
         | _ => " " +:+ comma_list (lr_repo <$> unpinned_) +:+ " " +:+ plural unpinned_ "has" "have"
                +:+ " no approved commit: move the ticket back to review and approve every repository together."
         end)).

(** What is still pending refuses; the rest is the transition. *)
Definition close_merged (ticket : Ticket) (actor : Actor) : Op TransitionResult :=
  let* landing := gets (computeLandingStatus (tk_id ticket)) in
  guard_ (bool_decide (pending landing ≤ 0)%Z) (not_done ticket landing);;;
  let* unchanged := gets (computeApprovedUnchanged ticket) in
  transition (mk_TransitionInput (tk_id ticket) actor Done (Some "merge_completed") (Some ReadyForMerge)
    None None (Some <$> unchanged) None [markMerged]).

Definition markMerged (ref : string) (actor : Actor) : Op (error + TransitionResult) :=
  assertSystemOrAdmin actor "Only a system or admin actor may mark a ticket merged.";;;
  let* ticket := resolveRef ref in
  let* landing := gets (computeLandingStatus (tk_id ticket)) in
  let* failed_ := (if bool_decide (0 < pending landing)%Z && bool_decide (landedOnDefaultResolver ≠ None)
                   then verify_landed (tk_id ticket) (landing_repos landing) else mret None) in
  match failed_ with
  | Some e => mret (inl e)
  | None => attempt (close_merged ticket actor)
  end.
End landings.
