(* ===== verification/Replay.v ===== *)
(** * The tester's tests on the landed revision

    [recordTesterReplay] of
    [src/packages/dispatch/src/services/reviewGateService.ts]: the record that
    the tests a tester PASS bound have passed on the revision that landed. *)
From Stdlib Require Import Ascii.
From S2P Require Import Prelude Json JsonParse Types EventChain Store Policy Diff Transition Claims.
From S2P Require Import Tickets Landing Autonomy Verdicts Review Approval Landings.

Record ReplayInput := mk_ReplayInput {
  ri_commit : string;
  ri_pin : string;
  ri_files : list string;
  ri_tests : option js;
  ri_evidence : option string;
  ri_repo : option string;
  ri_via : option string;
  ri_note : option string
}.
Record ReplayRecorded := mk_ReplayRecorded {
  rr_ticketId : string;
  rr_commit : string;
  rr_tested : string;
  rr_files : list string;
  rr_tests : list TesterTestIdentity;
  rr_evidence : string;
  rr_recorded : bool
}.

(** [replace(/[\r\n\t]+/g, " ")] *)
Definition is_break (c : ascii) : bool := is_newline c || is_char 9 c.
Fixpoint squash_breaks (after_break : bool) (l : list ascii) : list ascii :=
  match l with
  | [] => []
  | c :: l =>
      if is_break c then (if after_break then squash_breaks true l else " "%char :: squash_breaks true l)
      else c :: squash_breaks false l
  end.
Definition note_text (note : option string) : string :=
  String.substring 0 500
    (trim (String.string_of_list_ascii (squash_breaks false (String.list_ascii_of_string (note ?? ""))))).

Definition replay_files (files : list string) : list string :=
  distinct (filter (λ f, f ≠ "") (trim <$> files)).
Definition bad_file (f : string) : bool :=
  bool_decide (1000 < String.length f)%nat || has_char (λ c, is_newline c || is_char 0 c) f.

Definition unproven_tests (bound tests : list TesterTestIdentity) : list TesterTestIdentity :=
  filter (λ b, existsb (λ t, sameTesterIdentity t b) tests = false) bound.
Definition identity_words (t : TesterTestIdentity) : string := tt_file t +:+ " :: " +:+ tt_name t.

(** [name ORDER BY name] of the write repositories other than [repoId]. *)
Definition other_write_repos (ticketId : string) (repoId : option string) (d : db) : list string :=
  merge_sort str_le (omap (λ l : TicketRepo * Repository,
    if bool_decide (access l.1 = Write) && negb (bool_decide (repoId = Some (rp_id l.2)))
    then Some (rp_name l.2) else None) (repos_accessLinksForTicket ticketId d)).

Section replay.
Context `{Env, ReviewDeps}.

(** A repository by id, else by its unique name. *)
Definition repo_by_ref (ref : string) (d : db) : option Repository :=
  match repositories d !! ref with
  | Some r => Some r
  | None => head (filter (λ r, rp_name r = ref) (rows (repositories d)))
  end.
Definition replay_repo (ticketId : string) (repo : option string) : Op (option string) :=
  match given repo with
  | Some ref => let* o := gets (repo_by_ref ref) in
                let* r := require o (notFound "repository" ref) in mret (Some (rp_id r))
  | None => gets (λ d, tr_repo_id <$> head (order_by
              (λ tr, if bool_decide (role tr = "primary") then 0 else 1)%Z
              (filter (λ tr, tr_ticket_id tr = ticketId) (ticket_repos d))))
  end.

Definition replay_summary (files : list string) (evidence : string) (tests : list TesterTestIdentity)
    (commit pin : string) (via : option string) (others : list string) (note : string) : string :=
  (match files with
   | [] => "NO tester test file was replayed (the repository's own suite passed)"
   | _ => "the independent tester's " +:+ pretty (Z.of_nat (length files)) +:+ " test file(s) ("
          +:+ comma_list (take 5 files) +:+ (if bool_decide (5 < length files)%nat then ", …" else "")
          +:+ ") passed"
          +:+ (if bool_decide (evidence = "identities")
               then ", every one of the " +:+ pretty (Z.of_nat (length tests)) +:+ " test(s) its PASS bound"
               else " (file-level evidence only: the PASS recorded no test identities)")
   end)
  +:+ " on the landed revision " +:+ commit +:+ " (the merge of tested commit " +:+ short pin +:+ ")"
  +:+ (match given via with Some v => " via " +:+ v | None => "" end)
  +:+ (match others with [] => "" | _ => "; not replayed in " +:+ comma_list others end)
  +:+ (if bool_decide (note = "") then "" else " — " +:+ note).

(** The PASS a replay is about, and what it must prove. *)
Definition assertReplayProves (ticket : Ticket) (pin : string) (proved : option string)
    (tests : list TesterTestIdentity) (bound : option BoundTesterPass) : error + (BoundTesterPass * string) :=
  match bound with
  | Some b =>
      if bool_decide (bp_provenance b = Some "human") || negb (bool_decide (bp_testedCommit b = Some pin))
      then inl (conflict (num_label ticket +:+ " has no tester PASS bound to " +:+ short pin
                 +:+ "; a replay is recorded only for the tested commit that landed."))
      else
        let evidence := match bp_tests b with Some _ => "identities" | None => "files" end in
        let unproven := unproven_tests (bp_tests b ?? []) tests in
        if negb (bool_decide (proved = None) || bool_decide (proved = Some evidence))
        then inl (conflict ("the replay proved " +:+ (proved ?? "") +:+ ", but " +:+ num_label ticket
                   +:+ "'s tester PASS "
                   +:+ (if bool_decide (evidence = "identities") then "bound test identities"
                        else "bound no test identities") +:+ "; nothing is recorded."))
        else if bool_decide (0 < length unproven)%nat
        then inl (conflict (pretty (Z.of_nat (length unproven)) +:+ " test(s) " +:+ num_label ticket
                   +:+ "'s tester PASS bound are not proven by this replay ("
                   +:+ join_with "; " (identity_words <$> take 3 unproven)
                   +:+ (if bool_decide (3 < length unproven)%nat then "; ..." else "")
                   +:+ "); a replay is recorded only when every one passed."))
        else inr (b, evidence)
  | None => inl (conflict (num_label ticket +:+ " has no tester PASS bound to " +:+ short pin
                 +:+ "; a replay is recorded only for the tested commit that landed."))
  end.

Definition full_commit (v what : string) : Op string :=
  let s := toLowerCase (trim v) in
  guard_ (SHA_RE s) (invalid (what +:+ full_commit_message));;;
  mret s.

Definition recordTesterReplay (ref : string) (input : ReplayInput) (actor : Actor) : Op ReplayRecorded :=
  guard_ (bool_decide (actor_type actor = SystemActor))
    (DispatchError ACTOR_NOT_PERMITTED
       "Only the runner's landing path (the system actor) may record a tester replay.");;;
  let* commit := full_commit (ri_commit input) "commit" in
  let* pin := full_commit (ri_pin input) "pin" in
  let files := replay_files (ri_files input) in
  guard_ (negb (bool_decide (500 < length files)%nat || existsb bad_file files))
    (invalid "files must be at most 500 single-line paths of at most 1000 characters.");;;
  let note := note_text (ri_note input) in
  let* tests := require (parseTesterIdentities (ri_tests input ?? JSArr []))
    (invalid "tests must be a JSON array of at most 5000 { file, name, line?, column? } test identities.") in
  guard_ (bool_decide (ri_evidence input ∈ [None; Some "identities"; Some "files"]))
    (invalid ("evidence must be " +:+ quoted_word "identities" +:+ " or " +:+ quoted_word "files" +:+ "."));;;
  guard_ (negb (bool_decide (ri_via input = Some "pr-stale")))
    (conflict "the landed revision of a PR merge whose local default branch was not fast-forwarded cannot be verified; no tester replay is recorded for it.");;;
  inTransaction (
    let* ticket := resolveRef ref in
    let id := tk_id ticket in
    guard_ (bool_decide (status ticket = ReadyForMerge))
      (DispatchError ILLEGAL_TRANSITION
         "A tester replay can only be recorded for an approved ticket (ready_for_merge).");;;
    let* bound := gets (readBoundTesterPass id) in
    let* proof := lift_result (assertReplayProves ticket pin (ri_evidence input) tests bound) in
    let* landing := gets (computeLandingStatus id) in
    let* repoId := replay_repo id (ri_repo input) in
    let approved := r ← repoId; find (λ s, bool_decide (lr_repoId s = r)) (landing_repos landing) in
    match approved with
    | Some a => guard_ (bool_decide (lr_sha a = pin))
        (conflict (short pin +:+ " is not the approved revision of " +:+ num_label ticket +:+ " (approved "
           +:+ short (lr_sha a) +:+ ")."))
    | None => mret tt
    end;;;
    let answer := mk_ReplayRecorded id commit pin files tests proof.2 in
    let u := TESTER_REPLAY_PREFIX +:+ commit in
    let* existing := gets (λ d, existsb (system_uri id u) (evidence d)) in
    if (existing : bool) then mret (answer false) else
    match repoId, landedOnDefaultResolver with
    | Some r, Some f => guard_ (or_false (f r commit))
        (conflict ("the default branch does not contain " +:+ short commit
           +:+ "; a replay is recorded only for the revision that landed."))
    | _, _ => mret tt
    end;;;
    let* repoName := gets (λ d, r ← repoId; rp_name <$> repositories d !! r) in
    let* others := gets (other_write_repos id repoId) in
    system_evidence id repoId
      (replay_summary files proof.2 tests commit pin (ri_via input) others note) u
      (JSObj ([("kind", JSStr "tester_replay"); ("tested", JSStr pin); ("pin", JSStr pin);
               ("files", JSArr (JSStr <$> files)); ("tests", JSArr (identity_js <$> tests));
               ("evidence", JSStr proof.2); ("via", JSNullable (ri_via input));
               ("repo", JSNullable repoName); ("not_replayed_repos", JSArr (JSStr <$> others))]
              ++ (if bool_decide (note = "") then [] else [("note", JSStr note)])
              ++ [("tester_evidence_id", JSStr (bp_evidenceId proof.1))]));;;
    ticket_event id actor "ticket.tester_replayed"
      (JSObj [("commit", JSStr commit); ("tested", JSStr pin); ("files", JSArr (JSStr <$> files));
              ("tests", JSNum (Z.of_nat (length tests))); ("evidence", JSStr proof.2);
              ("via", JSNullable (ri_via input))]);;;
    mret (answer true)).
End replay.
