(* ===== verification/Sendback.v ===== *)
(** * Sending work back, holding it, abandoning it

    [src/packages/dispatch/src/services/reviewGateService.ts] and the facade
    over it, [services/reviewLifecycleService.ts]: rejection with its retry
    cap and its hold of partly landed work, won't do, the holds of the merge
    gate and of a red required check, reopening for review, and board moves. *)
From Stdlib Require Import Ascii.
From S2P Require Import Prelude Json JsonParse Types EventChain Store Policy Diff Transition Claims.
From S2P Require Import Tickets Pause Decisions Lifecycle Landing Autonomy Verdicts Review Approval Landings.

Inductive RejectTo := ToReady | ToRefining | ToCancelled.
#[export] Instance RejectTo_eq_dec : EqDecision RejectTo.
Proof. solve_decision. Defined.
Definition reject_status (to : RejectTo) : TicketStatus :=
  match to with ToReady => Ready | ToRefining => Refining | ToCancelled => Cancelled end.
(** [reason && reason.trim().length > 0 ? reason : fallback] *)
Definition reason_or (reason : option string) (fallback : string) : string :=
  match reason with
  | Some r => if bool_decide (trim r = "") then fallback else r
  | None => fallback
  end.
(** A send-back's reason once it is held or capped. *)
Definition held_reason (holdLanded capReached : bool) (reason : string) : string :=
  if holdLanded then "partly_landed:" +:+ reason
  else if capReached then "retry_cap_reached:" +:+ reason else reason.
Definition lower_word (c : ascii) : bool :=
  let n := nat_of_ascii c in bool_decide (97 ≤ n ∧ n ≤ 122)%nat.
(** [/^[a-z][a-z0-9_]{0,63}$/] *)
Definition snake_case (s : string) : bool :=
  match String.list_ascii_of_string s with
  | [] => false
  | c :: r => lower_word c && bool_decide (length r ≤ 63)%nat
      && forallb (λ c, lower_word c || bool_decide (48 ≤ nat_of_ascii c ∧ nat_of_ascii c ≤ 57)%nat
                       || bool_decide (c = "_"%char)) r
  end.

Section sendback.
Context `{Env, ReviewDeps}.

(** ** Partly landed work *)

Definition refuseCancelOfLanded (ticket : Ticket) : Op unit :=
  let* landed_ := gets (λ d, merge_sort str_le (distinct
      (recordedLandingRepos (tk_id ticket) d
       ++ (st_repo <$> filter (λ l, st_landed l = true) (landingsStarted (tk_id ticket) d))))) in
  let* current := gets (computeLandingStatus (tk_id ticket)) in
  let pending_ := lr_repo <$> filter (λ r, landed r = false ∧ lr_repo r ∉ landed_) (landing_repos current) in
  let n := ticket_ref_label ticket "<n>" in
  guard_ (bool_decide (landed_ = []))
    (DispatchError PARTLY_LANDED
      ("#" +:+ ticket_ref_label ticket "?" +:+ " already landed in " +:+ comma_list landed_
       +:+ "; a ticket whose change is on a default branch cannot be cancelled, it can only be finished. "
       +:+ (if bool_decide (status ticket = ReadyForMerge) then
              match pending_ with
              | [] => "Finish it (gaffer merge " +:+ n +:+ ")."
              | _ => "Land the rest (gaffer merge " +:+ n +:+ ": " +:+ comma_list pending_ +:+ " still pending)."
              end
            else "Take it through review again and land the rest (gaffer merge " +:+ n
                 +:+ " once it is approved)."))).

Definition partlyLandedHold (ticket : Ticket) (landed_ : list string) (requested reason : string)
    (actor : Actor) : Op string :=
  let why := "partly landed: " +:+ comma_list landed_ +:+ " already merged on the default branch, so this "
    +:+ "send-back to " +:+ requested +:+ " is held for a person instead of re-queued (" +:+ reason +:+ "). "
    +:+ "Rework and re-approve it from here (unblock), then land the rest; it cannot be cancelled." in
  ticket_event (tk_id ticket) actor "ticket.blocked"
    (JSObj [("reason", JSStr why); ("reason_code", JSStr "partly_landed");
            ("landed", JSArr (JSStr <$> landed_)); ("requested_target", JSStr requested)]);;;
  mret why.

(** The attempt a send-back counts, and whether the cap parks it. *)
Definition next_attempt (requeue : bool) (ticket : Ticket) : Z * bool :=
  if requeue then capRetry (attempt_count ticket) maxAttempts else (attempt_count ticket, false).
Definition store_feedback (ticketId reason : string) (actor : Actor) (at_ : instant) : Op unit :=
  modify (tickets_setReviewFeedback ticketId
    (Some (mk_ReviewFeedback reason (actor_id actor) at_ None None None))).

(** ** Rejection *)

Definition reject_transition (ticket : Ticket) (to : RejectTo) (actor : Actor) (reason : string)
    (holdLanded : bool) (attempt : Z) (capReached : bool) : TransitionInput :=
  let isRequeue := negb (bool_decide (to = ToCancelled)) && negb holdLanded in
  let parked := capReached || holdLanded in
  gate_move ticket actor (if parked then Blocked else reject_status to)
    (held_reason holdLanded capReached reason) (status ticket)
    (patch_of (if isRequeue then Some attempt else None) (reviewerPatch ticket actor)) None None
    ((if isRequeue then [reviewReject] else [])
     ++ (if bool_decide (to = ToCancelled) then [wontDo] else []) ++ (if parked then [park] else [])).

Definition rejectReview (ticketRef : string) (to : RejectTo) (actor : Actor) (reason : option string)
    : Op TransitionResult :=
  let* pinHeads :=
    (if bool_decide (to = ToCancelled) then mret []
     else let* t := resolveRef ticketRef in gets (resolveReviewedHeads t)) in
  inTransaction (
    let* ticket := resolveRef ticketRef in
    let id := tk_id ticket in
    guard_ (bool_decide (status ticket = InReview) || bool_decide (status ticket = ReadyForMerge))
      (DispatchError ILLEGAL_TRANSITION "Only an in-review or merging ticket can be rejected.");;;
    (if bool_decide (to = ToCancelled) then refuseCancelOfLanded ticket else mret tt);;;
    let resolved := reason_or reason "review_rejected" in
    let* landedRepos := gets (λ d, if bool_decide (to = ToCancelled) then [] else recordedLandingRepos id d) in
    let holdLanded := bool_decide (0 < length landedRepos)%nat in
    let isRequeue := negb (bool_decide (to = ToCancelled)) && negb holdLanded in
    let '(attempt, capReached) := next_attempt isRequeue ticket in
    let* result := transition (reject_transition ticket to actor resolved holdLanded attempt capReached) in
    when holdLanded
      (partlyLandedHold ticket landedRepos (status_name (reject_status to)) resolved actor;;; mret tt);;;
    when capReached
      (ticket_event id actor "ticket.parked_retry_cap"
         (JSObj [("attempt_count", JSNum attempt); ("max_attempts", JSNum maxAttempts);
                 ("requested_target", JSStr (status_name (reject_status to))); ("reason", JSStr resolved)]);;;
       mret tt);;;
    recordRejectPins ticket actor pinHeads attempt;;;
    resetAcceptanceCriteria id actor;;;
    let* nowIso := now in
    store_feedback id resolved actor nowIso;;;
    mret result).

(** [wontDo] of the gate. *)
Definition gate_wontDo (ref : string) (actor : Actor) (reason : option string) : Op TransitionResult :=
  inTransaction (
    let* ticket := resolveRef ref in
    refuseCancelOfLanded ticket;;;
    let* result := transition (gate_move ticket actor Cancelled (reason_or reason "wont_do") (status ticket)
                                 None None None [wontDo]) in
    resetAcceptanceCriteria (tk_id ticket) actor;;;
    mret result).

(** ** Holds *)

Definition holdForHuman (ticketRef reasonCode reason : string) (actor : Actor) : Op TransitionResult :=
  assertSystemOrAdmin actor
    "Only the runner (system) or an admin may hold an approved ticket for a human.";;;
  let code := trim reasonCode in
  guard_ (snake_case code) (invalid "reason code must be a snake_case word.");;;
  let text := given (Some (String.substring 0 4000 (trim reason))) ?? code in
  inTransaction (
    let* ticket := resolveRef ticketRef in
    guard_ (bool_decide (status ticket = ReadyForMerge) || bool_decide (status ticket = InTesting))
      (DispatchError ILLEGAL_TRANSITION
         "Only an approved ticket (ready_for_merge or in_testing) can be held for a human.");;;
    let* result := transition (gate_move ticket actor Blocked ("held:" +:+ code) (status ticket)
                                 None None None [park]) in
    ticket_event (tk_id ticket) actor "ticket.blocked"
      (JSObj [("reason", JSStr text); ("reason_code", JSStr code)]);;;
    mret result).

(** Every commit a CI result may be recorded for. *)
Definition ciCandidateCommits (ticket : Ticket) (d : db) : list string :=
  let id := tk_id ticket in
  let delivered_ := omap (λ x, if bool_decide (rd_ticket_id x = id) then given (commit_sha x) else None)
                      (ticket_repo_delivery d) in
  let pins := omap (λ e, if bool_decide (ev_ticket_id e = id) && bool_decide (evidence_type e = Commit)
                            && bool_decide (recorded_by_actor_type e = Some "system")
                         then u ← uri e; if like_prefix REVIEW_PIN_PREFIX u
                                         then Some (slice_from (String.length REVIEW_PIN_PREFIX) u) else None
                         else None) (evidence d) in
  distinct (head_shas (resolveReviewedHeads ticket d)
            ++ filter (λ s, is_hex_between 7 64 s = true) ((λ s, toLowerCase (trim s)) <$> (delivered_ ++ pins))).

Record CiRecorded := mk_CiRecorded { cr_state : string; cr_held : bool; cr_status : TicketStatus; cr_eventId : string }.
Definition detail_field (detail : option string) : list (string * js) :=
  optional_field "detail" (given (Some (String.substring 0 2000 (trim (detail ?? ""))))).
Definition red_reason (commit : string) (detail : option string) : string :=
  "Required CI failed for " +:+ short commit
  +:+ (match given (Some (String.substring 0 2000 (trim (detail ?? "")))) with
       | Some x => ": " +:+ x | None => "" end).

(** The result is on record before the hold is tried. *)
Definition recordCiResult (ticketRef commit_ state : string) (detail : option string) (actor : Actor)
    : Op (error + CiRecorded) :=
  assertSystemOrAdmin actor "Only the runner (system) or an admin may record a CI result.";;;
  let commit := toLowerCase (trim commit_) in
  guard_ (is_hex_between 7 64 commit) (invalid "commit must be a git commit id.");;;
  guard_ (bool_decide (state ∈ ["pending"; "pass"; "fail"])) (invalid "state must be pending, pass or fail.");;;
  let* ticket := resolveRef ticketRef in
  let* candidates := gets (ciCandidateCommits ticket) in
  guard_ (existsb (same_commit commit) candidates)
    (conflict (short commit +:+ " is not a commit of #" +:+ ticket_ref_label ticket "?"
       +:+ ": a CI result is recorded only for the ticket's candidate commit (a write repo's delivery head, a recorded delivery commit, or an approved revision)."));;;
  let* eventId := ticket_event (tk_id ticket) actor "ticket.ci_result"
    (JSObj ([("commit", JSStr commit); ("state", JSStr state)] ++ detail_field detail)) in
  if bool_decide (state = "fail")
     && (bool_decide (status ticket = ReadyForMerge) || bool_decide (status ticket = InTesting))
  then
    let* held := attempt (holdForHuman (tk_id ticket) "ci_red" (red_reason commit detail) actor) in
    mret match held with
         | inl e => inl e
         | inr r => inr (mk_CiRecorded state true (status (result_ticket r)) eventId)
         end
  else mret (inr (mk_CiRecorded state false (status ticket) eventId)).

(** Idempotent: [None] when the requirement is already on record. *)
Definition recordCiRequired (ticketRef : string) (detail : option string) (actor : Actor) : Op (option string) :=
  assertSystemOrAdmin actor "Only the runner (system) or an admin may record that a ticket requires CI.";;;
  let* ticket := resolveRef ticketRef in
  let* already := gets (ci_marked (tk_id ticket)) in
  if (already : bool) then mret None
  else let* eventId := ticket_event (tk_id ticket) actor "ticket.ci_required" (JSObj (detail_field detail)) in
       mret (Some eventId).

(** ** Reopening *)

(** [cause] is the caller's, else the conflict resolver's. *)
Definition gate_reopenForReview (ref reason_ resolution_ : string) (cause : option string) (actor : Actor)
    : Op (string * TicketStatus * string) :=
  assertSystemOrAdmin actor "Only a system or admin actor may reopen a done ticket for review.";;;
  let reason := trim reason_ in
  let resolution := trim resolution_ in
  guard_ (negb (bool_decide (resolution = ""))) (invalid "A resolution summary is required.");;;
  inTransaction (
    let* ticket := resolveRef ref in
    guard_ (bool_decide (status ticket = Done) || bool_decide (status ticket = ReadyForMerge))
      (DispatchError ILLEGAL_TRANSITION "Only a done or merging ticket can be reopened for review.");;;
    let* result := transition (gate_move ticket actor InReview
        (if bool_decide (reason = "") then "reopened_for_review" else reason) (status ticket)
        None None None [reopenForReview]) in
    let* nowIso := now in
    let* evidenceId := actor_evidence (tk_id ticket) None ManualNote resolution None None actor nowIso in
    let why := cause ?? "merge_conflict" in
    let* eventId := ticket_event (tk_id ticket) actor "ticket.reopened_for_review"
      (JSObj [("reason", JSNullable (given (Some reason))); ("resolution", JSStr resolution);
              ("cause", JSStr why);
              ("merge_conflict_resolved", JSBool (bool_decide (why = "merge_conflict")));
              ("evidence_id", JSStr evidenceId)]) in
    mret (tk_id ticket, status (result_ticket result), eventId)).

(** ** The facade *)

Definition revocationAfterLanding (ticketId : string) (actor : Actor) (revocation : string)
    : Op (list LandingStarted) :=
  let* landed_ := gets (landingsStarted ticketId) in
  match landed_ with
  | [] => mret tt
  | _ => ticket_event ticketId actor "ticket.revoked_after_landing"
           (JSObj [("revocation", JSStr revocation); ("landings", JSArr (started_js <$> landed_))]);;; mret tt
  end;;;
  mret landed_.

Definition facade_rejectReview (ticketRef : string) (to : RejectTo) (actor : Actor) (reason : option string)
    : Op (TransitionResult * list LandingStarted) :=
  let* res := rejectReview ticketRef to actor reason in
  let* landed_ := revocationAfterLanding (tk_id (result_ticket res)) actor
                    ("rejected_to_" +:+ status_name (reject_status to)) in
  mret (res, landed_).
Definition facade_wontDo (ref : string) (actor : Actor) (reason : option string)
    : Op (TransitionResult * list LandingStarted) :=
  let* res := gate_wontDo ref actor reason in
  let* landed_ := revocationAfterLanding (tk_id (result_ticket res)) actor "wont_do" in
  mret (res, landed_).
Definition facade_recordCiResult (ref commit state : string) (detail : option string) (actor : Actor)
    : Op (error + (CiRecorded * list LandingStarted)) :=
  let* res := recordCiResult ref commit state detail actor in
  match res with
  | inl e => mret (inl e)
  | inr r =>
      let* ticket := gets (tickets_resolveRef ref) in
      match ticket with
      | Some t => if bool_decide (state = "fail") then
                    let* l := revocationAfterLanding (tk_id t) actor ("ci_failed:" +:+ short commit) in
                    mret (inr (r, l))
                  else mret (inr (r, []))
      | None => mret (inr (r, []))
      end
  end.

(** A drag of a reviewed card back to rework is a rejection. *)
Definition moveTicket (ticketRef : string) (toStatus : TicketStatus) (actor : Actor) : Op TransitionResult :=
  let* ticket := resolveRef ticketRef in
  let reviewed := bool_decide (status ticket = InReview) || bool_decide (status ticket = ReadyForMerge) in
  if reviewed && bool_decide (toStatus = Ready) then
    let* r := facade_rejectReview (tk_id ticket) ToReady actor (Some "board_move") in mret r.1
  else if reviewed && bool_decide (toStatus = Refining) then
    let* r := facade_rejectReview (tk_id ticket) ToRefining actor (Some "board_move") in mret r.1
  else board_move ticket toStatus actor.
End sendback.
