(* ===== verification/Tester.v ===== *)
(** * The verdicts of the independent tester and of the check runner

    [testerPass], [testerFail] and [recordAcCheck] of
    [src/packages/dispatch/src/services/reviewGateService.ts], with the
    evidence an automated PASS of a profiled ticket must point at. *)
From Stdlib Require Import Ascii.
From S2P Require Import Prelude Json JsonParse Types EventChain Store Policy Diff Transition Claims.
From S2P Require Import Tickets Pause Decisions Lifecycle Landing Autonomy Verdicts Review Approval.
From S2P Require Import Landings Sendback.

(** [String(v)]; an absent member is [undefined]. *)
Fixpoint js_text (v : js) : string :=
  match v with
  | JSUndefined => "undefined" | JSNull => "null"
  | JSBool b => if b then "true" else "false"
  | JSNum n | JSBigInt n => pretty n
  | JSReal s | JSStr s => s
  | JSNonFinite => "NaN"
  | JSArr l => join_with "," (js_text <$> l)
  | JSObj _ => "[object Object]"
  end.
Definition String_ (o : option js) : string := match o with Some v => js_text v | None => "undefined" end.

(** ** Acceptance evidence *)

Definition evidence_required_error (profile : AcceptanceProfile) (why : string) : error :=
  DispatchError ACCEPTANCE_EVIDENCE_REQUIRED
    ("An automated PASS on a ticket with the " +:+ profile_name profile
     +:+ " acceptance profile needs the runner's passed " +:+ profile_name profile
     +:+ " evidence for the tested commit: " +:+ why
     +:+ ". A human can record the verdict instead (tester-pass --as human), which is reported as a waiver.").
Definition runner_record (e : Evidence) : bool :=
  bool_decide (recorded_by_actor_type e = Some "system")
  && String.prefix ACCEPTANCE_EVIDENCE_PREFIX (uri e ?? "").
Definition is_true (o : option js) : bool := match o with Some (JSBool b) => b | _ => false end.
Definition case_held (c : js) : bool := is_true (js_member "held" c).
Definition cases_of (p : js) : list js := match js_member "cases" p with Some (JSArr l) => l | _ => [] end.
(** Why a record does not prove the profile; [None] when it does. *)
Definition record_refusal (profile : AcceptanceProfile) (binding : VerdictBinding)
    (contractNow : option string) (e : Evidence) : option string :=
  let p := ev_payload e ?? JSObj [] in
  if negb (runner_record e) then Some "the named evidence is not the runner's acceptance record"
  else if negb (is_text (profile_name profile) (js_member "profile" p))
  then Some ("the record is for the " +:+ String_ (js_member "profile" p) +:+ " profile")
  else if negb (is_true (js_member "passed" p))
  then Some "the runner's acceptance run did not pass"
  else if bool_decide (length (cases_of p) = 0%nat) || negb (forallb case_held (cases_of p))
  then Some "the record's cases do not all hold"
  else if bool_decide (given (tested_commit binding) = None)
          || negb (bool_decide (Some (String_ (js_member "tested_commit" p)) = tested_commit binding))
  then Some "the record is for a different commit than the one tested"
  else match given contractNow with
       | Some c => if is_text c (js_member "contract_hash" p) then None
                   else Some "the record was made against a different contract"
       | None => None
       end.

Definition assertAcceptanceEvidence (ticket : Ticket) (evidenceId : option string)
    (binding : VerdictBinding) (contractNow : option string) (d : db)
    : error + option (AcceptanceProfile * string) :=
  let profile := contractProfile (test_contract ticket) in
  let refuse why := inl (evidence_required_error profile why) in
  if bool_decide (profile = PUnit) then inr None
  else if negb (bool_decide (profile ∈ EXECUTABLE_PROFILES))
  then refuse ("the runner cannot run the " +:+ profile_name profile +:+ " profile yet")
  else match given evidenceId with
  | None => refuse "no acceptance evidence was named"
  | Some eid =>
      match find (λ e, bool_decide (ev_ticket_id e = tk_id ticket) && bool_decide (ev_id e = eid)) (evidence d) with
      | None => refuse ("evidence " +:+ eid +:+ " is not on this ticket")
      | Some e => match record_refusal profile binding contractNow e with
                  | Some why => refuse why
                  | None => inr (Some (profile, ev_id e))
                  end
      end
  end.

(** ** PASS *)

Record TesterPassInput := mk_TesterPassInput {
  tp_summary : string;
  tp_uri : option string;
  tp_binding : BindingInput;
  acceptance_evidence : option string;
  tp_tests : option js;
  tp_agent : option js
}.

Section tester.
Context `{Env, ReviewDeps}.

Definition is_system (actor : Actor) : bool := bool_decide (actor_type actor = SystemActor).
Definition pass_tests (input : TesterPassInput) (actor : Actor) : Op (option (list TesterTestIdentity)) :=
  match tp_tests input with
  | None => mret None
  | Some raw =>
      guard_ (is_system actor) (DispatchError ACTOR_NOT_PERMITTED
        "Only the runner (the system actor) may record the test identities a tester PASS binds.");;;
      let* parsed := require (parseTesterIdentities raw)
        (invalid "tests must be a JSON array of at most 5000 { file, name, line?, column? } test identities.") in
      guard_ (bool_decide (length parsed = 0%nat)
              || SHA_RE (toLowerCase (bi_tests_commit (tp_binding input) ?? "")))
        (invalid "test identities need the commit holding the tester's tests (tests_commit).");;;
      mret (Some parsed)
  end.
Definition pass_agent (input : TesterPassInput) (actor : Actor) : Op (option TesterAgentRef) :=
  match tp_agent input with
  | None => mret None
  | Some raw =>
      guard_ (is_system actor) (DispatchError ACTOR_NOT_PERMITTED
        "Only the runner (the system actor) may record which tester agent's run a PASS comes from.");;;
      let* parsed := require (parseTesterAgent raw)
        (invalid "tester_agent must be { id, run? } with a plain agent id and run id.") in
      mret (Some parsed)
  end.
Definition by_human (actor : Actor) : bool := bool_decide (actor_type actor = Human ∨ actor_type actor = Admin).

Definition pass_payload (actor : Actor) (binding : VerdictBinding)
    (accept : option (AcceptanceProfile * string)) (tests : option (list TesterTestIdentity))
    (agent : option TesterAgentRef) : js :=
  JSObj ([("verdict", JSStr "pass"); ("provenance", JSStr (provenance_name (testerProvenance actor)))]
    ++ binding_members binding
    ++ match accept with
       | Some (p, eid) => [("acceptance", JSObj [("profile", JSStr (profile_name p)); ("evidence_id", JSStr eid)])]
       | None => []
       end
    ++ match tests with Some l => [("tests", JSArr (identity_js <$> l))] | None => [] end
    ++ match agent with Some a => [("tester_agent", tester_agent_js a)] | None => [] end).
Definition passed_payload (evidenceId : string) (toReview : bool) (testedHead contract : option string) : js :=
  JSObj ([("evidence_id", JSStr evidenceId)]
    ++ (if toReview then [("to", JSStr "in_review"); ("before_review", JSBool true)] else [])
    ++ optional_field "tested_head" (given testedHead)
    ++ (if toReview then optional_field "contract_hash" (given contract) else [])).

Definition testerPass (ticketRef : string) (input : TesterPassInput) (actor : Actor) : Op TransitionResult :=
  let summary := trim (tp_summary input) in
  guard_ (negb (bool_decide (summary = ""))) (invalid "A test-result summary is required.");;;
  let* tests := pass_tests input actor in
  let* agent := pass_agent input actor in
  let* pre := resolveRef ticketRef in
  let* toReview := gets (λ d, bool_decide (status pre = InTesting) && enteredTestingBeforeReview (tk_id pre) d) in
  let target := if (toReview : bool) then InReview else ReadyForMerge in
  let* proof := gets (λ d, if bool_decide (status pre = InTesting) && negb toReview
                           then Some (deliveryDiffProof pre d) else None) in
  let* headSha := gets (λ d, h_sha <$> ciCandidateHead pre d) in
  let* required_ := gets (λ d, required (ciStatus (tk_id pre) None d)) in
  let ciCandidate := coalesce (bi_tested_commit (tp_binding input))
                              (if (required_ : bool) then headSha else None) in
  inTransaction (
    let* ticket := resolveRef ticketRef in
    let id := tk_id ticket in
    guard_ (bool_decide (status ticket = InTesting))
      (DispatchError ILLEGAL_TRANSITION "Only a ticket in testing can be passed by the tester.");;;
    let* contractNow := gets (contractHash id) in
    let* binding := validatedBinding (tp_binding input)
      (bool_decide (acceptance ticket = 1%Z) && negb (by_human actor)) contractNow true (by_human actor) in
    let* checked_ := gets (assertAcceptanceEvidence ticket (acceptance_evidence input) binding contractNow) in
    let* accept := (if by_human actor then mret None else lift_result checked_) in
    (if toReview then mret tt else assertCiPassed ticket ciCandidate);;;
    let* nowIso := now in
    let* evidenceId := actor_evidence id None TestOutput summary (tp_uri input)
      (Some (pass_payload actor binding accept tests agent)) actor nowIso in
    let* result := transition (gate_move ticket actor target "tester_passed" InTesting None None proof [testerVerdict]) in
    ticket_event id actor "ticket.tester_passed"
      (passed_payload evidenceId toReview
         (coalesce (tested_commit binding) (if toReview then toLowerCase <$> headSha else None))
         (if bool_decide (given (contract_hash binding) = None) then contractNow else None));;;
    mret result).

(** ** FAIL *)

(** [to_ready]: a FAIL re-queues for rework instead of waiting for a person. *)
Definition testerFail (ticketRef summary_ : string) (url : option string) (to_ready : bool)
    (b : BindingInput) (actor : Actor) : Op TransitionResult :=
  let summary := trim summary_ in
  guard_ (negb (bool_decide (summary = ""))) (invalid "A failing-test summary is required.");;;
  let failTo := if to_ready then Ready else Refining in
  inTransaction (
    let* ticket := resolveRef ticketRef in
    let id := tk_id ticket in
    guard_ (bool_decide (status ticket = InTesting))
      (DispatchError ILLEGAL_TRANSITION "Only a ticket in testing can be failed by the tester.");;;
    let* contractNow := gets (contractHash id) in
    let* binding := validatedBinding b false contractNow false false in
    let* nowIso := now in
    let* evidenceId := actor_evidence id None TestOutput summary url
      (Some (JSObj ([("verdict", JSStr "fail"); ("provenance", JSStr (provenance_name (testerProvenance actor)))]
                    ++ binding_members binding))) actor nowIso in
    let* landedRepos := gets (recordedLandingRepos id) in
    let holdLanded := bool_decide (0 < length landedRepos)%nat in
    let '(attempt, capReached) := next_attempt (negb holdLanded) ticket in
    let reason := "tester_failed:" +:+ summary in
    let parked := capReached || holdLanded in
    let* result := transition (gate_move ticket actor (if parked then Blocked else failTo)
      (held_reason holdLanded capReached reason) InTesting (patch_of (Some attempt) None) None None
      (if parked then [park] else [testerVerdict])) in
    when holdLanded
      (partlyLandedHold ticket landedRepos (status_name failTo) reason actor;;; mret tt);;;
    when capReached
      (ticket_event id actor "ticket.parked_retry_cap"
         (JSObj [("attempt_count", JSNum attempt); ("max_attempts", JSNum maxAttempts); ("reason", JSStr reason)]);;;
       mret tt);;;
    resetAcceptanceCriteria id actor;;;
    store_feedback id reason actor nowIso;;;
    ticket_event id actor "ticket.tester_failed" (JSObj [("evidence_id", JSStr evidenceId)]);;;
    mret result).

(** ** Machine-checkable criteria *)

Record RecordAcCheckInput := mk_RecordAcCheckInput {
  ck_ticket_id : string;
  ck_ac_id : string;
  exit_code : Z;
  command : string;
  output_tail : option string;
  duration_s : option js
}.
(** [checkCommandText] and [recordAcCheckInput.parse]. *)
Definition checkCommandText (v : string) : bool :=
  bool_decide (String.length v ≤ 2000)%nat && negb (bool_decide (trim v = "")) && negb (has_char (is_char 0) v).
Definition nonnegative (v : js) : bool :=
  match v with
  | JSNum n => bool_decide (0 ≤ n)%Z
  | JSReal s => negb (String.prefix "-" s)
  | _ => false
  end.
Definition recordAcCheckInput (i : RecordAcCheckInput) : bool :=
  negb (bool_decide (ck_ticket_id i = "")) && negb (bool_decide (ck_ac_id i = ""))
  && bool_decide (0 ≤ exit_code i ≤ 255)%Z && checkCommandText (command i)
  && match output_tail i with Some s => bool_decide (String.length s ≤ 8000)%nat | None => true end
  && match duration_s i with Some v => nonnegative v | None => true end.

Definition recordAcCheck (input : RecordAcCheckInput) (actor : Actor) : Op (AcStatus * string * string) :=
  guard_ (recordAcCheckInput input) SchemaError;;;
  guard_ (negb (bool_decide (actor_type actor = AgentActor)))
    (DispatchError ACTOR_NOT_PERMITTED
       "An agent may not record an acceptance-criterion check result; the runner (system) executes and records checks.");;;
  let* nowIso := now in
  inTransaction (
    let* ticket := resolveRef (ck_ticket_id input) in
    let id := tk_id ticket in
    let* found := gets (acs_findById (ck_ac_id input)) in
    let* ac := require (a ← found; if bool_decide (ac_ticket_id a = id) then Some a else None)
      (notFound "acceptance_criterion" (ck_ac_id input)) in
    guard_ (bool_decide (given (check_command ac) ≠ None))
      (invalid "This acceptance criterion has no check_command; a check result can only be recorded for a machine-checkable AC.");;;
    guard_ (bool_decide (check_command ac = Some (command input)))
      (invalid "The executed command does not match this criterion's stored check_command byte for byte; the result was not recorded.");;;
    let passed := bool_decide (exit_code input = 0%Z) in
    let st := if passed then Satisfied else AcFailed in
    modify (acs_setStatus (ac_id ac) st (Some AC_CHECK_VERIFIER) nowIso);;;
    let* evidenceId := actor_evidence id (Some (ac_id ac)) TestOutput
      ("AC check " +:+ (if passed then "PASSED" else "FAILED") +:+ " (exit " +:+ pretty (exit_code input)
       +:+ "): " +:+ command input) None
      (Some (JSObj ([("kind", JSStr "ac_check"); ("passed", JSBool passed); ("exit_code", JSNum (exit_code input));
                     ("command", JSStr (command input))] ++ optional_field "output_tail" (output_tail input)
                    ++ match duration_s input with Some v => [("duration_s", v)] | None => [] end))) actor nowIso in
    let* eventId := ticket_event id actor "ac.checked"
      (JSObj [("ac_id", JSStr (ac_id ac)); ("passed", JSBool passed); ("exit_code", JSNum (exit_code input));
              ("evidence_id", JSStr evidenceId)]) in
    mret (st, evidenceId, eventId)).
End tester.
