(* ===== verification/Edits.v ===== *)
(** * Editing a ticket's contract

    The contract writes of [src/packages/dispatch/src/services/ticketService.ts]:
    title, description and pack, the acceptance criteria, the test contract
    and its acceptance profile, with the freeze that binds a delivery to the
    contract it started from, and the input schemas of [domain/schemas.ts]
    they parse. *)
From Stdlib Require Import Ascii.
From S2P Require Import Prelude Json JsonParse Types EventChain Store Policy Diff Transition Claims Tickets.
From S2P Require Import Landing Autonomy Verdicts Pattern Contract Profiles Review Approval Sendback Tester.

(** ** Input schemas *)

(** [CONTROL_CHARS_RE], [noControlChars], [toOneLine] *)
Definition control_char (c : ascii) : bool :=
  let n := nat_of_ascii c in bool_decide (n < 32 ∨ n = 127)%nat.
Definition noControlChars (v : string) : bool := negb (has_char control_char v).
Definition toOneLine (v : string) : string := trim (collapse_text control_char v).
(** [ticketTitleText] and [acText]: the trimmed text. *)
Definition one_line (max : nat) (v : string) : option string :=
  let t := trim v in if between 1 max t && noControlChars t then Some t else None.
Definition ticketTitleText : string → option string := one_line 300.
Definition acText : string → option string := one_line 2000.

(** An optional field of a schema. *)
Definition optionally {A B} (f : A → option B) (o : option A) : option (option B) :=
  match o with None => Some None | Some a => Some <$> f a end.
Definition when_ok {A} (P : A → bool) (a : A) : option A := if P a then Some a else None.
Definition nonneg_upto (max : Z) (n : Z) : bool := bool_decide (0 ≤ n ≤ max)%Z.

Record EditTicketInput := mk_EditTicketInput {
  ei_title : option string;
  ei_description : option string;
  ei_policy_pack : option PolicyPack;
  ei_priority : option Z
}.
Definition editTicketInput (i : EditTicketInput) : option EditTicketInput :=
  t ← optionally ticketTitleText (ei_title i);
  x ← optionally (when_ok (between 0 20000)) (ei_description i);
  n ← optionally (when_ok (nonneg_upto 1000)) (ei_priority i);
  if bool_decide (t = None) && bool_decide (x = None) && bool_decide (ei_policy_pack i = None)
     && bool_decide (n = None)
  then None else Some (mk_EditTicketInput t x (ei_policy_pack i) n).

Record AddAcInput := mk_AddAcInput {
  ai_ticket_id : string;
  ai_text : string;
  ai_verification_method : option string;
  ai_evidence_required : bool;
  ai_spec_clause_id : option string;
  ai_check_command : option string
}.
Definition addAcInput (i : AddAcInput) : option AddAcInput :=
  t ← acText (ai_text i);
  m ← optionally (when_ok (between 0 500)) (ai_verification_method i);
  c ← optionally (λ s, when_ok (between 1 100) (trim s)) (ai_spec_clause_id i);
  k ← optionally (when_ok checkCommandText) (ai_check_command i);
  if bool_decide (ai_ticket_id i = "") then None
  else Some (mk_AddAcInput (ai_ticket_id i) t m (ai_evidence_required i) c k).

(** [Some None] is an explicit [null]. *)
Record EditAcInput := mk_EditAcInput {
  ea_text : option string;
  ea_verification_method : option (option string);
  ea_check_command : option (option string)
}.
Definition editAcInput (i : EditAcInput) : option EditAcInput :=
  t ← optionally acText (ea_text i);
  m ← optionally (optionally (when_ok (between 0 500))) (ea_verification_method i);
  k ← optionally (optionally (when_ok checkCommandText)) (ea_check_command i);
  if bool_decide (t = None) && bool_decide (m = None) && bool_decide (k = None)
  then None else Some (mk_EditAcInput t m k).

Record SetTestContractInput := mk_SetTestContractInput {
  sc_changed_surfaces : list string;
  sc_runtime_deps : list string;
  sc_env_vars : list string;
  sc_run_command : string;
  sc_harness_ready : bool;
  sc_profile : option AcceptanceProfile
}.
Definition short_lines (l : list string) : option (list string) :=
  if bool_decide (length l ≤ 100)%nat then mapM (λ s, when_ok (between 1 500) (trim s)) l else None.
Definition setTestContractInput (i : SetTestContractInput) : option SetTestContractInput :=
  s ← short_lines (sc_changed_surfaces i);
  x ← short_lines (sc_runtime_deps i);
  v ← short_lines (sc_env_vars i);
  r ← when_ok (between 0 2000) (trim (sc_run_command i));
  Some (mk_SetTestContractInput s x v r (sc_harness_ready i) (sc_profile i)).

(** ** Statuses *)

Definition CONTRACT_EDITABLE_STATUSES : list TicketStatus := [Draft; Refining; Ready; Blocked].
Definition TEST_CONTRACT_EDITABLE_STATUSES : list TicketStatus :=
  CONTRACT_EDITABLE_STATUSES ++ [Claimed; InProgress; InReview].
Definition status_words (l : list TicketStatus) : string := comma_list (status_name <$> l).

(** ** Rows ([ticketRepository.ts], [acRepository.ts]) *)

Definition ticket_with (ti ds : string) (pack : PolicyPack) (prio ver : Z) (testable : Z)
    (contract : option string) (allow : Z) (budget : option Z) (at_ : instant) (t : Ticket) : Ticket :=
  mk_Ticket (tk_id t) (number t) ti ds (status t) prio (risk_level t) pack (source t) (tk_created_by t)
    (reviewer t) (branch_name t) (pr_url t) (attempt_count t) ver (scheduled_after t) (due_at t)
    (bootstrap t) (last_review_feedback t) testable contract (acceptance t) allow (human_owner t)
    (human_delivered t) budget (created_at t) at_.
Definition fields_updated (i : EditTicketInput) (nowIso : instant) (t : Ticket) : Ticket :=
  ticket_with (ei_title i ?? title t) (ei_description i ?? description t) (ei_policy_pack i ?? policy_pack t)
    (ei_priority i ?? priority t) (row_version t + 1)%Z (can_be_tested t) (test_contract t)
    (allow_test_changes t) (delivery_budget_usd t) nowIso t.
Definition tickets_updateFields (id : string) (expectedRowVersion : Z) (i : EditTicketInput)
    (nowIso : instant) : Op bool := λ d,
  match tickets d !! id with
  | Some t =>
      if bool_decide (row_version t = expectedRowVersion)
      then Ok true (set_tickets (<[id := fields_updated i nowIso t]> (tickets d)) d)
      else Ok false d
  | None => Ok false d
  end.
Definition flag_of (b : bool) : Z := if b then 1%Z else 0%Z.
Definition same_fields (t : Ticket) := ticket_with (title t) (description t) (policy_pack t) (priority t) (row_version t).
Definition tickets_setCanBeTested (id : string) (v : bool) (nowIso : instant) (d : db) : db :=
  set_tickets (update_row id (λ t, same_fields t (flag_of v) (test_contract t) (allow_test_changes t)
    (delivery_budget_usd t) nowIso t) (tickets d)) d.
Definition tickets_setAllowTestChanges (id : string) (v : bool) (nowIso : instant) (d : db) : db :=
  set_tickets (update_row id (λ t, same_fields t (can_be_tested t) (test_contract t) (flag_of v)
    (delivery_budget_usd t) nowIso t) (tickets d)) d.
Definition tickets_setTestContract (id : string) (v : option string) (nowIso : instant) (d : db) : db :=
  set_tickets (update_row id (λ t, same_fields t (can_be_tested t) v (allow_test_changes t)
    (delivery_budget_usd t) nowIso t) (tickets d)) d.
Definition tickets_setDeliveryBudget (id : string) (v : option Z) (nowIso : instant) (d : db) : db :=
  set_tickets (update_row id (λ t, same_fields t (can_be_tested t) (test_contract t) (allow_test_changes t)
    v nowIso t) (tickets d)) d.

Definition acs_insert (c : AcceptanceCriterion) : Op unit := λ d,
  match acceptance_criteria d !! ac_id c with
  | Some _ => Err SqliteConstraintPrimaryKey
  | None => if dangling (Some (ac_ticket_id c)) (tickets d) then Err SqliteConstraintForeignKey
            else Ok tt (set_acceptance_criteria (<[ac_id c := c]> (acceptance_criteria d)) d)
  end.
(** [COALESCE(MAX(sort_order), -1) + 1] *)
Definition acs_nextSortOrder (ticketId : string) (d : db) : Z :=
  (foldr (λ c m, Z.max (sort_order c) m) (-1) (acs_listForTicket ticketId d) + 1)%Z.
Definition ac_edited (text : string) (method check : option string) (nowIso : instant)
    (c : AcceptanceCriterion) : AcceptanceCriterion :=
  mk_AcceptanceCriterion (ac_id c) (ac_ticket_id c) text (sort_order c) Pending method (evidence_required c)
    None None check (spec_clause_id c) (ac_created_at c) nowIso.
Definition acs_update (id text : string) (method check : option string) (nowIso : instant) (d : db) : db :=
  set_acceptance_criteria (update_row id (ac_edited text method check nowIso) (acceptance_criteria d)) d.
(** The criterion's evidence goes with it. *)
Definition acs_delete (id : string) (d : db) : db :=
  set_evidence (filter (λ e, ev_ac_id e ≠ Some id) (evidence d))
    (set_acceptance_criteria (delete id (acceptance_criteria d)) d).

Section edits.
Context `{Env}.

(** [#n], or the id of a ticket without a number. *)
Definition number_or_id (t : Ticket) : string := "#" +:+ ticket_ref_label t (tk_id t).

Definition assertContractEditable (ticket : Ticket) (what : string) : Op unit :=
  guard_ (bool_decide (status ticket ∈ CONTRACT_EDITABLE_STATUSES))
    (DispatchError CONTRACT_FROZEN
      ("Cannot " +:+ what +:+ ": ticket " +:+ number_or_id ticket +:+ " is '" +:+ status_name (status ticket)
       +:+ "', and its contract (title, description, policy, criteria, check commands) is frozen once "
       +:+ "delivery starts, because the review and the tester are bound to it. Send it back for "
       +:+ "rework first, or change it while it is " +:+ status_words CONTRACT_EDITABLE_STATUSES +:+ ".")).
Definition assertTestContractEditable (ticket : Ticket) (what : string) : Op unit :=
  guard_ (bool_decide (status ticket ∈ TEST_CONTRACT_EDITABLE_STATUSES))
    (DispatchError CONTRACT_FROZEN
      ("Cannot " +:+ what +:+ ": ticket " +:+ number_or_id ticket +:+ " is '" +:+ status_name (status ticket)
       +:+ "', and the tester is bound to the contract from in_testing "
       +:+ "on. Send it back for rework first, or set it while it is "
       +:+ status_words TEST_CONTRACT_EDITABLE_STATUSES +:+ ".")).

(** A ready ticket must keep passing its own ready gate. *)
Definition recheckReadyGate (before : Ticket) : Op unit :=
  if negb (bool_decide (status before = Ready)) then mret tt
  else
    let* policy := preview (tk_id before) Ready in
    guard_ (match policy with Some p => allowed p | None => true end)
      (DispatchError POLICY_DENIED
        ("This edit would make ready ticket " +:+ number_or_id before +:+ " fail its '"
         +:+ pack_name (match policy with Some p => res_pack p | None => policy_pack before end)
         +:+ "' ready gate; move it back to draft first, or fix what the gate names in the same change.")).

Definition createWarnings (ticket : Ticket) : list (string * string) :=
  if bool_decide (policy_pack ticket = SoloLoose) || negb (bool_decide (trim (description ticket) = "")) then []
  else let n := ticket_ref_label ticket "null" in
    [("DESCRIPTION_REQUIRED",
      "The '" +:+ pack_name (policy_pack ticket) +:+ "' pack needs a description before ticket #" +:+ n
      +:+ " can be ready. Set one with: wg ticket edit " +:+ n +:+ " -d " +:+ dquote_text +:+ "<what + why>"
      +:+ dquote_text)].

(** ** The ticket *)

Definition change (k : string) (changed : bool) (from to : js) (l : list (string * js)) : list (string * js) :=
  if changed then (k, JSObj [("from", from); ("to", to)]) :: l else l.
(** The [changes] of the event; a description by its length. *)
Definition ticket_changes (i : EditTicketInput) (t : Ticket) : list (string * js) :=
  match ei_title i with
  | Some x => change "title" (negb (bool_decide (x = title t))) (JSStr (title t)) (JSStr x) []
  | None => []
  end
  ++ match ei_description i with
     | Some x => if bool_decide (x = description t) then []
                 else [("description", JSObj [("from_length", JSNum (Z.of_nat (String.length (description t))));
                                              ("to_length", JSNum (Z.of_nat (String.length x)))])]
     | None => []
     end
  ++ match ei_policy_pack i with
     | Some x => change "policy_pack" (negb (bool_decide (x = policy_pack t)))
                   (JSStr (pack_name (policy_pack t))) (JSStr (pack_name x)) []
     | None => []
     end
  ++ match ei_priority i with
     | Some x => change "priority" (negb (bool_decide (x = priority t))) (JSNum (priority t)) (JSNum x) []
     | None => []
     end.
Definition touches_contract (i : EditTicketInput) : bool :=
  negb (bool_decide (ei_title i = None) && bool_decide (ei_description i = None)
        && bool_decide (ei_policy_pack i = None)).
Definition assertEditable (i : EditTicketInput) (ticket : Ticket) : Op unit :=
  if touches_contract i then assertContractEditable ticket "edit the ticket"
  else guard_ (negb (bool_decide (status ticket = Done) || bool_decide (status ticket = Cancelled)))
         (conflict ("Ticket " +:+ number_or_id ticket +:+ " is '" +:+ status_name (status ticket)
                    +:+ "'; its priority is final.")).

Definition editTicket (ref : string) (raw : EditTicketInput) (actor : Actor)
    : Op (Ticket * string * list string) :=
  let* input := require (editTicketInput raw) SchemaError in
  inTransaction (
    let* ticket := resolveRef ref in
    assertEditable input ticket;;;
    let changes := ticket_changes input ticket in
    guard_ (negb (bool_decide (changes = [])))
      (DispatchError NO_OP ("Ticket " +:+ number_or_id ticket +:+ " already has those values."));;;
    let* nowIso := now in
    let* ok := tickets_updateFields (tk_id ticket) (row_version ticket) input nowIso in
    guard_ ok (DispatchError CONCURRENCY_CONFLICT "Ticket changed concurrently; retry.");;;
    let* eventId := ticket_event (tk_id ticket) actor "ticket.edited"
      (JSObj [("changed", JSArr (JSStr <$> changes.*1)); ("changes", JSObj changes)]) in
    recheckReadyGate ticket;;;
    let* found := gets (tickets_findById (tk_id ticket)) in
    let* updated := require found (notFound "ticket" (tk_id ticket)) in
    mret (updated, eventId, changes.*1)).

(** ** The criteria *)

Definition addAcceptanceCriterion (raw : AddAcInput) (actor : Actor) : Op (AcceptanceCriterion * string) :=
  let* input := require (addAcInput raw) SchemaError in
  let* nowIso := now in
  inTransaction (
    let* ticket := resolveRef (ai_ticket_id input) in
    assertContractEditable ticket "add an acceptance criterion";;;
    let* id := newId in
    let* order := gets (acs_nextSortOrder (tk_id ticket)) in
    let ac := mk_AcceptanceCriterion id (tk_id ticket) (ai_text input) order Pending
      (ai_verification_method input) (flag_of (ai_evidence_required input)) None None (ai_check_command input)
      (ai_spec_clause_id input) nowIso nowIso in
    acs_insert ac;;;
    let* eventId := ticket_event (tk_id ticket) actor "ac.added"
      (JSObj [("ac_id", JSStr id); ("text", JSStr (ac_text ac))]) in
    recheckReadyGate ticket;;;
    mret (ac, eventId)).

(** [/^\d{1,3}$/] *)
Definition is_position (s : string) : bool :=
  between 1 3 s && forallb is_dec (String.list_ascii_of_string s).
(** [acs[Number(ref) - 1]] *)
Definition at_position (ref : string) (acs : list AcceptanceCriterion) : option AcceptanceCriterion :=
  n ← js_Number ref; if bool_decide (1 ≤ n)%Z then acs !! Z.to_nat (n - 1) else None.
Definition criterion_of (acs : list AcceptanceCriterion) (ticket : Ticket) (ref : string)
    : error + AcceptanceCriterion :=
  if is_position ref then
    match at_position ref acs with
    | Some ac => inr ac
    | None => inl (DispatchError NOT_FOUND
        ("Ticket " +:+ number_or_id ticket +:+ " has " +:+ pretty (Z.of_nat (length acs))
         +:+ " criteria; there is no criterion " +:+ ref +:+ "."))
    end
  else match find (λ a, bool_decide (ac_id a = ref)) acs with
       | Some ac => inr ac
       | None =>
           match (if bool_decide (4 ≤ String.length ref)%nat
                  then filter (λ a, String.prefix ref (ac_id a) = true) acs else []) with
           | [ac] => inr ac
           | [] => inl (notFound "acceptance_criterion" ref)
           | hits => inl (DispatchError AMBIGUOUS_REF
                           ("Criterion ref " +:+ dquote_text +:+ ref +:+ dquote_text +:+ " matches "
                            +:+ pretty (Z.of_nat (length hits)) +:+ "."))
           end
       end.
Definition resolveAcceptanceCriterion (ticket : Ticket) (acRef : string) : Op AcceptanceCriterion :=
  let* acs := gets (acs_listForTicket (tk_id ticket)) in
  lift_result (criterion_of acs ticket (trim acRef)).

(** What an edit leaves: an empty verification method is none. *)
Definition next_method (i : EditAcInput) (c : AcceptanceCriterion) : option string :=
  match ea_verification_method i with
  | None => verification_method c
  | Some (Some m) => if bool_decide (trim m = "") then None else Some m
  | Some None => None
  end.
Definition next_check (i : EditAcInput) (c : AcceptanceCriterion) : option string :=
  ea_check_command i ?? check_command c.
Definition ac_changes (i : EditAcInput) (c : AcceptanceCriterion) : list (string * js) :=
  let text := ea_text i ?? ac_text c in
  change "text" (negb (bool_decide (text = ac_text c))) (JSStr (ac_text c)) (JSStr text)
    (change "verification_method" (negb (bool_decide (next_method i c = verification_method c)))
       (JSNullable (verification_method c)) (JSNullable (next_method i c))
       (change "check_command" (negb (bool_decide (next_check i c = check_command c)))
          (JSNullable (check_command c)) (JSNullable (next_check i c)) [])).

Definition editAcceptanceCriterion (ticketRef acRef : string) (raw : EditAcInput) (actor : Actor)
    : Op (AcceptanceCriterion * string) :=
  let* input := require (editAcInput raw) SchemaError in
  inTransaction (
    let* ticket := resolveRef ticketRef in
    assertContractEditable ticket "edit an acceptance criterion";;;
    let* ac := resolveAcceptanceCriterion ticket acRef in
    let changes := ac_changes input ac in
    guard_ (negb (bool_decide (changes = [])))
      (DispatchError NO_OP "The criterion already has those values.");;;
    let* nowIso := now in
    modify (acs_update (ac_id ac) (ea_text input ?? ac_text ac) (next_method input ac) (next_check input ac)
              nowIso);;;
    let* eventId := ticket_event (tk_id ticket) actor "ac.edited"
      (JSObj [("ac_id", JSStr (ac_id ac)); ("changed", JSArr (JSStr <$> changes.*1));
              ("changes", JSObj changes)]) in
    recheckReadyGate ticket;;;
    let* found := gets (acs_findById (ac_id ac)) in
    let* updated := require found (notFound "acceptance_criterion" (ac_id ac)) in
    mret (updated, eventId)).

Definition removeAcceptanceCriterion (ticketRef acRef : string) (actor : Actor) : Op (string * string) :=
  inTransaction (
    let* ticket := resolveRef ticketRef in
    assertContractEditable ticket "remove an acceptance criterion";;;
    let* ac := resolveAcceptanceCriterion ticket acRef in
    modify (acs_delete (ac_id ac));;;
    let* eventId := ticket_event (tk_id ticket) actor "ac.removed"
      (JSObj [("ac_id", JSStr (ac_id ac)); ("text", JSStr (ac_text ac))]) in
    recheckReadyGate ticket;;;
    mret (ac_id ac, eventId)).
End edits.
