(* ===== verification/Handover.v ===== *)
(** * The testing handover

    What the independent tester is handed and how its PASS is proven:
    the testable flag, the test contract, the acceptance profile and the
    runner's acceptance evidence, and the allowance for test changes
    ([src/packages/dispatch/src/services/ticketService.ts]). *)
From Stdlib Require Import Ascii.
From S2P Require Import Prelude Json JsonParse Types EventChain Store Policy Diff Transition Claims Tickets.
From S2P Require Import Landing Autonomy Verdicts Pattern Contract Profiles Review Approval Sendback Tester.
From S2P Require Import Edits.

Section handover.
Context `{Env}.

Definition profile_seed : option string := process_env "GAFFER_ACCEPTANCE_PROFILE_SEED".

Definition seeded_payload (c : TestContract) : js :=
  JSObj ([("changed_surfaces", JSNum (Z.of_nat (length (changed_surfaces c))));
          ("harness_ready", JSBool (harness_ready c));
          ("seeded_from", JSStr (if bool_decide (head (changed_surfaces c) = Some SEEDED_GENERIC_SURFACE)
                                 then "generic" else "title"))]
         ++ match tc_profile c with
            | Some p => [("profile", JSStr (profile_name p)); ("profile_seeded_from", JSStr "title")]
            | None => []
            end).
Definition setTestable (ticketRef : string) (canBeTested : bool) (actor : Actor) : Op (string * bool * string) :=
  inTransaction (
    let* ticket := resolveRef ticketRef in
    let id := tk_id ticket in
    let* nowIso := now in
    modify (tickets_setCanBeTested id canBeTested nowIso);;;
    let* eventId := ticket_event id actor "ticket.testable_set"
                      (JSObj [("can_be_tested", JSBool canBeTested)]) in
    when (canBeTested && bool_decide (test_contract ticket = None)
          && bool_decide (status ticket ∈ TEST_CONTRACT_EDITABLE_STATUSES))
      (let contract := seededTestContract (title ticket) profile_seed in
       modify (tickets_setTestContract id (JSON_stringify (seeded_js contract)) nowIso);;;
       ticket_event id actor "ticket.test_contract_set" (seeded_payload contract);;;
       mret tt);;;
    mret (id, canBeTested, eventId)).

Definition setAllowTestChanges (ticketRef : string) (allowed_ : bool) (actor : Actor) (reason : option string)
    : Op (string * bool * string) :=
  guard_ (human_or_admin actor)
    (DispatchError ACTOR_NOT_PERMITTED
       "Only a human or admin may allow test changes on a ticket; an agent cannot excuse its own test edits.");;;
  let note := trim (reason ?? "") in
  inTransaction (
    let* ticket := resolveRef ticketRef in
    let* nowIso := now in
    modify (tickets_setAllowTestChanges (tk_id ticket) allowed_ nowIso);;;
    let* eventId := ticket_event (tk_id ticket) actor "ticket.test_changes_allowed"
      (JSObj ([("allow_test_changes", JSBool allowed_);
               ("previous", JSBool (bool_decide (allow_test_changes ticket = 1%Z)))]
              ++ (if bool_decide (note = "") then [] else [("reason", JSStr (String.substring 0 500 note))]))) in
    mret (tk_id ticket, allowed_, eventId)).

(** ** The test contract *)

(** The profile a write leaves, and the spec it keeps. *)
Definition agent_profile_refusal (current requested : AcceptanceProfile) : error :=
  DispatchError ACTOR_NOT_PERMITTED
    ("An agent may not change the acceptance profile from '" +:+ profile_name current +:+ "' to '"
     +:+ profile_name requested
     +:+ "': a person sets it (wg ticket acceptance-profile, or Acceptance profile on the ticket page).").
Definition requested_profile (input : SetTestContractInput) (existing : option TestContract) (actor : Actor)
    : Op (AcceptanceProfile * option js) :=
  let current := profileOf existing in
  let spec := existing ≫= profile_spec in
  match sc_profile input with
  | None => mret (current, spec)
  | Some p =>
      if bool_decide (p = current) then mret (current, spec)
      else
        guard_ (negb (bool_decide (actor_type actor = AgentActor)
                      && (negb (bool_decide (current = PUnit)) || bool_decide (p = PUnit))))
          (agent_profile_refusal current p);;;
        mret (p, None)
  end.
Definition named (p : AcceptanceProfile) : option AcceptanceProfile :=
  if bool_decide (p = PUnit) then None else Some p.
Definition contract_of (input : SetTestContractInput) (p : AcceptanceProfile) (spec : option js) : TestContract :=
  mk_TestContract (sc_changed_surfaces input) (sc_runtime_deps input) (sc_env_vars input)
    (sc_run_command input) (sc_harness_ready input) (named p)
    (if bool_decide (p = PUnit) then None else spec).

Definition setTestContract (ticketRef : string) (raw : SetTestContractInput) (actor : Actor) : Op TestContract :=
  let* input := require (setTestContractInput raw) SchemaError in
  inTransaction (
    let* ticket := resolveRef ticketRef in
    assertTestContractEditable ticket "set the test contract";;;
    let existing := parseTestContract (test_contract ticket) in
    let current := profileOf existing in
    let* chosen := requested_profile input existing actor in
    let* contract := lift_result (validateTestContract (contract_of input chosen.1 chosen.2)) in
    let* nowIso := now in
    modify (tickets_setTestContract (tk_id ticket) (JSON_stringify (contract_js contract)) nowIso);;;
    ticket_event (tk_id ticket) actor "ticket.test_contract_set"
      (JSObj ([("changed_surfaces", JSNum (Z.of_nat (length (changed_surfaces contract))));
               ("harness_ready", JSBool (harness_ready contract))]
              ++ (if bool_decide (chosen.1 = current) then []
                  else [("profile", JSStr (profile_name chosen.1));
                        ("previous_profile", JSStr (profile_name current))])));;;
    mret contract).

Definition getTestContract (ticketRef : string) : Op (option TestContract) :=
  let* ticket := resolveRef ticketRef in mret (parseTestContract (test_contract ticket)).

(** ** The acceptance profile *)

Definition with_profile (c : TestContract) (p : AcceptanceProfile) (spec : option js) : TestContract :=
  mk_TestContract (changed_surfaces c) (runtime_deps c) (env_vars c) (run_command c) (harness_ready c)
    (named p) spec.
(** [{ ...operational, profile, profile_spec }] of a seeded base. *)
Definition reseeded_js (c : TestContract) : js :=
  JSObj ([("runtime_deps", str_arr (runtime_deps c)); ("env_vars", str_arr (env_vars c));
          ("run_command", JSStr (run_command c)); ("harness_ready", JSBool (harness_ready c));
          ("changed_surfaces", str_arr (changed_surfaces c))]
         ++ profile_member (tc_profile c) ++ spec_member (profile_spec c)).
Definition array_length (k : string) (v : js) : Z :=
  match js_member k v with Some (JSArr l) => Z.of_nat (length l) | _ => 0%Z end.
Definition spec_counts (p : AcceptanceProfile) (spec : option js) : list (string * js) :=
  match p, spec with
  | PCli, Some s => [("cases", JSNum (array_length "cases" s))]
  | PApi, Some s => [("probes", JSNum (array_length "probes" s))]
  | _, _ => []
  end.

Definition setAcceptanceProfile (ticketRef : string) (profile_ : js) (spec_ : option js) (actor : Actor)
    : Op (string * AcceptanceProfile * TestContract * string) :=
  guard_ (human_or_admin actor)
    (DispatchError ACTOR_NOT_PERMITTED
       "Only a human or admin may set a ticket's acceptance profile: its commands are run by the runner.");;;
  let* profile := require (profile_of (Some profile_))
    (invalid ("profile must be one of " +:+ comma_list (profile_name <$> ACCEPTANCE_PROFILES) +:+ ".")) in
  let* spec := require (parseProfileSpec profile spec_)
    (invalid ("The " +:+ profile_name profile +:+ " profile spec is not valid: ")) in
  guard_ (negb (bool_decide (profile = PUnit)
                && match spec_ with None | Some JSUndefined | Some JSNull => false | _ => true end))
    (invalid "The unit profile takes no spec.");;;
  inTransaction (
    let* ticket := resolveRef ticketRef in
    assertTestContractEditable ticket "set the acceptance profile";;;
    let existing := parseTestContract (test_contract ticket) in
    let base := existing ?? seededTestContract (title ticket) (Some "0") in
    let* contract := lift_result (validateTestContract (with_profile base profile spec)) in
    let* nowIso := now in
    let json := match existing with Some _ => contract_js contract | None => reseeded_js contract end in
    modify (tickets_setTestContract (tk_id ticket) (JSON_stringify json) nowIso);;;
    let* eventId := ticket_event (tk_id ticket) actor "ticket.acceptance_profile_set"
      (JSObj ([("profile", JSStr (profile_name profile)); ("previous", JSStr (profile_name (profileOf existing)));
               ("spec", JSBool (bool_decide (spec ≠ None)))] ++ spec_counts profile spec)) in
    mret (tk_id ticket, profile, contract, eventId)).

(** ** Acceptance evidence *)

(** [{ ...p, k: v }], where [p] has the member. *)
Definition set_member (k : string) (v : js) (p : js) : js :=
  match p with
  | JSObj ms => JSObj ((λ m : string * js, if bool_decide (m.1 = k) then (k, v) else m) <$> ms)
  | _ => p
  end.
Definition case_word (cli : bool) (n : Z) : string :=
  match cli, bool_decide (n = 1%Z) with
  | true, true => "command" | true, false => "commands" | false, true => "probe" | false, false => "probes"
  end.
Definition recordAcceptanceEvidence (ticketRef payloadJson : string) (actor : Actor)
    : Op (string * string * bool) :=
  guard_ (bool_decide (actor_type actor = SystemActor))
    (DispatchError ACTOR_NOT_PERMITTED "Acceptance evidence is recorded only by the runner (system actor).");;;
  guard_ (bool_decide (String.length payloadJson ≤ ACCEPTANCE_EVIDENCE_PAYLOAD_MAX)%nat)
    (DispatchError PAYLOAD_TOO_LARGE
       ("Acceptance evidence payload is over " +:+ pretty (Z.of_nat ACCEPTANCE_EVIDENCE_PAYLOAD_MAX)
        +:+ " characters."));;;
  let* raw := require (JSON_parse payloadJson) (invalid "Acceptance evidence payload is not JSON.") in
  let* p := require (acceptanceEvidencePayload raw) (invalid "Acceptance evidence payload is not valid: ") in
  let field k := text_or_empty (js_member k p) in
  let cli := bool_decide (field "profile" = "cli") in
  guard_ (Bool.eqb cli (bool_decide (field "kind" = "transcript")))
    (invalid "A cli profile records a transcript, an api profile an api_response.");;;
  let* nowIso := now in
  inTransaction (
    let* ticket := resolveRef ticketRef in
    let commit := toLowerCase (field "tested_commit") in
    let passed := is_true (js_member "passed" p) in
    let ran := array_length "cases" p in
    let* evidenceId := actor_evidence (tk_id ticket) None Log
      ("runtime acceptance (" +:+ field "profile" +:+ "): " +:+ (if passed then "passed" else "did not pass")
       +:+ " on " +:+ short commit +:+ ", " +:+ pretty ran +:+ " " +:+ case_word cli ran
       +:+ match given (Some (field "reason")) with
           | Some r => " (" +:+ String.substring 0 300 r +:+ ")" | None => "" end)
      (Some (ACCEPTANCE_EVIDENCE_PREFIX +:+ field "profile" +:+ ":" +:+ commit))
      (Some (set_member "tested_commit" (JSStr commit) p)) actor nowIso in
    let* eventId := ticket_event (tk_id ticket) actor "ticket.acceptance_evidence_recorded"
      (JSObj [("evidence_id", JSStr evidenceId); ("profile", JSStr (field "profile"));
              ("kind", JSStr (field "kind")); ("passed", JSBool passed); ("tested_commit", JSStr commit);
              ("cases", JSNum ran)]) in
    mret (evidenceId, eventId, passed)).
End handover.
