(* ===== verification/Deliveries.v ===== *)
(** * Recording what was delivered

    Branches, pull requests and per-repository deliveries, the system's
    delivery evidence, draft tickets of the idle loops and budgets
    ([src/packages/dispatch/src/services/ticketService.ts],
    [repositories/ticketRepoDeliveryRepository.ts]). *)
From Stdlib Require Import Ascii.
From S2P Require Import Prelude Json JsonParse Types EventChain Store Policy Diff Transition Claims Tickets.
From S2P Require Import Landing Autonomy Verdicts Profiles Review Approval Landings Replay Sendback Tester Edits.

(** ** Input schemas *)

(** [PR_URL_SAFE]: [/^https?:\/\//i] *)
Definition PR_URL_SAFE (v : string) : bool :=
  String.prefix "http://" (toLowerCase v) || String.prefix "https://" (toLowerCase v).
Fixpoint double_dot (l : list ascii) : bool :=
  match l with
  | c :: (c' :: _) as r => (bool_decide (c = "."%char) && bool_decide (c' = "."%char)) || double_dot r
  | _ => false
  end.
(** [/^(?!-)(?!.*\.\.)[A-Za-z0-9._/-]{1,200}$/] *)
Definition GIT_REF_SAFE (v : string) : bool :=
  let l := String.list_ascii_of_string v in
  between 1 200 v && negb (String.prefix "-" v) && negb (double_dot l)
  && forallb (λ c, is_alnum c || bool_decide (c ∈ ["."; "_"; "/"; "-"]%char)) l.
Definition trimmed (P : string → bool) : option string → option (option string) :=
  optionally (λ s, when_ok P (trim s)).
Definition branch_ok (v : string) : bool := between 1 500 v && GIT_REF_SAFE v.
Definition url_ok (v : string) : bool := between 1 2000 v && PR_URL_SAFE v.

Record RecordDeliveryArtifactInput := mk_RecordDeliveryArtifactInput {
  ra_ticket_id : string;
  ra_claim_token : option string;
  ra_branch_name : option string;
  ra_pr_url : option string;
  ra_commit : option string;
  ra_diff_summary : option string
}.
Definition recordDeliveryArtifactInput (i : RecordDeliveryArtifactInput) : option RecordDeliveryArtifactInput :=
  b ← trimmed branch_ok (ra_branch_name i);
  u ← trimmed url_ok (ra_pr_url i);
  c ← trimmed (between 1 200) (ra_commit i);
  x ← trimmed (between 1 20000) (ra_diff_summary i);
  if bool_decide (ra_ticket_id i = "") || bool_decide (ra_claim_token i = Some "")
     || (bool_decide (b = None) && bool_decide (u = None))
  then None else Some (mk_RecordDeliveryArtifactInput (ra_ticket_id i) (ra_claim_token i) b u c x).

Record RecordRepoDeliveryInput := mk_RecordRepoDeliveryInput {
  rr_ticket_id : string;
  rr_repo_id : string;
  rr_branch_name : option string;
  rr_commit_sha : option string;
  rr_base_sha : option string;
  rr_base_recut : option bool;
  rr_pr_url : option string;
  rr_status : option TicketRepoDeliveryStatus;
  rr_evidence_ref : option string
}.
Definition recordRepoDeliveryInput (i : RecordRepoDeliveryInput) : option RecordRepoDeliveryInput :=
  b ← trimmed branch_ok (rr_branch_name i);
  c ← trimmed (between 1 200) (rr_commit_sha i);
  s ← trimmed SHA_RE (rr_base_sha i);
  u ← trimmed url_ok (rr_pr_url i);
  e ← trimmed (between 1 2000) (rr_evidence_ref i);
  if bool_decide (rr_ticket_id i = "") || bool_decide (rr_repo_id i = "") then None
  else Some (mk_RecordRepoDeliveryInput (rr_ticket_id i) (rr_repo_id i) b c s (rr_base_recut i) u
               (rr_status i) e).

(** ** [ticketRepoDeliveryRepository.ts] *)

Definition set_ticket_repo_delivery (v : list TicketRepoDelivery) (r : db) : db :=
  mk_db (clock_now r) (wall_now r) (entropy r) (tickets r) (ticket_claims r) (agents r) (agent_capabilities r)
    (ticket_required_capabilities r) (acceptance_criteria r) (evidence r) (decisions r) (ticket_decisions r)
    (ticket_dependencies r) (repositories r) (ticket_repos r) v (scope_repos r) (ticket_scope_nodes r)
    (paused_deliveries r) (rework_attempts r) (work_events r).
Definition delivery_row (ticketId repoId : string) (x : TicketRepoDelivery) : bool :=
  bool_decide (rd_ticket_id x = ticketId) && bool_decide (rd_repo_id x = repoId).
(** A stored base commit is replaced only when asked to. *)
Definition patched (i : RecordRepoDeliveryInput) (replace : bool) (st : TicketRepoDeliveryStatus)
    (nowIso : instant) (x : TicketRepoDelivery) : TicketRepoDelivery :=
  mk_TicketRepoDelivery (rd_ticket_id x) (rd_repo_id x)
    (coalesce (rr_branch_name i) (rd_branch_name x))
    (if replace then coalesce (rr_base_sha i) (base_sha x) else coalesce (base_sha x) (rr_base_sha i))
    (coalesce (rr_commit_sha i) (commit_sha x))
    (coalesce (rr_pr_url i) (rd_pr_url x)) st
    (coalesce (rr_evidence_ref i) (evidence_ref x)) (rd_created_at x) nowIso.
Definition repoDeliveries_upsert (ticketId repoId : string) (i : RecordRepoDeliveryInput) (replace : bool)
    (st : TicketRepoDeliveryStatus) (nowIso : instant) (d : db) : db :=
  let l := ticket_repo_delivery d in
  set_ticket_repo_delivery
    (if existsb (delivery_row ticketId repoId) l
     then (λ x, if delivery_row ticketId repoId x then patched i replace st nowIso x else x) <$> l
     else l ++ [mk_TicketRepoDelivery ticketId repoId (rr_branch_name i) (rr_base_sha i) (rr_commit_sha i)
                  (rr_pr_url i) st (rr_evidence_ref i) nowIso nowIso]) d.
Definition isRepoLinkedToTicket (ticketId repoId : string) (d : db) : bool :=
  existsb (λ tr, bool_decide (tr_ticket_id tr = ticketId) && bool_decide (tr_repo_id tr = repoId))
    (ticket_repos d).

Section deliveries.
Context `{Env}.

Record DeliveryArtifactResult := mk_DeliveryArtifactResult {
  dr_ticketId : string;
  dr_branchName : option string;
  dr_prUrl : option string;
  dr_eventId : string
}.
Definition recordDeliveryArtifact (raw : RecordDeliveryArtifactInput) (actor : Actor)
    : Op DeliveryArtifactResult :=
  let* input := require (recordDeliveryArtifactInput raw) SchemaError in
  let* nowIso := now in
  inTransaction (
    let* ticket := resolveRef (ra_ticket_id input) in
    match ra_claim_token input with
    | Some token => assertClaimOnTicket token (tk_id ticket);;; mret tt
    | None => guard_ (negb (bool_decide (actor_type actor = AgentActor)))
                (DispatchError CLAIM_REQUIRED
                   "An agent must present a valid claim token to record a delivery artifact.")
    end;;;
    let* ok := tickets_updateStatus (tk_id ticket) (status ticket) (row_version ticket)
      (mk_TicketPatch (ra_branch_name input) (ra_pr_url input) None None) nowIso in
    guard_ ok (DispatchError CONCURRENCY_CONFLICT "Ticket changed concurrently; retry.");;;
    let* eventId := ticket_event (tk_id ticket) actor "ticket.delivery_recorded"
      (JSObj [("branch_name", JSNullable (ra_branch_name input)); ("pr_url", JSNullable (ra_pr_url input));
              ("commit", JSNullable (ra_commit input)); ("diff_summary", JSNullable (ra_diff_summary input))]) in
    let* found := gets (tickets_findById (tk_id ticket)) in
    let* updated := require found (notFound "ticket" (tk_id ticket)) in
    mret (mk_DeliveryArtifactResult (tk_id updated) (branch_name updated) (pr_url updated) eventId)).

Definition base_conflict (repo : Repository) (stored : string) : error :=
  conflict ("Delivery for repo '" +:+ rp_name repo +:+ "' already records base " +:+ short stored +:+ "; "
    +:+ "a different base commit replaces it only when the runner cut the branch again (base_recut).").
(** [Some stored] when the record would replace a different base commit. *)
Definition replaced_base (i : RecordRepoDeliveryInput) (existing : option TicketRepoDelivery) : option string :=
  given_ ← rr_base_sha i; stored ← existing ≫= base_sha;
  if bool_decide (stored = given_) then None else Some stored.
Definition recordRepoDelivery (raw : RecordRepoDeliveryInput) (actor : Actor)
    : Op (TicketRepoDelivery * string) :=
  let* input := require (recordRepoDeliveryInput raw) SchemaError in
  guard_ (negb ((bool_decide (rr_base_sha input ≠ None) || bool_decide (rr_base_recut input ≠ None))
                && bool_decide (actor_type actor = AgentActor)))
    (DispatchError ACTOR_NOT_PERMITTED
       "An agent cannot record a delivery's base commit; the runner records it.");;;
  let* nowIso := now in
  inTransaction (
    let* ticket := resolveRef (rr_ticket_id input) in
    let* named := gets (repo_by_ref (rr_repo_id input)) in
    let* repo := require named (notFound "repository" (rr_repo_id input)) in
    let* linked := gets (isRepoLinkedToTicket (tk_id ticket) (rp_id repo)) in
    guard_ linked
      (DispatchError REPO_NOT_LINKED
         ("Cannot record delivery for repo '" +:+ rp_name repo +:+ "': it is not linked to this ticket. "
          +:+ "Link it via ticket_repos (linkRepository / setTicketRepoAccess) first."));;;
    let* existing := gets (repoDeliveries_find (tk_id ticket) (rp_id repo)) in
    let replace := replaced_base input existing in
    guard_ (bool_decide (replace = None) || bool_decide (rr_base_recut input = Some true))
      (base_conflict repo (replace ?? ""));;;
    modify (repoDeliveries_upsert (tk_id ticket) (rp_id repo) input (bool_decide (replace ≠ None))
      (rr_status input ?? ((rd_status <$> existing) ?? NotStarted)) nowIso);;;
    let* found := gets (repoDeliveries_find (tk_id ticket) (rp_id repo)) in
    let* delivery := require found (notFound "delivery" (rp_id repo)) in
    let* eventId := ticket_event (tk_id ticket) actor "ticket.repo_delivery_recorded"
      (JSObj ([("repo_id", JSStr (rp_id repo)); ("status", JSStr (delivery_status_name (rd_status delivery)));
               ("has_branch", JSBool (bool_decide (rd_branch_name delivery ≠ None)));
               ("has_pr", JSBool (bool_decide (rd_pr_url delivery ≠ None)))]
              ++ match given (rr_commit_sha input) with
                 | Some c => [("commit_sha", JSStr (toLowerCase (trim c)))] | None => [] end)) in
    mret (delivery, eventId)).

(** ** Evidence, drafts and budgets *)

Record DeliveryEvidenceInput := mk_DeliveryEvidenceInput {
  de_evidenceType : EvidenceType;
  de_summary : string;
  de_uri : option string;
  de_payloadJson : option string
}.
Definition DELIVERY_EVIDENCE_PAYLOAD_MAX : nat := 4096.
Definition delivery_payload (json : option string) : Op (option js) :=
  match json with
  | None => mret None
  | Some s =>
      if bool_decide (trim s = "") then mret None
      else
        guard_ (bool_decide (String.length s ≤ DELIVERY_EVIDENCE_PAYLOAD_MAX)%nat)
          (invalid ("Delivery evidence payload is over " +:+ pretty (Z.of_nat DELIVERY_EVIDENCE_PAYLOAD_MAX)
                    +:+ " characters."));;;
        match JSON_parse s with
        | Some (JSObj ms) => mret (Some (JSObj ms))
        | _ => throw (invalid "Delivery evidence payload must be a JSON object.")
        end
  end.
Definition attachDeliveryEvidence (ref : string) (input : DeliveryEvidenceInput) (actor : Actor)
    : Op (string * string) :=
  guard_ (bool_decide (actor_type actor = SystemActor))
    (DispatchError ACTOR_NOT_PERMITTED
       "Delivery evidence may only be attached by a system actor; agents must record claim-scoped evidence.");;;
  guard_ (negb (bool_decide (trim (de_summary input) = "")))
    (invalid "Delivery evidence summary is required.");;;
  guard_ (negb (String.prefix TESTER_REPLAY_PREFIX (de_uri input ?? "")))
    (invalid ("The " +:+ TESTER_REPLAY_PREFIX
              +:+ " uri is reserved for the landing path's tester-replay record."));;;
  guard_ (negb (String.prefix ACCEPTANCE_EVIDENCE_PREFIX (de_uri input ?? "")))
    (invalid ("The " +:+ ACCEPTANCE_EVIDENCE_PREFIX
              +:+ " uri is reserved for the runner's acceptance evidence (ticket acceptance-evidence)."));;;
  let* pl := delivery_payload (de_payloadJson input) in
  let* nowIso := now in
  inTransaction (
    let* ticket := resolveRef ref in
    let* evidenceId := actor_evidence (tk_id ticket) None (de_evidenceType input) (de_summary input)
                         (de_uri input) pl actor nowIso in
    let* eventId := ticket_event (tk_id ticket) actor "evidence.recorded"
      (JSObj [("evidence_id", JSStr evidenceId); ("ac_id", JSNull);
              ("evidence_type", JSStr (evidence_type_name (de_evidenceType input)));
              ("source", JSStr "system_delivery")]) in
    mret (evidenceId, eventId)).

Record DraftInput := mk_DraftInput {
  df_title : string;
  df_description : option string;
  df_repoName : option string;
  df_evidenceSummary : option string;
  df_policyPack : option PolicyPack
}.
(** [createTicketInput.parse] of a machine-made ticket: one line, a bounded
    description, the schema's defaults. *)
Definition draft_ticket (i : DraftInput) : option CreateTicketInput :=
  t ← ticketTitleText (toOneLine (df_title i));
  x ← when_ok (between 0 20000) (df_description i ?? "");
  Some (mk_CreateTicketInput t x 0 Medium (df_policyPack i ?? SoloLoose) None None false false None).
Definition createDraftTicket (i : DraftInput) (actor : Actor)
    (linkRepo : option (string → string → Actor → Op unit)) : Op (string * Z) :=
  inTransaction (
    let* input := require (draft_ticket i) SchemaError in
    let* ticket := createTicket input actor in
    match given (df_repoName i), linkRepo with
    | Some r, Some link => link (tk_id ticket) r actor
    | _, _ => mret tt
    end;;;
    match given (df_evidenceSummary i) with
    | Some s =>
        let* nowIso := now in
        let* evidenceId := actor_evidence (tk_id ticket) None ManualNote s None None actor nowIso in
        ticket_event (tk_id ticket) actor "evidence.recorded"
          (JSObj [("evidence_id", JSStr evidenceId); ("evidence_type", JSStr "manual_note")]);;;
        mret tt
    | None => mret tt
    end;;;
    mret (tk_id ticket, number ticket ?? 0%Z)).

(** A positive ceiling, or none. *)
Definition setDeliveryBudget (ref : string) (budget : option Z) (actor : Actor) : Op Ticket :=
  guard_ (negb (bool_decide (ref = "")) && match budget with Some n => bool_decide (0 < n)%Z | None => true end)
    SchemaError;;;
  inTransaction (
    let* ticket := resolveRef ref in
    let* nowIso := now in
    modify (tickets_setDeliveryBudget (tk_id ticket) budget nowIso);;;
    ticket_event (tk_id ticket) actor "ticket.budget_set"
      (JSObj [("delivery_budget_usd", nullable_num budget)]);;;
    let* found := gets (tickets_findById (tk_id ticket)) in
    require found (notFound "ticket" (tk_id ticket))).
End deliveries.
