(* ===== verification/Life.v ===== *)
(** * The life of a ticket, as an abstract machine

    The specification the services implement.  [life] is what the control
    plane promises about one ticket: its status, whether a person owns it by
    hand or delivered it, whether an agent leases it, and its resume context.
    [life_step] is the whole of what may happen to it.  The second half reads
    a [life] off the database and proves what each primitive write does to
    it. *)
From S2P Require Import Prelude Json Types EventChain Store Policy Diff Transition.

(** ** The abstract machine *)

Record life := Life {
  l_status : TicketStatus;
  owned : bool;
  delivered : bool;
  leased : bool;
  context : option bool      (** the resume context, and whether Continue was pressed *)
}.
#[export] Instance life_eq_dec : EqDecision life.
Proof. solve_decision. Defined.

(** The move table, as a relation on statuses. *)
Definition edge (from to : TicketStatus) : bool := bool_decide (edge_key from to ∈ ALLOWED).
(** The edge exists and the flags open its guard. *)
Definition permitted (from to : TicketStatus) (fs : list Flag) : bool :=
  edge from to && match violatedGuard (edge_key from to) to fs with None => true | Some _ => false end.

(** What [transition] does to a life that takes the edge to [to]. *)
Definition moved (to : TicketStatus) (l : life) : life :=
  Life to (owned l && bool_decide (to = InProgress))
    (if delivered l && negb (bool_decide (to ∈ REVIEW_LANE_STATUSES)) then false
     else if owned l && bool_decide (to = InReview) then true else delivered l)
    (leased l && negb (ends_lease to))
    (if keeps_context to then context l else None).

Definition unleased (l : life) : life := Life (l_status l) (owned l) (delivered l) false (context l).

Inductive life_step : option life → option life → Prop :=
| step_create : life_step None (Some (Life Draft false false false None))
| step_claim : life_step (Some (Life Ready false false false None)) (Some (Life Claimed false false true None))
| step_human_claim : life_step (Some (Life Ready false false false None)) (Some (Life InProgress true false false None))
| step_start : life_step (Some (Life Claimed false false true None)) (Some (Life InProgress false false true None))
| step_submit c : life_step (Some (Life InProgress false false true c)) (Some (Life InReview false false false None))
| step_hand_in o c : life_step (Some (Life InProgress o false false c)) (Some (Life InReview false o false None))
| step_requeue l to :
    edge (l_status l) to = true → to ∈ REQUEUE_STATES →
    life_step (Some l) (Some (Life to false false false None))
| step_fail o l' c : life_step (Some (Life InProgress o false l' c)) (Some (Life Failed false false l' None))
| step_idle_lapse : life_step (Some (Life Failed false false true None)) (Some (Life Failed false false false None))
| step_pause l :
    l_status l ∈ [InProgress; InReview; Claimed] →
    life_step (Some l) (Some (Life Paused false false false (Some false)))
| step_continue b : life_step (Some (Life Paused false false false (Some b))) (Some (Life Paused false false false (Some true)))
| step_resume b : life_step (Some (Life Paused false false false (Some b))) (Some (Life InProgress false false false (Some false)))
| step_lease b : life_step (Some (Life InProgress false false false (Some b))) (Some (Life InProgress false false true (Some b)))
| step_clear l : life_step (Some l) (Some (Life (l_status l) (owned l) (delivered l) (leased l) None)).

(** The invariant of a life. *)
Definition life_ok (l : life) : bool :=
  implb (leased l) (bool_decide (l_status l ∈ [Claimed; InProgress; Failed]))
  && implb (bool_decide (l_status l = Claimed)) (leased l)
  && implb (owned l) (bool_decide (l_status l = InProgress) && negb (leased l))
  && implb (delivered l) (bool_decide (l_status l ∈ REVIEW_LANE_STATUSES))
  && implb (bool_decide (context l ≠ None)) (bool_decide (l_status l ∈ [Paused; InProgress]))
  && implb (bool_decide (context l = Some true)) (bool_decide (l_status l = Paused))
  && implb (owned l) (bool_decide (context l = None)).
Definition lives_ok (o : option life) : Prop := match o with Some l => life_ok l = true | None => True end.

Lemma life_step_ok o o' : lives_ok o → life_step o o' → lives_ok o'.
Proof.
  intros Hok Hstep; destruct Hstep as [| | | | |o ? |l to _ Hto|? l' ?| | | | |[]|l];
    simpl in *; try reflexivity; try discriminate.
  - by destruct o.
  - apply (bool_decide_eq_true_2 _) in Hto. by destruct to.
  - by destruct l'.
  - destruct l as [st ow de le [[]|]]; revert Hok; by destruct st, ow, de, le.
Qed.

Lemma life_steps_ok o o' : lives_ok o → rtc life_step o o' → lives_ok o'.
Proof. intros Hok Hs. induction Hs; eauto using life_step_ok. Qed.

(** ** Reading a life off the database *)

Definition lease_held (id : string) (d : db) : bool := claims_hasActiveForTicket id d.
Definition life_of (d : db) (id : string) : option life :=
  (λ t, Life (status t) (bool_decide (human_owner t ≠ None)) (bool_decide (human_delivered t ≠ None))
          (lease_held id d)
          ((λ p, bool_decide (resume_requested p = 1%Z)) <$> paused_deliveries d !! id))
    <$> tickets d !! id.

(** The shape every operation keeps: rows under their own id, references that
    resolve, one active claim per ticket. *)
Record well_formed (d : db) : Prop := {
  wf_tickets : ∀ i t, tickets d !! i = Some t → tk_id t = i;
  wf_claims : ∀ i c, ticket_claims d !! i = Some c → cl_id c = i;
  wf_claim_ticket : ∀ i c, ticket_claims d !! i = Some c → tickets d !! cl_ticket_id c ≠ None;
  wf_paused_ticket : ∀ i p, paused_deliveries d !! i = Some p → tickets d !! i ≠ None;
  wf_one_active : ∀ i j c c', ticket_claims d !! i = Some c → ticket_claims d !! j = Some c' →
    cl_ticket_id c = cl_ticket_id c' → cl_status c = Active → cl_status c' = Active → i = j
}.

Lemma rows_spec {A} (m : gmap string A) x : x ∈ rows m ↔ ∃ i, m !! i = Some x.
Proof.
  unfold rows. rewrite list_elem_of_fmap. setoid_rewrite elem_of_map_to_list'.
  split; [intros ([i y] & -> & Hi); eauto|intros [i Hi]; by exists (i, x)].
Qed.

Lemma existsb_true {A} (f : A → bool) l : existsb f l = true ↔ ∃ x, x ∈ l ∧ f x = true.
Proof. rewrite existsb_exists. by setoid_rewrite list_elem_of_In. Qed.

Lemma lease_held_spec id d :
  lease_held id d = true ↔
  ∃ i c, ticket_claims d !! i = Some c ∧ cl_ticket_id c = id ∧ cl_status c = Active.
Proof.
  unfold lease_held, claims_hasActiveForTicket, is_active. rewrite existsb_true.
  setoid_rewrite rows_spec. setoid_rewrite andb_true_iff. setoid_rewrite bool_decide_eq_true.
  naive_solver.
Qed.

(** What an operation reads and writes of the state modelled by lives. *)
Definition same_core (d d' : db) : Prop :=
  tickets d' = tickets d ∧ ticket_claims d' = ticket_claims d ∧
  paused_deliveries d' = paused_deliveries d.
#[export] Instance same_core_preorder : PreOrder same_core.
Proof. split; [by intros d|intros d d1 d2 (? & ? & ?) (? & ? & ?); repeat split; congruence]. Qed.
Lemma same_core_life d d' : same_core d d' → ∀ id, life_of d' id = life_of d id.
Proof.
  intros (Ht & Hc & Hp) id. unfold life_of, lease_held, claims_hasActiveForTicket. by rewrite Ht, Hc, Hp.
Qed.
Lemma same_core_wf d d' : same_core d d' → well_formed d → well_formed d'.
Proof. intros (Ht & Hc & Hp) [? ? ? ? ?]. by split; rewrite ?Ht, ?Hc, ?Hp. Qed.

(** [acts k f]: the write keeps the shape, changes the life of [k] by [f] and
    no other life. *)
Definition acts (k : string) (f : life → life) (d d' : db) : Prop :=
  well_formed d' ∧ life_of d' k = f <$> life_of d k ∧ ∀ j, j ≠ k → life_of d' j = life_of d j.

Lemma acts_same k d d' : well_formed d → same_core d d' → acts k id d d'.
Proof.
  intros Hwf Hs. split; [by eapply same_core_wf|]. split; [|by intros; apply same_core_life].
  rewrite (same_core_life _ _ Hs). by destruct (life_of d k).
Qed.
Lemma acts_trans k f g d d1 d2 : acts k f d d1 → acts k g d1 d2 → acts k (g ∘ f) d d2.
Proof.
  intros (_ & Hf & Hj) (Hwf & Hg & Hj'). split; [done|]. split.
  - rewrite Hg, Hf. by destruct (life_of d k).
  - intros j Hne. rewrite Hj', Hj; done.
Qed.

(** ** What each primitive write does to a life *)

Definition with_lease (l : life) : life := Life (l_status l) (owned l) (delivered l) true (context l).
Definition with_owner (l : life) : life := Life (l_status l) true (delivered l) (leased l) (context l).
Definition with_context (c : option bool) (l : life) : life :=
  Life (l_status l) (owned l) (delivered l) (leased l) c.
Definition requested (b : bool) (l : life) : life := with_context ((λ _, b) <$> context l) l.

(** A write to the claims table that keeps ids and tickets. *)
Lemma lease_held_eq d d' k :
  (∀ i c', ticket_claims d' !! i = Some c' ∧ cl_ticket_id c' = k ∧ cl_status c' = Active →
     ∃ j c, ticket_claims d !! j = Some c ∧ cl_ticket_id c = k ∧ cl_status c = Active) →
  (∀ i c, ticket_claims d !! i = Some c ∧ cl_ticket_id c = k ∧ cl_status c = Active →
     ∃ j c', ticket_claims d' !! j = Some c' ∧ cl_ticket_id c' = k ∧ cl_status c' = Active) →
  lease_held k d' = lease_held k d.
Proof.
  intros H1 H2. apply eq_true_iff_eq. rewrite !lease_held_spec. split.
  - intros (i & c & H). eauto.
  - intros (i & c & H). eauto.
Qed.
Lemma lease_not_held k d :
  (∀ i c, ticket_claims d !! i = Some c → cl_ticket_id c = k → cl_status c ≠ Active) →
  lease_held k d = false.
Proof.
  intros Hno. destruct (lease_held k d) eqn:E; [|done].
  apply lease_held_spec in E as (i & c & Hi & Hk & Ha). by destruct (Hno i c Hi Hk).
Qed.

Lemma life_of_claims d cs k b :
  lease_held k (set_ticket_claims cs d) = b →
  life_of (set_ticket_claims cs d) k
  = (λ l, Life (l_status l) (owned l) (delivered l) b (context l)) <$> life_of d k.
Proof. intros <-. unfold life_of. simpl. by destruct (tickets d !! k). Qed.
Lemma life_of_claims_same d cs k :
  lease_held k (set_ticket_claims cs d) = lease_held k d →
  life_of (set_ticket_claims cs d) k = life_of d k.
Proof. intros Hl. unfold life_of. rewrite Hl. simpl. by destruct (tickets d !! k). Qed.

(** Ending a claim that is its ticket's active one. *)
Lemma acts_end_claim c st nowIso d :
  well_formed d → ticket_claims d !! cl_id c = Some c → cl_status c = Active → st ≠ Active →
  acts (cl_ticket_id c) unleased d (claims_setStatus (cl_id c) st nowIso d).
Proof.
  intros Hwf Hc Ha Hst. unfold claims_setStatus, update_row.
  assert (Hnew : ∀ i c', alter (claim_with_status st nowIso) (cl_id c) (ticket_claims d) !! i = Some c' →
    cl_status c' = Active → i ≠ cl_id c ∧ ticket_claims d !! i = Some c').
  { intros i c'. destruct (decide (i = cl_id c)) as [->|Hne].
    - rewrite lookup_alter_eq, Hc. intros [= <-]. by simpl.
    - by rewrite lookup_alter_ne by done. }
  split; [|split].
  - destruct Hwf as [W1 W2 W3 W4 W5]. split; simpl; try done.
    + intros i c' Hi.
      destruct (decide (i = cl_id c)) as [->|Hne].
      * rewrite lookup_alter_eq, Hc in Hi. by injection Hi as <-.
      * rewrite lookup_alter_ne in Hi by done. eauto.
    + intros i c' Hi. destruct (decide (i = cl_id c)) as [->|Hne].
      * rewrite lookup_alter_eq, Hc in Hi. injection Hi as <-. simpl. eauto.
      * rewrite lookup_alter_ne in Hi by done. eauto.
    + intros i j c1 c2 Hi Hj Heq Ha1 Ha2.
      apply Hnew in Hi as [_ Hi]; [|done]. apply Hnew in Hj as [_ Hj]; [|done]. eauto.
  - rewrite life_of_claims with (b := false); [done|]. apply lease_not_held. simpl.
    intros i c' Hi Hk Ha'. destruct (Hnew i c' Hi Ha') as [Hne Hi'].
    destruct Hne. by eapply (wf_one_active d).
  - intros j Hj. apply life_of_claims_same. apply lease_held_eq; simpl.
    + intros i c' (Hi & Hk & Ha'). destruct (Hnew i c' Hi Ha') as [_ Hi']. eauto.
    + intros i c' (Hi & Hk & Ha'). exists i, c'. split; [|done].
      rewrite lookup_alter_ne; [done|]. intros <-. congruence.
Qed.

Lemma release_if_on_spec id nowIso c :
  cl_ticket_id (release_if_on id nowIso c) = cl_ticket_id c ∧
  cl_id (release_if_on id nowIso c) = cl_id c ∧
  (cl_status (release_if_on id nowIso c) = Active ↔ cl_status c = Active ∧ cl_ticket_id c ≠ id).
Proof.
  unfold release_if_on, is_active.
  destruct (decide (cl_ticket_id c = id)) as [He|He], (decide (cl_status c = Active)) as [Ha|Ha].
  - rewrite !bool_decide_true by done. simpl. repeat split; naive_solver.
  - rewrite (bool_decide_false (cl_status c = Active)) by done. rewrite andb_false_r. naive_solver.
  - rewrite bool_decide_false by done. simpl. naive_solver.
  - rewrite bool_decide_false by done. simpl. naive_solver.
Qed.

(** Ending every active claim of a ticket. *)
Lemma acts_release_active k nowIso d :
  well_formed d → acts k unleased d (claims_releaseActiveForTicket k nowIso d).
Proof.
  intros Hwf. unfold claims_releaseActiveForTicket.
  assert (Hinv : ∀ i c', (release_if_on k nowIso <$> ticket_claims d) !! i = Some c' →
    ∃ c, ticket_claims d !! i = Some c ∧ c' = release_if_on k nowIso c).
  { intros i c'. rewrite lookup_fmap. destruct (ticket_claims d !! i); naive_solver. }
  split; [|split].
  - destruct Hwf as [W1 W2 W3 W4 W5]. split; simpl; try done.
    + intros i c' (c & Hi & ->)%Hinv. destruct (release_if_on_spec k nowIso c) as (_ & -> & _). eauto.
    + intros i c' (c & Hi & ->)%Hinv. destruct (release_if_on_spec k nowIso c) as (-> & _). eauto.
    + intros i j c1 c2 (a & Hi & ->)%Hinv (b & Hj & ->)%Hinv.
      destruct (release_if_on_spec k nowIso a) as (-> & _ & ->),
        (release_if_on_spec k nowIso b) as (-> & _ & ->). intros ? [] []. eauto.
  - rewrite life_of_claims with (b := false); [done|]. apply lease_not_held. simpl.
    intros i c' (c & Hi & ->)%Hinv. destruct (release_if_on_spec k nowIso c) as (-> & _ & ->). naive_solver.
  - intros j Hj. apply life_of_claims_same. apply lease_held_eq; simpl.
    + intros i c' ((c & Hi & ->)%Hinv & Hk & Ha).
      destruct (release_if_on_spec k nowIso c) as (E1 & _ & E2). rewrite E1 in Hk. apply E2 in Ha as []. eauto.
    + intros i c (Hi & Hk & Ha). exists i, (release_if_on k nowIso c).
      destruct (release_if_on_spec k nowIso c) as (E1 & _ & E2). rewrite E1, E2, lookup_fmap, Hi.
      naive_solver.
Qed.

(** Inserting an active claim: the unique index and the foreign key. *)
Lemma acts_insert_claim c d u d' :
  well_formed d → cl_status c = Active → claims_insert c d = Ok u d' →
  lease_held (cl_ticket_id c) d = false ∧ ticket_claims d !! cl_id c = None ∧
  d' = set_ticket_claims (<[cl_id c := c]> (ticket_claims d)) d ∧
  acts (cl_ticket_id c) with_lease d d'.
Proof.
  intros Hwf Ha. unfold claims_insert. destruct (ticket_claims d !! cl_id c) eqn:Hnone; [done|].
  unfold is_active at 1. rewrite bool_decide_true by done. simpl.
  destruct (claims_hasActiveForTicket (cl_ticket_id c) d) eqn:Hheld; [done|].
  case_bool_decide as Hfk; [done|]. intros [= _ <-].
  apply Decidable.not_or in Hfk as [Hfk _].
  assert (Hfree : ∀ i c', ticket_claims d !! i = Some c' → cl_ticket_id c' = cl_ticket_id c →
     cl_status c' ≠ Active).
  { intros i c' Hi Hk Ha'. assert (lease_held (cl_ticket_id c) d = true); [|unfold lease_held in *; congruence].
    apply lease_held_spec. eauto. }
  split; [done|]. split; [done|]. split; [done|]. split; [|split].
  - destruct Hwf as [W1 W2 W3 W4 W5]. split; simpl; try done.
    + intros i c' [[<- <-]|[_ Hi]]%lookup_insert_Some; eauto.
    + intros i c' [[<- <-]|[_ Hi]]%lookup_insert_Some; eauto.
    + intros i j c1 c2 [[<- <-]|[Hn1 Hi]]%lookup_insert_Some [[<- <-]|[Hn2 Hj]]%lookup_insert_Some Hk A1 A2;
        [done| | |eauto].
      * by destruct (Hfree j c2).
      * by destruct (Hfree i c1).
  - rewrite life_of_claims with (b := true); [done|]. apply lease_held_spec. simpl.
    exists (cl_id c), c. by rewrite lookup_insert_eq.
  - intros j Hj. apply life_of_claims_same. apply lease_held_eq; simpl.
    + intros i c' ([[<- <-]|[_ Hi]]%lookup_insert_Some & Hk & Ha'); [congruence|eauto].
    + intros i c' (Hi & Hk & Ha'). exists i, c'. split; [|done].
      rewrite lookup_insert_ne; [done|]. congruence.
Qed.

(** A write to the row of one ticket. *)
Lemma acts_ticket_row k t t' f d :
  well_formed d → tickets d !! k = Some t → tk_id t' = k →
  Life (status t') (bool_decide (human_owner t' ≠ None)) (bool_decide (human_delivered t' ≠ None))
    (lease_held k d) ((λ p, bool_decide (resume_requested p = 1%Z)) <$> paused_deliveries d !! k)
  = f (Life (status t) (bool_decide (human_owner t ≠ None)) (bool_decide (human_delivered t ≠ None))
    (lease_held k d) ((λ p, bool_decide (resume_requested p = 1%Z)) <$> paused_deliveries d !! k)) →
  acts k f d (set_tickets (<[k := t']> (tickets d)) d).
Proof.
  intros Hwf Hk Hid Hf. split; [|split].
  - destruct Hwf as [W1 W2 W3 W4 W5]. split; simpl; try done.
    + intros i x [[<- <-]|[_ Hi]]%lookup_insert_Some; eauto.
    + intros i c Hi Hn. apply lookup_insert_None in Hn as [Hn _]. by apply (W3 i c).
    + intros i p Hi Hn. apply lookup_insert_None in Hn as [Hn _]. by apply (W4 i p).
  - unfold life_of at 1. simpl. rewrite lookup_insert_eq. simpl. unfold life_of. rewrite Hk. simpl.
    f_equal. exact Hf.
  - intros j Hj. unfold life_of. simpl. by rewrite lookup_insert_ne by done.
Qed.

Lemma acts_update_row k f g d :
  well_formed d → (∀ t, tickets d !! k = Some t → tk_id (f t) = k ∧
    status (f t) = status t ∧
    human_delivered (f t) = human_delivered t ∧
    (∀ l, g (Life (status t) (bool_decide (human_owner t ≠ None)) (bool_decide (human_delivered t ≠ None)) (leased l) (context l))
      = Life (status t) (bool_decide (human_owner (f t) ≠ None)) (bool_decide (human_delivered t ≠ None)) (leased l) (context l))) →
  acts k g d (set_tickets (update_row k f (tickets d)) d).
Proof.
  intros Hwf Hf. unfold update_row. destruct (tickets d !! k) as [t|] eqn:Hk.
  - destruct (Hf t eq_refl) as (Hid & Hs & Hd & Hl).
    replace (alter f k (tickets d)) with (<[k := f t]> (tickets d)).
    2: { apply map_eq. intros i. destruct (decide (i = k)) as [->|];
         [by rewrite lookup_insert_eq, lookup_alter_eq, Hk|by rewrite lookup_insert_ne, lookup_alter_ne]. }
    apply (acts_ticket_row k t); try done. rewrite Hs, Hd. symmetry.
    apply (Hl (Life (status t) false false (lease_held k d) _)).
  - assert (Heq : alter f k (tickets d) = tickets d).
    { apply map_eq. intros i. destruct (decide (i = k)) as [->|];
        [by rewrite lookup_alter_eq, Hk|by rewrite lookup_alter_ne]. }
    rewrite Heq. assert (Hsame : same_core d (set_tickets (tickets d) d)) by (by destruct d).
    split; [by eapply same_core_wf|]. split; [|by intros; apply same_core_life].
    rewrite (same_core_life _ _ Hsame). unfold life_of. by rewrite Hk.
Qed.

Lemma acts_review_feedback k v d :
  well_formed d → acts k id d (tickets_setReviewFeedback k v d).
Proof. intros Hwf. apply acts_update_row; [done|]. intros t Ht. by pose proof (wf_tickets d Hwf k t Ht). Qed.
Lemma acts_human_owner k o d :
  well_formed d → acts k with_owner d (tickets_setHumanOwner k (Some o) d).
Proof. intros Hwf. apply acts_update_row; [done|]. intros t Ht. by pose proof (wf_tickets d Hwf k t Ht). Qed.

(** Writes to the paused deliveries of one ticket. *)
Lemma acts_paused k f m d :
  well_formed d → (∀ j, j ≠ k → m !! j = paused_deliveries d !! j) →
  (is_Some (m !! k) → tickets d !! k ≠ None) →
  (∀ l, context l = (λ p, bool_decide (resume_requested p = 1%Z)) <$> paused_deliveries d !! k →
     f l = with_context ((λ p, bool_decide (resume_requested p = 1%Z)) <$> m !! k) l) →
  acts k f d (set_paused_deliveries m d).
Proof.
  intros Hwf Hother Hfk Hf. split; [|split].
  - destruct Hwf as [W1 W2 W3 W4 W5]. split; simpl; try done.
    intros i p Hi. destruct (decide (i = k)) as [->|Hne]; [by apply Hfk|].
    rewrite Hother in Hi by done. eauto.
  - unfold life_of. simpl. destruct (tickets d !! k); [|done]. simpl. by rewrite Hf.
  - intros j Hj. unfold life_of. simpl. by rewrite Hother.
Qed.

Lemma acts_paused_delete k d : well_formed d → acts k (with_context None) d (paused_delete k d).
Proof.
  intros Hwf. apply acts_paused; [done|..].
  - intros. by rewrite lookup_delete_ne.
  - rewrite lookup_delete_eq. by intros [].
  - intros l _. by rewrite lookup_delete_eq.
Qed.
Lemma acts_paused_upsert k ctx nowIso d :
  well_formed d → tickets d !! k ≠ None →
  acts k (with_context (Some false)) d (paused_upsert k ctx nowIso d).
Proof.
  intros Hwf Hk. apply acts_paused; [done|..].
  - intros. by rewrite lookup_insert_ne.
  - done.
  - intros l _. by rewrite lookup_insert_eq.
Qed.
Lemma acts_resume_requested k b nowIso d :
  well_formed d → acts k (requested b) d (paused_setResumeRequested k b nowIso d).
Proof.
  intros Hwf. apply acts_paused; unfold update_row; [done|..].
  - intros. by rewrite lookup_alter_ne.
  - rewrite lookup_alter_eq. destruct (paused_deliveries d !! k) as [p|] eqn:Hp; [|by intros []].
    intros _. by apply (wf_paused_ticket d Hwf k p).
  - intros l Hl. unfold requested. rewrite lookup_alter_eq, Hl.
    destruct (paused_deliveries d !! k); [|done]. by destruct b.
Qed.

(** ** What a transition does to a life *)

Lemma acts_ext k f g d d' :
  (∀ l, life_of d k = Some l → f l = g l) → acts k f d d' → acts k g d d'.
Proof.
  intros Hfg (Hwf & Hk & Hj). split; [done|]. split; [|done]. rewrite Hk.
  destruct (life_of d k); [|done]. simpl. by rewrite Hfg.
Qed.
Lemma acts_wf k f d d' : acts k f d d' → well_formed d'.
Proof. by intros []. Qed.

Section transition.
Context `{Env}.

Lemma checks_permit input t d pol d' :
  transition_checks input t d = Ok pol d' →
  permitted (status t) (toStatus input) (flags input) = true ∧
  (∀ s, expectedFromStatus input = Some s → status t = s).
Proof.
  unfold transition_checks. intros Hr. run_steps Hr. unfold permitted, edge. split.
  - destruct (violatedGuard _ _ _); [discriminate|]. by rewrite Hrun1.
  - intros s Hs. rewrite Hs in Hrun. by apply bool_decide_eq_true in Hrun.
Qed.

Lemma moved_ticket_life input nowIso t l c :
  let t' := moved_ticket input nowIso t in
  tk_id t' = tk_id t ∧
  Life (status t') (bool_decide (human_owner t' ≠ None)) (bool_decide (human_delivered t' ≠ None))
    (l && negb (ends_lease (toStatus input))) (if keeps_context (toStatus input) then c else None)
  = moved (toStatus input)
      (Life (status t) (bool_decide (human_owner t ≠ None)) (bool_decide (human_delivered t ≠ None)) l c).
Proof.
  unfold moved_ticket, moved. cbv zeta. cbn [owned delivered leased context].
  destruct (decide (toStatus input = InProgress)) as [Ep|Ep].
  - rewrite Ep. destruct t as [? ? ? ? ? ? ? ? ? ? ? ? ? ? ? ? ? ? ? ? ? ? ? ow de ? ? ?].
    destruct ow, de; split; reflexivity.
  - rewrite (bool_decide_false (_ = InProgress)) by done.
    destruct (bool_decide (toStatus input = InReview)),
      (bool_decide (toStatus input ∈ REVIEW_LANE_STATUSES));
      destruct t as [? ? ? ? ? ? ? ? ? ? ? ? ? ? ? ? ? ? ? ? ? ? ? ow de ? ? ?];
      destruct ow, de; split; reflexivity.
Qed.

Lemma after_transition_acts input t d :
  well_formed d → tickets d !! tk_id t = Some t →
  acts (tk_id t) (moved (toStatus input)) d (after_transition input t d).
Proof.
  intros Hwf Ht. unfold after_transition.
  set (k := tk_id t) in *. set (to := toStatus input).
  set (d1 := set_ticket_claims _ d). set (d2 := set_tickets _ d1).
  set (d3 := set_paused_deliveries _ d2).
  assert (A1 : acts k (λ l, Life (l_status l) (owned l) (delivered l)
                        (leased l && negb (ends_lease to)) (context l)) d d1).
  { unfold d1. fold to. destruct (ends_lease to).
    - eapply acts_ext; [|by apply acts_release_active]. intros l _. unfold unleased. by rewrite andb_false_r.
    - eapply acts_ext; [|apply (acts_same k d); [done|by destruct d]]. intros [] _. simpl. by rewrite andb_true_r. }
  assert (A2 : acts k (λ l, Life to (owned (moved to l)) (delivered (moved to l)) (leased l) (context l)) d1 d2).
  { unfold d2. change (tickets d) with (tickets d1).
    destruct (moved_ticket_life input (clock_now d) t false None) as [Hid Hl].
    apply (acts_ticket_row k t); [by eapply acts_wf|done|done|].
    injection Hl as H1 H2 H3. fold to in H1, H2, H3. by rewrite H1, H2, H3. }
  assert (A3 : acts k (λ l, with_context (if keeps_context to then context l else None) l) d2 d3).
  { unfold d3. fold to. destruct (keeps_context to).
    - eapply acts_ext; [|apply acts_same; [by eapply acts_wf|by destruct d]]. by intros [] _.
    - eapply acts_ext; [|apply acts_paused_delete; by eapply acts_wf]. done. }
  assert (A4 : acts k id d3 (set_entropy (S (entropy d)) (set_work_events
                 (work_events d ++ [linked (work_events d) (transition_row input t d)]) d3)))
    by (apply acts_same; [by eapply acts_wf|done]).
  eapply acts_ext; [|exact (acts_trans _ _ _ _ _ _ (acts_trans _ _ _ _ _ _ (acts_trans _ _ _ _ _ _ A1 A2) A3) A4)].
  intros [] _. unfold moved, with_context. simpl. done.
Qed.

(** Every committed transition takes a permitted edge of the table, from the
    status the caller pinned, and changes that ticket alone. *)
Lemma transition_acts input d res d' :
  well_formed d → transition input d = Ok res d' →
  ∃ t, tickets d !! ticketId input = Some t ∧
    permitted (status t) (toStatus input) (flags input) = true ∧
    (∀ s, expectedFromStatus input = Some s → status t = s) ∧
    status (result_ticket res) = toStatus input ∧
    (ends_lease (toStatus input) = false → ticket_claims d' = ticket_claims d) ∧
    acts (ticketId input) (moved (toStatus input)) d d'.
Proof.
  intros Hwf Hrun. apply transition_ok in Hrun as (t & pol & Ht & Hc & -> & ->);
    [|intros t Ht; by apply (wf_tickets d Hwf)].
  pose proof (wf_tickets d Hwf _ _ Ht) as Hid. apply checks_permit in Hc as [Hp He].
  exists t. split; [done|]. split; [done|]. split; [done|]. split.
  - destruct (moved_ticket_life input (clock_now d) t false None) as [_ Hl]. by injection Hl.
  - split; [by intros He'; simpl; rewrite He'|]. rewrite <- Hid at 1. apply after_transition_acts; [done|]. by rewrite Hid.
Qed.
End transition.
