(* ===== verification/Refinement.v ===== *)
(** * The services implement the abstract machine

    Every committed operation of the control plane takes each ticket through
    steps of [life_step] only, and keeps the database well formed. *)
From S2P Require Import Prelude Json Types EventChain Store Policy Diff Transition Claims Tickets.
From S2P Require Import Pause Decisions Lifecycle Life.

(** ** The simulation relation *)

Definition good (d : db) : Prop := well_formed d ∧ ∀ k, lives_ok (life_of d k).
Definition simulates (d d' : db) : Prop :=
  good d → good d' ∧ ∀ k, rtc life_step (life_of d k) (life_of d' k).
#[export] Instance simulates_preorder : PreOrder simulates.
Proof.
  split.
  - intros d Hg. split; [done|]. by intros k.
  - intros d d1 d2 H1 H2 Hg. destruct (H1 Hg) as [Hg1 S1]. destruct (H2 Hg1) as [Hg2 S2].
    split; [done|]. intros k. etrans; [apply S1|apply S2].
Qed.

(** One ticket changes, by steps of the machine. *)
Lemma sim_acts k f d d' :
  (good d → acts k f d d') →
  (good d → ∀ l, life_of d k = Some l → life_ok l = true → rtc life_step (Some l) (Some (f l))) →
  simulates d d'.
Proof.
  intros Ha Hs Hg. destruct (Ha Hg) as (Hwf & Hk & Hj). pose proof (proj2 Hg) as Hok.
  assert (Hsteps : ∀ j, rtc life_step (life_of d j) (life_of d' j)).
  { intros j. destruct (decide (j = k)) as [->|Hne]; [|by rewrite Hj].
    rewrite Hk. pose proof (Hok k) as Hl. destruct (life_of d k) as [l|] eqn:El; [|done].
    by apply Hs. }
  split; [|done]. split; [done|]. intros j. eapply life_steps_ok; [apply Hok|apply Hsteps].
Qed.
Lemma sim_same d d' : same_core d d' → simulates d d'.
Proof.
  intros Hs. apply (sim_acts "" id); [intros []; by apply acts_same|done].
Qed.

Lemma under_good d d' : (good d → simulates d d') → simulates d d'.
Proof. intros Hs Hg. by apply Hs. Qed.

(** ** Events and reads *)

Section events.
Context `{Env}.

Lemma writeEvent_core et ei a ty pl co : evolves same_core (writeEvent et ei a ty pl co).
Proof. by intros d r d' [= _ <-]. Qed.
Lemma ticket_event_core id a ty pl : evolves same_core (ticket_event id a ty pl).
Proof. apply writeEvent_core. Qed.
Lemma newId_core : evolves same_core newId.
Proof. by intros d r d' [= _ <-]. Qed.
Lemma newClaimToken_core : evolves same_core newClaimToken.
Proof. by intros d r d' [= _ <-]. Qed.
Lemma now_core : evolves same_core now.
Proof. unfold now. structural. Qed.
Lemma resolveRef_core ref : evolves same_core (resolveRef ref).
Proof. unfold resolveRef. structural. Qed.
Lemma preview_core id to : evolves same_core (preview id to).
Proof. unfold preview. structural. Qed.

Lemma evolves_sub {A} (R R' : db → db → Prop) (m : Op A) :
  (∀ d d', R d d' → R' d d') → evolves R m → evolves R' m.
Proof. intros HR Hm d a d' Hr. apply HR. by eapply Hm. Qed.
Lemma core_sim {A} (m : Op A) : evolves same_core m → evolves simulates m.
Proof. apply evolves_sub, sim_same. Qed.
End events.
#[export] Hint Resolve writeEvent_core ticket_event_core newId_core newClaimToken_core now_core
  resolveRef_core preview_core : gaffer.

(** ** Single transitions as steps *)

Lemma moved_requeue to l : to ∈ REQUEUE_STATES → moved to l = Life to false false false None.
Proof.
  intros Hto. apply (bool_decide_eq_true_2 _) in Hto. destruct l as [st ow de le ctx].
  destruct to; try discriminate Hto; destruct ow, de, le; reflexivity.
Qed.
Lemma permitted_edge from to fs : permitted from to fs = true → edge from to = true.
Proof. unfold permitted. by intros [? _]%andb_true_iff. Qed.
Lemma requeue_step l to fs :
  permitted (l_status l) to fs = true → to ∈ REQUEUE_STATES →
  rtc life_step (Some l) (Some (moved to l)).
Proof.
  intros Hp Hto. rewrite moved_requeue by done. apply rtc_once.
  apply step_requeue; [by eapply permitted_edge|done].
Qed.

(** The status a life shows is the ticket's. *)
Lemma life_status d k t l : tickets d !! k = Some t → life_of d k = Some l → l_status l = status t.
Proof. unfold life_of. intros ->. simpl. by intros [= <-]. Qed.

Section transitions.
Context `{Env}.

(** Any transition back to a queue state is a step, whatever its flags. *)
Lemma requeue_simulates input :
  toStatus input ∈ REQUEUE_STATES → evolves simulates (transition input).
Proof.
  intros Hto d res d' Hr Hg.
  destruct (transition_acts input d res d' (proj1 Hg) Hr) as (t & Ht & Hp & _ & _ & _ & Ha).
  revert Hg. eapply sim_acts; [done|]. intros Hg l Hl _.
  eapply requeue_step; [|done]. erewrite life_status by done. done.
Qed.

(** Ending a claim, active or not. *)
Definition ended (active : bool) (l : life) : life := if active then unleased l else l.
Lemma acts_set_status eid c st nowIso d :
  well_formed d → ticket_claims d !! eid = Some c → st ≠ Active →
  acts (cl_ticket_id c) (ended (is_active c)) d (claims_setStatus eid st nowIso d).
Proof.
  intros Hwf Hc Hst. pose proof (wf_claims d Hwf _ _ Hc) as Hid. rewrite <- Hid in Hc |- *.
  unfold is_active. case_bool_decide as Ha; [by apply acts_end_claim|].
  assert (Hinv : ∀ i c', ticket_claims (claims_setStatus (cl_id c) st nowIso d) !! i = Some c' →
    ∃ c0, ticket_claims d !! i = Some c0 ∧ cl_id c' = cl_id c0 ∧ cl_ticket_id c' = cl_ticket_id c0 ∧
      (cl_status c' = Active → c' = c0)).
  { intros i c'. unfold claims_setStatus, update_row. simpl.
    destruct (decide (i = cl_id c)) as [->|Hne].
    - rewrite lookup_alter_eq, Hc. intros [= <-]. exists c. by simpl.
    - rewrite lookup_alter_ne by done. eauto 6. }
  assert (Hl : ∀ k, lease_held k (claims_setStatus (cl_id c) st nowIso d) = lease_held k d).
  { intros k. apply lease_held_eq.
    - intros i c' (Hi & Hk & Ha'). destruct (Hinv i c' Hi) as (c0 & ? & _ & _ & Heq).
      specialize (Heq Ha') as ->. eauto.
    - intros i c' (Hi & Hk & Ha'). exists i, c'. split; [|done]. unfold claims_setStatus, update_row.
      simpl. rewrite lookup_alter_ne; [done|]. intros <-. congruence. }
  split; [|split].
  - destruct Hwf as [W1 W2 W3 W4 W5]. split; simpl; try done.
    + intros i c' (c0 & ? & -> & _)%Hinv. eauto.
    + intros i c' (c0 & ? & _ & -> & _)%Hinv. eauto.
    + intros i j c1 c2 (c0 & Hi & _ & _ & E1)%Hinv (c0' & Hj & _ & _ & E2)%Hinv Hk A1 A2.
      specialize (E1 A1) as ->. specialize (E2 A2) as ->. eauto.
  - unfold claims_setStatus. rewrite life_of_claims_same by apply Hl. by destruct (life_of d _).
  - intros j _. unfold claims_setStatus. by rewrite life_of_claims_same by apply Hl.
Qed.

(** Ending a claim and then sending its ticket back to a queue state. *)
Lemma ended_requeue k b d d1 input res d2 :
  transition input d1 = Ok res d2 → ticketId input = k → toStatus input ∈ REQUEUE_STATES →
  (good d → acts k (ended b) d d1) → simulates d d2.
Proof.
  intros Hr <- Hto H1. intros Hg. specialize (H1 Hg).
  destruct (transition_acts input d1 res d2 (acts_wf _ _ _ _ H1) Hr)
    as (t & Ht & Hp & _ & _ & _ & H2).
  revert Hg. eapply sim_acts; [intros _; by eapply acts_trans|]. intros _ l Hl _. simpl.
  assert (Hl1 : life_of d1 (ticketId input) = Some (ended b l)).
  { destruct H1 as (_ & -> & _). by rewrite Hl. }
  assert (Hs : l_status (ended b l) = l_status l) by (by destruct b, l).
  rewrite moved_requeue by done. rewrite <- (moved_requeue (toStatus input) l) by done.
  eapply requeue_step; [|done]. rewrite <- Hs. erewrite life_status by done. done.
Qed.

(** Ending the claim of a ticket that is not in delivery. *)
Lemma ended_idle k b d d1 :
  (good d → acts k (ended b) d d1) →
  (∀ l, life_of d k = Some l → in_delivery (l_status l) = false ∧ (b = true → leased l = true)) →
  simulates d d1.
Proof.
  intros H1 Hidle. eapply sim_acts; [done|]. intros _ l Hl Hok.
  destruct (Hidle l Hl) as [Hnot Hlease]. destruct b; [|done]. specialize (Hlease eq_refl). simpl.
  apply rtc_once. destruct l as [st ow de le ctx]. simpl in *. subst le.
  unfold unleased; simpl. destruct st, ow, de, ctx as [[]|]; try discriminate; apply step_idle_lapse.
Qed.
End transitions.

(** ** Leases *)

Lemma head_filter {A} (P : A → Prop) `{∀ x, base.Decision (P x)} (l : list A) x :
  head (filter P l) = Some x → P x ∧ x ∈ l.
Proof.
  intros Hh. assert (Hin : x ∈ filter P l); [|by apply list_elem_of_filter in Hin]. destruct (filter P l) as [|y r]; [done|]. injection Hh as ->.
  apply elem_of_cons. by left.
Qed.

(** Claim rows are never deleted or moved to another ticket. *)
Definition claims_kept (d d' : db) : Prop :=
  ∀ i c, ticket_claims d !! i = Some c →
    ∃ c', ticket_claims d' !! i = Some c' ∧ cl_ticket_id c' = cl_ticket_id c.
#[export] Instance claims_kept_preorder : PreOrder claims_kept.
Proof.
  split; [intros d i c; eauto|]. intros d d1 d2 H1 H2 i c Hi.
  destruct (H1 i c Hi) as (c1 & Hi1 & <-). destruct (H2 i c1 Hi1) as (c2 & Hi2 & <-). eauto.
Qed.
Lemma same_core_kept d d' : same_core d d' → claims_kept d d'.
Proof. intros (_ & Hc & _) i c. rewrite Hc. eauto. Qed.
Lemma core_kept {A} (m : Op A) : evolves same_core m → evolves claims_kept m.
Proof. apply evolves_sub, same_core_kept. Qed.

Section leases.
Context `{Env}.

Lemma resolveRef_ok ref d t d' :
  resolveRef ref d = Ok t d' → d' = d ∧ (well_formed d → tickets d !! tk_id t = Some t).
Proof.
  unfold resolveRef, mbind, M_bind, gets, require.
  destruct (tickets_resolveRef ref d) as [t0|] eqn:Hr; [|done]. intros [= -> ->].
  split; [done|]. intros Hwf. rename d' into d.
  assert (∃ i, tickets d !! i = Some t) as [i Hi]; [|by rewrite (wf_tickets d Hwf i t Hi)].
  unfold tickets_resolveRef, tickets_findById in Hr.
  destruct (tickets d !! ref) eqn:E; [injection Hr as ->; eauto|].
  destruct (js_Number _); [|done]. case_bool_decide; [|done].
  apply head_filter in Hr as [_ Hin]. by apply rows_spec in Hin.
Qed.

Lemma activeClaim_ok token nowIso d c d' :
  activeClaimForToken token nowIso d = Ok c d' →
  d' = d ∧ (∃ i, ticket_claims d !! i = Some c) ∧ cl_status c = Active ∧
  (nowIso < expires_at c)%Z ∧ claim_token_hash c = hashClaimToken token.
Proof.
  unfold activeClaimForToken. intros Hr. run_steps Hr. split; [done|].
  apply head_filter in Hr as [(? & ? & ?) Hin]. by apply rows_spec in Hin.
Qed.
Lemma claim_on_ok token ticketId nowIso d c d' :
  claim_on token ticketId nowIso d = Ok c d' →
  d' = d ∧ (∃ i, ticket_claims d !! i = Some c) ∧ cl_status c = Active ∧
  (nowIso < expires_at c)%Z ∧ claim_token_hash c = hashClaimToken token ∧ cl_ticket_id c = ticketId.
Proof.
  unfold claim_on. intros Hr. run_steps Hr. apply activeClaim_ok in Hrun as (-> & ? & ? & ? & ?).
  apply bool_decide_eq_true in Hrun0. done.
Qed.
Lemma activeClaim_core token nowIso : evolves same_core (activeClaimForToken token nowIso).
Proof. by intros d c d' (-> & _)%activeClaim_ok. Qed.
Lemma claim_on_core token k nowIso : evolves same_core (claim_on token k nowIso).
Proof. by intros d c d' (-> & _)%claim_on_ok. Qed.

Lemma acts_end c st nowIso d :
  good d → (∃ i, ticket_claims d !! i = Some c) → st ≠ Active →
  acts (cl_ticket_id c) (ended (is_active c)) d (claims_setStatus (cl_id c) st nowIso d).
Proof.
  intros [Hwf _] [i Hi] Hst. rewrite (wf_claims d Hwf i c Hi). by eapply acts_set_status.
Qed.

Lemma active_is_leased c d l :
  (∃ i, ticket_claims d !! i = Some c) → cl_status c = Active →
  life_of d (cl_ticket_id c) = Some l → leased l = true.
Proof.
  intros [i Hi] Ha. unfold life_of. destruct (tickets d !! _); [|done]. intros [= <-]. simpl.
  apply lease_held_spec. eauto.
Qed.

(** The shape of [releaseClaim] and [revokeClaim]. *)
Lemma end_and_requeue c st nowIso a why d r d1 :
  match tickets_findById (cl_ticket_id c) (claims_setStatus (cl_id c) st nowIso d) with
  | Some t => when (in_delivery (status t))
                (transition (move (tk_id t) a Ready why None [systemOverride]);;; mret tt)
  | None => mret tt
  end (claims_setStatus (cl_id c) st nowIso d) = Ok r d1 →
  (∃ i, ticket_claims d !! i = Some c) → cl_status c = Active → st ≠ Active →
  simulates d d1.
Proof.
  intros Hr Hc Ha Hst. apply under_good. intros Hg0. pose proof (acts_end c st nowIso d Hg0 Hc Hst) as H1.
  unfold tickets_findById in Hr. change (tickets (claims_setStatus _ _ _ _)) with (tickets d) in Hr.
  destruct (tickets d !! cl_ticket_id c) as [t|] eqn:Ht.
  - pose proof (wf_tickets d (proj1 Hg0) _ _ Ht) as Hid. destruct (in_delivery (status t)) eqn:Hin.
    + simpl in Hr. run_steps Hr. refine (ended_requeue _ _ _ _ _ _ _ Hrun Hid _ (λ _, H1)). by apply elem_of_cons; left.
    + injection Hr as _ <-. eapply ended_idle; [done|]. intros l Hl.
      erewrite life_status by done. split; [done|]. intros _. by eapply active_is_leased.
  - destruct Hc as [i Hi]. by destruct (wf_claim_ticket d (proj1 Hg0) i c Hi).
Qed.

Lemma releaseClaim_sim tok a : evolves simulates (releaseClaim tok a).
Proof.
  intros d r d' Hr. unfold releaseClaim, inTransaction, now in Hr. run_steps Hr.
  apply activeClaim_ok in Hrun as (-> & Hc & Ha & _).
  etrans; [by eapply end_and_requeue|].
  by eapply core_sim; [apply ticket_event_core|].
Qed.

Lemma revokeClaim_sim cid a : evolves simulates (revokeClaim cid a).
Proof.
  intros d r d' Hr. unfold revokeClaim, inTransaction, now in Hr. run_steps Hr.
  apply bool_decide_eq_true in Hrun0. unfold claims_findById in *.
  etrans; [by eapply end_and_requeue; eauto|].
  by eapply core_sim; [apply ticket_event_core|].
Qed.
End leases.
