(* ===== verification/Simulation.v ===== *)
(** * Operation by operation

    Each public operation of the services, shown to move tickets along the
    abstract machine.  The lemmas here are what [System] assembles. *)
From S2P Require Import Prelude Json Types EventChain Store Policy Diff Transition Claims Tickets.
From S2P Require Import Pause Decisions Lifecycle Life Refinement.

(** Operations that leave tickets, claims and pauses alone. *)
Section frame.
Context `{Env}.

Lemma agents_insert_core a : evolves same_core (agents_insert a).
Proof. intros d r d'. unfold agents_insert. destruct (_ !! _); [done|]. by intros [= _ <-]. Qed.
Lemma addCapability_core a c d : same_core d (agents_addCapability a c d).
Proof. unfold agents_addCapability. by case_bool_decide. Qed.
Lemma evidence_insert_core e : evolves same_core (evidence_insert e).
Proof. intros d r d'. unfold evidence_insert. destruct (_ || _ || _ || _); [done|]. by intros [= _ <-]. Qed.
Lemma decisions_insert_core x : evolves same_core (decisions_insert x).
Proof. intros d r d'. unfold decisions_insert. destruct (_ !! _); [done|]. by intros [= _ <-]. Qed.
Lemma decisions_link_core a b r n : evolves same_core (decisions_link a b r n).
Proof.
  intros d u d'. unfold decisions_link. destruct (existsb _ _); [by intros [= _ <-]|].
  case_bool_decide; [done|]. by intros [= _ <-].
Qed.
Lemma decisions_resolve_core a b c r e n : evolves same_core (decisions_resolve a b c r e n).
Proof. intros d u d'. unfold decisions_resolve. by destruct (_ !! _); intros [= _ <-]. Qed.
Lemma deps_delete_core a b : evolves same_core (deps_delete a b).
Proof. by intros d u d' [= _ <-]. Qed.
Lemma acs_reset_core a n : evolves same_core (acs_resetForTicket a n).
Proof. by intros d u d' [= _ <-]. Qed.
End frame.
#[export] Hint Resolve agents_insert_core evidence_insert_core decisions_insert_core
  decisions_link_core decisions_resolve_core deps_delete_core acs_reset_core
  activeClaim_core claim_on_core : gaffer.
#[export] Hint Extern 1 (evolves same_core (modify _)) =>
  apply evolves_modify; intros; first [done | apply addCapability_core] : gaffer.

Section core_operations.
Context `{Env}.

Lemma registerAgent_core i a : evolves same_core (registerAgent i a).
Proof. unfold registerAgent, inTransaction. structural. Qed.
Lemma eligible_agent_core i n : evolves same_core (eligible_agent i n).
Proof. unfold eligible_agent. structural. Qed.
Lemma recordEvidence_core i a : evolves same_core (recordEvidence i a).
Proof. unfold recordEvidence, inTransaction. structural. Qed.
Lemma assertClaimOnTicket_core t k : evolves same_core (assertClaimOnTicket t k).
Proof. unfold assertClaimOnTicket. structural. Qed.
Lemma createDecision_core i a : evolves same_core (createDecision i a).
Proof. unfold createDecision, needs, inTransaction. structural. Qed.
Lemma resolveDecision_core i a : evolves same_core (resolveDecision i a).
Proof. unfold resolveDecision, getDecision, inTransaction. structural. Qed.
Lemma addDependency_core x y a : evolves same_core (addDependency x y a).
Proof. unfold addDependency, inTransaction. structural. Qed.
Lemma removeDependency_core x y a : evolves same_core (removeDependency x y a).
Proof. unfold removeDependency, inTransaction. structural. Qed.
Lemma claimability_core r : evolves same_core (claimability r).
Proof. unfold claimability. structural. Qed.
Lemma resetAcceptanceCriteria_core r a : evolves same_core (resetAcceptanceCriteria r a).
Proof. unfold resetAcceptanceCriteria, inTransaction. structural. Qed.
Lemma grantReadyApproval_core r a : evolves same_core (grantReadyApproval r a).
Proof. unfold grantReadyApproval, inTransaction. structural. Qed.
Lemma setRequiredCapabilities_core r c a : evolves same_core (setRequiredCapabilities r c a).
Proof. unfold setRequiredCapabilities, inTransaction. structural. Qed.
Lemma assertHumanOrAdmin_core a w : evolves same_core (assertHumanOrAdmin a w).
Proof. unfold assertHumanOrAdmin. structural. Qed.
End core_operations.
#[export] Hint Resolve registerAgent_core eligible_agent_core recordEvidence_core
  assertClaimOnTicket_core createDecision_core resolveDecision_core addDependency_core
  removeDependency_core claimability_core resetAcceptanceCriteria_core grantReadyApproval_core
  setRequiredCapabilities_core assertHumanOrAdmin_core : gaffer.

(** ** Operations that end in one transition to a queue state *)
#[export] Hint Extern 2 (evolves simulates _) => apply core_sim; solve [auto with gaffer nocore] : gaffer.
#[export] Hint Extern 1 (evolves simulates (transition _)) =>
  apply requeue_simulates; apply (bool_decide_eq_true _); reflexivity : gaffer.

Lemma sim_review_feedback k v d : simulates d (tickets_setReviewFeedback k v d).
Proof. eapply (sim_acts k id); [intros []; by apply acts_review_feedback|done]. Qed.
Lemma sim_paused_delete k d : simulates d (paused_delete k d).
Proof.
  eapply (sim_acts k); [intros []; by apply acts_paused_delete|].
  intros _ l _ _. apply rtc_once, step_clear.
Qed.
(** A write that keeps a claim's ticket and status keeps every life. *)
Lemma sim_claim_row i c c' d :
  ticket_claims d !! i = Some c → cl_id c' = cl_id c → cl_ticket_id c' = cl_ticket_id c →
  cl_status c' = cl_status c → simulates d (set_ticket_claims (<[i := c']> (ticket_claims d)) d).
Proof.
  intros Hi Hid Hk Hs.
  assert (Hinv : ∀ j x, (<[i := c']> (ticket_claims d)) !! j = Some x →
    ∃ y, ticket_claims d !! j = Some y ∧ cl_id x = cl_id y ∧ cl_ticket_id x = cl_ticket_id y
      ∧ cl_status x = cl_status y).
  { intros j x [[<- <-]|[_ Hj]]%lookup_insert_Some; eauto 6. }
  assert (Hl : ∀ k, life_of (set_ticket_claims (<[i := c']> (ticket_claims d)) d) k = life_of d k).
  { intros k. apply life_of_claims_same, lease_held_eq; simpl.
    - intros j x ((y & Hj & _ & E1 & E2)%Hinv & Hx & Ha). exists j, y. by rewrite <- E1, <- E2.
    - intros j y (Hj & Hy & Ha). destruct (decide (j = i)) as [->|Hne].
      + exists i, c'. rewrite lookup_insert_eq. assert (y = c) as -> by congruence. split; [done|]. by rewrite Hk, Hs.
      + exists j, y. by rewrite lookup_insert_ne. }
  apply (sim_acts "" id); [|done]. intros [[W1 W2 W3 W4 W5] _]. split; [|split].
  - split; simpl; try done.
    + intros j x (y & Hj & -> & _)%Hinv. eauto.
    + intros j x (y & Hj & _ & -> & _)%Hinv. eauto.
    + intros j1 j2 x1 x2 (y1 & H1 & _ & E1 & S1)%Hinv (y2 & H2 & _ & E2 & S2)%Hinv.
      rewrite E1, E2, S1, S2. eauto.
  - rewrite Hl. by destruct (life_of d "").
  - by intros j _.
Qed.

Lemma sim_touch_last_seen k n d : simulates d (agents_touchLastSeen k n d).
Proof. by apply sim_same. Qed.
#[export] Hint Extern 1 (evolves simulates (modify _)) =>
  apply evolves_modify; intros; first [apply sim_review_feedback | apply sim_paused_delete
    | solve [apply sim_same; done]] : gaffer.

Section requeue_operations.
Context `{Env}.

Lemma humanBlockTicket_sim r w a : evolves simulates (humanBlockTicket r w a).
Proof. unfold humanBlockTicket, inTransaction. structural. Qed.

Lemma markBlocked_sim i a : evolves simulates (markBlocked i a).
Proof. unfold markBlocked, inTransaction, now. structural. Qed.
Lemma recordReworkAttempt_sim i a : evolves simulates (recordReworkAttempt i a).
Proof. unfold recordReworkAttempt, inTransaction. structural. Qed.
Lemma humanReleaseTicket_sim k a : evolves simulates (humanReleaseTicket k a).
Proof. unfold humanReleaseTicket, inTransaction. structural. Qed.
Lemma stop_sim r a w : evolves simulates (stop r a w).
Proof. unfold stop, inTransaction. structural. Qed.
Lemma reopenFromWontDo_sim r b a : evolves simulates (reopenFromWontDo r b a).
Proof.
  unfold reopenFromWontDo. apply evolves_bind; [apply _|auto with gaffer nocore|].
  intros t. destruct b; auto with gaffer nocore.
Qed.
Lemma clearContext_sim r : evolves simulates (clearContext r).
Proof. unfold clearContext. structural. Qed.

Lemma heartbeat_sim t : evolves simulates (heartbeat t).
Proof.
  unfold heartbeat, inTransaction. structural. intros d r d'. unfold claims_extend.
  destruct (ticket_claims d !! cl_id a0) as [c|] eqn:Hc; [|intros [= _ <-]; reflexivity].
  destruct (is_active c) eqn:Hact; intros [= _ <-]; [|reflexivity]. by eapply sim_claim_row.
Qed.

Lemma assignReviewer_sim r w a : evolves simulates (assignReviewer r w a).
Proof.
  unfold assignReviewer, inTransaction. apply evolves_bind; [apply _|auto with gaffer nocore|].
  intros _. apply evolves_bind; [apply _|auto with gaffer nocore|]. intros _.
  intros d x d' Hr. run_steps Hr.
  apply now_core in Hrun. apply resolveRef_ok in Hrun0 as [-> Ht]. apply ticket_event_core in Hrun3.
  etrans; [by apply sim_same|]. etrans; [|by apply sim_same]. apply under_good. intros [Hwf _].
  specialize (Ht Hwf). unfold tickets_updateStatus in Hrun1. rewrite Ht, bool_decide_true in Hrun1 by done.
  injection Hrun1 as <-. apply (sim_acts (tk_id a1) id); [|done].
  intros _. by apply (acts_ticket_row _ a1).
Qed.
End requeue_operations.

Lemma blocked_edges to : edge Blocked to = true → to ∈ REQUEUE_STATES.
Proof. intros He. apply (bool_decide_eq_true _). destruct to; revert He; vm_compute; done. Qed.

(** A fresh ticket starts a life. *)
Lemma sim_create t d u d' :
  status t = Draft → human_owner t = None → human_delivered t = None →
  tickets_insert t d = Ok u d' → simulates d d'.
Proof.
  intros Hs Ho Hd. unfold tickets_insert. destruct (tickets d !! tk_id t) eqn:Hnone; [done|].
  destruct (match number t with Some _ => _ | None => _ end); [done|]. intros [= _ <-] [Hwf Hok].
  set (d' := set_tickets _ d).
  assert (Hnew : life_of d' (tk_id t) = Some (Life Draft false false false None)).
  { unfold life_of, d'. simpl. rewrite lookup_insert_eq. simpl. rewrite Hs, Ho, Hd. f_equal. f_equal.
    - apply lease_not_held. intros i c Hi Hk _. by apply (wf_claim_ticket d Hwf i c Hi); rewrite Hk.
    - destruct (paused_deliveries d !! tk_id t) as [p|] eqn:Hp; [|done].
      by destruct (wf_paused_ticket d Hwf _ p Hp). }
  assert (Hsteps : ∀ k, rtc life_step (life_of d k) (life_of d' k)).
  { intros k. destruct (decide (k = tk_id t)) as [->|Hne].
    - rewrite Hnew. unfold life_of. rewrite Hnone. apply rtc_once, step_create.
    - unfold life_of, d'. simpl. by rewrite lookup_insert_ne by done. }
  split; [|done]. split; [|intros k; by eapply life_steps_ok].
  destruct Hwf as [W1 W2 W3 W4 W5]. split; simpl; try done.
  - intros i x [[<- <-]|[_ Hi]]%lookup_insert_Some; eauto.
  - intros i c Hi [Hn _]%lookup_insert_None. by apply (W3 i c).
  - intros i p Hi [Hn _]%lookup_insert_None. by apply (W4 i p).
Qed.

Section ticket_operations.
Context `{Env}.

Lemma createTicket_sim i a : evolves simulates (createTicket i a).
Proof.
  unfold createTicket, inTransaction. structural. intros d u d' Hr. by eapply sim_create; [..|done].
Qed.

Lemma humanUnblockTicket_sim r a to : evolves simulates (humanUnblockTicket r a to).
Proof.
  unfold humanUnblockTicket, inTransaction. intros d x d' Hr. run_steps Hr.
  apply assertHumanOrAdmin_core in Hrun. apply resolveRef_ok in Hrun0 as [-> Ht].
  apply bool_decide_eq_true in Hrun1. apply ticket_event_core in Hrun3.
  etrans; [by apply sim_same|]. etrans; [|by apply sim_same].
  apply under_good. intros [Hwf Hok]. eapply requeue_simulates; [|done].
  destruct (transition_acts _ _ _ _ Hwf Hrun2) as (t & Hl & Hp & _). simpl in Hl.
  rewrite Ht in Hl by done. injection Hl as <-. rewrite Hrun1 in Hp.
  by eapply blocked_edges, permitted_edge.
Qed.
End ticket_operations.

(** ** Operations that combine a claim, a transition and a marker *)

(** The life after a transition, from the life before it. *)
Lemma acts_life k f d d' l : acts k f d d' → life_of d k = Some l → life_of d' k = Some (f l).
Proof. intros (_ & -> & _) ->. done. Qed.

Section combined.
Context `{Env}.

Lemma release_status_requeue t : release_status t ∈ REQUEUE_STATES.
Proof. apply (bool_decide_eq_true _). by destruct t. Qed.

Lemma acts_core k f d d1 d2 : acts k f d d1 → same_core d1 d2 → acts k f d d2.
Proof.
  intros Ha Hs. eapply (acts_ext _ (id ∘ f)); [done|].
  eapply acts_trans; [done|]. apply acts_same; [by eapply acts_wf|done].
Qed.

(** [transition_acts] as lives: the source status and the destination. *)
Lemma transition_life input d res d' :
  good d → transition input d = Ok res d' →
  ∃ l, life_of d (ticketId input) = Some l ∧ life_ok l = true ∧
    permitted (l_status l) (toStatus input) (flags input) = true ∧
    (∀ s, expectedFromStatus input = Some s → l_status l = s) ∧
    (ends_lease (toStatus input) = false → ticket_claims d' = ticket_claims d) ∧
    acts (ticketId input) (moved (toStatus input)) d d'.
Proof.
  intros [Hwf Hok] Hr. destruct (transition_acts _ _ _ _ Hwf Hr) as (t & Ht & Hp & He & _ & Hc & Ha).
  destruct (life_of d (ticketId input)) as [l|] eqn:Hl; [|unfold life_of in Hl; by rewrite Ht in Hl].
  pose proof (Hok (ticketId input)) as Hlok. rewrite Hl in Hlok.
  pose proof (life_status _ _ _ _ Ht Hl) as Hs. exists l. rewrite Hs. done.
Qed.

(** The optional release of the runner's claim, then the guarded move. *)
Lemma runnerRelease_sim i a : evolves simulates (runnerRelease i a).
Proof.
  unfold runnerRelease, inTransaction. intros d x d' Hr. run_steps Hr.
  apply now_core in Hrun. apply resolveRef_ok in Hrun0 as [-> Ht].
  etrans; [by apply sim_same|].
  assert (Hend : simulates s2 d').
  { etrans; [eapply (λ h, evolves_when simulates _ _ h _ _ _ Hrun3)|];
      [apply evolves_modify; intros; apply sim_review_feedback|].
    etrans; [eapply (λ h, evolves_when simulates _ _ h _ _ _ Hrun4)|];
      [structural|].
    eapply (λ h, evolves_when simulates _ _ h _ _ _ Hrun5). structural. }
  etrans; [|exact Hend]. destruct (given (rr_claimToken i)) as [token|].
  - run_steps Hrun1. apply claim_on_ok in Hrun0 as (-> & Hc & _ & _ & _ & Hk).
    apply ticket_event_core in Hrun6.
    refine (ended_requeue _ _ _ _ _ _ _ Hrun2 eq_refl (release_status_requeue _) _).
    intros Hg. rewrite <- Hk at 1. eapply acts_core; [|done]. by apply acts_end.
  - injection Hrun1 as _ <-. eapply requeue_simulates; [|done]. apply release_status_requeue.
Qed.

Lemma humanClaimTicket_sim k a : evolves simulates (humanClaimTicket k a).
Proof.
  unfold humanClaimTicket, inTransaction. intros d x d' Hr. run_steps Hr.
  apply andb_true_iff in Hrun0 as [_ Hfree]. apply negb_true_iff in Hfree.
  apply ticket_event_core in Hrun2. apply under_good. intros Hg.
  destruct (transition_life _ _ _ _ Hg Hrun1) as (l & Hl & Hok & _ & He & _ & Ha).
  simpl in *. specialize (He _ eq_refl).
  apply (sim_acts (tk_id a0) (with_owner ∘ moved InProgress)).
  - intros _. eapply acts_core; [|done]. eapply acts_trans; [done|].
    apply acts_human_owner. by eapply acts_wf.
  - intros _ l' Hl' _. assert (l' = l) as -> by congruence. apply rtc_once.
    assert (Hle : leased l = false).
    { unfold life_of in Hl. destruct (tickets s0 !! _); [|done]. injection Hl as <-. exact Hfree. }
    destruct l as [st [] [] [] [[]|]]; simpl in *; subst st; try discriminate. apply step_human_claim.
Qed.

Lemma start_sim k a why : 
  evolves simulates (transition (move k a InProgress why (Some Claimed) [agentSubmit])).
Proof.
  intros d r d' Hr. apply under_good. intros Hg.
  destruct (transition_life _ _ _ _ Hg Hr) as (l & Hl & Hok & _ & He & _ & Ha).
  specialize (He _ eq_refl). eapply sim_acts; [done|]. intros _ l' Hl' _.
  assert (l' = l) as -> by congruence. apply rtc_once. simpl.
  destruct l as [st [] [] [] [[]|]]; simpl in *; subst st; try discriminate. apply step_start.
Qed.

Lemma submitForReview_sim i a : evolves simulates (submitForReview i a).
Proof.
  unfold submitForReview, inTransaction. intros d x d' Hr. run_steps Hr.
  apply now_core in Hrun. etrans; [by apply sim_same|]. clear Hrun d.
  apply activeClaim_ok in Hrun0 as (-> & Hc & Hact & _). apply resolveRef_ok in Hrun1 as [-> _].
  apply bool_decide_eq_true in Hrun2. apply ticket_event_core in Hrun5. apply under_good. intros Hg.
  assert (Hstart : simulates s s2 ∧ ticket_claims s2 = ticket_claims s).
  { destruct (bool_decide (status a2 = Claimed)); [|by injection Hrun3 as _ <-].
    apply bind_ok in Hrun3 as (r1 & s1 & Ht & [= _ <-]). split; [by eapply start_sim|].
    by destruct (transition_life _ _ _ _ Hg Ht) as (_ & _ & _ & _ & _ & -> & _). }
  destruct Hstart as [Hs Hcl]. etrans; [done|]. destruct (Hs Hg) as [Hg2 _].
  destruct (transition_life _ _ _ _ Hg2 Hrun4) as (l & Hl & Hok & _ & He & Hcl2 & Ha).
  specialize (He _ eq_refl). specialize (Hcl2 eq_refl). simpl in Hl, Ha. rewrite <- Hcl in Hc.
  assert (Hle : leased l = true) by (eapply active_is_leased; [done|done|by rewrite Hrun2]).
  rewrite <- Hcl2 in Hc. destruct Hc as [j Hj].
  apply (sim_acts (tk_id a2) (unleased ∘ moved InReview)).
  - intros _. eapply acts_core; [|done]. eapply acts_trans; [done|]. rewrite <- Hrun2.
    pose proof (acts_wf _ _ _ _ Ha) as Hwf. pose proof (wf_claims _ Hwf _ _ Hj) as Hid.
    apply acts_end_claim; [done|by rewrite Hid|done|done].
  - intros _ l' Hl' _. assert (l' = l) as -> by congruence. apply rtc_once. simpl.
    destruct l as [st [] [] [] ctx]; simpl in *; subst st; try discriminate. apply step_submit.
Qed.

Lemma board_edges from to :
  permitted from to [] = true → to ∈ REQUEUE_STATES ∨ (from = InProgress ∧ to = Failed).
Proof.
  destruct to; (left; apply (bool_decide_eq_true _); reflexivity) ||
    (destruct from; vm_compute; (discriminate || (intros _; right; done))).
Qed.

Lemma board_move_sim t to a : evolves simulates (board_move t to a).
Proof.
  unfold board_move, inTransaction. intros d x d' Hr. run_steps Hr. apply under_good. intros Hg.
  destruct (transition_life _ _ _ _ Hg Hr) as (l & Hl & Hok & Hp & He & _ & Ha).
  specialize (He _ eq_refl). simpl in *. eapply sim_acts; [done|]. intros _ l' Hl' _.
  assert (l' = l) as -> by congruence. destruct (bool_decide (status t = InProgress) && _ && _) eqn:Hb.
  - apply andb_true_iff in Hb as [[H1 H2]%andb_true_iff H3].
    apply bool_decide_eq_true in H1, H2. apply negb_true_iff in H3. subst to. apply rtc_once.
    assert (Hle : leased l = false).
    { unfold life_of in Hl. destruct (tickets s !! _); [|done]. injection Hl as <-. exact H3. }
    rewrite H1 in He. destruct l as [st [] [] [] ctx]; simpl in *; subst st; try discriminate;
      apply step_hand_in.
  - apply board_edges in Hp as Hto. destruct Hto as [Hto|[Hf ->]]; [by eapply requeue_step|].
    apply rtc_once. clear He. destruct l as [st [] [] le ctx]; simpl in *; subst st; destruct le;
      try discriminate; apply step_fail.
Qed.
End combined.

(** ** Pause and resume *)
Section pause.
Context `{Env}.

Lemma moved_paused l :
  life_ok l = true → l_status l ∈ [InProgress; InReview; Claimed] →
  rtc life_step (Some l) (Some (with_context (Some false) (moved Paused l))).
Proof.
  intros Hok Hs. apply rtc_once.
  replace (with_context (Some false) (moved Paused l)) with (Life Paused false false false (Some false)).
  { by apply step_pause. }
  apply (bool_decide_eq_true_2 _) in Hs. destruct l as [st [] [] [] c]; simpl in *; destruct st; done.
Qed.

Lemma pauseDelivery_sim r i a : evolves simulates (pauseDelivery r i a).
Proof.
  unfold pauseDelivery, inTransaction. intros d x d' Hr. run_steps Hr.
  apply resolveRef_ok in Hrun as [-> _]. apply bool_decide_eq_true in Hrun0.
  unfold now in Hrun2. run_steps Hrun2. apply ticket_event_core in Hrun3. apply under_good. intros Hg.
  destruct (transition_life _ _ _ _ Hg Hrun1) as (l & Hl & Hok & _ & He & _ & Ha).
  specialize (He _ eq_refl). simpl in *.
  apply (sim_acts (tk_id a0) (with_context (Some false) ∘ moved Paused)).
  - intros _. eapply acts_core; [|done]. eapply acts_trans; [done|].
    apply acts_paused_upsert; [by eapply acts_wf|].
    pose proof (acts_life _ _ _ _ _ Ha Hl) as Hl'. unfold life_of in Hl'. by destruct (tickets _ !! _).
  - intros _ l' Hl' _. assert (l' = l) as -> by congruence. apply moved_paused; [done|].
    rewrite He. exact Hrun0.
Qed.

Lemma requestContinue_sim r a : evolves simulates (requestContinue r a).
Proof.
  unfold requestContinue, inTransaction. intros d x d' Hr. run_steps Hr.
  apply resolveRef_ok in Hrun as [-> Ht]. apply bool_decide_eq_true in Hrun0.
  unfold now in Hrun2. run_steps Hrun2. apply bool_decide_eq_true in Hrun1.
  apply ticket_event_core in Hrun3. apply (sim_acts (tk_id a0) (requested true)).
  - intros [Hwf _]. eapply acts_core; [|done]. by apply acts_resume_requested.
  - intros [Hwf _] l Hl Hok. apply rtc_once. unfold requested.
    pose proof (life_status _ _ _ _ (Ht Hwf) Hl) as Hs. rewrite Hrun0 in Hs.
    assert (Hc : context l ≠ None).
    { unfold life_of in Hl. rewrite (Ht Hwf) in Hl. injection Hl as <-. simpl.
      unfold paused_find in Hrun1. by destruct (paused_deliveries _ !! _). }
    destruct l as [st [] [] [] [[]|]]; simpl in *; subst st; try discriminate; try done;
      apply step_continue.
Qed.

Lemma beginResume_life r a d x d' :
  good d → beginResume r a d = Ok x d' →
  simulates d d' ∧
  life_of d' (rm_ticketId x) = Some (Life InProgress false false false (Some false)).
Proof.
  unfold beginResume, inTransaction. intros Hg Hr. run_steps Hr.
  apply resolveRef_ok in Hrun as [-> Ht]. apply bool_decide_eq_true in Hrun0.
  unfold now in Hrun3. run_steps Hrun3. apply ticket_event_core in Hrun4.
  destruct (transition_life _ _ _ _ Hg Hrun2) as (l & Hl & Hok & _ & He & _ & Ha).
  specialize (He _ eq_refl). simpl in *.
  assert (Hc : context l ≠ None).
  { unfold life_of in Hl. rewrite (Ht (proj1 Hg)) in Hl. injection Hl as <-. simpl.
    unfold paused_find in Hrun1. by rewrite Hrun1. }
  assert (Hacts : acts (tk_id a0) (requested false ∘ moved InProgress) d d').
  { eapply acts_core; [|done]. eapply acts_trans; [done|]. apply acts_resume_requested.
    by eapply acts_wf. }
  assert (Hnew : (requested false ∘ moved InProgress) l = Life InProgress false false false (Some false)).
  { destruct l as [st [] [] [] [[]|]]; simpl in *; subst st; try discriminate; done. }
  split; [|by rewrite (acts_life _ _ _ _ _ Hacts Hl), Hnew].
  apply (sim_acts (tk_id a0) _ _ _ (λ _, Hacts)). intros _ l' Hl' _.
  assert (l' = l) as -> by congruence. rewrite Hnew. apply rtc_once.
  destruct l as [st [] [] [] [[]|]]; simpl in *; subst st; try discriminate; try done; apply step_resume.
Qed.

Lemma acts_new_claim c d u d' :
  well_formed d → cl_status c = Active → claims_insert c d = Ok u d' →
  acts (cl_ticket_id c) with_lease d d'.
Proof. intros. by eapply acts_insert_claim. Qed.

Lemma leaseResumed_sim k ag ttl a b d x d' :
  life_of d k = Some (Life InProgress false false false (Some b)) →
  leaseResumedDelivery k ag ttl a d = Ok x d' → simulates d d'.
Proof.
  unfold leaseResumedDelivery, inTransaction. intros Hl Hr. run_steps Hr.
  apply now_core in Hrun. apply eligible_agent_core in Hrun0. apply newClaimToken_core in Hrun1.
  apply newId_core in Hrun2. apply ticket_event_core in Hrun4.
  assert (H0 : same_core d s0) by (by etrans).
  assert (H1 : same_core (claims_releaseActiveForTicket k a0 s0) s2) by (by etrans).
  apply (sim_acts k (with_lease ∘ (id ∘ (unleased ∘ id)))).
  - intros [Hwf _]. eapply acts_core; [|done].
    assert (Ha : acts k (id ∘ (unleased ∘ id)) d s2).
    { eapply acts_trans; [|apply acts_same; [|exact H1]].
      - eapply acts_trans; [by apply acts_same|]. apply acts_release_active.
        by eapply same_core_wf.
      - eapply acts_wf, acts_release_active. by eapply same_core_wf. }
    eapply acts_trans; [exact Ha|].
    apply acts_wf in Ha. by apply (acts_new_claim _ _ _ _ Ha) in Hrun3.
  - intros _ l Hl' _. rewrite Hl in Hl'. injection Hl' as <-. apply rtc_once, step_lease.
Qed.

Lemma lease_resume_sim r a lease : evolves simulates (lease_resume r a lease).
Proof.
  unfold lease_resume, inTransaction. intros d x d' Hr. apply under_good. intros Hg. run_steps Hr.
  destruct (beginResume_life _ _ _ _ _ Hg Hrun) as [Hs Hl]. etrans; [done|].
  destruct lease as [[ag ttl]|]; run_steps Hr; [|done]. by eapply leaseResumed_sim.
Qed.
End pause.
