(* ===== verification/Gate.v ===== *)
(** * The review gate as part of the system

    The calls of the review gate as one type, and that each of them moves
    tickets within the review lane, back out of it, or to [cancelled], and
    nowhere else, keeping the database well formed. *)
From S2P Require Import Prelude Json Types EventChain Store Policy Diff Transition Claims Tickets.
From S2P Require Import Pause Decisions Lifecycle Landing Autonomy Verdicts Review Approval Landings.
From S2P Require Import Replay Sendback Tester Life Refinement Simulation.

Inductive gate_call :=
  | Approve (ref : string) (opts : ApproveReviewOptions)
  | RouteTester (ref : string)
  | RouteAllTester
  | TesterPassed (ref : string) (i : TesterPassInput)
  | TesterFailed (ref summary : string) (url : option string) (to_ready : bool) (b : BindingInput)
  | Reject (ref : string) (to : RejectTo) (reason : option string)
  | WontDo (ref : string) (reason : option string)
  | BeginLanding (ref : string) (i : LandingInput)
  | RecordLanding (ref : string) (i : LandingInput)
  | RecordReplay (ref : string) (i : ReplayInput)
  | MarkMerged (ref : string)
  | HoldForHuman (ref code reason : string)
  | RecordCi (ref commit state : string) (detail : option string)
  | RequireCi (ref : string) (detail : option string)
  | ReopenForReview (ref reason resolution : string) (cause : option string)
  | RecordAcCheck (i : RecordAcCheckInput).

(** A call's answer does not matter below. *)
Definition ignore {A} (m : Op A) : Op unit := m;;; mret tt.

Section gate.
Context `{Env, ReviewDeps}.

Definition run_gate (c : gate_call) (a : Actor) : Op unit :=
  match c with
  | Approve r o => ignore (approveReview r a o)
  | RouteTester r => ignore (routeToTester r a)
  | RouteAllTester => ignore (routeAllToTester a)
  | TesterPassed r i => ignore (testerPass r i a)
  | TesterFailed r s u t b => ignore (testerFail r s u t b a)
  | Reject r to w => ignore (facade_rejectReview r to a w)
  | WontDo r w => ignore (facade_wontDo r a w)
  | BeginLanding r i => ignore (beginLanding r i a)
  | RecordLanding r i => ignore (recordLanding r i a)
  | RecordReplay r i => ignore (recordTesterReplay r i a)
  | MarkMerged r => ignore (Landings.markMerged r a)
  | HoldForHuman r c w => ignore (holdForHuman r c w a)
  | RecordCi r c s x => ignore (facade_recordCiResult r c s x a)
  | RequireCi r x => ignore (recordCiRequired r x a)
  | ReopenForReview r w s c => ignore (gate_reopenForReview r w s c a)
  | RecordAcCheck i => ignore (recordAcCheck i a)
  end.
End gate.

(** ** What the gate may do to a life *)

(** The moves a call may make, by the status a ticket has. *)
Abbreviation Moves := (TicketStatus → TicketStatus → bool) (only parsing).
Definition moves (froms tos : list TicketStatus) : Moves := λ from to,
  bool_decide (from ∈ froms) && bool_decide (to ∈ tos).
Definition approve_moves : Moves := moves [InReview] [InTesting; ReadyForMerge].
Definition route_moves : Moves := moves [InReview] [InTesting].
Definition pass_moves : Moves := moves [InTesting] [InReview; ReadyForMerge].
Definition fail_moves : Moves := moves [InTesting] [Ready; Refining; Blocked].
Definition reject_moves (to : RejectTo) : Moves :=
  moves [InReview; ReadyForMerge] [reject_status to; Blocked].
Definition cancel_moves : Moves := λ _ to, bool_decide (to = Cancelled).
Definition merge_moves : Moves := moves [ReadyForMerge] [Done].
Definition hold_moves : Moves := moves [ReadyForMerge; InTesting] [Blocked].
Definition reopen_moves : Moves := moves [Done; ReadyForMerge] [InReview].
Definition no_moves : Moves := moves [] [].
Definition gate_moves (c : gate_call) : Moves :=
  match c with
  | Approve _ _ => approve_moves
  | RouteTester _ | RouteAllTester => route_moves
  | TesterPassed _ _ => pass_moves
  | TesterFailed _ _ _ _ _ => fail_moves
  | Reject _ to _ => reject_moves to
  | WontDo _ _ => cancel_moves
  | MarkMerged _ => merge_moves
  | HoldForHuman _ _ _ | RecordCi _ _ _ _ => hold_moves
  | ReopenForReview _ _ _ _ => reopen_moves
  | BeginLanding _ _ | RecordLanding _ _ | RecordReplay _ _ | RequireCi _ _ | RecordAcCheck _ => no_moves
  end.

Inductive gate_step (P : Moves) : option life → option life → Prop :=
| gate_move_step l to : P (l_status l) to = true → edge (l_status l) to = true →
    gate_step P (Some l) (Some (moved to l)).

(** A table that stays in the review lane, leaves it, or cancels. *)
Class InLane (P : Moves) : Prop := in_lane_ok from to :
  P from to = true → edge from to = true → (from ∈ REVIEW_LANE_STATUSES ∧ to ≠ Paused) ∨ to = Cancelled.
Ltac solve_in_lane := intros from to HP _; destruct from, to; try discriminate HP; try (by right); left;
  (split; [apply (bool_decide_eq_true _); reflexivity|done]).
#[export] Instance approve_in_lane : InLane approve_moves.
Proof. solve_in_lane. Qed.
#[export] Instance route_in_lane : InLane route_moves.
Proof. solve_in_lane. Qed.
#[export] Instance pass_in_lane : InLane pass_moves.
Proof. solve_in_lane. Qed.
#[export] Instance fail_in_lane : InLane fail_moves.
Proof. solve_in_lane. Qed.
#[export] Instance reject_in_lane rt : InLane (reject_moves rt).
Proof. destruct rt; solve_in_lane. Qed.
#[export] Instance cancel_in_lane : InLane cancel_moves.
Proof. solve_in_lane. Qed.
#[export] Instance merge_in_lane : InLane merge_moves.
Proof. solve_in_lane. Qed.
#[export] Instance hold_in_lane : InLane hold_moves.
Proof. solve_in_lane. Qed.
#[export] Instance reopen_in_lane : InLane reopen_moves.
Proof. solve_in_lane. Qed.
#[export] Instance no_in_lane : InLane no_moves.
Proof. solve_in_lane. Qed.
#[export] Instance gate_moves_in_lane c : InLane (gate_moves c).
Proof. destruct c; apply _. Qed.

Section gated.
Context (P : Moves) `{!InLane P}.

Lemma gate_step_ok o o' : lives_ok o → gate_step P o o' → lives_ok o'.
Proof.
  intros Hok Hs; destruct Hs as [l to HP He]; simpl in *.
  destruct (in_lane_ok _ _ HP He) as [[Hl Hp]|Hc].
  - apply (bool_decide_eq_true_2 _) in Hl. destruct l as [st ow de le ctx]; simpl in *.
    destruct st; try discriminate Hl; destruct to; try discriminate He; try (by destruct Hp);
      destruct ow, de, le, ctx as [[]|]; try discriminate Hok; reflexivity.
  - subst. rewrite moved_requeue; [done|]. apply (bool_decide_eq_true _). reflexivity.
Qed.
Lemma gate_steps_ok o o' : lives_ok o → rtc (gate_step P) o o' → lives_ok o'.
Proof. intros Hok Hs. induction Hs; eauto using gate_step_ok. Qed.

Definition gated (d d' : db) : Prop :=
  good d → good d' ∧ ∀ k, rtc (gate_step P) (life_of d k) (life_of d' k).
#[export] Instance gated_preorder : PreOrder gated.
Proof.
  split; [intros d Hg; split; [done|by intros k]|].
  intros d d1 d2 H1 H2 Hg. destruct (H1 Hg) as [Hg1 S1]. destruct (H2 Hg1) as [Hg2 S2].
  split; [done|]. intros k. etrans; [apply S1|apply S2].
Qed.
Lemma gated_acts k f d d' :
  (good d → acts k f d d') →
  (good d → ∀ l, life_of d k = Some l → rtc (gate_step P) (Some l) (Some (f l))) → gated d d'.
Proof.
  intros Ha Hs Hg. destruct (Ha Hg) as (Hwf & Hk & Hj). pose proof (proj2 Hg) as Hok.
  assert (Hsteps : ∀ j, rtc (gate_step P) (life_of d j) (life_of d' j)).
  { intros j. destruct (decide (j = k)) as [->|Hne]; [|by rewrite Hj].
    rewrite Hk. destruct (life_of d k) as [l|] eqn:El; [|done]. by apply Hs. }
  split; [|done]. split; [done|]. intros j. eapply gate_steps_ok; [apply Hok|apply Hsteps].
Qed.
Lemma gated_same d d' : same_core d d' → gated d d'.
Proof. intros Hs. apply (gated_acts "" id); [intros []; by apply acts_same|done]. Qed.
Lemma gated_review_feedback k v d : gated d (tickets_setReviewFeedback k v d).
Proof. eapply (gated_acts k id); [intros []; by apply acts_review_feedback|done]. Qed.

Context `{Env}.

(** A transition pinned to a source from which the table has the move. *)
Lemma gated_transition input s :
  expectedFromStatus input = Some s → P s (toStatus input) = true → evolves gated (transition input).
Proof.
  intros Es HP d res d' Hr Hg.
  destruct (transition_acts input d res d' (proj1 Hg) Hr) as (t & Ht & Hp & He & _ & _ & Ha).
  apply permitted_edge in Hp. revert Hg. eapply gated_acts; [done|]. intros Hg l Hl.
  assert (l_status l = status t) as Hs by by eapply life_status.
  apply rtc_once. constructor; rewrite Hs; [by rewrite (He s Es)|done].
Qed.
Lemma gated_move ticket a to why from p u diff fs :
  P from to = true → evolves gated (transition (gate_move ticket a to why from p u diff fs)).
Proof. intros. by eapply gated_transition. Qed.
End gated.

(** ** Call by call *)

(** The table has the move: by computation, or by a check that was passed. *)
Ltac has_move := first
  [ reflexivity
  | by repeat case_match
  | match goal with
    | Hs : bool_decide (?s = _) || bool_decide (?s = _) = true |- _ ?s _ = true =>
        apply orb_true_iff in Hs as [Hs|Hs]; apply bool_decide_eq_true in Hs; rewrite Hs;
        by repeat case_match
    end ].
#[export] Hint Extern 2 (evolves (gated _) _) =>
  apply (evolves_sub same_core); [apply gated_same, _|]; solve [auto with gaffer nocore] : gaffer.
#[export] Hint Extern 1 (evolves (gated _) (modify _)) =>
  apply evolves_modify; intros;
  first [apply gated_review_feedback, _ | solve [apply gated_same; [apply _|done]]] : gaffer.
#[export] Hint Extern 1 (evolves (gated _) (transition (gate_move _ _ _ _ _ _ _ _ _))) =>
  apply gated_move; [apply _|has_move] : gaffer.

Section core.
Context `{Env, ReviewDeps}.

Lemma system_evidence_core i r w u p : evolves same_core (system_evidence i r w u p).
Proof. unfold system_evidence. structural. Qed.
Lemma actor_evidence_core i c ty w u p a n : evolves same_core (actor_evidence i c ty w u p a n).
Proof. unfold actor_evidence. structural. Qed.
Lemma assertCiPassed_core t c : evolves same_core (assertCiPassed t c).
Proof. unfold assertCiPassed. structural. Qed.
Lemma lift_result_core {A} (r : error + A) : evolves same_core (lift_result r).
Proof. unfold lift_result. structural. Qed.
End core.
#[export] Hint Resolve system_evidence_core actor_evidence_core assertCiPassed_core lift_result_core : gaffer.

Section pieces.
Context `{Env, ReviewDeps}.

Lemma recordApprovalPins_core t a ps : evolves same_core (recordApprovalPins t a ps).
Proof. unfold recordApprovalPins. structural. Qed.
Lemma recordRejectPins_core t a ps n : evolves same_core (recordRejectPins t a ps n).
Proof. unfold recordRejectPins. structural. Qed.
Lemma assertWriteRepos_core t ms : evolves same_core (assertWriteReposAvailable t ms).
Proof. unfold assertWriteReposAvailable. structural. Qed.
Lemma assertSystemOrAdmin_core a w : evolves same_core (assertSystemOrAdmin a w).
Proof. unfold assertSystemOrAdmin. structural. Qed.
Lemma observed_core r a : evolves same_core (enforceObservedRiskCeiling r a).
Proof. unfold enforceObservedRiskCeiling. structural. Qed.
Lemma assertNotAuthor_core t a : evolves same_core (assertNotAuthor t a).
Proof. unfold assertNotAuthor. structural. Qed.
Lemma assertPrLanding_core t g s v : evolves same_core (assertPrLanding t g s v).
Proof. unfold assertPrLanding. structural. Qed.
Lemma assertLocalLanding_core g s v : evolves same_core (assertLocalLanding g s v).
Proof. unfold assertLocalLanding. structural. Qed.
Lemma insert_landing_core t g s v a : evolves same_core (insert_landing t g s v a).
Proof. unfold insert_landing. structural. Qed.
Lemma full_commit_core v w : evolves same_core (full_commit v w).
Proof. unfold full_commit. structural. Qed.
Lemma replay_repo_core i r : evolves same_core (replay_repo i r).
Proof. unfold replay_repo. structural. Qed.
Lemma refuseCancel_core t : evolves same_core (refuseCancelOfLanded t).
Proof. unfold refuseCancelOfLanded. structural. Qed.
Lemma partlyLandedHold_core t l q w a : evolves same_core (partlyLandedHold t l q w a).
Proof. unfold partlyLandedHold. structural. Qed.
Lemma revocation_core i a w : evolves same_core (revocationAfterLanding i a w).
Proof. unfold revocationAfterLanding. structural. Qed.
Lemma checked_core o f P e : evolves same_core (checked o f P e).
Proof. unfold checked. structural. Qed.
Lemma pass_tests_core i a : evolves same_core (pass_tests i a).
Proof. unfold pass_tests. structural. Qed.
Lemma pass_agent_core i a : evolves same_core (pass_agent i a).
Proof. unfold pass_agent. structural. Qed.
End pieces.
#[export] Hint Resolve recordApprovalPins_core recordRejectPins_core assertWriteRepos_core
  assertSystemOrAdmin_core observed_core assertNotAuthor_core assertPrLanding_core
  assertLocalLanding_core insert_landing_core full_commit_core replay_repo_core refuseCancel_core
  partlyLandedHold_core revocation_core checked_core pass_tests_core pass_agent_core : gaffer.

Section calls.
Context `{Env, ReviewDeps}.

Lemma validatedBinding_core b s c p h : evolves same_core (validatedBinding b s c p h).
Proof. unfold validatedBinding. structural. Qed.
Lemma resets_core r a : evolves same_core (resetAcceptanceCriteria r a).
Proof. apply resetAcceptanceCriteria_core. Qed.
#[local] Hint Resolve validatedBinding_core resets_core : gaffer.

(** The two transactions of an approval. *)
Lemma approve_to_testing_gated t a u un ps : evolves (gated approve_moves) (approve_to_testing t a u un ps).
Proof. unfold approve_to_testing, inTransaction. structural. Qed.
Lemma approve_to_merge_gated t a u un ps : evolves (gated approve_moves) (approve_to_merge t a u un ps).
Proof. unfold approve_to_merge, inTransaction. structural. Qed.
#[local] Hint Resolve approve_to_testing_gated approve_to_merge_gated : gaffer.
Lemma approveReview_gated r a o : evolves (gated approve_moves) (approveReview r a o).
Proof. unfold approveReview, auto_ship_hold, approve_permitted. structural. Qed.

Lemma routeToTester_gated r a : evolves (gated route_moves) (routeToTester r a).
Proof. unfold routeToTester, inTransaction. structural. Qed.
#[local] Hint Resolve routeToTester_gated : gaffer.
Lemma routeAll_gated a : evolves (gated route_moves) (routeAllToTester a).
Proof. unfold routeAllToTester. structural. Qed.

Lemma testerPass_gated r i a : evolves (gated pass_moves) (testerPass r i a).
Proof. unfold testerPass, inTransaction. structural. Qed.
Lemma store_feedback_gated P `{!InLane P} k w a n : evolves (gated P) (store_feedback k w a n).
Proof. unfold store_feedback. structural. Qed.
#[local] Hint Extern 1 (evolves (gated _) (store_feedback _ _ _ _)) => apply store_feedback_gated, _ : gaffer.
Lemma testerFail_gated r s u t b a : evolves (gated fail_moves) (testerFail r s u t b a).
Proof. unfold testerFail, inTransaction. structural. Qed.

Lemma holdForHuman_gated r c w a : evolves (gated hold_moves) (holdForHuman r c w a).
Proof.
  unfold holdForHuman, inTransaction. do 2 (apply evolves_bind; [apply _|structural|intros _]).
  apply evolves_bind; [apply _|structural|intros t]. apply evolves_guard_bind; intros Hs. structural.
Qed.
#[local] Hint Resolve holdForHuman_gated : gaffer.

Lemma reject_transition_gated t to a w hl n cap :
  bool_decide (status t = InReview) || bool_decide (status t = ReadyForMerge) = true →
  evolves (gated (reject_moves to)) (transition (reject_transition t to a w hl n cap)).
Proof.
  intros Hs. apply gated_move; [apply _|].
  apply orb_true_iff in Hs as [Hs|Hs]; apply bool_decide_eq_true in Hs; rewrite Hs;
    by destruct (cap || hl), to.
Qed.
Lemma rejectReview_gated r to a w : evolves (gated (reject_moves to)) (rejectReview r to a w).
Proof.
  unfold rejectReview, inTransaction. apply evolves_bind; [apply _|structural|intros hs].
  apply evolves_bind; [apply _|structural|intros t]. apply evolves_guard_bind. intros Hs.
  pose proof (λ hl n cap w', reject_transition_gated t to a w' hl n cap Hs). structural.
Qed.
Lemma wontDo_gated r a w : evolves (gated cancel_moves) (gate_wontDo r a w).
Proof. unfold gate_wontDo, inTransaction. structural. Qed.
#[local] Hint Resolve rejectReview_gated wontDo_gated : gaffer.
Lemma facade_reject_gated r to a w : evolves (gated (reject_moves to)) (facade_rejectReview r to a w).
Proof. unfold facade_rejectReview. structural. Qed.
Lemma facade_wontDo_gated r a w : evolves (gated cancel_moves) (facade_wontDo r a w).
Proof. unfold facade_wontDo. structural. Qed.

Lemma attempt_evolves {A} (R : db → db → Prop) `{!PreOrder R} (m : Op A) :
  evolves R m → evolves R (attempt m).
Proof.
  intros Hm d x d' Hr. unfold attempt in Hr. destruct (m d) as [y d1|e] eqn:E; [|by injection Hr as _ <-].
  injection Hr as _ <-. by eapply Hm.
Qed.
Lemma beginLanding_core r i a : evolves same_core (beginLanding r i a).
Proof. unfold beginLanding, inTransaction. structural. Qed.
Lemma recordLanding_core r i a : evolves same_core (recordLanding r i a).
Proof. unfold recordLanding, inTransaction. structural. Qed.
#[local] Hint Resolve beginLanding_core recordLanding_core : gaffer.
Lemma verify_landed_core k rs : evolves same_core (verify_landed k rs).
Proof.
  induction rs as [|x rs IH]; simpl; [structural|]. destruct (git_verified x); [|done].
  apply evolves_bind; [apply _|apply attempt_evolves; [apply _|auto with gaffer nocore]|].
  intros [e|y]; [structural|done].
Qed.
#[local] Hint Resolve verify_landed_core : gaffer.
Lemma recordTesterReplay_core r i a : evolves same_core (recordTesterReplay r i a).
Proof. unfold recordTesterReplay, inTransaction. structural. Qed.
Lemma recordAcCheck_core i a : evolves same_core (recordAcCheck i a).
Proof. unfold recordAcCheck, inTransaction. structural. Qed.
Lemma recordCiRequired_core r x a : evolves same_core (recordCiRequired r x a).
Proof. unfold recordCiRequired. structural. Qed.
#[local] Hint Resolve recordTesterReplay_core recordAcCheck_core recordCiRequired_core : gaffer.

Lemma markMerged_gated r a : evolves (gated merge_moves) (Landings.markMerged r a).
Proof.
  unfold Landings.markMerged. repeat (apply evolves_bind; [apply _|structural|intros ?]).
  case_match; [structural|]. apply attempt_evolves; [apply _|]. unfold close_merged.
  do 3 (apply evolves_bind; [apply _|structural|intros ?]).
  by apply (gated_transition _ _ ReadyForMerge).
Qed.
Lemma recordCi_gated r c s x a : evolves (gated hold_moves) (facade_recordCiResult r c s x a).
Proof.
  unfold facade_recordCiResult. apply evolves_bind; [apply _| |intros ?; structural].
  unfold recordCiResult. repeat (apply evolves_bind; [apply _|structural|intros ?]). case_match; [|structural].
  apply evolves_bind; [apply _|apply attempt_evolves; [apply _|auto with gaffer nocore]|]. structural.
Qed.
Lemma reopen_gated r w s c a : evolves (gated reopen_moves) (gate_reopenForReview r w s c a).
Proof.
  unfold gate_reopenForReview, inTransaction. do 2 (apply evolves_bind; [apply _|structural|intros _]).
  apply evolves_bind; [apply _|structural|intros t]. apply evolves_guard_bind; intros Hs. structural.
Qed.

Lemma ignore_gated P `{!InLane P} {A} (m : Op A) : evolves (gated P) m → evolves (gated P) (ignore m).
Proof. intros Hm. unfold ignore. structural. Qed.
Lemma run_gate_gated c a : evolves (gated (gate_moves c)) (run_gate c a).
Proof.
  destruct c; simpl; (apply ignore_gated; [apply _|]); first
    [ apply approveReview_gated | apply routeAll_gated | apply testerPass_gated | apply testerFail_gated
    | apply facade_reject_gated | apply facade_wontDo_gated | apply markMerged_gated
    | apply recordCi_gated | apply reopen_gated | auto with gaffer nocore ].
Qed.

(** [moveTicket] is a board move or a rejection. *)
Lemma moveTicket_cases r to a d res d' :
  moveTicket r to a d = Ok res d' →
  (∃ t, resolveRef r d = Ok t d ∧ board_move t to a d = Ok res d') ∨
  ∃ k rt l, facade_rejectReview k rt a (Some "board_move") d = Ok (res, l) d'.
Proof.
  unfold moveTicket. intros (t & d1 & Ht & Hr)%bind_ok.
  pose proof (proj1 (resolveRef_ok _ _ _ _ Ht)) as ->.
  repeat case_match; [| |left; by exists t]; right;
    apply bind_ok in Hr as ([x l] & d2 & Hr & [= <- <-]); eauto.
Qed.
End calls.
