(* ===== verification/Changes.v ===== *)
(** * Edits as part of the system

    The writes to a ticket that move it nowhere, as one type of calls, and
    that they leave every life as it was (a draft is a new one). *)
From S2P Require Import Prelude Json Types EventChain Store Policy Diff Transition Claims Tickets.
From S2P Require Import Contract Review Approval Tester Edits Handover Deliveries Life Refinement Simulation Gate.

Inductive edit_call :=
  | EditTicket (ref : string) (i : EditTicketInput)
  | AddCriterion (i : AddAcInput)
  | EditCriterion (ref ac : string) (i : EditAcInput)
  | RemoveCriterion (ref ac : string)
  | SetTestable (ref : string) (b : bool)
  | AllowTestChanges (ref : string) (b : bool) (reason : option string)
  | SetContract (ref : string) (i : SetTestContractInput)
  | SetProfile (ref : string) (profile : js) (spec : option js)
  | RecordAcceptance (ref payload : string)
  | RecordArtifact (i : RecordDeliveryArtifactInput)
  | RecordRepo (i : RecordRepoDeliveryInput)
  | AttachEvidence (ref : string) (i : DeliveryEvidenceInput)
  | DraftTicket (i : DraftInput)
  | SetBudget (ref : string) (budget : option Z).

Section changes.
Context `{Env}.

Definition run_edit (c : edit_call) (a : Actor) : Op unit :=
  match c with
  | EditTicket r i => ignore (editTicket r i a)
  | AddCriterion i => ignore (addAcceptanceCriterion i a)
  | EditCriterion r k i => ignore (editAcceptanceCriterion r k i a)
  | RemoveCriterion r k => ignore (removeAcceptanceCriterion r k a)
  | SetTestable r b => ignore (setTestable r b a)
  | AllowTestChanges r b w => ignore (setAllowTestChanges r b a w)
  | SetContract r i => ignore (setTestContract r i a)
  | SetProfile r p s => ignore (setAcceptanceProfile r p s a)
  | RecordAcceptance r p => ignore (recordAcceptanceEvidence r p a)
  | RecordArtifact i => ignore (recordDeliveryArtifact i a)
  | RecordRepo i => ignore (recordRepoDelivery i a)
  | AttachEvidence r i => ignore (attachDeliveryEvidence r i a)
  | DraftTicket i => ignore (createDraftTicket i a None)
  | SetBudget r n => ignore (setDeliveryBudget r n a)
  end.

(** A write that keeps what a life shows. *)
Lemma sim_row k f d :
  (∀ t, tk_id (f t) = tk_id t ∧ status (f t) = status t ∧ human_owner (f t) = human_owner t ∧
        human_delivered (f t) = human_delivered t) →
  simulates d (set_tickets (update_row k f (tickets d)) d).
Proof.
  intros Hf. eapply (sim_acts k id); [|done]. intros [Hwf _]. apply acts_update_row; [done|].
  intros t Ht. pose proof (wf_tickets d Hwf k t Ht). destruct (Hf t) as (E1 & E2 & E3 & E4).
  rewrite E1, E2, E3, E4. eauto.
Qed.
Lemma insert_update_row {A} k (f : A → A) x (m : gmap string A) :
  m !! k = Some x → <[k := f x]> m = update_row k f m.
Proof.
  intros Hk. apply map_eq. intros i. unfold update_row. destruct (decide (i = k)) as [->|].
  - by rewrite lookup_insert_eq, lookup_alter_eq, Hk.
  - by rewrite lookup_insert_ne, lookup_alter_ne.
Qed.
(** [updateFields] edits the row or refuses. *)
Lemma updateFields_cases id v i n d ok d' :
  tickets_updateFields id v i n d = Ok ok d' →
  d' = d ∨ d' = set_tickets (update_row id (fields_updated i n) (tickets d)) d.
Proof.
  unfold tickets_updateFields. destruct (tickets d !! id) as [t|] eqn:Ht; [|intros [= _ <-]; by left].
  case_bool_decide; intros [= _ <-]; [right|by left]. by rewrite (insert_update_row id _ t).
Qed.

Lemma updateFields_sim id v i n : evolves simulates (tickets_updateFields id v i n).
Proof.
  intros d ok d' [->| ->]%updateFields_cases; [reflexivity|]. by apply sim_row.
Qed.
(** A status update to the status the ticket has. *)
Lemma assign_sim ref p n d t d1 ok d' :
  resolveRef ref d = Ok t d1 →
  tickets_updateStatus (tk_id t) (status t) (row_version t) p n d1 = Ok ok d' → simulates d d'.
Proof.
  intros [-> Ht]%resolveRef_ok Hu. apply under_good. intros [Hwf _]. specialize (Ht Hwf).
  unfold tickets_updateStatus in Hu. rewrite Ht, bool_decide_true in Hu by done. injection Hu as _ <-.
  apply (sim_acts (tk_id t) id); [|done]. intros _. by apply (acts_ticket_row _ t).
Qed.

Lemma acs_insert_core c : evolves same_core (acs_insert c).
Proof. intros d r d'. unfold acs_insert. repeat case_match; intros [= _ <-]; done. Qed.
Lemma assertEditable_core i t : evolves same_core (assertEditable i t).
Proof. unfold assertEditable, assertContractEditable. structural. Qed.
Lemma recheck_core t : evolves same_core (recheckReadyGate t).
Proof. unfold recheckReadyGate. structural. Qed.
Lemma resolveAc_core t r : evolves same_core (resolveAcceptanceCriterion t r).
Proof. unfold resolveAcceptanceCriterion, lift_result. structural. Qed.
Lemma requested_core i e a : evolves same_core (requested_profile i e a).
Proof. unfold requested_profile. structural. Qed.
Lemma lift_core {A} (r : error + A) : evolves same_core (lift_result r).
Proof. unfold lift_result. structural. Qed.
Lemma delivery_payload_core s : evolves same_core (delivery_payload s).
Proof. unfold delivery_payload. structural. Qed.
End changes.
#[export] Hint Resolve updateFields_sim acs_insert_core assertEditable_core recheck_core
  resolveAc_core requested_core lift_core delivery_payload_core : gaffer.
#[export] Hint Extern 2 (evolves simulates (modify _)) =>
  apply evolves_modify; intros; apply sim_row; intros; repeat split; reflexivity : gaffer.

Section runs.
Context `{Env}.
Lemma ignore_sim {A} (m : Op A) : evolves simulates m → evolves simulates (ignore m).
Proof. intros Hm. unfold ignore. structural. Qed.

(** The check of a claim token only reads. *)
Lemma assertClaim_reads t k : evolves eq (assertClaimOnTicket t k).
Proof. unfold assertClaimOnTicket, claim_on, activeClaimForToken, now. structural. Qed.
Definition artifact_claim (input : RecordDeliveryArtifactInput) (actor : Actor) (id : string) : Op unit :=
  match ra_claim_token input with
  | Some token => assertClaimOnTicket token id;;; mret tt
  | None => guard_ (negb (bool_decide (actor_type actor = AgentActor)))
              (DispatchError CLAIM_REQUIRED
                 "An agent must present a valid claim token to record a delivery artifact.")
  end.
Lemma artifact_claim_reads i a k : evolves eq (artifact_claim i a k).
Proof. pose proof assertClaim_reads. unfold artifact_claim. structural. Qed.
(** What an artifact writes: the ticket's row, at the status it has, then an
    event. *)
Lemma recordArtifact_writes raw a d r d' :
  recordDeliveryArtifact raw a d = Ok r d' →
  ∃ ref p n t ok d1 pl u, resolveRef ref d = Ok t d ∧
    tickets_updateStatus (tk_id t) (status t) (row_version t) p n d = Ok ok d1 ∧
    ticket_event (tk_id t) a "ticket.delivery_recorded" pl d1 = Ok u d'.
Proof.
  unfold recordDeliveryArtifact, inTransaction. intros Hr. apply bind_ok in Hr as (i & d0 & [_ ->]%require_ok & Hr).
  apply bind_ok in Hr as (n & d0 & [= <- <-] & Hr). apply bind_ok in Hr as (t & d0 & Ht & Hr).
  pose proof (resolveRef_ok _ _ _ _ Ht) as [-> _].
  apply bind_ok in Hr as ([] & d0 & Hc & Hr). apply (artifact_claim_reads i a (tk_id t)) in Hc as <-.
  run_steps Hr. repeat eexists; eassumption.
Qed.
Lemma recordArtifact_sim i a : evolves simulates (recordDeliveryArtifact i a).
Proof.
  intros d r d' (ref & p & n & t & ok & d1 & pl & u & Ht & Hu & He)%recordArtifact_writes.
  etrans; [by eapply assign_sim|]. apply sim_same. by eapply ticket_event_core.
Qed.

Lemma run_edit_simulates c a : evolves simulates (run_edit c a).
Proof.
  destruct c; simpl; apply ignore_sim;
    first [apply recordArtifact_sim | idtac].
  - unfold editTicket, inTransaction. structural.
  - unfold addAcceptanceCriterion, assertContractEditable, inTransaction. structural.
  - unfold editAcceptanceCriterion, assertContractEditable, inTransaction. structural.
  - unfold removeAcceptanceCriterion, assertContractEditable, inTransaction. structural.
  - unfold setTestable, inTransaction. structural.
  - unfold setAllowTestChanges, inTransaction. structural.
  - unfold setTestContract, assertTestContractEditable, inTransaction. structural.
  - unfold setAcceptanceProfile, assertTestContractEditable, inTransaction. structural.
  - unfold recordAcceptanceEvidence, inTransaction. structural.
  - unfold recordRepoDelivery, inTransaction. structural.
  - unfold attachDeliveryEvidence, inTransaction. structural.
  - pose proof createTicket_sim. unfold createDraftTicket, inTransaction. structural.
  - unfold setDeliveryBudget, inTransaction. structural.
Qed.
End runs.
