(* ===== verification/Claiming.v ===== *)
(** * Claiming and sweeping

    The loops over several tickets: [claimNextTicket] over its candidates and
    [expireStaleClaims] over the lapsed claims.  What a loop computed at its
    start stays true of the rows it has not reached, because claim rows are
    never deleted or moved ([claims_kept]). *)
From S2P Require Import Prelude Json Types EventChain Store Policy Diff Transition Claims Tickets.
From S2P Require Import Pause Decisions Lifecycle Life Refinement Simulation.

Lemma kept_set_status eid st n d : claims_kept d (claims_setStatus eid st n d).
Proof.
  intros i c Hi. unfold claims_setStatus, update_row. simpl. destruct (decide (i = eid)) as [->|Hne].
  - rewrite lookup_alter_eq, Hi. by eexists.
  - rewrite lookup_alter_ne by done. eauto.
Qed.
Lemma kept_release k n d : claims_kept d (claims_releaseActiveForTicket k n d).
Proof.
  intros i c Hi. simpl. rewrite lookup_fmap, Hi. eexists. split; [done|].
  by destruct (release_if_on_spec k n c).
Qed.
Lemma kept_insert c : evolves claims_kept (claims_insert c).
Proof.
  intros d u d'. unfold claims_insert. destruct (ticket_claims d !! cl_id c) eqn:Hnone; [done|].
  destruct (_ && _); [done|]. case_bool_decide; [done|]. intros [= _ <-] i c0 Hi. simpl.
  rewrite lookup_insert_ne by congruence. eauto.
Qed.
Lemma kept_effects input t n d : claims_kept d (transition_effects input t n d).
Proof.
  unfold transition_effects. cbv zeta. rewrite ends_lease_claims.
  assert (H1 : claims_kept d (set_ticket_claims (if ends_lease (toStatus input)
    then release_if_on (tk_id t) n <$> ticket_claims d else ticket_claims d) d)).
  { destruct (ends_lease _); [apply kept_release|]. by destruct d. }
  revert H1. generalize (set_ticket_claims (if ends_lease (toStatus input)
    then release_if_on (tk_id t) n <$> ticket_claims d else ticket_claims d) d). intros d1 H1.
  repeat match goal with |- context [if ?b then _ else _] => destruct b end; exact H1.
Qed.
Lemma kept_same d d' : ticket_claims d' = ticket_claims d → claims_kept d d'.
Proof. intros He i c Hi. rewrite He. eauto. Qed.
Lemma kept_update_status k to v p n : evolves claims_kept (tickets_updateStatus k to v p n).
Proof.
  intros d u d'. unfold tickets_updateStatus. destruct (_ !! _); [case_bool_decide|];
    intros [= _ <-] i c Hi; simpl; eauto.
Qed.
#[export] Hint Resolve kept_insert kept_update_status : gaffer.
#[export] Hint Extern 2 (evolves claims_kept _) => apply core_kept; solve [auto with gaffer nocore] : gaffer.
#[export] Hint Extern 1 (evolves claims_kept (modify _)) =>
  apply evolves_modify; intros; first [apply kept_set_status | apply kept_release | apply kept_effects
    | apply kept_same; reflexivity] : gaffer.

Section kept.
Context `{Env}.
Lemma transition_kept input : evolves claims_kept (transition input).
Proof. unfold transition, transition_checks, inTransaction. structural. Qed.
End kept.
#[export] Hint Resolve transition_kept : gaffer.

Section loops.
Context `{Env}.

Lemma returnLapsed_kept t eid a : evolves claims_kept (returnLapsedResumeToPaused t eid a).
Proof. unfold returnLapsedResumeToPaused. structural. Qed.
#[local] Hint Resolve returnLapsed_kept : gaffer.
Lemma attemptClaim_kept c ag ttl a n : evolves claims_kept (attemptClaim c ag ttl a n).
Proof. unfold attemptClaim, reap_expired. structural. Qed.
Lemma expire_claim_kept a n acc c : evolves claims_kept (expire_claim a n acc c).
Proof. unfold expire_claim. structural. Qed.

Lemma paused_again o de le b :
  requested false (moved Paused (Life InProgress o de le (Some b))) = Life Paused false false false (Some false).
Proof. by destruct o, de, le. Qed.

(** A lapsed resume goes back to [paused]. *)
Lemma lapsed_sim k b d d1 t eid a r d2 :
  returnLapsedResumeToPaused t eid a d1 = Ok r d2 →
  good d → acts k (ended b) d d1 → tickets d1 !! k = Some t →
  if r then simulates d d2 else d2 = d1.
Proof.
  intros Hr Hg H1 Ht. pose proof (acts_wf _ _ _ _ H1) as Hwf. unfold returnLapsedResumeToPaused in Hr.
  pose proof (wf_tickets _ Hwf _ _ Ht) as Hid. subst k.
  destruct (negb _ || _) eqn:Hskip; [by injection Hr as <- <-|].
  apply orb_false_iff in Hskip as [Hs Ho]. apply negb_false_iff, bool_decide_eq_true in Hs.
  run_step Hr. run_step Hrun. destruct (paused_find _ _) as [p|] eqn:Hp; [|by injection Hr as <- <-].
  run_steps Hr. unfold now in Hrun0. run_steps Hrun0. apply ticket_event_core in Hrun1.
  destruct (transition_acts _ _ _ _ Hwf Hrun) as (t' & Ht' & _ & _ & _ & _ & H2).
  simpl in *. set (f := requested false ∘ (moved Paused ∘ ended b)).
  assert (Hacts : acts (tk_id t) f d d2).
  { eapply acts_core; [|done]. eapply acts_trans; [by eapply acts_trans|].
    apply acts_resume_requested. by eapply acts_wf. }
  apply (sim_acts (tk_id t) f _ _ (λ _, Hacts)). intros _ l Hl Hok. apply rtc_once.
  pose proof (acts_life _ _ _ _ _ H1 Hl) as Hl1. unfold life_of in Hl1. rewrite Ht in Hl1.
  unfold paused_find in Hp. rewrite Hp in Hl1. injection Hl1 as Hl1. apply bool_decide_eq_false in Ho.
  assert (Hf : f l = Life Paused false false false (Some false)).
  { unfold f. simpl. rewrite <- Hl1, Hs. apply paused_again. }
  rewrite Hf. apply step_pause. replace (l_status l) with (l_status (ended b l)) by (by destruct b).
  rewrite <- Hl1. simpl. rewrite Hs. apply (bool_decide_eq_true _). reflexivity.
Qed.

(** The claim a candidate's reap will end is on that candidate. *)
Definition candidate_ok (d : db) (c : CandidateRow) : Prop :=
  ∀ eid, expired_claim_id c = Some eid →
    ∃ x, ticket_claims d !! eid = Some x ∧ cl_ticket_id x = cr_id c.
Lemma candidate_ok_kept d d' c : claims_kept d d' → candidate_ok d c → candidate_ok d' c.
Proof.
  intros Hk Hc eid He. destruct (Hc eid He) as (x & Hx & Ht). destruct (Hk _ _ Hx) as (x' & ? & ?).
  exists x'. split; [done|congruence].
Qed.

(** Ending a claim and dealing with its ticket, as the reap and the sweep
    do. *)
Lemma end_claim_sim eid c st n d t to why a r d2 :
  ticket_claims d !! eid = Some c → st ≠ Active → to ∈ REQUEUE_STATES → good d →
  tickets d !! cl_ticket_id c = Some t →
  when (in_delivery (status t))
    (transition (move (cl_ticket_id c) a to why None [systemOverride]);;; mret tt)
    (claims_setStatus eid st n d) = Ok r d2 →
  simulates d d2.
Proof.
  intros Hc Hst Hto Hg Ht Hr. pose proof (acts_set_status eid c st n d (proj1 Hg) Hc Hst) as H1.
  destruct (in_delivery (status t)) eqn:Hin; simpl in Hr.
  - run_steps Hr. by refine (ended_requeue _ _ _ _ _ _ _ Hrun eq_refl Hto (λ _, H1)).
  - injection Hr as _ <-. eapply ended_idle; [done|]. intros l Hl.
    erewrite life_status by done. split; [done|]. unfold is_active. intros Ha%bool_decide_eq_true.
    by eapply active_is_leased; eauto.
Qed.

Lemma reap_sim c a n d r d' :
  reap_expired c a n d = Ok r d' → candidate_ok d c → simulates d d'.
Proof.
  unfold reap_expired. intros Hr Hc. destruct (given (expired_claim_id c)) as [eid|] eqn:He.
  2: { by injection Hr as _ <-. }
  assert (Heid : expired_claim_id c = Some eid).
  { unfold given in He. destruct (expired_claim_id c); [|done]. case_bool_decide; congruence. }
  destruct (Hc eid Heid) as (x & Hx & Hk). apply under_good. intros Hg.
  run_step Hr. run_step Hrun. run_step Hr. run_step Hrun. unfold tickets_findById in Hr.
  change (tickets (claims_setStatus eid Expired n d)) with (tickets d) in Hr. rewrite <- Hk in Hr.
  destruct (tickets d !! cl_ticket_id x) as [t|] eqn:Ht; [|by destruct (wf_claim_ticket d (proj1 Hg) _ _ Hx)].
  run_step Hr. pose proof (acts_set_status eid x Expired n d (proj1 Hg) Hx ltac:(done)) as H1.
  pose proof (lapsed_sim _ _ _ _ _ _ _ _ _ Hrun Hg H1 Ht) as Hl.
  destruct a0; [by injection Hr as _ <-|]. subst s. run_step Hr. run_step Hr. injection Hr as _ <-.
  apply ticket_event_core in Hrun1. etrans; [|by apply sim_same].
  eapply (end_claim_sim eid x Expired n d t Ready); [done|done| |done|done|exact Hrun0].
  by apply (bool_decide_eq_true _).
Qed.

(** The lease and the move to [claimed] happen together or not at all. *)
Lemma claim_or_undo_sim c (id := cl_id c) a n d d1 u r d2 :
  claims_insert c d = Ok u d1 → cl_status c = Active →
  catch (transition (move (cl_ticket_id c) a Claimed "claim_next" (Some Ready) [agentClaim]);;; mret true)
    (λ e, modify (claims_setStatus id Released n);;;
          if bool_decide (error_code e = Some POLICY_DENIED)
             || bool_decide (error_code e = Some STATE_CONFLICT)
          then mret false else throw e) d1 = Ok r d2 →
  simulates d d2.
Proof.
  intros Hi Hact Hr. apply under_good. intros Hg.
  destruct (acts_insert_claim c d u d1 (proj1 Hg) Hact Hi) as (Hfree & Hnone & -> & H1).
  assert (Hle : ∀ l, life_of d (cl_ticket_id c) = Some l → leased l = false).
  { intros l. unfold life_of. destruct (tickets d !! _); [|done]. by intros [= <-]. }
  apply catch_ok in Hr as [Hr|(e & _ & Hr)].
  - run_steps Hr. destruct (transition_acts _ _ _ _ (acts_wf _ _ _ _ H1) Hrun)
      as (t & Ht & _ & He & _ & _ & H2). simpl in *. specialize (He _ eq_refl).
    apply (sim_acts (cl_ticket_id c) (moved Claimed ∘ with_lease)); [intros _; by eapply acts_trans|].
    intros _ l Hl Hok. apply rtc_once. specialize (Hle l Hl).
    pose proof (life_status d _ t l Ht Hl) as Hs. rewrite He in Hs.
    destruct l as [st [] [] le [[]|]]; simpl in *; subst; try discriminate. apply step_claim.
  - run_step Hr. run_step Hrun.
    destruct (bool_decide (error_code e = Some POLICY_DENIED) || bool_decide (error_code e = Some STATE_CONFLICT)); [injection Hr as _ <-|discriminate].
    apply (sim_acts (cl_ticket_id c) (unleased ∘ with_lease)).
    + intros _. eapply acts_trans; [done|]. apply acts_end_claim; [by eapply acts_wf| |done|done].
      simpl. by rewrite lookup_insert_eq.
    + intros _ [st o de le ct] Hl _. specialize (Hle _ Hl). simpl in Hle. by subst le.
Qed.

Lemma attemptClaim_sim c ag ttl a n d r d' :
  attemptClaim c ag ttl a n d = Ok r d' → candidate_ok d c → simulates d d'.
Proof.
  unfold attemptClaim. intros Hr Hc. run_step Hr. etrans; [by eapply reap_sim|]. clear Hrun.
  destruct a0; [by injection Hr as _ <-|]. run_step Hr. run_step Hr.
  apply newClaimToken_core in Hrun. apply newId_core in Hrun0.
  etrans; [apply sim_same; by etrans|]. clear Hrun Hrun0. run_step Hr.
  apply catch_ok in Hrun as [Hins|(e & _ & Hins)].
  - apply bind_ok in Hins as (u & s3 & Hins & [= <- <-]). simpl in Hr. run_step Hr.
    pose proof (claim_or_undo_sim _ _ _ _ _ _ _ _ Hins eq_refl Hrun) as Hs. etrans; [exact Hs|].
    destruct a2; simpl in Hr; [|by injection Hr as _ <-]. run_steps Hr.
    apply ticket_event_core in Hrun1. by apply sim_same.
  - destruct (isUniqueConstraint e); [|discriminate]. injection Hins as <- <-. simpl in Hr.
    by injection Hr as _ <-.
Qed.

Lemma claim_first_sim cs ag ttl a n d r d' :
  claim_first cs ag ttl a n d = Ok r d' → Forall (candidate_ok d) cs → simulates d d'.
Proof.
  revert d. induction cs as [|c cs IH]; intros d Hr Hcs; [by injection Hr as _ <-|].
  apply Forall_cons in Hcs as [Hc Hcs]. simpl in Hr. run_step Hr. etrans; [by eapply attemptClaim_sim|].
  destruct a0; [by injection Hr as _ <-|]. eapply IH; [done|].
  eapply Forall_impl; [done|]. intros c'. eapply candidate_ok_kept. by eapply attemptClaim_kept.
Qed.

Lemma candidate_row_ok n d t : well_formed d → tickets d !! tk_id t = Some t → candidate_ok d (candidate_row n d t).
Proof.
  intros Hwf Ht eid. simpl. destruct (expired_claims (tk_id t) n d) as [|c l] eqn:He; [done|].
  intros [= <-]. assert (Hin : c ∈ expired_claims (tk_id t) n d) by (rewrite He; apply elem_of_cons; by left).
  unfold expired_claims, order_by in Hin. rewrite merge_sort_Permutation in Hin.
  apply list_elem_of_filter in Hin as [(Hk & _) [i Hi]%rows_spec].
  exists c. split; [|done]. by rewrite (wf_claims d Hwf i c Hi).
Qed.

Lemma claimNextTicket_sim i a : evolves simulates (claimNextTicket i a).
Proof.
  unfold claimNextTicket, inTransaction. intros d r d' Hr. run_step Hr. run_step Hr. run_step Hr. run_step Hrun1.
  apply now_core in Hrun. apply eligible_agent_core in Hrun0.
  etrans; [apply sim_same; by etrans|]. apply under_good. intros Hg.
  eapply claim_first_sim; [done|]. apply Forall_forall. intros c Hin.
  unfold claims_candidateTickets in Hin. rewrite merge_sort_Permutation in Hin.
  apply list_elem_of_fmap in Hin as (t & -> & [_ [j Hj]%rows_spec]%list_elem_of_filter).
  apply candidate_row_ok; [by destruct Hg|]. by rewrite (wf_tickets _ (proj1 Hg) _ _ Hj).
Qed.

Lemma claimTicket_sim i a : evolves simulates (claimTicket i a).
Proof.
  unfold claimTicket, inTransaction. intros d r d' Hr. run_steps Hr.
  apply now_core in Hrun. apply eligible_agent_core in Hrun1.
  etrans; [apply sim_same; by etrans|]. apply under_good. intros Hg.
  destruct (claims_candidateForTicket _ _ _ _) as [c|] eqn:Hc.
  - run_steps Hr. eapply attemptClaim_sim; [done|].
    unfold claims_candidateForTicket in Hc. apply bind_Some in Hc as (t & Ht & Hc).
    destruct (claimable _ _ _ _ _); [|done]. injection Hc as <-.
    apply candidate_row_ok; [by destruct Hg|]. by rewrite (wf_tickets _ (proj1 Hg) _ _ Ht).
  - run_steps Hr.
    destruct (deps_unsatisfiedDependencies _ _); [|discriminate]. run_steps Hr.
Qed.

Lemma expire_claim_sim a n acc c d r d' :
  expire_claim a n acc c d = Ok r d' →
  (∃ x, ticket_claims d !! cl_id c = Some x ∧ cl_ticket_id x = cl_ticket_id c) → simulates d d'.
Proof.
  unfold expire_claim. intros Hr (x & Hx & Hk). apply under_good. intros Hg.
  run_step Hr. run_step Hrun. run_step Hr. run_step Hrun. unfold tickets_findById in Hr.
  change (tickets (claims_setStatus _ Expired n d)) with (tickets d) in Hr. rewrite <- Hk in Hr.
  destruct (tickets d !! cl_ticket_id x) as [t|] eqn:Ht; [|by destruct (wf_claim_ticket d (proj1 Hg) _ _ Hx)].
  pose proof (wf_tickets d (proj1 Hg) _ _ Ht) as Hid.
  pose proof (acts_set_status _ x Expired n d (proj1 Hg) Hx ltac:(done)) as H1.
  destruct (in_delivery (status t)) eqn:Hin; simpl in Hr.
  - run_step Hr. pose proof (lapsed_sim _ _ _ _ _ _ _ _ _ Hrun Hg H1 Ht) as Hl.
    destruct a0; [by injection Hr as _ <-|]. subst s. run_steps Hr. apply ticket_event_core in Hrun1.
    etrans; [|by apply sim_same].
    refine (ended_requeue _ _ _ _ _ _ _ Hrun0 Hid _ (λ _, H1)).
    apply (bool_decide_eq_true _). simpl. by destruct (bool_decide (0 < _)%nat).
  - injection Hr as _ <-. eapply (end_claim_sim _ x Expired n d t Ready "" a tt); try done.
    + by apply (bool_decide_eq_true _).
    + by rewrite Hin.
Qed.

Lemma expireStaleClaims_sim a : evolves simulates (expireStaleClaims a).
Proof.
  intros d r d' Hr.
  change (for_fold (expire_claim a (clock_now d)) (0%Z, []) (claims_listExpired (clock_now d) d) d
          = Ok r d') in Hr.
  apply under_good. intros Hg.
  assert (Hall : Forall (λ c, ∃ x, ticket_claims d !! cl_id c = Some x ∧ cl_ticket_id x = cl_ticket_id c)
                   (claims_listExpired (clock_now d) d)).
  { apply Forall_forall. intros c Hin. unfold claims_listExpired, order_by in Hin.
    rewrite merge_sort_Permutation in Hin. apply list_elem_of_filter in Hin as [_ [j Hj]%rows_spec].
    exists c. by rewrite (wf_claims _ (proj1 Hg) _ _ Hj). }
  clear Hg. revert Hr Hall. generalize (clock_now d) at 1. intros n.
  generalize (claims_listExpired (clock_now d) d). intros cs.
  generalize (0%Z, @nil string). revert d.
  induction cs as [|c cs IH]; intros d acc Hr Hcs; [by injection Hr as _ <-|].
  apply Forall_cons in Hcs as [Hc Hcs]. simpl in Hr. run_step Hr. etrans; [by eapply expire_claim_sim|].
  eapply IH; [done|]. eapply Forall_impl; [done|]. intros c' (x & Hx & Hk).
  destruct (expire_claim_kept _ _ _ _ _ _ _ Hrun _ _ Hx) as (x' & ? & ?). exists x'. split; [done|congruence].
Qed.
End loops.
