(* ===== verification/System.v ===== *)
(** * The system

    The public calls as one type, the step relation over them and the passage
    of time, and that every step refines the abstract machine of [Life], so
    that the invariants it carries hold in every reachable database. *)
From S2P Require Import Prelude Json Types EventChain Store Policy Diff Transition Claims Tickets.
From S2P Require Import Pause Decisions Lifecycle Review Sendback Life Refinement Simulation Gate Changes.
From S2P Require Import Claiming.

(** ** Calls *)

Inductive call :=
  | CreateTicket (i : CreateTicketInput)
  | HumanBlock (ref reason : string)
  | HumanUnblock (ref : string) (to : option TicketStatus)
  | AddDependency (ref dependsOn : string)
  | RemoveDependency (ref dependsOn : string)
  | ResetCriteria (ref : string)
  | GrantReadyApproval (ref : string)
  | AssignReviewer (ref reviewer : string)
  | SetRequiredCapabilities (ref : string) (caps : list string)
  | RegisterAgent (i : RegisterAgentInput)
  | ClaimNext (i : ClaimNextInput)
  | ClaimOne (ref agentId : string) (ttlSeconds : Z)
  | HumanClaim (ref : string)
  | HumanRelease (ref : string)
  | Heartbeat (token : string)
  | RecordEvidence (i : RecordEvidenceInput)
  | SubmitForReview (i : SubmitForReviewInput)
  | MarkBlocked (i : MarkBlockedInput)
  | ReleaseClaim (token : string)
  | RunnerRelease (i : RunnerReleaseInput)
  | RecordRework (i : ReworkInput)
  | ExpireStaleClaims
  | RevokeClaim (claimId : string)
  | PauseDelivery (ref : string) (i : PauseInput)
  | RequestContinue (ref : string)
  | BeginResume (ref : string) (lease : option (string * Z))
  | StopPaused (ref : string) (reason : option string)
  | ClearContext (ref : string)
  | CreateDecision (i : CreateDecisionInput)
  | ResolveDecision (i : ResolveDecisionInput)
  | BoardMove (seen : Ticket) (to : TicketStatus)
  | ReopenFromWontDo (ref : string) (to_draft : bool).

Section system.
Context `{Env}.

Definition run_call (c : call) (a : Actor) : Op unit :=
  match c with
  | CreateTicket i => ignore (createTicket i a)
  | HumanBlock r w => ignore (humanBlockTicket r w a)
  | HumanUnblock r to => ignore (humanUnblockTicket r a to)
  | AddDependency r s => ignore (addDependency r s a)
  | RemoveDependency r s => ignore (removeDependency r s a)
  | ResetCriteria r => ignore (resetAcceptanceCriteria r a)
  | GrantReadyApproval r => ignore (grantReadyApproval r a)
  | AssignReviewer r w => ignore (assignReviewer r w a)
  | SetRequiredCapabilities r cs => ignore (setRequiredCapabilities r cs a)
  | RegisterAgent i => ignore (registerAgent i a)
  | ClaimNext i => ignore (claimNextTicket i a)
  | ClaimOne r ag ttl => ignore (facade_claimTicket r ag ttl a)
  | HumanClaim r => ignore (facade_humanClaimTicket r a)
  | HumanRelease r => ignore (facade_humanReleaseTicket r a)
  | Heartbeat t => ignore (heartbeat t)
  | RecordEvidence i => ignore (recordEvidence i a)
  | SubmitForReview i => ignore (submitForReview i a)
  | MarkBlocked i => ignore (markBlocked i a)
  | ReleaseClaim t => releaseClaim t a
  | RunnerRelease i => ignore (runnerRelease i a)
  | RecordRework i => ignore (recordReworkAttempt i a)
  | ExpireStaleClaims => ignore (expireStaleClaims a)
  | RevokeClaim cid => ignore (revokeClaim cid a)
  | PauseDelivery r i => ignore (Pause.pauseDelivery r i a)
  | RequestContinue r => ignore (requestContinue r a)
  | BeginResume r l => ignore (lease_resume r a l)
  | StopPaused r w => ignore (stop r a w)
  | ClearContext r => clearContext r
  | CreateDecision i => ignore (createDecision i a)
  | ResolveDecision i => ignore (resolveDecision i a)
  | BoardMove t to => ignore (board_move t to a)
  | ReopenFromWontDo r b => ignore (reopenFromWontDo r b a)
  end.

(** One committed call by some actor, of the review gate (whatever git and
    the autonomy policy answer it then), an edit, or of any other surface, a
    card dragged on the board, or time passing. *)
Inductive step : db → db → Prop :=
| step_call c a d d' : run_call c a d = Ok tt d' → step d d'
| step_gate (deps : ReviewDeps) c a d d' : run_gate c a d = Ok tt d' → step d d'
| step_edit c a d d' : run_edit c a d = Ok tt d' → step d d'
| step_move (deps : ReviewDeps) r to a res d d' : moveTicket r to a d = Ok res d' → step d d'
| step_time n w d : step d (set_clocks n w d).

(** A database before any ticket. *)
Definition initial (d : db) : Prop :=
  tickets d = ∅ ∧ ticket_claims d = ∅ ∧ paused_deliveries d = ∅.
Definition reachable (d : db) : Prop := ∃ d0, initial d0 ∧ rtc step d0 d.

Lemma ignore_evolves {A} (R : db → db → Prop) `{!PreOrder R} (m : Op A) :
  evolves R m → evolves R (ignore m).
Proof. intros Hm. unfold ignore. structural. Qed.

Lemma facade_claimTicket_sim r ag ttl a : evolves simulates (facade_claimTicket r ag ttl a).
Proof.
  apply evolves_bind; [apply _|apply core_sim, resolveRef_core|]. intros t. apply claimTicket_sim.
Qed.
Lemma facade_humanClaimTicket_sim r a : evolves simulates (facade_humanClaimTicket r a).
Proof.
  apply evolves_bind; [apply _|apply core_sim, resolveRef_core|]. intros t. apply humanClaimTicket_sim.
Qed.
Lemma facade_humanReleaseTicket_sim r a : evolves simulates (facade_humanReleaseTicket r a).
Proof.
  apply evolves_bind; [apply _|apply core_sim, resolveRef_core|]. intros t. apply humanReleaseTicket_sim.
Qed.

Lemma run_call_simulates c a : evolves simulates (run_call c a).
Proof.
  destruct c; simpl;
  [ apply ignore_sim, createTicket_sim
  | apply ignore_sim, humanBlockTicket_sim
  | apply ignore_sim, humanUnblockTicket_sim
  | apply ignore_sim, core_sim, addDependency_core
  | apply ignore_sim, core_sim, removeDependency_core
  | apply ignore_sim, core_sim, resetAcceptanceCriteria_core
  | apply ignore_sim, core_sim, grantReadyApproval_core
  | apply ignore_sim, assignReviewer_sim
  | apply ignore_sim, core_sim, setRequiredCapabilities_core
  | apply ignore_sim, core_sim, registerAgent_core
  | apply ignore_sim, claimNextTicket_sim
  | apply ignore_sim, facade_claimTicket_sim
  | apply ignore_sim, facade_humanClaimTicket_sim
  | apply ignore_sim, facade_humanReleaseTicket_sim
  | apply ignore_sim, heartbeat_sim
  | apply ignore_sim, core_sim, recordEvidence_core
  | apply ignore_sim, submitForReview_sim
  | apply ignore_sim, markBlocked_sim
  | apply releaseClaim_sim
  | apply ignore_sim, runnerRelease_sim
  | apply ignore_sim, recordReworkAttempt_sim
  | apply ignore_sim, expireStaleClaims_sim
  | apply ignore_sim, revokeClaim_sim
  | apply ignore_sim, pauseDelivery_sim
  | apply ignore_sim, requestContinue_sim
  | apply ignore_sim, lease_resume_sim
  | apply ignore_sim, stop_sim
  | apply clearContext_sim
  | apply ignore_sim, core_sim, createDecision_core
  | apply ignore_sim, core_sim, resolveDecision_core
  | apply ignore_sim, board_move_sim
  | apply ignore_sim, reopenFromWontDo_sim ].
Qed.

(** The lives of a step: the abstract machine's and the gate's. *)
Definition any_step (o o' : option life) : Prop :=
  life_step o o' ∨ ∃ c, gate_step (gate_moves c) o o'.
Lemma step_good d d' : step d d' → good d → good d' ∧ ∀ k, rtc any_step (life_of d k) (life_of d' k).
Proof.
  assert (∀ x y, simulates x y → good x → good y ∧ ∀ k, rtc any_step (life_of x k) (life_of y k)) as Hs.
  { intros x y Hs Hg. destruct (Hs Hg) as [Hg' Hk]. split; [done|]. intros k.
    eapply rtc_subrel; [|apply Hk]. by left. }
  assert (∀ c x y, gated (gate_moves c) x y → good x →
            good y ∧ ∀ k, rtc any_step (life_of x k) (life_of y k)) as Hgt.
  { intros c x y Hs' Hg. destruct (Hs' Hg) as [Hg' Hk]. split; [done|]. intros k.
    eapply rtc_subrel; [|apply Hk]. intros o o' Ho. right. by exists c. }
  intros [c a ? ? Hr|deps c a ? ? Hr|c a ? ? Hr|deps r to a res ? ? Hr|n w ?].
  - apply Hs. by eapply run_call_simulates.
  - apply (Hgt c). by eapply run_gate_gated.
  - apply Hs. by eapply run_edit_simulates.
  - apply moveTicket_cases in Hr as [(t & _ & Hr)|(k & rt & l & Hr)].
    + apply Hs. by eapply board_move_sim.
    + apply (Hgt (Reject "" rt None)). by eapply facade_reject_gated.
  - apply Hs. by apply sim_same.
Qed.

Lemma initial_good d : initial d → good d.
Proof.
  intros (Ht & Hc & Hp). split.
  - by split; rewrite ?Ht, ?Hc, ?Hp.
  - intros k. unfold life_of. by rewrite Ht.
Qed.

Lemma reachable_good d : reachable d → good d.
Proof.
  intros (d0 & Hi%initial_good & Hs). induction Hs as [|d0 d1 d2 H1 _ IH]; [done|].
  apply IH. by apply (step_good _ _ H1).
Qed.
End system.
