(* ===== verification/Frames.v ===== *)
(** * Frames

    The interface between the operations and a property of how they change
    the database: a preorder closed under the few kinds of write the services
    make is closed under every call.  [History] and [Numbers] are its clients. *)
From S2P Require Import Prelude Json Types EventChain Store Policy Diff Transition Claims Tickets.
From S2P Require Import Pause Decisions Lifecycle Landing Verdicts Review Approval Landings Replay.
From S2P Require Import Sendback Tester Edits Handover Deliveries Life Refinement Simulation Gate Changes.
From S2P Require Import Claiming System.

(** The events that do not speak of a ticket's status. *)
Definition quiet (et ty : string) : bool :=
  negb (bool_decide (et = "ticket"))
  || negb (bool_decide (ty = "ticket.created") || bool_decide (ty = "ticket.transitioned")).

(** Ticket rows under their own id. *)
Definition keyed (d : db) : Prop := ∀ i t, tickets d !! i = Some t → tk_id t = i.

(** What a relation must allow: writes to other tables, quiet events,
    transitions, column writes that keep a ticket's id, status and number, the
    reviewer's assignment, and the creation of a ticket with its event. *)
(** What a verdict's contract hash is taken of. *)
Definition contract_fields (t : Ticket) : string * string * option string :=
  (title t, description t, test_contract t).
Definition criterion_text (c : AcceptanceCriterion) : string * string * string * Z :=
  (ac_id c, ac_ticket_id c, ac_text c, sort_order c).
Definition criteria_texts (d : db) : gmap string (string * string * string * Z) :=
  criterion_text <$> acceptance_criteria d.

Class CallFrame `{Env} (R : db → db → Prop) := {
  frame_preorder : PreOrder R;
  frame_tables d d' : tickets d' = tickets d → work_events d' = work_events d →
    criteria_texts d' = criteria_texts d → R d d';
  frame_event et ei a ty pl co : quiet et ty = true → evolves R (writeEvent et ei a ty pl co);
  frame_transition input : evolves R (transition input);
  frame_row k f d :
    (∀ t, tk_id (f t) = tk_id t ∧ status (f t) = status t ∧ number (f t) = number t ∧
          contract_fields (f t) = contract_fields t) →
    R d (set_tickets (update_row k f (tickets d)) d);
  frame_assign r p n d t d' d1 ok :
    resolveRef r d = Ok t d1 →
    tickets_updateStatus (tk_id t) (status t) (row_version t) p n d1 = Ok ok d' → R d d';
  frame_create t u a pl r d d1 d' :
    status t = Draft → number t = Some (tickets_nextNumber d) → tickets_insert t d = Ok u d1 →
    ticket_event (tk_id t) a "ticket.created" pl d1 = Ok r d' → R d d'
}.
#[export] Existing Instance frame_preorder.
(** An edit may also write the contract. *)
Class EditFrame `{Env} (R : db → db → Prop) := {
  edit_frame : CallFrame R;
  frame_edit k f d :
    (∀ t, tk_id (f t) = tk_id t ∧ status (f t) = status t ∧ number (f t) = number t) →
    R d (set_tickets (update_row k f (tickets d)) d);
  frame_criteria d d' : tickets d' = tickets d → work_events d' = work_events d → R d d'
}.
#[export] Existing Instance edit_frame.

(** The reviewer is written by the statement that writes a status, with the
    status the ticket has. *)
Lemma assign_same r p n d t d' d1 ok :
  keyed d → resolveRef r d = Ok t d1 →
  tickets_updateStatus (tk_id t) (status t) (row_version t) p n d1 = Ok ok d' →
  d' = d ∨ tickets d !! tk_id t = Some t ∧
    d' = set_tickets (<[tk_id t := status_updated (status t) p n t]> (tickets d)) d.
Proof.
  intros Hk Hr Hu.
  assert (tickets d !! tk_id t = Some t ∧ d1 = d) as [Ht ->].
  { unfold resolveRef, mbind, M_bind, gets, require in Hr.
    destruct (tickets_resolveRef r d) as [t0|] eqn:E; [|done]. injection Hr as -> ->. split; [|done].
    unfold tickets_resolveRef, tickets_findById in E.
    destruct (tickets d1 !! r) eqn:E1; [injection E as ->; by rewrite (Hk _ _ E1)|].
    destruct (js_Number _); [|done]. case_bool_decide; [|done].
    apply head_filter in E as [_ [i Hi]%rows_spec]. by rewrite (Hk _ _ Hi). }
  unfold tickets_updateStatus in Hu. rewrite Ht in Hu.
  case_bool_decide; injection Hu as _ <-; [by right|by left].
Qed.

Section frames.
Context `{Env} (R : db → db → Prop) `{!CallFrame R}.

Lemma ticket_event_frame' id a ty pl : quiet "ticket" ty = true → evolves R (ticket_event id a ty pl).
Proof. apply frame_event. Qed.
Ltac tables := let d := fresh in let r := fresh in let d' := fresh in
  intros d r d'; repeat (case_match || case_bool_decide); try discriminate; intros [= _ <-];
  apply frame_tables; reflexivity.
Lemma newId_frame : evolves R newId.
Proof. tables. Qed.
Lemma newClaimToken_frame : evolves R newClaimToken.
Proof. tables. Qed.
Lemma agents_insert_frame a : evolves R (agents_insert a).
Proof. unfold agents_insert. tables. Qed.
Lemma evidence_insert_frame e : evolves R (evidence_insert e).
Proof. unfold evidence_insert. tables. Qed.
Lemma decisions_insert_frame x : evolves R (decisions_insert x).
Proof. unfold decisions_insert. tables. Qed.
Lemma decisions_link_frame a b r n : evolves R (decisions_link a b r n).
Proof. unfold decisions_link. tables. Qed.
Lemma decisions_resolve_frame a b c r e n : evolves R (decisions_resolve a b c r e n).
Proof. unfold decisions_resolve. tables. Qed.
Lemma deps_delete_frame a b : evolves R (deps_delete a b).
Proof. tables. Qed.
Lemma acs_reset_frame a n : evolves R (acs_resetForTicket a n).
Proof.
  intros d r d' [= _ <-]. apply frame_tables; [done|done|]. unfold criteria_texts. simpl.
  rewrite <- map_fmap_compose. apply map_fmap_ext. intros i c _. simpl. by case_bool_decide.
Qed.
Lemma acs_setStatus_frame i st v n d : R d (acs_setStatus i st v n d).
Proof.
  apply frame_tables; [done|done|]. unfold criteria_texts. simpl. apply map_eq. intros j. unfold update_row.
  rewrite !lookup_fmap. destruct (decide (j = i)) as [->|]; [|by rewrite lookup_alter_ne].
  rewrite lookup_alter_eq. by destruct (acceptance_criteria d !! i).
Qed.
Lemma claims_insert_frame c : evolves R (claims_insert c).
Proof. unfold claims_insert. tables. Qed.
Lemma claims_extend_frame i e h : evolves R (claims_extend i e h).
Proof. unfold claims_extend. tables. Qed.

Lemma addCapability_frame a c d : R d (agents_addCapability a c d).
Proof. unfold agents_addCapability. case_bool_decide; by apply frame_tables. Qed.
#[local] Hint Resolve newId_frame newClaimToken_frame agents_insert_frame evidence_insert_frame
  decisions_insert_frame decisions_link_frame decisions_resolve_frame deps_delete_frame
  acs_reset_frame claims_insert_frame claims_extend_frame frame_transition : gaffer.
#[local] Hint Extern 1 (evolves R (writeEvent _ _ _ _ _ _)) => apply frame_event; reflexivity : gaffer.
#[local] Hint Extern 1 (evolves R (ticket_event _ _ _ _)) => apply ticket_event_frame'; reflexivity : gaffer.
#[local] Hint Extern 1 (evolves R (modify _)) =>
  apply evolves_modify; intros; first
    [ apply addCapability_frame | apply acs_setStatus_frame | apply frame_row; intros; repeat split; reflexivity
    | apply frame_tables; reflexivity ] : gaffer.

Lemma now_frame : evolves R now.
Proof. unfold now. structural. Qed.
Lemma createTicket_frame i a : evolves R (createTicket i a).
Proof.
  unfold createTicket, inTransaction. intros d r d' Hr. run_steps Hr.
  etrans; [|eapply frame_create; [| |exact Hrun1|exact Hrun2]; reflexivity].
  etrans; [exact (now_frame _ _ _ Hrun)|exact (newId_frame _ _ _ Hrun0)].
Qed.
Lemma assignReviewer_frame r w a : evolves R (assignReviewer r w a).
Proof.
  unfold assignReviewer, inTransaction. apply evolves_bind; [apply _|auto with gaffer nocore|].
  intros _. apply evolves_bind; [apply _|auto with gaffer nocore|]. intros _.
  intros d x d' Hr. run_steps Hr. etrans; [exact (now_frame _ _ _ Hrun)|].
  etrans; [exact (frame_assign _ _ _ _ _ _ _ _ Hrun0 Hrun1)|].
  by apply ticket_event_frame' in Hrun3.
Qed.
Lemma resetAcceptanceCriteria_frame r a : evolves R (resetAcceptanceCriteria r a).
Proof. unfold resetAcceptanceCriteria, inTransaction, resolveRef, now. structural. Qed.
Lemma returnLapsed_frame t eid a : evolves R (returnLapsedResumeToPaused t eid a).
Proof. unfold returnLapsedResumeToPaused, now. structural. Qed.
Lemma eligible_agent_frame i n : evolves R (eligible_agent i n).
Proof. unfold eligible_agent. structural. Qed.
Lemma claim_on_frame t k n : evolves R (claim_on t k n).
Proof. unfold claim_on, activeClaimForToken. structural. Qed.
Lemma activeClaim_frame t n : evolves R (activeClaimForToken t n).
Proof. unfold activeClaimForToken. structural. Qed.
Lemma resolveRef_frame r : evolves R (resolveRef r).
Proof. unfold resolveRef. structural. Qed.
#[local] Hint Resolve resetAcceptanceCriteria_frame returnLapsed_frame eligible_agent_frame
  claim_on_frame activeClaim_frame resolveRef_frame now_frame : gaffer.

Lemma attemptClaim_frame c ag ttl a n : evolves R (attemptClaim c ag ttl a n).
Proof. unfold attemptClaim, reap_expired. structural. Qed.
Lemma claim_first_frame cs ag ttl a n : evolves R (claim_first cs ag ttl a n).
Proof.
  induction cs as [|c cs IH]; simpl; [structural|].
  apply evolves_bind; [apply _|apply attemptClaim_frame|]. intros [?|]; [structural|done].
Qed.
Lemma expire_claim_frame a n acc c : evolves R (expire_claim a n acc c).
Proof. unfold expire_claim. structural. Qed.
Lemma beginResume_frame r a : evolves R (beginResume r a).
Proof. unfold beginResume, inTransaction. structural. Qed.
Lemma leaseResumed_frame k ag ttl a : evolves R (leaseResumedDelivery k ag ttl a).
Proof. unfold leaseResumedDelivery, inTransaction. structural. Qed.
#[local] Hint Resolve attemptClaim_frame beginResume_frame leaseResumed_frame : gaffer.
Lemma claimTicket_frame i a : evolves R (claimTicket i a).
Proof. unfold claimTicket, inTransaction. structural. Qed.
Lemma claimNextTicket_frame i a : evolves R (claimNextTicket i a).
Proof. unfold claimNextTicket, inTransaction. structural; apply claim_first_frame. Qed.
Lemma expireStaleClaims_frame a : evolves R (expireStaleClaims a).
Proof.
  unfold expireStaleClaims, inTransaction. apply evolves_bind; [apply _|apply now_frame|]. intros n.
  apply evolves_bind; [apply _|structural|]. intros cs.
  apply evolves_for_fold; [apply _|]. intros; apply expire_claim_frame.
Qed.

Lemma ignore_frame {A} (m : Op A) : evolves R m → evolves R (ignore m).
Proof. apply ignore_evolves, _. Qed.

Lemma run_call_frame c a : evolves R (run_call c a).
Proof.
  destruct c; simpl; try apply ignore_frame.
  - apply createTicket_frame.
  - unfold humanBlockTicket, assertHumanOrAdmin, inTransaction. structural.
  - unfold humanUnblockTicket, assertHumanOrAdmin, inTransaction. structural.
  - unfold addDependency, inTransaction. structural.
  - unfold removeDependency, inTransaction. structural.
  - apply resetAcceptanceCriteria_frame.
  - unfold grantReadyApproval, inTransaction. structural.
  - apply assignReviewer_frame.
  - unfold setRequiredCapabilities, inTransaction. structural.
  - unfold registerAgent, inTransaction. structural.
  - apply claimNextTicket_frame.
  - unfold facade_claimTicket. structural; apply claimTicket_frame.
  - unfold facade_humanClaimTicket, humanClaimTicket, inTransaction. structural.
  - unfold facade_humanReleaseTicket, humanReleaseTicket, inTransaction. structural.
  - unfold heartbeat, inTransaction. structural.
  - unfold recordEvidence, inTransaction. structural.
  - unfold submitForReview, inTransaction. structural.
  - unfold markBlocked, inTransaction. structural.
  - unfold releaseClaim, inTransaction. structural.
  - unfold runnerRelease, inTransaction. structural.
  - unfold recordReworkAttempt, inTransaction. structural.
  - apply expireStaleClaims_frame.
  - unfold revokeClaim, inTransaction. structural.
  - unfold Pause.pauseDelivery, inTransaction. structural.
  - unfold requestContinue, inTransaction. structural.
  - unfold lease_resume, inTransaction. structural.
  - unfold stop, inTransaction. structural.
  - unfold clearContext. structural.
  - unfold createDecision, needs, inTransaction. structural.
  - unfold resolveDecision, getDecision, inTransaction. structural.
  - unfold board_move, inTransaction. structural.
  - unfold reopenFromWontDo. structural.
Qed.

(** *** The review gate *)
Context {deps : ReviewDeps}.

Lemma system_evidence_frame i r w u p : evolves R (system_evidence i r w u p).
Proof. unfold system_evidence. structural. Qed.
Lemma actor_evidence_frame i c ty w u p a n : evolves R (actor_evidence i c ty w u p a n).
Proof. unfold actor_evidence. structural. Qed.
Lemma assertCiPassed_frame t c : evolves R (assertCiPassed t c).
Proof. unfold assertCiPassed. structural. Qed.
Lemma lift_result_frame {A} (r : error + A) : evolves R (lift_result r).
Proof. unfold lift_result. structural. Qed.
#[local] Hint Resolve system_evidence_frame actor_evidence_frame assertCiPassed_frame lift_result_frame : gaffer.
Lemma approvalPins_frame t a ps : evolves R (recordApprovalPins t a ps).
Proof. unfold recordApprovalPins. structural. Qed.
Lemma rejectPins_frame t a ps n : evolves R (recordRejectPins t a ps n).
Proof. unfold recordRejectPins. structural. Qed.
Lemma approveReview_frame r a o : evolves R (approveReview r a o).
Proof.
  pose proof approvalPins_frame. unfold approveReview, auto_ship_hold, approve_permitted, approve_to_testing,
    approve_to_merge, enforceObservedRiskCeiling, assertNotAuthor, assertWriteReposAvailable, inTransaction.
  structural.
Qed.
Lemma routeToTester_frame r a : evolves R (routeToTester r a).
Proof. unfold routeToTester, assertSystemOrAdmin, inTransaction. structural. Qed.
Lemma routeAll_frame a : evolves R (routeAllToTester a).
Proof. pose proof routeToTester_frame. unfold routeAllToTester, assertSystemOrAdmin. structural. Qed.
Lemma validatedBinding_frame b s c p h : evolves R (validatedBinding b s c p h).
Proof. unfold validatedBinding, checked. structural. Qed.
Lemma testerPass_frame r i a : evolves R (testerPass r i a).
Proof.
  pose proof validatedBinding_frame. unfold testerPass, pass_tests, pass_agent, inTransaction. structural.
Qed.
Lemma testerFail_frame r s u t b a : evolves R (testerFail r s u t b a).
Proof.
  pose proof validatedBinding_frame. unfold testerFail, partlyLandedHold, store_feedback, inTransaction. structural.
Qed.
Lemma revocation_frame i a w : evolves R (revocationAfterLanding i a w).
Proof. unfold revocationAfterLanding. structural. Qed.
Lemma refuseCancel_frame t : evolves R (refuseCancelOfLanded t).
Proof. unfold refuseCancelOfLanded. structural. Qed.
Lemma facade_reject_frame r to a w : evolves R (facade_rejectReview r to a w).
Proof.
  pose proof revocation_frame. pose proof refuseCancel_frame. pose proof rejectPins_frame.
  unfold facade_rejectReview, rejectReview, partlyLandedHold, store_feedback, inTransaction. structural.
Qed.
Lemma facade_wontDo_frame r a w : evolves R (facade_wontDo r a w).
Proof.
  pose proof revocation_frame. pose proof refuseCancel_frame.
  unfold facade_wontDo, gate_wontDo, inTransaction. structural.
Qed.
Lemma beginLanding_frame r i a : evolves R (beginLanding r i a).
Proof. unfold beginLanding, assertSystemOrAdmin, inTransaction. structural. Qed.
Lemma recordLanding_frame r i a : evolves R (recordLanding r i a).
Proof.
  unfold recordLanding, assertSystemOrAdmin, assertPrLanding, assertLocalLanding, insert_landing, inTransaction.
  structural.
Qed.
Lemma verify_landed_frame k rs : evolves R (verify_landed k rs).
Proof.
  induction rs as [|x rs IH]; simpl; [structural|]. destruct (git_verified x); [|done].
  apply evolves_bind; [apply _|apply attempt_evolves; [apply _|apply recordLanding_frame]|].
  intros [e|y]; [structural|done].
Qed.
Lemma recordTesterReplay_frame r i a : evolves R (recordTesterReplay r i a).
Proof. unfold recordTesterReplay, full_commit, replay_repo, inTransaction. structural. Qed.
Lemma markMerged_frame r a : evolves R (Landings.markMerged r a).
Proof.
  pose proof verify_landed_frame. unfold Landings.markMerged, assertSystemOrAdmin.
  repeat (apply evolves_bind; [apply _|structural|intros ?]).
  case_match; [structural|]. apply attempt_evolves; [apply _|]. unfold close_merged. structural.
Qed.
Lemma holdForHuman_frame r c w a : evolves R (holdForHuman r c w a).
Proof. unfold holdForHuman, assertSystemOrAdmin, inTransaction. structural. Qed.
Lemma recordCi_frame r c s x a : evolves R (facade_recordCiResult r c s x a).
Proof.
  pose proof revocation_frame.
  unfold facade_recordCiResult. apply evolves_bind; [apply _| |intros ?; structural].
  unfold recordCiResult, assertSystemOrAdmin. repeat (apply evolves_bind; [apply _|structural|intros ?]).
  case_match; [|structural].
  apply evolves_bind; [apply _|apply attempt_evolves; [apply _|apply holdForHuman_frame]|]. structural.
Qed.
Lemma run_gate_frame c a : evolves R (run_gate c a).
Proof.
  destruct c; simpl; apply ignore_frame; first
    [ apply approveReview_frame | apply routeToTester_frame | apply routeAll_frame | apply testerPass_frame
    | apply testerFail_frame | apply facade_reject_frame | apply facade_wontDo_frame
    | apply beginLanding_frame | apply recordLanding_frame | apply recordTesterReplay_frame
    | apply markMerged_frame | apply holdForHuman_frame | apply recordCi_frame
    | solve [unfold recordCiRequired, assertSystemOrAdmin; structural]
    | solve [unfold gate_reopenForReview, assertSystemOrAdmin, inTransaction; structural]
    | unfold recordAcCheck, inTransaction; structural ].
Qed.
Lemma moveTicket_frame r to a : evolves R (moveTicket r to a).
Proof. pose proof facade_reject_frame. unfold moveTicket, board_move, inTransaction. structural. Qed.
End frames.

Section pieces.
Context `{Env} (R : db → db → Prop) `{!CallFrame R}.

#[local] Hint Extern 1 (evolves R now) => apply (now_frame R) : gaffer.
#[local] Hint Extern 1 (evolves R (resolveRef _)) => apply (resolveRef_frame R) : gaffer.
#[local] Hint Extern 1 (evolves R (lift_result _)) => apply (lift_result_frame R) : gaffer.
Lemma recordArtifact_frame i a : evolves R (recordDeliveryArtifact i a).
Proof.
  intros d r d' (ref & p & n & t & ok & d1 & pl & u & Ht & Hu & He)%recordArtifact_writes.
  etrans; [exact (frame_assign _ _ _ _ _ _ _ _ Ht Hu)|].
  by apply (ticket_event_frame' R) in He.
Qed.
Lemma assertEditable_frame i t : evolves R (assertEditable i t).
Proof. unfold assertEditable, assertContractEditable. structural. Qed.
Lemma recheck_frame t : evolves R (recheckReadyGate t).
Proof. unfold recheckReadyGate, preview. structural. Qed.
Lemma resolveAc_frame t r : evolves R (resolveAcceptanceCriterion t r).
Proof. unfold resolveAcceptanceCriterion, lift_result. structural. Qed.
Lemma requested_frame i e a : evolves R (requested_profile i e a).
Proof. unfold requested_profile. structural. Qed.
Lemma payload_frame s : evolves R (delivery_payload s).
Proof. unfold delivery_payload. structural. Qed.
End pieces.
(** Inside a section over [R]: what every edit is made of. *)
Ltac edit_pieces R := lazymatch goal with
  | |- evolves _ now => apply (now_frame R)
  | |- evolves _ newId => apply (newId_frame R)
  | |- evolves _ (resolveRef _) => apply (resolveRef_frame R)
  | |- evolves _ (actor_evidence _ _ _ _ _ _ _ _) => apply (actor_evidence_frame R)
  | |- evolves _ (lift_result _) => apply (lift_result_frame R)
  | |- evolves _ (createTicket _ _) => apply (createTicket_frame R)
  | |- evolves _ (assertEditable _ _) => apply (assertEditable_frame R)
  | |- evolves _ (recheckReadyGate _) => apply (recheck_frame R)
  | |- evolves _ (resolveAcceptanceCriterion _ _) => apply (resolveAc_frame R)
  | |- evolves _ (requested_profile _ _ _) => apply (requested_frame R)
  | |- evolves _ (delivery_payload _) => apply (payload_frame R)
  | |- evolves _ (ticket_event _ _ _ _) => apply (ticket_event_frame' R); reflexivity
  end.

Section edits.
Context `{Env} (R : db → db → Prop) `{!EditFrame R}.

#[local] Hint Extern 1 (evolves R _) => edit_pieces R : gaffer.
Lemma updateFields_frame id v i n : evolves R (tickets_updateFields id v i n).
Proof. intros d ok d' [->| ->]%updateFields_cases; [reflexivity|]. by apply frame_edit. Qed.
Lemma acs_insert_frame c : evolves R (acs_insert c).
Proof. intros d r d'. unfold acs_insert. repeat case_match; intros [= _ <-]; by apply frame_criteria. Qed.
#[local] Hint Resolve updateFields_frame acs_insert_frame : gaffer.
#[local] Hint Extern 1 (evolves R (modify _)) =>
  apply evolves_modify; intros; first
    [ apply frame_edit; intros; repeat split; reflexivity | apply frame_criteria; reflexivity ] : gaffer.

Lemma run_edit_frame c a : evolves R (run_edit c a).
Proof.
  destruct c; simpl; apply (ignore_frame R); try apply (recordArtifact_frame R).
  - unfold editTicket, inTransaction. structural.
  - unfold addAcceptanceCriterion, assertContractEditable, inTransaction. structural.
  - unfold editAcceptanceCriterion, assertContractEditable, inTransaction. structural.
  - unfold removeAcceptanceCriterion, assertContractEditable, inTransaction. structural.
  - unfold setTestable, inTransaction. structural.
  - unfold setAllowTestChanges, inTransaction. structural.
  - unfold setTestContract, assertTestContractEditable, inTransaction. structural.
  - unfold setAcceptanceProfile, assertTestContractEditable, inTransaction. structural.
  - unfold recordAcceptanceEvidence, inTransaction. structural.
  - unfold recordRepoDelivery, inTransaction. structural.
  - unfold attachDeliveryEvidence, inTransaction. structural.
  - unfold createDraftTicket. unfold inTransaction at 1. structural.
  - unfold setDeliveryBudget, inTransaction. structural.
Qed.
End edits.

Section steps.
Context `{Env} (R : db → db → Prop) `{!EditFrame R}.
Lemma step_frame d d' : step d d' → R d d'.
Proof.
  intros [c a ? ? Hr|deps c a ? ? Hr|c a ? ? Hr|deps r to a res ? ? Hr|n w ?].
  - exact (run_call_frame R c a _ _ _ Hr).
  - exact (run_gate_frame R c a _ _ _ Hr).
  - exact (run_edit_frame R c a _ _ _ Hr).
  - exact (moveTicket_frame R r to a _ _ _ Hr).
  - apply (frame_tables (R:=R)); reflexivity.
Qed.
Lemma steps_frame d d' : rtc step d d' → R d d'.
Proof. induction 1 as [|d d1 d2 H1 _ IH]; [done|]. etrans; [by apply step_frame|done]. Qed.
End steps.
