(* ===== verification/Demo.v ===== *)
(** * A concrete run

    A small environment and the databases a few calls reach from an empty
    one.  The witnesses of the development evaluate on these. *)
From S2P Require Import Prelude Json Types EventChain Store Policy Diff Transition Claims Tickets.
From S2P Require Import Pause Decisions Lifecycle Life Refinement Simulation Claiming System.

(** A toy digest of the length of a SHA-256 one. *)
Definition demo_digest (s : string) : string :=
  let n := toy_digest s in
  String.substring 0 (64 - String.length n)
    "0000000000000000000000000000000000000000000000000000000000000000" +:+ n.

#[export] Instance demo_env : Env := {|
  sha256_hex := demo_digest;
  randomUUID := λ n, "u" +:+ pretty n;
  random_base64url := λ n, "r" +:+ pretty n;
  toISOString := λ t, pretty t;
  localeCompare := String.compare;
  process_env := λ _, None;
  existsSync := λ _, false;
  runGit := λ _ _, mk_GitResult 1 "" false
|}.

Definition human : Actor := mk_Actor Human (Some "ana").
Definition runner : Actor := mk_Actor SystemActor None.
Definition coder : Actor := mk_Actor AgentActor (Some "u2").

(** One acceptance criterion awaits the ticket [u0]. *)
Definition demo_start : db :=
  mk_db 1000 1000 0 ∅ ∅ ∅ [] []
    {[ "ac1" := mk_AcceptanceCriterion "ac1" "u0" "login works" 0 Pending None 0 None None None None 0 0 ]}
    [] ∅ [] [] ∅ [] [] [] [] ∅ [] [].

Definition exec (c : call) (a : Actor) (d : db) : db :=
  match run_call c a d with Ok _ d' => d' | Err _ => d end.
Definition seen (id : string) (d : db) : Ticket :=
  tickets d !! id ?? mk_Ticket id None "" "" Draft 0 Low SoloLoose None None None None None 0 0
                       None None 0 None 0 None 0 0 None None None 0 0.

Definition demo_ticket : CreateTicketInput :=
  mk_CreateTicketInput "Fix login" "" 5 Medium SoloLoose None None false false None.
Definition demo_agent : RegisterAgentInput :=
  mk_RegisterAgentInput (Some "coder") None None None None None None None.

Definition demo_draft : db := exec (RegisterAgent demo_agent) human (exec (CreateTicket demo_ticket) human demo_start).
Definition demo_ready : db := exec (BoardMove (seen "u0" demo_draft) Ready) human demo_draft.
Definition demo_claimed : db := exec (ClaimNext (mk_ClaimNextInput "u2" 60)) coder demo_ready.
Definition demo_lapsed : db := set_clocks 100000 100000 demo_claimed.
Definition demo_byhand : db := exec (HumanClaim "#1") human demo_ready.
Definition demo_pause : PauseInput :=
  mk_PauseInput CapHit (Some "gaffer/ticket-1") (Some "/wt/1") None (Some "app") (Some 2%Z) (Some 40%Z) None.
Definition demo_paused : db := exec (PauseDelivery "1" demo_pause) runner demo_claimed.
Definition demo_continued : db := exec (RequestContinue "1") human demo_paused.
Definition demo_resumed : db := exec (BeginResume "1" (Some ("u2", 60%Z))) runner demo_continued.
Definition demo_review : db :=
  exec (SubmitForReview (mk_SubmitForReviewInput "ct_r5" "1" None)) coder demo_claimed.

Lemma exec_steps d0 c a d : rtc step d0 d → rtc step d0 (exec c a d).
Proof.
  intros Hs. unfold exec. destruct (run_call c a d) as [[] d'|e] eqn:Hr; [|done].
  eapply rtc_r; [exact Hs|]. by eapply step_call.
Qed.
Lemma exec_reachable c a d : reachable d → reachable (exec c a d).
Proof. intros (d0 & Hi & Hs). exists d0. split; [done|]. by apply exec_steps. Qed.
Lemma demo_start_reachable : reachable demo_start.
Proof. by exists demo_start. Qed.
Lemma demo_ready_reachable : reachable demo_ready.
Proof. do 3 apply exec_reachable. apply demo_start_reachable. Qed.
Lemma demo_claimed_reachable : reachable demo_claimed.
Proof. apply exec_reachable, demo_ready_reachable. Qed.
Lemma demo_lapsed_reachable : reachable demo_lapsed.
Proof.
  destruct demo_claimed_reachable as (d0 & Hi & Hs). exists d0. split; [done|].
  eapply rtc_r; [exact Hs|]. apply step_time.
Qed.

Lemma demo_claimed_good : good demo_claimed.
Proof. exact (reachable_good _ demo_claimed_reachable). Qed.
Lemma demo_ready_good : good demo_ready.
Proof. exact (reachable_good _ demo_ready_reachable). Qed.

(** ** A checker for [good] on concrete databases *)
Definition well_formed_check (d : db) : Prop :=
  map_Forall (λ i t, tk_id t = i) (tickets d) ∧
  map_Forall (λ i c, cl_id c = i) (ticket_claims d) ∧
  map_Forall (λ _ c, tickets d !! cl_ticket_id c ≠ None) (ticket_claims d) ∧
  map_Forall (λ i _, tickets d !! i ≠ None) (paused_deliveries d) ∧
  map_Forall (λ i c, map_Forall (λ j c', cl_ticket_id c = cl_ticket_id c' → cl_status c = Active →
    cl_status c' = Active → i = j) (ticket_claims d)) (ticket_claims d).
#[export] Instance well_formed_check_dec d : base.Decision (well_formed_check d).
Proof. unfold well_formed_check. apply _. Defined.
Lemma good_by_check d :
  bool_decide (well_formed_check d) = true →
  forallb (λ p : string * Ticket, match life_of d p.1 with Some l => life_ok l | None => true end)
    (map_to_list (tickets d)) = true →
  good d.
Proof.
  intros (H1 & H2 & H3 & H4 & H5)%bool_decide_eq_true Hl. split.
  - split; [exact H1|exact H2|exact H3|exact H4|]. intros i j c c' Hi Hj. exact (H5 i c Hi j c' Hj).
  - intros k. destruct (life_of d k) as [l|] eqn:El; [|done]. simpl.
    assert (∃ t, tickets d !! k = Some t) as [t Ht].
    { unfold life_of in El. destruct (tickets d !! k); [eauto|done]. }
    rewrite forallb_forall in Hl. specialize (Hl (k, t)). simpl in Hl. rewrite El in Hl. apply Hl.
    by apply list_elem_of_In, elem_of_map_to_list.
Qed.
