(* ===== verification/GateDemo.v ===== *)
(** * A concrete review

    What the review gate is handed in the witnesses, and the databases a
    delivery passes through from review to done. *)
From S2P Require Import Prelude Json Types EventChain Store Policy Diff Transition Claims Tickets.
From S2P Require Import Pause Decisions Lifecycle Landing Autonomy Verdicts Review Approval Landings.
From S2P Require Import Replay Sendback Tester Life Refinement Simulation Gate Claiming System Demo.

Definition sha1 : string := "aaaaaaaaaaaaaaaaaaaaaaaaaaaaaaaaaaaaaaaa".
Definition gate_head : ReviewedHead := mk_ReviewedHead "r1" "app" "gaffer/ticket-1" sha1.
(** One readable repository; git shows every landing; the second send-back
    parks. *)
#[export] Instance gate_deps : ReviewDeps := {|
  maxAttempts := 2;
  testerLaneApplies := None;
  runnerTesterLane := None;
  requireRegisteredAgentApprover := true;
  approvalShaResolver := None;
  reviewedHeadsResolver := Some (λ _ _, Some [gate_head]);
  unavailableWriteReposResolver := Some (λ _ _, inr []);
  landedOnDefaultResolver := Some (λ _ _, Some true);
  changeOnRefsResolver := None;
  policyAllowsAgentApprove := None;
  observedRiskResolver := None
|}.

Definition gate_start : db :=
  mk_db 1000 1000 0 ∅ ∅ ∅ [] []
    {[ "ac1" := mk_AcceptanceCriterion "ac1" "u0" "login works" 0 Pending None 0 None None
                  (Some "npm test") None 0 0 ]}
    [] ∅ [] [] {[ "r1" := mk_Repository "r1" "app" None "main" None None ]}
    [mk_TicketRepo "u0" "r1" Confirmed Write "primary" None None] [] [] [] ∅ [] [].

Definition exec_gate (c : gate_call) (a : Actor) (d : db) : db :=
  match run_gate c a d with Ok _ d' => d' | Err _ => d end.
Lemma exec_gate_steps d0 c a d : rtc step d0 d → rtc step d0 (exec_gate c a d).
Proof.
  intros Hs. unfold exec_gate. destruct (run_gate c a d) as [[] d'|e] eqn:Hr; [|done].
  eapply rtc_r; [exact Hs|]. by eapply step_gate.
Qed.
Lemma exec_gate_reachable c a d : reachable d → reachable (exec_gate c a d).
Proof. intros (d0 & Hi & Hs). exists d0. split; [done|]. by apply exec_gate_steps. Qed.

Definition acceptance_ticket (acceptance : bool) : CreateTicketInput :=
  mk_CreateTicketInput "Fix login" "" 5 Medium SoloLoose None None false acceptance None.
(** Taken by hand and handed in, after the runner ran the criterion's check. *)
Definition handed_in (acceptance : bool) : db :=
  let d := exec (CreateTicket (acceptance_ticket acceptance)) human gate_start in
  let d := exec (BoardMove (seen "u0" d) Ready) human d in
  let d := exec (HumanClaim "1") human d in
  let d := exec (BoardMove (seen "u0" d) InReview) human d in
  exec_gate (RecordAcCheck (mk_RecordAcCheckInput "1" "ac1" 0 "npm test" None None)) runner d.
Definition gate_review : db := handed_in false.
Definition shown : ApproveReviewOptions := mk_ApproveReviewOptions [mk_ShownCommit (Some "app") sha1] true.
Definition gate_approved : db := exec_gate (Approve "1" shown) human gate_review.
Definition landing_input : LandingInput := mk_LandingInput "app" sha1 (Some "local") None.
Definition gate_begun : db := exec_gate (BeginLanding "1" landing_input) runner gate_approved.
Definition gate_landed : db := exec_gate (RecordLanding "1" landing_input) runner gate_begun.
Definition gate_done : db := exec_gate (MarkMerged "1") runner gate_landed.
Definition gate_sent_back : db := exec_gate (Reject "1" ToRefining (Some "no tests")) human gate_review.
(** An acceptance ticket goes to the tester before a person sees it. *)
Definition gate_testing : db := exec_gate (RouteTester "1") runner (handed_in true).

Example gate_run :
  (λ d, status (seen "u0" d)) <$>
    [gate_review; gate_approved; gate_begun; gate_landed; gate_done; gate_sent_back; gate_testing]
  = [InReview; ReadyForMerge; ReadyForMerge; ReadyForMerge; Done; Refining; InTesting].
Proof. vm_compute. reflexivity. Qed.

Lemma handed_in_reachable b : reachable (handed_in b).
Proof. apply exec_gate_reachable. do 4 apply exec_reachable. by exists gate_start. Qed.
Lemma gate_review_reachable : reachable gate_review.
Proof. apply handed_in_reachable. Qed.
Lemma gate_landed_reachable : reachable gate_landed.
Proof. do 3 apply exec_gate_reachable. apply gate_review_reachable. Qed.
Lemma gate_testing_reachable : reachable gate_testing.
Proof. apply exec_gate_reachable, handed_in_reachable. Qed.
