(* ===== verification/Safety.v ===== *)
(** * What every reachable database satisfies

    The refinement theorem and the invariants of leases, by-hand work, paused
    deliveries and review that follow from it. *)
From S2P Require Import Prelude Json Types EventChain Store Policy Diff Transition Claims Tickets.
From S2P Require Import Pause Decisions Lifecycle Review Approval Sendback Life Refinement Simulation Gate.
From S2P Require Import Claiming System Demo GateDemo.

Section safety.
Context `{Env}.

(** A life read off a good database. *)
Lemma good_life d k t : good d → tickets d !! k = Some t →
  ∃ l, life_of d k = Some l ∧ life_ok l = true ∧ l_status l = status t ∧
    owned l = bool_decide (human_owner t ≠ None) ∧
    delivered l = bool_decide (human_delivered t ≠ None) ∧
    leased l = lease_held k d ∧
    context l = (λ p, bool_decide (resume_requested p = 1%Z)) <$> paused_deliveries d !! k.
Proof.
  intros [_ Hok] Ht. specialize (Hok k). unfold life_of in *. rewrite Ht in *. simpl in *.
  eexists. split; [done|]. done.
Qed.

(** C1: refinement.  Every committed call of the control plane moves every
    ticket along steps of the abstract machine [life_step] only, from a
    database that satisfies the invariants to one that does. *)
Theorem calls_refine_life c a d d' :
  good d → run_call c a d = Ok tt d' →
  good d' ∧ ∀ k, rtc life_step (life_of d k) (life_of d' k).
Proof. intros Hg Hr. by apply (run_call_simulates c a d tt d' Hr). Qed.

(** C11: refinement, the review gate.  Whatever git, the policy and the tester
    lane answer, every committed call of the review gate keeps the invariants
    and moves each ticket only along the moves that call is for, by edges of
    the state machine: an approval takes a ticket from review to the tester or
    to merge, a PASS out of testing, a rejection back or to blocked, and so
    on; a call that records a fact moves none. *)
Theorem gate_calls_refine (deps : ReviewDeps) c a d d' :
  good d → run_gate c a d = Ok tt d' →
  good d' ∧ ∀ k, rtc (gate_step (gate_moves c)) (life_of d k) (life_of d' k).
Proof. intros Hg Hr. by apply (run_gate_gated c a d tt d' Hr). Qed.

Lemma leased_status l : life_ok l = true → leased l = true →
  l_status l ∈ [Claimed; InProgress; Failed] ∧ owned l = false.
Proof.
  destruct l as [st [] de [] c]; intros Hok Hl; try discriminate Hl;
    destruct st, de, c as [[]|]; try discriminate Hok;
    (split; [apply (bool_decide_eq_true _)|]; reflexivity).
Qed.
Lemma claimed_leased l : life_ok l = true → l_status l = Claimed → leased l = true.
Proof. destruct l as [st [] [] [] [[]|]]; simpl; intros Hok ->; done. Qed.
Lemma owned_life l : life_ok l = true → owned l = true →
  l_status l = InProgress ∧ leased l = false ∧ context l = None.
Proof. destruct l as [st [] [] [] [[]|]]; simpl; intros Hok Ho; try done; destruct st; done. Qed.
Lemma context_life l b : life_ok l = true → context l = Some b →
  l_status l ∈ [Paused; InProgress] ∧
  (b = true → l_status l = Paused ∧ leased l = false).
Proof.
  destruct l as [st [] [] [] c]; simpl; intros Hok ->; destruct st, b; try discriminate Hok;
    (split; [apply (bool_decide_eq_true _); reflexivity|done]).
Qed.

(** C5: leases.  In every reachable database a ticket has at most one active
    claim; an active claim is on a ticket that is claimed, in progress or
    failed and that no person owns by hand; and a claimed ticket always has
    an active claim, so none is stuck behind a lease that is gone. *)
Theorem reachable_leases d :
  reachable d →
  (∀ i j c c', ticket_claims d !! i = Some c → ticket_claims d !! j = Some c' →
     cl_ticket_id c = cl_ticket_id c' → cl_status c = Active → cl_status c' = Active → i = j) ∧
  (∀ i c, ticket_claims d !! i = Some c → cl_status c = Active →
     ∃ t, tickets d !! cl_ticket_id c = Some t ∧ status t ∈ [Claimed; InProgress; Failed] ∧
          human_owner t = None) ∧
  (∀ k t, tickets d !! k = Some t → status t = Claimed →
     ∃ i c, ticket_claims d !! i = Some c ∧ cl_ticket_id c = k ∧ cl_status c = Active).
Proof.
  intros Hg%reachable_good. pose proof (proj1 Hg) as Hwf. split; [by apply wf_one_active|]. split.
  - intros i c Hi Ha. destruct (tickets d !! cl_ticket_id c) as [t|] eqn:Ht;
      [|by destruct (wf_claim_ticket d Hwf i c Hi)].
    exists t. split; [done|]. destruct (good_life d _ t Hg Ht) as (l & _ & Hok & <- & Ho & _ & Hl & _).
    assert (Hle : leased l = true) by (rewrite Hl; apply lease_held_spec; eauto).
    destruct (leased_status l Hok Hle) as [Hs Hno]. split; [done|].
    rewrite Hno in Ho. symmetry in Ho. apply bool_decide_eq_false in Ho.
    destruct (human_owner t); [|done]. by destruct Ho.
  - intros k t Ht Hs. destruct (good_life d k t Hg Ht) as (l & _ & Hok & Es & _ & _ & Hl & _).
    rewrite Hs in Es. apply lease_held_spec. rewrite <- Hl. by apply claimed_leased.
Qed.

(** by-hand work.  In every reachable database a ticket a person owns by
    hand is in progress, no agent holds a claim on it and no paused delivery
    waits on it; the mark of a by-hand delivery is only on tickets in the
    review lane. *)
Theorem reachable_human_work d k t :
  reachable d → tickets d !! k = Some t →
  (human_owner t ≠ None →
     status t = InProgress ∧ lease_held k d = false ∧ paused_deliveries d !! k = None) ∧
  (human_delivered t ≠ None → status t ∈ REVIEW_LANE_STATUSES).
Proof.
  intros Hg%reachable_good Ht.
  destruct (good_life d k t Hg Ht) as (l & _ & Hok & Es & Ho & Hd & Hl & Hc). split.
  - intros Hn. rewrite bool_decide_true in Ho by done. destruct (owned_life l Hok Ho) as (H1 & H2 & H3).
    rewrite <- Es, <- Hl. rewrite H3 in Hc. split; [done|]. split; [done|].
    by destruct (paused_deliveries d !! k).
  - intros Hn. rewrite bool_decide_true in Hd by done. rewrite <- Es. clear - Hok Hd.
    destruct l as [st [] [] [] c]; simpl in *; try discriminate; destruct st; try discriminate Hok;
      apply (bool_decide_eq_true _); reflexivity.
Qed.

(** paused deliveries.  In every reachable database a kept resume context
    belongs to a ticket that is paused or back in progress, and once Continue
    was pressed the ticket is paused and unleased until the runner resumes
    it: no delivery is resumed twice. *)
Theorem reachable_pauses d k p :
  reachable d → paused_deliveries d !! k = Some p →
  ∃ t, tickets d !! k = Some t ∧ status t ∈ [Paused; InProgress] ∧
    (resume_requested p = 1%Z → status t = Paused ∧ lease_held k d = false).
Proof.
  intros Hg%reachable_good Hp. destruct (tickets d !! k) as [t|] eqn:Ht;
    [|by destruct (wf_paused_ticket d (proj1 Hg) k p Hp)].
  exists t. split; [done|]. destruct (good_life d k t Hg Ht) as (l & _ & Hok & <- & _ & _ & <- & Hc).
  rewrite Hp in Hc. simpl in Hc. destruct (context_life l _ Hok Hc) as [Hs Hr]. split; [done|].
  intros H1. apply Hr. by apply bool_decide_eq_true.
Qed.

Definition approved (s : TicketStatus) : Prop := s ∈ [InTesting; ReadyForMerge; Done].
Lemma approved_step o l' : life_step o (Some l') → approved (l_status l') →
  ∃ l, o = Some l ∧ l_status l = l_status l'.
Proof.
  unfold approved. intros Hs Ha. apply (bool_decide_eq_true_2 _) in Ha.
  inversion Hs as [| | | | | |l to _ Hto| | | | | | |]; subst; simpl in *; try discriminate; [|eauto].
  apply (bool_decide_eq_true_2 _) in Hto. by destruct to.
Qed.
Lemma approved_steps o l' : rtc life_step o (Some l') → approved (l_status l') →
  ∃ l, o = Some l ∧ l_status l = l_status l'.
Proof.
  intros Hs. remember (Some l') as o' eqn:Ho. revert l' Ho.
  induction Hs as [|o o1 o2 H1 _ IH]; intros l' -> Ha; [eauto|].
  destruct (IH l' eq_refl Ha) as (l1 & -> & E1). rewrite <- E1 in Ha.
  destruct (approved_step _ _ H1 Ha) as (l & -> & E). exists l. by rewrite E.
Qed.

(** C36: no call of the claim, board, runner, pause or human surfaces bypasses
    the review gate: whoever the actor, a ticket that is in testing, ready to
    merge or done after such a call already was before it. *)
Theorem calls_never_approve c a d d' k t' :
  good d → run_call c a d = Ok tt d' → tickets d' !! k = Some t' → approved (status t') →
  ∃ t, tickets d !! k = Some t ∧ status t = status t'.
Proof.
  intros Hg Hr Ht' Ha. destruct (run_call_simulates c a d tt d' Hr Hg) as [Hg' Hs].
  destruct (good_life d' k t' Hg' Ht') as (l' & Hl' & _ & Es & _).
  specialize (Hs k). rewrite Hl' in Hs. rewrite <- Es in Ha |- *.
  destruct (approved_steps _ _ Hs Ha) as (l & Hl & E). unfold life_of in Hl.
  destruct (tickets d !! k) as [t|]; [|done]. exists t. injection Hl as <-. done.
Qed.
End safety.

(** ** Witnesses *)

Lemma calls_refine_life_witness :
  good demo_claimed ∧ ∀ k, rtc life_step (life_of demo_ready k) (life_of demo_claimed k).
Proof.
  apply (calls_refine_life (ClaimNext (mk_ClaimNextInput "u2" 60)) coder demo_ready demo_claimed).
  - exact (reachable_good _ demo_ready_reachable).
  - vm_compute; reflexivity.
Defined.

Lemma gate_calls_refine_witness :
  good gate_approved ∧
  ∀ k, rtc (gate_step approve_moves) (life_of gate_review k) (life_of gate_approved k).
Proof.
  apply (gate_calls_refine gate_deps (Approve "1" shown) human gate_review gate_approved).
  - exact (reachable_good _ gate_review_reachable).
  - vm_compute; reflexivity.
Defined.

Lemma reachable_leases_witness :
  ∃ i c, ticket_claims demo_claimed !! i = Some c ∧ cl_ticket_id c = "u0" ∧ cl_status c = Active.
Proof.
  destruct (reachable_leases demo_claimed demo_claimed_reachable) as (_ & _ & Hc).
  apply (Hc "u0" (seen "u0" demo_claimed)); vm_compute; reflexivity.
Defined.

Lemma demo_byhand_reachable : reachable demo_byhand.
Proof. apply exec_reachable, demo_ready_reachable. Qed.
Lemma reachable_human_work_witness :
  status (seen "u0" demo_byhand) = InProgress ∧ lease_held "u0" demo_byhand = false ∧
  paused_deliveries demo_byhand !! "u0" = None.
Proof.
  destruct (reachable_human_work demo_byhand "u0" (seen "u0" demo_byhand)) as [Ho _].
  - exact demo_byhand_reachable.
  - vm_compute; reflexivity.
  - apply Ho. vm_compute. discriminate.
Defined.

Lemma demo_continued_reachable : reachable demo_continued.
Proof. do 2 apply exec_reachable. apply demo_claimed_reachable. Qed.
Lemma reachable_pauses_witness :
  ∃ t p, tickets demo_continued !! "u0" = Some t ∧ paused_deliveries demo_continued !! "u0" = Some p ∧
    resume_requested p = 1%Z ∧ status t = Paused ∧ lease_held "u0" demo_continued = false.
Proof.
  destruct (paused_deliveries demo_continued !! "u0") as [p|] eqn:Hp; [|vm_compute in Hp; discriminate].
  destruct (reachable_pauses demo_continued "u0" p demo_continued_reachable Hp) as (t & Ht & _ & Hr).
  exists t, p. split; [exact Ht|]. split; [reflexivity|].
  assert (H1 : resume_requested p = 1%Z) by (vm_compute in Hp; injection Hp as <-; reflexivity).
  split; [exact H1|]. exact (Hr H1).
Defined.

(** A ticket under test, as the review gate leaves one. *)
Definition demo_testing : db :=
  set_tickets (<[ "u0" := set_status InTesting (seen "u0" demo_draft) ]> (tickets demo_draft)) demo_draft.
Lemma calls_never_approve_witness :
  ∃ t, tickets demo_testing !! "u0" = Some t ∧ status t = InTesting.
Proof.
  apply (calls_never_approve (ResetCriteria "1") human demo_testing
           (exec (ResetCriteria "1") human demo_testing) "u0"
           (seen "u0" (exec (ResetCriteria "1") human demo_testing))).
  - apply good_by_check; vm_compute; reflexivity.
  - vm_compute; reflexivity.
  - vm_compute; reflexivity.
  - apply (bool_decide_eq_true _). vm_compute; reflexivity.
Defined.
