(* ===== verification/Approved.v ===== *)
(** * What an approval guarantees

    The checks every approval has passed, the commits it pins, and that the
    commits a person names are compared one by one, in no particular order. *)
From S2P Require Import Prelude Json Types EventChain Store Policy Diff Transition Claims Tickets.
From S2P Require Import Pause Decisions Lifecycle Landing Autonomy Verdicts Review Approval Landings.
From S2P Require Import Replay Sendback Tester Life Refinement Simulation Gate Claiming System.
From S2P Require Import Demo GateDemo.

Section approved.
Context `{Env, ReviewDeps}.

(** ** Running the pieces *)

Lemma gets_ok {A} (f : db → A) (d : db) a d' :
  gets (E := error) f d = Ok a d' → a = f d ∧ d' = d.
Proof. by intros [= <- <-]. Qed.
Lemma lift_result_ok {A} (r : error + A) d a d' : lift_result r d = Ok a d' → r = inr a ∧ d' = d.
Proof. destruct r as [e|x]; simpl; [done|]. by intros [= -> ->]. Qed.
Lemma assertWriteRepos_ok t ms d x d' : assertWriteReposAvailable t ms d = Ok x d' → ms = [] ∧ d' = d.
Proof. destruct ms; [|done]. by intros [= _ <-]. Qed.
Lemma assertCiPassed_ok t c d x d' :
  assertCiPassed t c d = Ok x d' → d' = d ∧
  (required (ciStatus (tk_id t) c d) = true →
   c ≠ None ∧ ci_state (ciStatus (tk_id t) c d) = Some "pass").
Proof.
  unfold assertCiPassed. intros Hr. run_steps Hr. split; [done|]. intros Hreq. rewrite Hreq in Hr.
  apply andb_true_iff in Hr as [H1%bool_decide_eq_true H2%bool_decide_eq_true]. done.
Qed.
(** A transition's own answer. *)
Lemma gate_move_ok t a to why from p u diff fs d res d' :
  well_formed d → transition (gate_move t a to why from p u diff fs) d = Ok res d' →
  ∃ t0, tickets d !! tk_id t = Some t0 ∧ status t0 = from ∧
    status (result_ticket res) = to ∧ evidence d' = evidence d ∧ well_formed d'.
Proof.
  intros Hwf Hr. destruct (transition_acts _ _ _ _ Hwf Hr) as (t0 & Ht & _ & He & Hs & _ & Ha).
  apply transition_ok in Hr as (t1 & pol & Ht1 & _ & -> & _); [|intros; by apply (wf_tickets d Hwf)].
  exists t0. split; [done|]. split; [by apply He|]. split; [done|]. split; [done|apply Ha].
Qed.

(** The rows [for (const pin of pins)] appends. *)
Definition pinned_as (prefix : string) (h : ReviewedHead) : option string * option string :=
  (Some (h_repoId h), Some (prefix +:+ h_sha h)).
Definition pin_row (ticketId prefix : string) (e : Evidence) (h : ReviewedHead) : Prop :=
  ev_ticket_id e = ticketId ∧ evidence_type e = Commit ∧ recorded_by_actor_type e = Some "system" ∧
  (ev_repo_id e, uri e) = pinned_as prefix h.
Lemma pins_ok ticketId prefix (w : ReviewedHead → string) (p : ReviewedHead → js) hs d x d' :
  for_each hs (λ h, system_evidence ticketId (Some (h_repoId h)) (w h) (prefix +:+ h_sha h) (p h)) d = Ok x d' →
  ∃ new, evidence d' = evidence d ++ new ∧ Forall2 (pin_row ticketId prefix) new hs.
Proof.
  revert d. induction hs as [|h hs IH]; intros d.
  - intros [= _ <-]. exists []. by rewrite app_nil_r.
  - simpl. intros ([] & d1 & H1 & H2)%bind_ok. apply IH in H2 as (new & E & Hn).
    unfold system_evidence, now in H1. run_steps H1. unfold newId, draw in Hrun. run_steps Hrun. injection Hrun0 as <- <-.
    unfold evidence_insert in H1. destruct (_ || _); [done|]. injection H1 as <-.
    simpl in E. rewrite E, <- app_assoc. eexists. split; [done|]. by constructor.
Qed.

(** ** The commits named *)

Definition approves (r : error + list ReviewedHead) : bool := match r with inl _ => false | inr _ => true end.

(** Each repository goes by one id and one name, and no name is another's id. *)
Definition unambiguous (heads : list ReviewedHead) : Prop :=
  ∀ c h h', h ∈ heads → h' ∈ heads → matches heads c h = true → matches heads c h' = true → h = h'.

Lemma checkShown_named heads a opts un pins :
  commits opts ≠ [] → checkShownCommits heads a opts un = inr pins →
  pins = heads ∧ (∀ h, h ∈ heads → ∃ c, c ∈ commits opts ∧ matches heads c h = true ∧ shown_sha c = h_sha h) ∧
  (∀ c, c ∈ commits opts → is_unavailable un c = false → ∃ h, h ∈ heads ∧ matches heads c h = true).
Proof.
  intros Hne Hc. unfold checkShownCommits in Hc. destruct (commits opts) as [|c cs] eqn:Ec; [done|].
  rewrite <- Ec in Hc |- *. case_bool_decide; [done|]. case_bool_decide as Hm; [done|].
  injection Hc as <-. split; [done|].
  assert (Hnil : omap (head_moved heads (commits opts)) heads = [] ∧ omap (commit_gone heads un) (commits opts) = []).
  { apply app_eq_nil. destruct (_ ++ _); [done|simpl in Hm; lia]. }
  destruct Hnil as [Hmv Hgone]. split.
  - intros h Hh. destruct (head_moved heads (commits opts) h) as [m|] eqn:Em.
    { assert (m ∈ omap (head_moved heads (commits opts)) heads) as Hin by (apply list_elem_of_omap; eauto).
      rewrite Hmv in Hin. by apply not_elem_of_nil in Hin. }
    unfold head_moved in Em. case_bool_decide as Es; [|done].
    destruct (find (λ c, matches heads c h) (commits opts)) as [c'|] eqn:Ef; [|done].
    apply find_some in Ef as [Hin Hmt]. exists c'. injection Es as Es. by rewrite list_elem_of_In.
  - intros c' Hin Hun. destruct (existsb (matches heads c') heads) eqn:Ee; [by apply existsb_true in Ee|].
    assert (mk_Moved (sc_repo c' ?? "(unnamed)") (Some (shown_sha c')) None ∈ omap (commit_gone heads un) (commits opts)) as Hg.
    { apply list_elem_of_omap. exists c'. split; [done|]. unfold commit_gone. by rewrite Ee, Hun. }
    rewrite Hgone in Hg. by apply not_elem_of_nil in Hg.
Qed.

(** How many named commits are for one repository. *)
Definition named_times (heads : list ReviewedHead) (cs : list ShownCommit) (n : string) : nat :=
  length (filter (λ m, m = n) (named heads <$> cs)).
Lemma length_zero {A} (l : list A) : (∀ x, x ∉ l) ↔ ¬ (0 < length l)%nat.
Proof.
  split; [|intros Hl x Hx; destruct l; [by apply not_elem_of_nil in Hx|simpl in Hl; lia]].
  intros Hn Hl. destruct l as [|x l]; [simpl in Hl; lia|]. apply (Hn x), elem_of_cons. by left.
Qed.
Lemma approves_eq heads a cs rq un :
  cs ≠ [] →
  approves (checkShownCommits heads a (mk_ApproveReviewOptions cs rq) un)
  = negb (bool_decide (0 < length (dupes heads cs))%nat)
    && negb (bool_decide (0 < length (omap (head_moved heads cs) heads ++ omap (commit_gone heads un) cs))%nat).
Proof.
  intros Hne. destruct cs as [|c cs]; [done|]. unfold checkShownCommits. cbn [commits].
  case_bool_decide; [done|]. by case_bool_decide.
Qed.
Lemma approves_spec heads a cs rq un :
  cs ≠ [] →
  approves (checkShownCommits heads a (mk_ApproveReviewOptions cs rq) un) = true ↔
  (∀ c, c ∈ cs → (named_times heads cs (named heads c) ≤ 1)%nat) ∧
  (∀ h, h ∈ heads → head_moved heads cs h = None) ∧
  (∀ c, c ∈ cs → commit_gone heads un c = None).
Proof.
  intros Hne. rewrite approves_eq, andb_true_iff, !negb_true_iff, !bool_decide_eq_false by done.
  assert (Hd : ¬ (0 < length (dupes heads cs))%nat ↔
    ∀ c, c ∈ cs → (named_times heads cs (named heads c) ≤ 1)%nat).
  { rewrite <- length_zero. unfold dupes. setoid_rewrite list_elem_of_filter. split.
    - intros Hn c Hc. apply Nat.nlt_ge. intros Hlt. apply (Hn (named heads c)). split; [done|].
      apply distinct_spec, list_elem_of_fmap. eauto.
    - intros Hle n [Hlt Hin]. apply distinct_spec, list_elem_of_fmap in Hin as (c & -> & Hc).
      specialize (Hle c Hc). unfold named_times in Hle. lia. }
  assert (Hm : ¬ (0 < length (omap (head_moved heads cs) heads ++ omap (commit_gone heads un) cs))%nat ↔
    (∀ h, h ∈ heads → head_moved heads cs h = None) ∧ (∀ c, c ∈ cs → commit_gone heads un c = None)).
  { rewrite <- length_zero. setoid_rewrite elem_of_app. setoid_rewrite list_elem_of_omap. split.
    - intros Hn. split; intros x Hx; [destruct (head_moved heads cs x) eqn:E|destruct (commit_gone heads un x) eqn:E];
        [|done| |done]; exfalso; eapply Hn; eauto.
    - intros [H1' H2'] x [(y & Hy & E)|(y & Hy & E)]; [by rewrite H1' in E|by rewrite H2' in E]. }
  by rewrite <- Hd, <- Hm.
Qed.

Lemma named_of_match heads c h :
  unambiguous heads → h ∈ heads → matches heads c h = true → named heads c = h_repoId h.
Proof.
  intros Hu Hin Hm. unfold named. destruct (sc_repo c) as [r|] eqn:Er.
  - destruct (find (matches heads c) heads) as [h'|] eqn:Ef; simpl.
    + apply find_some in Ef as [Hin' Hm']. rewrite <- list_elem_of_In in Hin'. by rewrite (Hu c h h').
    + apply list_elem_of_In in Hin. pose proof (find_none _ _ Ef _ Hin). congruence.
  - unfold matches in Hm. rewrite Er in Hm. apply bool_decide_eq_true in Hm.
    destruct heads as [|h0 [|]]; try done. apply list_elem_of_singleton in Hin. by subst.
Qed.
(** At most one commit is named for a repository, so [find] has no choice. *)
Lemma named_once heads cs c c' :
  c ∈ cs → c' ∈ cs → named heads c = named heads c' →
  (named_times heads cs (named heads c) ≤ 1)%nat → c = c'.
Proof.
  intros Hc Hc' Hn Hle. destruct (decide (cs = [])) as [->|_]; [by apply not_elem_of_nil in Hc|].
  apply elem_of_Permutation in Hc as [l Hl]. unfold named_times in Hle. rewrite Hl in Hle, Hc'.
  apply elem_of_cons in Hc' as [->|Hin]; [done|]. exfalso.
  rewrite fmap_cons, filter_cons_True in Hle by done.
  assert (named heads c ∈ filter (λ m, m = named heads c) (named heads <$> l)) as Hf.
  { apply list_elem_of_filter. split; [done|]. apply list_elem_of_fmap. eauto. }
  simpl in Hle. destruct (filter _ (named heads <$> l)); [by apply not_elem_of_nil in Hf|simpl in Hle; lia].
Qed.

(** The order of the named commits never decides an approval: whoever
    approves, naming the same commits in another order is accepted exactly
    when the first list is. *)
Theorem shown_commits_order heads a cs cs' rq un :
  unambiguous heads → cs ≡ₚ cs' →
  approves (checkShownCommits heads a (mk_ApproveReviewOptions cs rq) un)
  = approves (checkShownCommits heads a (mk_ApproveReviewOptions cs' rq) un).
Proof.
  intros Hu Hp. destruct (decide (cs = [])) as [->|Hne]; [by apply Permutation_nil_l in Hp as ->|].
  assert (cs' ≠ []) as Hne' by (intros ->; by apply Hne, Permutation_nil_r).
  assert (Himp : ∀ l l', l ≠ [] → l' ≠ [] → l ≡ₚ l' →
    approves (checkShownCommits heads a (mk_ApproveReviewOptions l rq) un) = true →
    approves (checkShownCommits heads a (mk_ApproveReviewOptions l' rq) un) = true).
  { clear - Hu. intros l l' Hl Hl' Hp. rewrite !approves_spec by done. intros (H1 & H2 & H3).
    assert (Ht : ∀ n, named_times heads l' n = named_times heads l n).
    { intros n. unfold named_times. by rewrite Hp. }
    split; [intros c Hc; rewrite Ht; apply H1; by rewrite Hp|]. split; [|intros c Hc; apply H3; by rewrite Hp].
    intros h Hh. specialize (H2 h Hh). unfold head_moved in *.
    case_bool_decide as E; [|done]. clear H2. rewrite bool_decide_true; [done|]. rewrite <- E. f_equal.
    assert (∃ c, c ∈ l ∧ matches heads c h = true) as (c & Hc & Hm).
    { destruct (find (λ c, matches heads c h) l) as [c|] eqn:Ef; [|done].
      apply find_some in Ef as [Hin%list_elem_of_In Hm]. eauto. }
    assert (Hone : ∀ m, m ≡ₚ l → find (λ c, matches heads c h) m = Some c); [|by rewrite !Hone].
    intros m Hpm. destruct (find (λ c, matches heads c h) m) as [c'|] eqn:Ef.
    - apply find_some in Ef as [Hin%list_elem_of_In Hm']. f_equal. rewrite Hpm in Hin.
      symmetry. apply (named_once heads l); [done..| |by apply H1].
      by rewrite (named_of_match heads c h), (named_of_match heads c' h).
    - rewrite <- Hpm in Hc. apply list_elem_of_In in Hc. pose proof (find_none _ _ Ef _ Hc) as Hf.
      simpl in Hf. congruence. }
  apply eq_true_iff_eq. split; apply Himp; done.
Qed.

(** ** The approval itself *)

(** The pins an approval records, given the heads it saw. *)
Definition approval_pins (actor : Actor) (opts : ApproveReviewOptions) (heads : list ReviewedHead)
    : list ReviewedHead :=
  match commits opts with [] => if human_or_admin actor then heads else [] | _ => heads end.
Lemma checkShown_pins heads a opts un pins :
  checkShownCommits heads a opts un = inr pins → pins = approval_pins a opts heads.
Proof.
  intros Hc. destruct (decide (commits opts = [])) as [E|Hne].
  - unfold checkShownCommits, approval_pins in *. rewrite E in *. destruct (requireCommits opts && _); [done|].
    by injection Hc.
  - destruct (checkShown_named _ _ _ _ _ Hne Hc) as [-> _]. unfold approval_pins. by destruct (commits opts).
Qed.
Lemma assertNotAuthor_ok t a d x d' :
  assertNotAuthor t a d = Ok x d' → d' = d ∧
  (∀ author me, deliveringAgentId (tk_id t) d = Some author → actor_id a = Some me →
     toLowerCase (trim me) ≠ toLowerCase author) ∧
  (actor_type a = AgentActor → requireRegisteredAgentApprover = true →
     ∃ me, actor_id a = Some me ∧ agents d !! me ≠ None).
Proof.
  unfold assertNotAuthor. intros Hr.
  apply bind_ok in Hr as (b & d1 & [-> ->]%gets_ok & Hr).
  apply bind_ok in Hr as ([] & d1 & [Hreg ->]%guard_ok & Hr).
  apply bind_ok in Hr as (au & d1 & [-> ->]%gets_ok & Hr).
  assert (d' = d ∧ ∀ author me, deliveringAgentId (tk_id t) d = Some author → actor_id a = Some me →
     toLowerCase (trim me) ≠ toLowerCase author) as [-> Hno].
  { destruct (deliveringAgentId _ _) as [au|]; [|by injection Hr as _ <-].
    destruct (actor_id a) as [me|]; [|by injection Hr as _ <-].
    apply guard_ok in Hr as [Hr ->]. split; [done|]. intros ? ? [= <-] [= <-].
    by apply negb_true_iff, bool_decide_eq_false in Hr. }
  split; [done|]. split; [done|]. intros Ha Hq. rewrite Ha, Hq in Hreg. simpl in Hreg.
  destruct (actor_id a) as [me|]; [|done]. exists me. split; [done|]. by apply bool_decide_eq_true in Hreg.
Qed.

(** Both transactions of an approval move the ticket out of review, find every
    write repository readable, and append one pin per commit. *)
Definition approved_run (t : Ticket) (to : TicketStatus) (un : list UnavailableWriteRepo)
    (pins : list ReviewedHead) (d : db) (res : TransitionResult) (d' : db) : Prop :=
  (∃ t0, tickets d !! tk_id t = Some t0 ∧ status t0 = InReview) ∧ un = [] ∧ status (result_ticket res) = to ∧
  ∃ new, evidence d' = evidence d ++ new ∧ Forall2 (pin_row (tk_id t) REVIEW_PIN_PREFIX) new pins.
Lemma approve_to_testing_ok t a u un pins d res d' :
  well_formed d → approve_to_testing t a u un pins d = Ok res d' →
  approved_run t InTesting un pins d res d'.
Proof.
  intros Hwf Hr. unfold approve_to_testing, inTransaction in Hr.
  apply bind_ok in Hr as (r & d1 & Ht & Hr).
  apply bind_ok in Hr as ([] & d2 & [-> ->]%assertWriteRepos_ok & Hr).
  apply bind_ok in Hr as (? & d2 & He & Hr).
  apply bind_ok in Hr as ([] & d3 & Hp & [= <- <-]).
  apply gate_move_ok in Ht as (t0 & Ht0 & Hs & Hto & Hev & _); [|done].
  apply pins_ok in Hp as (new & En & Hn). injection He as _ <-. simpl in En.
  split; [eauto|]. split; [done|]. split; [done|]. exists new. by rewrite En, Hev.
Qed.
Lemma approve_to_merge_ok t a u un pins d res d' :
  well_formed d → approve_to_merge t a u un pins d = Ok res d' →
  approved_run t ReadyForMerge un pins d res d'.
Proof.
  intros Hwf Hr. unfold approve_to_merge, inTransaction in Hr.
  apply bind_ok in Hr as (p & d0 & [-> ->]%gets_ok & Hr).
  apply bind_ok in Hr as (r & d1 & Ht & Hr).
  apply bind_ok in Hr as ([] & d2 & [-> ->]%assertWriteRepos_ok & Hr).
  apply bind_ok in Hr as ([] & d3 & Hp & [= <- <-]).
  apply gate_move_ok in Ht as (t0 & Ht0 & Hs & Hto & Hev & _); [|done].
  apply pins_ok in Hp as (new & En & Hn).
  split; [eauto|]. split; [done|]. split; [done|]. exists new. by rewrite En, Hev.
Qed.

(** What every approval that went through has passed. *)
Record approval_passed (ref : string) (a : Actor) (opts : ApproveReviewOptions) (t : Ticket) (d : db) : Prop := {
  ap_review : tickets d !! tk_id t = Some t ∧ status t = InReview;
  ap_readable : unavailableWriteRepos t d = [];
  ap_ci : approveCiHold t d = None;
  ap_author : ∀ author me, deliveringAgentId (tk_id t) d = Some author → actor_id a = Some me →
    toLowerCase (trim me) ≠ toLowerCase author;
  ap_registered : actor_type a = AgentActor → requireRegisteredAgentApprover = true →
    ∃ me, actor_id a = Some me ∧ agents d !! me ≠ None;
  ap_tested : human_or_admin a = true → approveRoutesToTesting t d = false;
  ap_named : ∃ pins, checkShownCommits (resolveReviewedHeads t d) a opts (unavailableWriteRepos t d) = inr pins
}.
Lemma approve_permitted_ok ref a opts d t res d' :
  well_formed d → resolveRef ref d = Ok t d →
  approve_permitted ref a opts (unavailableWriteRepos t d) d = Ok res d' →
  approval_passed ref a opts t d ∧
  status (result_ticket res) = (if approveRoutesToTesting t d then InTesting else ReadyForMerge) ∧
  ∃ new, evidence d' = evidence d ++ new ∧
    Forall2 (pin_row (tk_id t) REVIEW_PIN_PREFIX) new (approval_pins a opts (resolveReviewedHeads t d)).
Proof.
  intros Hwf Ht Hr. unfold approve_permitted in Hr.
  apply bind_ok in Hr as (t' & d1 & Ht' & Hr). rewrite Ht in Ht'. injection Ht' as <- <-.
  apply bind_ok in Hr as (c & d1 & [-> ->]%gets_ok & Hr).
  apply bind_ok in Hr as ([] & d1 & [-> Hci]%assertCiPassed_ok & Hr).
  apply bind_ok in Hr as ([] & d1 & (-> & Hau & Hreg)%assertNotAuthor_ok & Hr).
  apply bind_ok in Hr as (u & d1 & [-> ->]%gets_ok & Hr).
  apply bind_ok in Hr as (hs & d1 & [-> ->]%gets_ok & Hr).
  apply bind_ok in Hr as (pins & d1 & [Hpins ->]%lift_result_ok & Hr).
  apply bind_ok in Hr as (b & d1 & [-> ->]%gets_ok & Hr).
  apply bind_ok in Hr as (cov & d1 & [-> ->]%gets_ok & Hr).
  apply bind_ok in Hr as (ln & d1 & [-> ->]%gets_ok & Hr).
  apply bind_ok in Hr as ([] & d1 & [Hun ->]%guard_ok & Hr).
  fold (approveRoutesToTesting t d) in Hr, Hun.
  pose proof (checkShown_pins _ _ _ _ _ Hpins) as Ep. subst pins.
  assert (Hrun : approved_run t (if approveRoutesToTesting t d then InTesting else ReadyForMerge)
            (unavailableWriteRepos t d) (approval_pins a opts (resolveReviewedHeads t d)) d res d').
  { destruct (approveRoutesToTesting t d);
      [by eapply approve_to_testing_ok|by eapply approve_to_merge_ok]. }
  destruct Hrun as ((t0 & Ht0 & Hs) & Hno & Hto & Hev). split; [|done].
  apply resolveRef_ok in Ht as [_ Hk]. specialize (Hk Hwf). split; [|done|..|eauto].
  - split; [done|]. congruence.
  - unfold approveCiHold. destruct (required _) eqn:Er; [|done]. simpl.
    destruct (Hci eq_refl) as [H1 H2]. rewrite !bool_decide_true by done. done.
  - done.
  - done.
  - intros Ha. rewrite Ha in Hun. by destruct (approveRoutesToTesting t d).
Qed.

(** The approver was allowed to approve. *)
Definition may_approve (ref : string) (a : Actor) (t : Ticket) (d : db) : Prop :=
  human_or_admin a = true ∨
  actor_type a = AgentActor ∧
  (envFlagOn (process_env "DISPATCH_ALLOW_AGENT_APPROVE") = true ∨ policyGrantsAgentApprove ref d = true) ∧
  ∀ f, observedRiskResolver = Some f →
    ∃ o, f t d = Some (Some o) ∧ shouldEscalate o (risk_level t) = false.
Lemma approveReview_ok ref a opts d res d' :
  good d → approveReview ref a opts d = Ok (inr res) d' →
  ∃ t, resolveRef ref d = Ok t d ∧ approval_passed ref a opts t d ∧ may_approve ref a t d ∧
    status (result_ticket res) = (if approveRoutesToTesting t d then InTesting else ReadyForMerge) ∧
    ∃ new, evidence d' = evidence d ++ new ∧
      Forall2 (pin_row (tk_id t) REVIEW_PIN_PREFIX) new (approval_pins a opts (resolveReviewedHeads t d)).
Proof.
  intros [Hwf _] Hr. unfold approveReview in Hr.
  apply bind_ok in Hr as (b & d1 & [-> ->]%gets_ok & Hr).
  apply bind_ok in Hr as ([] & d1 & [Hwho ->]%guard_ok & Hr).
  apply bind_ok in Hr as (t & d1 & Ht & Hr). pose proof (proj1 (resolveRef_ok _ _ _ _ Ht)) as ->.
  apply bind_ok in Hr as (un & d1 & [-> ->]%gets_ok & Hr).
  apply bind_ok in Hr as ([] & d1 & Hw & Hr).
  assert (d1 = d) as ->.
  { destruct (approvalPermitted ref a d); [by apply assertWriteRepos_ok in Hw as [_ ->]|by injection Hw]. }
  apply bind_ok in Hr as (held & d1 & Hh & Hr).
  destruct held as [e|]; [by injection Hr|].
  apply bind_ok in Hr as (r & d2 & Hp & [= <- <-]).
  assert (d1 = d ∧ (approvalPermitted ref a d = true → ∀ f, observedRiskResolver = Some f →
       ∃ o, f t d = Some (Some o) ∧ shouldEscalate o (risk_level t) = false)) as [-> Hrisk].
  { unfold auto_ship_hold in Hh. destruct (approvalPermitted ref a d); [|by injection Hh as <-].
    unfold enforceObservedRiskCeiling in Hh. destruct observedRiskResolver as [f|]; [|by injection Hh as <-].
    apply bind_ok in Hh as (t' & d3 & Ht' & Hh). rewrite Ht in Ht'. injection Ht' as <- <-.
    apply bind_ok in Hh as (o & d3 & [-> ->]%gets_ok & Hh).
    destruct (f t d) as [[o|]|] eqn:Ef; simpl in Hh;
      [|apply bind_ok in Hh as (? & ? & _ & [=])..].
    destruct (shouldEscalate o (risk_level t)) eqn:Es; [apply bind_ok in Hh as (? & ? & _ & [=])|].
    injection Hh as <-. split; [done|]. intros _ g [= <-]. eauto. }
  destruct (approve_permitted_ok _ _ _ _ _ _ _ Hwf Ht Hp) as (Hpass & Hto & Hev).
  exists t. split; [done|]. split; [done|]. split; [|done].
  unfold may_approve. destruct (human_or_admin a); [by left|]. right. simpl in Hwho. pose proof Hwho as Hwho'.
  unfold approvalPermitted in Hwho. apply andb_true_iff in Hwho as [H1%bool_decide_eq_true H2%orb_true_iff].
  split; [done|]. split; [done|]. by apply Hrisk.
Qed.


End approved.

(** ** Witnesses *)

Lemma shown_commits_order_witness :
  let b := mk_ReviewedHead "r2" "api" "gaffer/ticket-1" "bb" in
  let cs := [mk_ShownCommit (Some "app") sha1; mk_ShownCommit (Some "r2") "bb"] in
  approves (checkShownCommits [gate_head; b] human (mk_ApproveReviewOptions cs true) []) = true ∧
  approves (checkShownCommits [gate_head; b] human (mk_ApproveReviewOptions (rev cs) true) []) = true.
Proof.
  intros b cs. split; [vm_compute; reflexivity|].
  rewrite <- (shown_commits_order [gate_head; b] human cs (rev cs) true []).
  - vm_compute; reflexivity.
  - intros c h h' Hh Hh'. rewrite !elem_of_cons in Hh, Hh'.
    destruct Hh as [->|[->|Hh]]; [| |by apply not_elem_of_nil in Hh];
      (destruct Hh' as [->|[->|Hh']]; [| |by apply not_elem_of_nil in Hh']); try done;
      unfold matches; (destruct (sc_repo c) as [r|]; [|done]); simpl;
      intros [H1%bool_decide_eq_true|H1%bool_decide_eq_true]%orb_true_iff
             [H2%bool_decide_eq_true|H2%bool_decide_eq_true]%orb_true_iff; congruence.
  - apply Permutation_rev.
Defined.

Lemma gate_review_good : good gate_review.
Proof. exact (reachable_good _ gate_review_reachable). Qed.
Lemma approve_runs : ∃ res, approveReview "1" human shown gate_review = Ok (inr res) gate_approved.
Proof. eexists. vm_compute. reflexivity. Qed.
