(* ===== verification/SentBack.v ===== *)
(** * What a send-back does

    The functional behaviour of rejection on every branch: the attempt it
    counts, the retry cap, the hold of partly landed work, the criteria it
    reopens, the feedback it leaves; and that nothing whose change has landed
    is ever abandoned. *)
From S2P Require Import Prelude Json Types EventChain Store Policy Diff Transition Claims Tickets.
From S2P Require Import Pause Decisions Lifecycle Landing Autonomy Verdicts Review Approval Landings.
From S2P Require Import Replay Sendback Tester Life Refinement Simulation Gate Claiming System.
From S2P Require Import Demo GateDemo Approved.

(** Evidence and events: the tickets and criteria stay as they are. *)
Definition same_plan (d d' : db) : Prop :=
  tickets d' = tickets d ∧ acceptance_criteria d' = acceptance_criteria d ∧ clock_now d' = clock_now d.
#[export] Instance same_plan_preorder : PreOrder same_plan.
Proof. split; [by intros d|]. intros d d1 d2 (? & ? & ?) (? & ? & ?). repeat split; congruence. Qed.

Section sentback.
Context `{Env, ReviewDeps}.

Lemma writeEvent_plan et ei a ty pl co : evolves same_plan (writeEvent et ei a ty pl co).
Proof. by intros d r d' [= _ <-]. Qed.
Lemma ticket_event_plan id a ty pl : evolves same_plan (ticket_event id a ty pl).
Proof. apply writeEvent_plan. Qed.
Lemma newId_plan : evolves same_plan newId.
Proof. by intros d r d' [= _ <-]. Qed.
Lemma evidence_insert_plan e : evolves same_plan (evidence_insert e).
Proof. intros d r d'. unfold evidence_insert. destruct (_ || _ || _ || _); [done|]. by intros [= _ <-]. Qed.
#[local] Hint Resolve writeEvent_plan ticket_event_plan newId_plan evidence_insert_plan : gaffer.
Lemma recordRejectPins_plan t a ps n : evolves same_plan (recordRejectPins t a ps n).
Proof. unfold recordRejectPins, system_evidence, now. structural. Qed.
Lemma partlyLandedHold_plan t l q w a : evolves same_plan (partlyLandedHold t l q w a).
Proof. unfold partlyLandedHold. structural. Qed.
Lemma refuseCancel_ok t d x d' :
  refuseCancelOfLanded t d = Ok x d' → d' = d ∧ recordedLandingRepos (tk_id t) d = [] ∧
  ∀ l, l ∈ landingsStarted (tk_id t) d → st_landed l = false.
Proof.
  unfold refuseCancelOfLanded. intros Hr.
  apply bind_ok in Hr as (ls & d1 & [-> ->]%gets_ok & Hr).
  apply bind_ok in Hr as (c & d1 & [-> ->]%gets_ok & Hr).
  apply guard_ok in Hr as [Hr%bool_decide_eq_true ->]. split; [done|].
  assert (Hno : ∀ r, r ∉ recordedLandingRepos (tk_id t) d
            ++ (st_repo <$> filter (λ l, st_landed l = true) (landingsStarted (tk_id t) d))).
  { intros r Hin. apply (distinct_spec _) in Hin. rewrite <- (merge_sort_Permutation str_le) in Hin.
    rewrite Hr in Hin. by apply not_elem_of_nil in Hin. }
  split.
  - destruct (recordedLandingRepos (tk_id t) d) as [|r l]; [done|]. exfalso. apply (Hno r). by left.
  - intros l Hl. destruct (st_landed l) eqn:E; [|done]. exfalso. apply (Hno (st_repo l)).
    apply elem_of_app. right. apply list_elem_of_fmap. exists l. split; [done|]. by apply list_elem_of_filter.
Qed.
Lemma reset_ok k a d r d' t :
  tickets d !! k = Some t → resetAcceptanceCriteria k a d = Ok r d' →
  tickets d' = tickets d ∧
  acceptance_criteria d' = (λ c, if bool_decide (ac_ticket_id c = tk_id t) then ac_reset (clock_now d) c else c)
                             <$> acceptance_criteria d.
Proof.
  intros Ht Hr. unfold resetAcceptanceCriteria, inTransaction in Hr.
  apply bind_ok in Hr as (t' & d1 & Hres & Hr).
  assert (t' = t ∧ d1 = d) as [-> ->].
  { unfold resolveRef, tickets_resolveRef, tickets_findById, mbind, M_bind, gets, require in Hres.
    rewrite Ht in Hres. by injection Hres. }
  apply bind_ok in Hr as (n & d1 & [-> ->]%gets_ok & Hr).
  apply bind_ok in Hr as (m & d1 & [= _ <-] & Hr).
  apply bind_ok in Hr as (ev & d2 & [= _ <-] & [= _ <-]). done.
Qed.

(** ** The columns a transition of the gate leaves *)
Lemma moved_ticket_columns t a to why from p u diff fs n t0 :
  let t' := moved_ticket (gate_move t a to why from p u diff fs) n t0 in
  status t' = to ∧ attempt_count t' = (p ≫= p_attempt_count) ?? attempt_count t0 ∧ tk_id t' = tk_id t0 ∧
  number t' = number t0.
Proof.
  intros t'. unfold t', moved_ticket. destruct t0; simpl. destruct p; simpl; by repeat case_match.
Qed.
Lemma patch_attempt n w : (patch_of n w ≫= p_attempt_count) = n.
Proof. by destruct n, w. Qed.

(** What a rejection does to the ticket [t], which becomes [t']. *)
Record rejected (to : RejectTo) (reason : option string) (res : TransitionResult) (t t' : Ticket) (d d' : db) : Prop := {
  rejected_from : status t ∈ [InReview; ReadyForMerge];
  rejected_ticket : tickets d' !! tk_id t = Some t';
  rejected_number : tk_id t' = tk_id t ∧ number t' = number t;
  rejected_columns : (status t', attempt_count t') =
    (if bool_decide (to = ToCancelled) then (Cancelled, attempt_count t)
     else if bool_decide (recordedLandingRepos (tk_id t) d = []) then
       (if bool_decide (maxAttempts ≤ attempt_count t + 1)%Z then Blocked else reject_status to,
        (attempt_count t + 1)%Z)
     else (Blocked, attempt_count t));
  rejected_result : tk_id (result_ticket res) = tk_id t ∧ status (result_ticket res) = status t' ∧
    attempt_count (result_ticket res) = attempt_count t';
  rejected_cancel : to = ToCancelled → recordedLandingRepos (tk_id t) d = [] ∧
    ∀ l, l ∈ landingsStarted (tk_id t) d → st_landed l = false;
  rejected_feedback : (rf_reason <$> last_review_feedback t') = Some (reason_or reason "review_rejected");
  rejected_criteria i c : acceptance_criteria d' !! i = Some c → ac_ticket_id c = tk_id t →
    ac_status c = Pending ∧ verified_by c = None
}.
Lemma rejectReview_ok ref to a reason d res d' :
  good d → rejectReview ref to a reason d = Ok res d' →
  ∃ t t', resolveRef ref d = Ok t d ∧ rejected to reason res t t' d d'.
Proof.
  intros [Hwf _] Hr. unfold rejectReview, inTransaction in Hr.
  apply bind_ok in Hr as (hs & d1 & Hh & Hr).
  assert (d1 = d) as ->.
  { case_bool_decide; [by injection Hh|]. apply bind_ok in Hh as (t & d2 & Ht & [-> ->]%gets_ok).
    by apply resolveRef_ok in Ht as [-> _]. }
  apply bind_ok in Hr as (t & d1 & Ht & Hr).
  pose proof (resolveRef_ok _ _ _ _ Ht) as [-> Hk]. specialize (Hk Hwf).
  apply bind_ok in Hr as ([] & d1 & [Hs ->]%guard_ok & Hr).
  apply bind_ok in Hr as ([] & d1 & Hc & Hr).
  assert (d1 = d ∧ (to = ToCancelled → recordedLandingRepos (tk_id t) d = [] ∧
            ∀ l, l ∈ landingsStarted (tk_id t) d → st_landed l = false)) as [-> Hcan].
  { case_bool_decide; [by apply refuseCancel_ok in Hc as (-> & ? & ?)|]. by injection Hc. }
  apply bind_ok in Hr as (landed_ & d1 & [-> ->]%gets_ok & Hr).
  set (landed_ := if bool_decide (to = ToCancelled) then [] else _) in Hr.
  destruct (next_attempt _ t) as [n cap] eqn:En.
  apply bind_ok in Hr as (r & d1 & Htr & Hr).
  apply transition_ok in Htr as (t0 & pol & Ht0 & _ & -> & Eres); [|intros; by apply (wf_tickets d Hwf)].
  assert (t0 = t) as -> by (simpl in Ht0; congruence). clear Ht0.
  set (input := reject_transition t to a _ _ n cap) in Hr.
  apply bind_ok in Hr as ([] & d2 & H1 & Hr).
  apply bind_ok in Hr as ([] & d3 & H2 & Hr).
  apply bind_ok in Hr as ([] & d4 & H3 & Hr).
  assert (Hplan : same_plan (after_transition input t d) d4).
  { etrans; [|etrans; [|by eapply recordRejectPins_plan]].
    - refine (evolves_when same_plan _ _ _ _ _ _ H1). pose proof partlyLandedHold_plan. structural.
    - refine (evolves_when same_plan _ _ _ _ _ _ H2). structural. }
  destruct Hplan as (Et & Ea & Ec).
  apply bind_ok in Hr as (rs & d5 & Hreset & Hr).
  assert (Ht' : tickets d4 !! tk_id t = Some (moved_ticket input (clock_now d) t)).
  { rewrite Et. simpl. by rewrite lookup_insert_eq. }
  destruct (reset_ok _ _ _ _ _ _ Ht' Hreset) as [Et5 Ea5].
  apply bind_ok in Hr as (nw & d6 & [-> ->]%gets_ok & Hr).
  apply bind_ok in Hr as ([] & d6 & [= <-] & [= <- <-]).
  destruct (moved_ticket_columns t a (if cap || bool_decide (0 < length landed_)%nat then Blocked else reject_status to)
              (held_reason (bool_decide (0 < length landed_)%nat) cap (reason_or reason "review_rejected"))
              (status t) (patch_of (if negb (bool_decide (to = ToCancelled)) && negb (bool_decide (0 < length landed_)%nat)
                                    then Some n else None) (reviewerPatch t a)) None None
              (flags input) (clock_now d) t) as (C1 & C2 & C3 & C4).
  change (gate_move _ _ _ _ _ _ _ _ _) with input in C1, C2, C3, C4.
  exists t, (set_last_review_feedback (Some (mk_ReviewFeedback (reason_or reason "review_rejected") (actor_id a)
            (clock_now d5) None None None)) (moved_ticket input (clock_now d) t)).
  split; [done|]. split.
  - apply orb_true_iff in Hs as [Hs|Hs]; apply bool_decide_eq_true in Hs; rewrite Hs;
      apply (bool_decide_eq_true _); reflexivity.
  - simpl. unfold update_row. by rewrite lookup_alter_eq, Et5, Ht'.
  - by split.
  - simpl. rewrite C1, C2, patch_attempt. subst landed_. unfold next_attempt, capRetry in En.
    destruct (decide (to = ToCancelled)) as [->|Hto]; [by injection En as <- <-|].
    rewrite (bool_decide_false (to = ToCancelled)) in * by done. simpl in *.
    destruct (recordedLandingRepos (tk_id t) d) as [|x l]; simpl in *; injection En as <- <-; [|done].
    by case_bool_decide.
  - rewrite Eres. split; [exact C3|by split].
  - done.
  - done.
  - intros i c Hi Hci. simpl in Hi. rewrite Ea5, lookup_fmap, C3 in Hi.
    destruct (acceptance_criteria d4 !! i) as [c0|]; [|done]. simpl in Hi. injection Hi as <-.
    case_bool_decide as E; [done|]. by destruct E.
Qed.

End sentback.

