(* ===== verification/Merged.v ===== *)
(** * What a merge stands for

    A ticket is done only when every revision its approval covers has landed. *)
From S2P Require Import Prelude Json Types EventChain Store Policy Diff Transition Claims Tickets.
From S2P Require Import Pause Decisions Lifecycle Landing Autonomy Verdicts Review Approval Landings.
From S2P Require Import Replay Sendback Tester Life Refinement Simulation Gate Claiming System.
From S2P Require Import Demo GateDemo Approved SentBack.

Section merged.
Context `{Env, ReviewDeps}.

(** ** Landing status under the final transition *)

(** What the landing status of a ticket is computed from. *)
Lemma landing_row_same t t' repo sha p l d d' :
  tk_id t' = tk_id t → branch_name t' = branch_name t → ticket_repos d' = ticket_repos d →
  ticket_repo_delivery d' = ticket_repo_delivery d →
  landing_row t' repo sha p l d' = landing_row t repo sha p l d.
Proof. intros Hi Hb Hr Hd. unfold landing_row, repo_link, repoDeliveries_find. by rewrite Hi, Hb, Hr, Hd. Qed.
Lemma pinned_repos_same t t' e seen pins d d' :
  tk_id t' = tk_id t → branch_name t' = branch_name t → ticket_repos d' = ticket_repos d →
  ticket_repo_delivery d' = ticket_repo_delivery d → repositories d' = repositories d → evidence d' = evidence d →
  pinned_repos t' e seen pins d' = pinned_repos t e seen pins d.
Proof.
  intros Hi Hb Hr Hd Hp He. revert seen. induction pins as [|x pins IH]; intros seen; simpl; [done|].
  rewrite Hp. destruct (ev_repo_id x ≫= _) as [repo|]; [|done]. rewrite !IH.
  do 2 (case_match; [done|]). case_match; [|done]. unfold isLanded, landing_vias, landing_row, repo_link, repoDeliveries_find.
  by rewrite Hi, Hb, Hr, Hd, He.
Qed.
Lemma computeLanding_same k t t' d d' :
  tickets d !! k = Some t → tickets d' !! k = Some t' →
  tk_id t' = tk_id t → branch_name t' = branch_name t → ticket_repos d' = ticket_repos d →
  ticket_repo_delivery d' = ticket_repo_delivery d → repositories d' = repositories d → evidence d' = evidence d →
  off_path k d' = off_path k d → computeLandingStatus k d' = computeLandingStatus k d.
Proof.
  intros Ht Ht' Hi Hb Hr Hd Hp He Ho. unfold computeLandingStatus. rewrite Ht, Ht', Ho.
  assert (newest_evidence (system_commit k REVIEW_PIN_PREFIX) d' = newest_evidence (system_commit k REVIEW_PIN_PREFIX) d)
    as -> by (unfold newest_evidence; by rewrite He).
  rewrite (pinned_repos_same t t' _ _ _ d d') by done.
  assert (∀ l, unpinned_repos t' l d' = unpinned_repos t l d) as Hun; [|by rewrite Hun].
  intros l. unfold unpinned_repos. destruct l as [|x l]; [done|].
  unfold active_write_links, repos_accessLinksForTicket, repos_listForTicket, ticket_links. rewrite Hi, Hr, Hp.
  generalize (filter (λ l0, isActiveTicketRepoRelation (relation l0.1) = true ∧ access l0.1 = Write)
    (merge_sort link_le
      (omap (λ tr, if bool_decide (tr_ticket_id tr = tk_id t) then (λ r, (tr, r)) <$> repositories d !! tr_repo_id tr
                   else None) (ticket_repos d)))).
  intros ls. induction ls as [|y ls IH]; simpl; [done|]. rewrite (landing_row_same t t' _ _ _ _ d d') by done.
  case_bool_decide; [done|]. by f_equal.
Qed.

Lemma done_keeps_landing input t d :
  toStatus input = Done → patch input = None → tickets d !! tk_id t = Some t →
  computeLandingStatus (tk_id t) (after_transition input t d) = computeLandingStatus (tk_id t) d.
Proof.
  intros Hto Hpa Ht. eapply computeLanding_same; [done|simpl; by rewrite lookup_insert_eq|..]; try done.
  - unfold moved_ticket. rewrite Hto, Hpa. destruct t; simpl. by repeat case_match.
  - unfold moved_ticket. rewrite Hto, Hpa. destruct t; simpl. by repeat case_match.
  - unfold off_path, last_event. simpl. rewrite rev_app_distr. simpl.
    assert (transitioned_to (tk_id t) (λ s, negb (bool_decide (s ∈ APPROVAL_PATH)))
              (linked (work_events d) (transition_row input t d)) = false) as ->; [|done].
    unfold transitioned_to, linked, transition_row, event_row, payload_string, js_member, transition_payload.
    simpl. rewrite Hto. simpl. apply andb_false_intro2. reflexivity.
Qed.

Lemma filter_all {A} (P : A → bool) (l : list A) :
  (length l ≤ length (filter (λ x, P x = true) l))%nat → ∀ x, x ∈ l → P x = true.
Proof.
  induction l as [|y l IH]; intros Hl x Hx; [by apply not_elem_of_nil in Hx|].
  pose proof (length_filter (λ x, P x = true) l). destruct (P y) eqn:E.
  - rewrite filter_cons_True in Hl by done. simpl in Hl.
    apply elem_of_cons in Hx as [->|Hx]; [done|]. apply IH; [lia|done].
  - rewrite filter_cons_False in Hl by (by rewrite E). simpl in Hl. lia.
Qed.
Lemma nothing_pending k d :
  (pending (computeLandingStatus k d) ≤ 0)%Z →
  ∀ r, r ∈ landing_repos (computeLandingStatus k d) → landed r = true.
Proof.
  unfold computeLandingStatus. destruct (tickets d !! k) as [t|]; simpl; [|by intros _ r ?%not_elem_of_nil].
  intros Hp. apply filter_all. lia.
Qed.

End merged.

Lemma gate_landed_good : good gate_landed.
Proof. exact (reachable_good _ gate_landed_reachable). Qed.
