(* ===== verification/Tested.v ===== *)
(** * What a tester PASS stands for

    A PASS no person signs is verified: it carries the runner's clean replay,
    and on a gated ticket the commit, the contract and the evidence it is
    about. *)
From S2P Require Import Prelude Json Types EventChain Store Policy Diff Transition Claims Tickets.
From S2P Require Import Pause Decisions Lifecycle Landing Autonomy Verdicts Review Approval Landings.
From S2P Require Import Replay Sendback Tester Life Refinement Simulation Gate Claiming System.
From S2P Require Import Demo GateDemo Approved SentBack.

Section tested.
Context `{Env, ReviewDeps}.

Lemma checked_ok o f P e d x d' :
  checked o f P e d = Ok x d' → d' = d ∧ x = f <$> o ∧ (∀ s, x = Some s → P s = true).
Proof.
  destruct o as [s|]; simpl; [|by intros [= <- <-]].
  intros ([] & d1 & [Hp ->]%guard_ok & [= <- <-])%bind_ok. split; [done|]. split; [done|]. by intros ? [= <-].
Qed.

(** CI is required of a ticket, not of a commit. *)
Lemma ciStatus_required id c c' d : required (ciStatus id c d) = required (ciStatus id c' d).
Proof. unfold ciStatus. cbv zeta. destruct (negb _); [done|]. by destruct (ci_results id d). Qed.

(** What a validated binding has passed. *)
Record binding_valid (b : BindingInput) (strict : bool) (current : option string) (pass human : bool)
    (out : VerdictBinding) : Prop := {
  bv_commit : tested_commit out = (λ s, toLowerCase (trim s)) <$> bi_tested_commit b;
  bv_sha : ∀ c, tested_commit out = Some c → SHA_RE c = true;
  bv_replay : replay out = bi_replay b;
  bv_contract : ∀ h c, contract_hash out = Some h → given current = Some c → h = c;
  bv_strict : strict = true → pass = true → binding_missing out = [];
  bv_automated : pass = true → human = false → replay out = Some "passed"
}.
Lemma validatedBinding_ok b strict current pass human d out d' :
  validatedBinding b strict current pass human d = Ok out d' →
  d' = d ∧ binding_valid b strict current pass human out.
Proof.
  unfold validatedBinding. intros Hr.
  apply bind_ok in Hr as (c & d1 & (-> & Ec & Hc)%checked_ok & Hr).
  apply bind_ok in Hr as (h & d1 & (-> & Eh & Hh)%checked_ok & Hr).
  apply bind_ok in Hr as (r & d1 & (-> & Er & _)%checked_ok & Hr).
  apply bind_ok in Hr as (tc & d1 & (-> & Et & _)%checked_ok & Hr).
  apply bind_ok in Hr as ([] & d1 & Hm & Hr).
  assert (d1 = d ∧ ∀ x y, h = Some x → given current = Some y → x = y) as [-> Hcon].
  { clear Eh. destruct h as [x|]; [|by injection Hm as <-]. destruct (given current) as [y|]; [|by injection Hm as <-].
    apply guard_ok in Hm as [Hm%bool_decide_eq_true ->]. split; [done|]. by intros ? ? [= <-] [= <-]. }
  apply bind_ok in Hr as ([] & d1 & [Hs ->]%guard_ok & Hr).
  apply bind_ok in Hr as ([] & d1 & [Ha ->]%guard_ok & [= <- <-]).
  split; [done|]. split; simpl; try done.
  - rewrite Er. by destruct (bi_replay b).
  - intros -> ->. simpl in Hs. by apply bool_decide_eq_true in Hs.
  - intros -> ->. simpl in Ha. by apply bool_decide_eq_true in Ha.
Qed.

(** The runner's record that a profiled ticket's change was run and held. *)
Record runner_evidence (t : Ticket) (binding : VerdictBinding) (e : Evidence) : Prop := {
  re_ticket : ev_ticket_id e = tk_id t;
  re_system : recorded_by_actor_type e = Some "system";
  re_profile : is_text (profile_name (contractProfile (test_contract t)))
                 (js_member "profile" (ev_payload e ?? JSObj [])) = true;
  re_passed : is_true (js_member "passed" (ev_payload e ?? JSObj [])) = true;
  re_cases : cases_of (ev_payload e ?? JSObj []) ≠ [] ∧ ∀ c, c ∈ cases_of (ev_payload e ?? JSObj []) → case_held c = true;
  re_commit : tested_commit binding = Some (String_ (js_member "tested_commit" (ev_payload e ?? JSObj [])))
}.
Lemma record_refusal_none t binding cur e :
  ev_ticket_id e = tk_id t →
  record_refusal (contractProfile (test_contract t)) binding cur e = None → runner_evidence t binding e.
Proof.
  intros Hid. unfold record_refusal. intros Hn.
  destruct (runner_record e) eqn:E1; [|done]. destruct (is_text _ (js_member "profile" _)) eqn:E2; [|done].
  destruct (is_true (js_member "passed" _)) eqn:E3; [|done]. simpl in Hn.
  destruct (bool_decide (length _ = 0%nat) || _) eqn:E4; [done|].
  apply orb_false_iff in E4 as [E4%bool_decide_eq_false E5%negb_false_iff].
  destruct (bool_decide (given _ = None) || _) eqn:E6; [done|].
  apply orb_false_iff in E6 as [_ E6%negb_false_iff%bool_decide_eq_true].
  apply andb_true_iff in E1 as [E1%bool_decide_eq_true _].
  split; try done. split; [by intros Ez; rewrite Ez in E4|]. intros c Hc.
  rewrite forallb_forall in E5. by apply E5, list_elem_of_In.
Qed.
Lemma acceptanceEvidence_ok t eid binding cur d x :
  assertAcceptanceEvidence t eid binding cur d = inr x →
  contractProfile (test_contract t) ≠ PUnit →
  contractProfile (test_contract t) ∈ EXECUTABLE_PROFILES ∧ ∃ e, e ∈ evidence d ∧ runner_evidence t binding e.
Proof.
  unfold assertAcceptanceEvidence. intros Ha Hne. rewrite (bool_decide_false (_ = PUnit)) in Ha by done.
  case_bool_decide as Hx; [|done]. simpl in Ha. split; [done|]. destruct (given eid) as [id|]; [|done].
  destruct (find _ (evidence d)) as [e|] eqn:Ef; [|done].
  apply find_some in Ef as [Hin [E1%bool_decide_eq_true _]%andb_true_iff].
  destruct (record_refusal _ _ _ e) eqn:Er; [done|]. exists e. split; [by apply list_elem_of_In|].
  by eapply record_refusal_none.
Qed.

End tested.

(** The acceptance ticket the runner routed, and the tester's verdict on it. *)
Definition gate_contract : string := contractHash "u0" gate_testing ?? "".
Definition verdict : TesterPassInput :=
  mk_TesterPassInput "all green" None
    (mk_BindingInput (Some sha1) (Some gate_contract) (Some "passed") None) None None None.
Lemma gate_testing_good : good gate_testing.
Proof. exact (reachable_good _ gate_testing_reachable). Qed.
