(* ===== verification/History.v ===== *)
(** * The audit log tells the truth

    Every operation only appends to [work_events]; what it appends keeps the
    hash chain verified and replays, edge by allowed edge, to the statuses the
    tickets have. *)
From S2P Require Import Prelude Json Types EventChain Store Policy Diff Transition Claims Tickets.
From S2P Require Import Pause Decisions Lifecycle Life Refinement Simulation Changes Claiming System Frames.
From S2P Require Import Demo.

(** ** Replaying a log *)

Section replay.
Context (k : string).

(** One row's effect on the status of ticket [k] ([None] before it exists);
    the outer [None] is a row that does not continue the history. *)
Definition replay_row (s : option string) (r : ChainRow) : option (option string) :=
  if bool_decide (EventChain.entity_type r = "ticket") && bool_decide (EventChain.entity_id r = k) then
    if bool_decide (EventChain.event_type r = "ticket.created") then
      match s with None => Some (Some "draft") | Some _ => None end
    else if bool_decide (EventChain.event_type r = "ticket.transitioned") then
      match payload_string "from" r, payload_string "to" r with
      | Some from, Some to =>
          if bool_decide (s = Some from) && bool_decide (from +:+ "->" +:+ to ∈ ALLOWED)
          then Some (Some to) else None
      | _, _ => None
      end
    else Some s
  else Some s.
Fixpoint replay (s : option string) (log : list ChainRow) : option (option string) :=
  match log with
  | [] => Some s
  | r :: log => match replay_row s r with Some s' => replay s' log | None => None end
  end.
Lemma replay_app s log log' :
  replay s (log ++ log') = match replay s log with Some s' => replay s' log' | None => None end.
Proof. revert s. induction log as [|r log IH]; intros s; simpl; [done|]. by destruct (replay_row s r). Qed.
End replay.

Definition status_at (d : db) (k : string) : option string :=
  status_name ∘ status <$> tickets d !! k.

Section audit.
Context `{Env}.

(** What one operation does to the log. *)
Definition logged (d d' : db) : Prop :=
  keyed d → keyed d' ∧ ∃ new, work_events d' = work_events d ++ new ∧
    (∀ k, replay k (status_at d k) new = Some (status_at d' k)) ∧
    (∀ h, chained sha256_hex EVENT_CHAIN_GENESIS (work_events d) h →
       ∃ h', chained sha256_hex EVENT_CHAIN_GENESIS (work_events d') h').
#[global] Instance logged_preorder : PreOrder logged.
Proof.
  split.
  - intros d Hk. split; [done|]. exists []. rewrite app_nil_r. split; [done|]. split; [done|eauto].
  - intros d d1 d2 H1 H2 Hk. destruct (H1 Hk) as (Hk1 & n1 & E1 & R1 & C1).
    destruct (H2 Hk1) as (Hk2 & n2 & E2 & R2 & C2). split; [done|]. exists (n1 ++ n2).
    split; [by rewrite E2, E1, app_assoc|]. split.
    + intros k. by rewrite replay_app, R1.
    + intros h (h1 & Hh)%C1. eauto.
Qed.

(** Writes that keep every status and the log. *)
Definition keeps_status (d d' : db) : Prop :=
  work_events d' = work_events d ∧
  ∀ k, (tickets d' !! k = None ∧ tickets d !! k = None) ∨
    ∃ t t', tickets d' !! k = Some t' ∧ tickets d !! k = Some t ∧ tk_id t' = tk_id t ∧ status t' = status t.
Lemma keeps_logged d d' : keeps_status d d' → logged d d'.
Proof.
  intros [He Hs] Hk.
  assert (Hsame : ∀ k, status_at d' k = status_at d k).
  { intros k. unfold status_at. destruct (Hs k) as [[-> ->]|(t & t' & -> & -> & _ & E)]; [done|].
    simpl. by rewrite E. }
  split.
  - intros k t' Ht'. destruct (Hs k) as [[? _]|(t & t1 & E1 & E2 & E3 & _)]; [congruence|].
    rewrite E1 in Ht'. injection Ht' as <-. rewrite E3. by apply Hk.
  - exists []. rewrite app_nil_r, He. split; [done|]. split; [intros k; by rewrite Hsame|eauto].
Qed.
Lemma same_tables_keeps d d' : tickets d' = tickets d → work_events d' = work_events d → keeps_status d d'.
Proof.
  intros Ht He. split; [done|]. intros k. rewrite Ht. destruct (tickets d !! k) as [t|]; [right|by left].
  by exists t, t.
Qed.
Lemma same_tables_logged d d' : tickets d' = tickets d → work_events d' = work_events d → logged d d'.
Proof. intros. by apply keeps_logged, same_tables_keeps. Qed.

(** Appending one linked row. *)
Lemma append_chained log row h :
  chained sha256_hex EVENT_CHAIN_GENESIS log h →
  ∃ h', chained sha256_hex EVENT_CHAIN_GENESIS (log ++ [linked log row]) h'.
Proof.
  intros Hc. pose proof (latest_of_genesis_chained sha256_hex _ _ Hc) as Hl. unfold linked. rewrite Hl.
  eexists. eapply chained_snoc; [done|]. apply links_set_hashes.
Qed.

Lemma replay_quiet k s r :
  quiet (EventChain.entity_type r) (EventChain.event_type r) = true → replay_row k s r = Some s.
Proof.
  unfold quiet, replay_row. destruct (bool_decide (_ = "ticket")), (bool_decide (_ = k)); simpl; try done.
  destruct (bool_decide (_ = "ticket.created")), (bool_decide (_ = "ticket.transitioned")); done.
Qed.

Lemma writeEvent_logged et ei a ty pl co :
  quiet et ty = true → evolves logged (writeEvent et ei a ty pl co).
Proof.
  intros Hq d r d' [= _ <-] Hk. split; [done|].
  set (row := event_row _ _ _ _ _ _ _ _). exists [linked (work_events d) row]. split; [done|]. split.
  - intros k. simpl. by rewrite replay_quiet.
  - intros h. apply append_chained.
Qed.
Lemma ticket_event_logged id a ty pl : quiet "ticket" ty = true → evolves logged (ticket_event id a ty pl).
Proof. apply writeEvent_logged. Qed.

Lemma payload_string_js k s r ms :
  payload r = Some (JSObj ms) → snd <$> head (filter (λ m : string * js, m.1 = k) ms) = Some (JSStr s) →
  payload_string k r = Some s.
Proof. intros Hp Hm. unfold payload_string. rewrite Hp. cbn [mbind option_bind]. unfold js_member. by rewrite Hm. Qed.

Lemma replay_transition k s r from to :
  EventChain.entity_type r = "ticket" → EventChain.event_type r = "ticket.transitioned" →
  payload_string "from" r = Some from → payload_string "to" r = Some to →
  replay_row k s r =
    if bool_decide (EventChain.entity_id r = k) then
      if bool_decide (s = Some from) && bool_decide (from +:+ "->" +:+ to ∈ ALLOWED)
      then Some (Some to) else None
    else Some s.
Proof. unfold replay_row. by intros -> -> -> ->. Qed.

(** A transition appends exactly the edge it took. *)
Lemma transition_logged input : evolves logged (transition input).
Proof.
  intros d res d' Hr Hk. apply transition_ok in Hr as (t & pol & Ht & Hc & -> & _); [|by apply Hk].
  apply checks_permit in Hc as [Hp _]. apply permitted_edge in Hp. apply bool_decide_eq_true in Hp.
  pose proof (Hk _ _ Ht) as Hid. destruct (moved_ticket_life input (clock_now d) t false None) as [Hmid Hml].
  injection Hml as Hms _ _. split.
  - intros i x. simpl. intros [[<- <-]|[_ Hi]]%lookup_insert_Some; [done|by apply Hk].
  - exists [linked (work_events d) (transition_row input t d)]. split; [done|]. split.
    2: { intros h. apply append_chained. }
    intros k. cbn [replay].
    erewrite replay_transition; [|reflexivity..]. unfold status_at.
    change (EventChain.entity_id (linked _ _)) with (tk_id t). rewrite Hid.
    assert (Hts : tickets (after_transition input t d)
                  = <[ticketId input := moved_ticket input (clock_now d) t]> (tickets d))
      by (by rewrite <- Hid).
    rewrite Hts. case_bool_decide as Hik; [subst k|].
    + rewrite lookup_insert_eq, Ht. simpl. rewrite Hms.
      rewrite (bool_decide_true (Some _ = Some _)) by done. by rewrite bool_decide_true.
    + by rewrite lookup_insert_ne.
Qed.

Lemma update_row_logged k f d :
  (∀ t, tk_id (f t) = tk_id t ∧ status (f t) = status t) →
  logged d (set_tickets (update_row k f (tickets d)) d).
Proof.
  intros Hf. apply keeps_logged. split; [done|]. intros j. unfold update_row. simpl.
  destruct (decide (j = k)) as [->|Hne].
  - rewrite lookup_alter_eq. destruct (tickets d !! k) as [t|]; [right|by left].
    exists t, (f t). by destruct (Hf t).
  - rewrite lookup_alter_ne by done. destruct (tickets d !! j) as [t|]; [right|by left]. by exists t, t.
Qed.
(** A ticket's history starts with the row that created it. *)
Lemma create_logged t u a pl r d d1 d' :
  status t = Draft → tickets_insert t d = Ok u d1 →
  ticket_event (tk_id t) a "ticket.created" pl d1 = Ok r d' → logged d d'.
Proof.
  intros Hs. unfold tickets_insert. destruct (tickets d !! tk_id t) eqn:Hnone; [done|].
  destruct (match number t with Some _ => _ | None => _ end); [done|]. intros [= _ <-] [= _ <-] Hk. split.
  - intros i x. simpl. intros [[<- <-]|[_ Hi]]%lookup_insert_Some; [done|by apply Hk].
  - set (row := event_row _ _ _ _ _ _ _ _). exists [linked (work_events d) row].
    split; [done|]. split; [|intros h; apply append_chained].
    intros k. cbn [replay]. unfold replay_row.
    change (EventChain.entity_type (linked _ _)) with "ticket".
    change (EventChain.event_type (linked _ _)) with "ticket.created".
    change (EventChain.entity_id (linked _ _)) with (tk_id t).
    rewrite (bool_decide_true ("ticket" = "ticket")) by done.
    rewrite (bool_decide_true ("ticket.created" = "ticket.created")) by done.
    unfold status_at. simpl. case_bool_decide as Hik; [subst k|].
    + rewrite Hnone, lookup_insert_eq. simpl. by rewrite Hs.
    + by rewrite lookup_insert_ne.
Qed.
Lemma assign_logged r p n d t d' d1 ok :
  resolveRef r d = Ok t d1 →
  tickets_updateStatus (tk_id t) (status t) (row_version t) p n d1 = Ok ok d' → logged d d'.
Proof.
  intros Hr Hu Hk. destruct (assign_same _ _ _ _ _ _ _ _ Hk Hr Hu) as [->|[Ht ->]].
  { by apply same_tables_logged. }
  revert Hk. apply keeps_logged. split; [done|]. intros j. simpl. destruct (decide (j = tk_id t)) as [->|Hne].
  - rewrite lookup_insert_eq. right. by exists t, (status_updated (status t) p n t).
  - rewrite lookup_insert_ne by done. destruct (tickets d !! j) as [t0|]; [right|by left]. by exists t0, t0.
Qed.

(** Every call respects [logged]. *)
#[global] Instance logged_frame : CallFrame logged.
Proof.
  split; [apply _|intros d d' Ht He _; by apply same_tables_logged|apply writeEvent_logged|apply transition_logged| | |].
  - intros k f d Hf. apply update_row_logged. intros t. by destruct (Hf t) as (? & ? & _).
  - apply assign_logged.
  - intros t u a pl r d d1 d' Hs _. by apply create_logged.
Qed.
#[global] Instance logged_edit_frame : EditFrame logged.
Proof.
  split; [apply _| |apply same_tables_logged].
  intros k f d Hf. apply update_row_logged. intros t. by destruct (Hf t) as (? & ? & _).
Qed.
End audit.
Section theorems.
Context `{Env}.

(** the log is append-only and complete.  A committed call, of the review
    gate, an edit or any other, only appends to [work_events], and replaying
    what it appended on a ticket's status before the call, edge by allowed
    edge, gives exactly its status after: no status change is unrecorded and no
    recorded change is untrue. *)
Theorem calls_append_history d d' :
  good d → step d d' →
  ∃ new, work_events d' = work_events d ++ new ∧
    ∀ k, replay k (status_at d k) new = Some (status_at d' k).
Proof.
  intros [Hwf _] Hs. destruct (step_frame logged d d' Hs (wf_tickets d Hwf)) as (_ & new & He & Hrep & _).
  by exists new.
Qed.

(** C13: tamper evidence end to end.  Whatever the calls, a log that started
    empty verifies: every row is hashed and linked to the one before it; and
    the log alone determines the status of every ticket. *)
Theorem reachable_log_verifies d0 d :
  initial d0 → work_events d0 = [] → rtc step d0 d →
  ok (verifyEventChain sha256_hex (work_events d)) = true ∧
  ∀ k, replay k None (work_events d) = Some (status_at d k).
Proof.
  intros (Ht & _ & _) He Hs.
  assert (Hl : logged d0 d).
  { by apply (steps_frame logged). }
  destruct Hl as (_ & new & En & Hrep & Hc); [by intros i t; rewrite Ht|].
  rewrite He in En. simpl in En. rewrite En. split.
  - rewrite He in Hc. destruct (Hc _ (chained_nil _ _)) as [h Hh]. rewrite En in Hh.
    unfold verifyEventChain. by rewrite (verify_from_chained _ _ _ _ _ Hh).
  - intros k. rewrite <- Hrep. f_equal. unfold status_at. by rewrite Ht.
Qed.
End theorems.

Lemma calls_append_history_witness :
  ∃ new, work_events demo_claimed = work_events demo_ready ++ new ∧
    ∀ k, replay k (status_at demo_ready k) new = Some (status_at demo_claimed k).
Proof.
  apply (calls_append_history demo_ready demo_claimed).
  - exact (reachable_good _ demo_ready_reachable).
  - apply (step_call (ClaimNext (mk_ClaimNextInput "u2" 60)) coder). vm_compute; reflexivity.
Defined.

Lemma demo_resumed_steps : rtc step demo_start demo_resumed.
Proof.
  unfold demo_resumed, demo_continued, demo_paused, demo_claimed, demo_ready, demo_draft.
  do 7 refine (exec_steps _ _ _ _ _). apply rtc_refl.
Qed.
Lemma reachable_log_verifies_witness :
  ok (verifyEventChain sha256_hex (work_events demo_resumed)) = true ∧
  ∀ k, replay k None (work_events demo_resumed) = Some (status_at demo_resumed k).
Proof.
  apply (reachable_log_verifies demo_start demo_resumed).
  - repeat split.
  - reflexivity.
  - exact demo_resumed_steps.
Defined.
