(* ===== verification/Leases.v ===== *)
(** * Claims, functionally

    Who may claim what, what a successful claim leaves behind, how long a
    lease lasts, and that a lapsed one is powerless. *)
From S2P Require Import Prelude Json Types EventChain Store Policy Diff Transition Claims Tickets.
From S2P Require Import Pause Decisions Lifecycle Life Refinement Simulation Claiming System Demo.

(** ** Eligibility *)

(** What the candidate query promises about a ticket, in words of the domain:
    [nowIso] is the instant of the query, [maxRisk] and [caps] the agent's. *)
Record eligible (nowIso : instant) (maxRisk : Z) (caps : list string) (d : db) (t : Ticket) : Prop := {
  el_state : status t = Ready ∨
    ((status t = Claimed ∨ status t = InProgress) ∧
     ∃ i c, ticket_claims d !! i = Some c ∧ cl_ticket_id c = tk_id t ∧ cl_status c = Active ∧
       (expires_at c ≤ nowIso)%Z);
  el_human : human_owner t = None;
  el_schedule : ∀ s, scheduled_after t = Some s → (s ≤ nowIso)%Z;
  el_risk : (riskRank (risk_level t) ≤ maxRisk)%Z;
  el_caps : ∀ c, (tk_id t, c) ∈ ticket_required_capabilities d → c ∈ caps;
  el_decisions : ∀ td x, td ∈ ticket_decisions d → td_ticket_id td = tk_id t → td_relation td = "blocks" →
    decisions d !! td_decision_id td = Some x → decision_resolved (de_status x) = true;
  el_deps : ∀ x t', x ∈ ticket_dependencies d → dep_ticket_id x = tk_id t →
    tickets d !! depends_on_ticket_id x = Some t' → status t' = Done;
  el_unclaimed : ∀ i c, ticket_claims d !! i = Some c → cl_ticket_id c = tk_id t →
    cl_status c = Active → (expires_at c ≤ nowIso)%Z
}.

Lemma expired_claims_spec k n d :
  expired_claims k n d ≠ [] ↔
  ∃ i c, ticket_claims d !! i = Some c ∧ cl_ticket_id c = k ∧ cl_status c = Active ∧ (expires_at c ≤ n)%Z.
Proof.
  unfold expired_claims, order_by. split.
  - intros Hne. destruct (merge_sort _ _) as [|c l] eqn:E; [done|].
    assert (Hin : c ∈ c :: l) by (apply elem_of_cons; by left).
    rewrite <- E, merge_sort_Permutation in Hin.
    apply list_elem_of_filter in Hin as [(? & ? & ?) [i Hi]%rows_spec]. eauto 8.
  - intros (i & c & Hi & Hk & Ha & He) E.
    assert (Hin : c ∈ ([] : list TicketClaim)); [|by apply not_elem_of_nil in Hin].
    rewrite <- E, merge_sort_Permutation. apply list_elem_of_filter. split; [done|]. apply rows_spec. eauto.
Qed.

Lemma forallb_spec {A} (f : A → bool) l : forallb f l = true ↔ ∀ x, x ∈ l → f x = true.
Proof. rewrite forallb_forall. by setoid_rewrite list_elem_of_In. Qed.

Lemma existsb_none {A} (f : A → bool) l : existsb f l = false ↔ ∀ x, x ∈ l → f x = false.
Proof.
  rewrite <- not_true_iff_false, existsb_true. split.
  - intros Hn x Hx. destruct (f x) eqn:E; [|done]. destruct Hn. eauto.
  - intros Hf (x & Hx & E). rewrite (Hf x Hx) in E. discriminate.
Qed.

Lemma required_capabilities_spec k d c :
  c ∈ required_capabilities k d ↔ (k, c) ∈ ticket_required_capabilities d.
Proof.
  unfold required_capabilities. rewrite list_elem_of_fmap. setoid_rewrite list_elem_of_filter. split.
  - intros ([k' c'] & -> & [Hk Hin]). simpl in *. by subst.
  - intros Hin. by exists (k, c).
Qed.

Lemma no_blockers k d :
  decisions_blockingForTicket k d = [] ↔
  ∀ td x, td ∈ ticket_decisions d → td_ticket_id td = k → td_relation td = "blocks" →
    decisions d !! td_decision_id td = Some x → decision_resolved (de_status x) = true.
Proof.
  unfold decisions_blockingForTicket, decisions_linked. split.
  - intros E td x Hin Hk Hr Hx. destruct (decision_resolved (de_status x)) eqn:Hres; [done|].
    assert (Hm : x ∈ ([] : list Decision)); [|by apply not_elem_of_nil in Hm].
    rewrite <- E. apply list_elem_of_filter. split; [done|]. apply list_elem_of_omap. exists td.
    split; [done|]. by rewrite bool_decide_true.
  - intros Hall. destruct (filter _ _) as [|x l] eqn:E; [done|].
    assert (Hm : x ∈ x :: l) by (apply elem_of_cons; by left). rewrite <- E in Hm.
    apply list_elem_of_filter in Hm as [Hres (td & Hin & Hx)%list_elem_of_omap].
    case_bool_decide as Hb; [|done]. destruct Hb as [Hk Hr]. rewrite (Hall td x Hin Hk Hr Hx) in Hres. done.
Qed.

Lemma claimable_spec n m caps d t :
  claimable n m caps d t = true ↔ eligible n m caps d t.
Proof.
  unfold claimable. rewrite !andb_true_iff, !orb_true_iff, andb_true_iff, !bool_decide_eq_true.
  rewrite forallb_spec, expired_claims_spec, no_blockers, !negb_true_iff.
  unfold deps_hasUnsatisfiedDependencies, has_live_claim. rewrite !existsb_none.
  setoid_rewrite rows_spec. unfold is_active. split.
  - intros (((((((H1 & H2) & H3) & H4) & H5) & H6) & H7) & H8). split; try done.
    + intros s Hs. rewrite Hs in H3. by apply bool_decide_eq_true in H3.
    + intros c Hc%required_capabilities_spec%H5. by apply bool_decide_eq_true in Hc.
    + intros x t' Hin Hk Ht'. specialize (H7 x Hin). rewrite bool_decide_true in H7 by done. simpl in H7.
      rewrite Ht' in H7. apply negb_false_iff in H7. by apply bool_decide_eq_true in H7.
    + intros i c Hi Hk Ha. specialize (H8 c ltac:(eauto)).
      rewrite !(bool_decide_true (_ = _)) in H8 by done. simpl in H8. apply bool_decide_eq_false in H8. lia.
  - intros [H1 H2 H3 H4 H5 H6 H7 H8]. split_and!; try done.
    + destruct (scheduled_after t); [|done]. apply bool_decide_eq_true. by apply H3.
    + intros c Hc%required_capabilities_spec%H5. by apply bool_decide_eq_true.
    + intros x Hin. case_bool_decide as Hk; [|done]. simpl.
      destruct (tickets d !! _) as [t'|] eqn:Ht'; [|done]. rewrite bool_decide_true; [done|]. by eapply H7.
    + intros c [i Hi]. case_bool_decide as Hk; [|done]. case_bool_decide as Ha; [|done]. simpl.
      apply bool_decide_eq_false. specialize (H8 i c Hi Hk Ha). lia.
Qed.

(** ** The queue *)

#[export] Instance queue_le_total : Total queue_le.
Proof. intros x y. unfold queue_le. lia. Qed.
#[export] Instance queue_le_trans : Transitive queue_le.
Proof. intros x y z. unfold queue_le. lia. Qed.

Lemma queue_exact nowIso criteria d :
  well_formed d →
  let caps := bound_capabilities nul_none (capabilities criteria) in
  StronglySorted queue_le (claims_candidateTickets nowIso criteria d) ∧
  ∀ k, k ∈ cr_id <$> claims_candidateTickets nowIso criteria d ↔
    ∃ t, tickets d !! k = Some t ∧ eligible nowIso (maxRiskRank criteria) caps d t.
Proof.
  intros Hwf. simpl. split; [apply StronglySorted_merge_sort; apply _|]. intros k.
  unfold claims_candidateTickets. rewrite list_elem_of_fmap. setoid_rewrite merge_sort_Permutation.
  setoid_rewrite list_elem_of_fmap. setoid_rewrite list_elem_of_filter.
  setoid_rewrite claimable_spec. setoid_rewrite rows_spec. split.
  - intros (row & -> & (t & -> & He & [i Hi])). exists t. split; [|done].
    simpl. by rewrite (wf_tickets d Hwf i t Hi).
  - intros (t & Ht & He). eexists. split; [|exists t; split; [reflexivity|]; split; [done|eauto]].
    simpl. by rewrite (wf_tickets d Hwf k t Ht).
Qed.

(** C34: the claim queue.  The candidates offered to an agent are exactly the
    eligible tickets, highest priority first and oldest first among equals:
    nothing eligible is starved and nothing ineligible (taken by hand,
    scheduled, too risky, short of a capability, blocked by an open decision or
    an unfinished dependency, or leased) is offered. *)
Theorem candidateTickets_spec nowIso criteria d :
  well_formed d →
  let caps := bound_capabilities nul_none (capabilities criteria) in
  StronglySorted queue_le (claims_candidateTickets nowIso criteria d) ∧
  ∀ k, k ∈ cr_id <$> claims_candidateTickets nowIso criteria d ↔
    ∃ t, tickets d !! k = Some t ∧ eligible nowIso (maxRiskRank criteria) caps d t.
Proof. apply queue_exact. Qed.

(** ** A successful claim *)

Section claims.
Context `{Env}.

(** What a granted lease looks like: the ticket is claimed and the active
    claim on it is the agent's, under the token's hash, for [ttl] seconds. *)
Definition lease_granted (agentId : string) (ttlSeconds : Z) (nowIso : instant) (r : ClaimResult)
    (d' : db) : Prop :=
  (∃ t, tickets d' !! res_ticketId r = Some t ∧ status t = Claimed) ∧
  ∃ i c, ticket_claims d' !! i = Some c ∧ cl_status c = Active ∧
    cl_ticket_id c = res_ticketId r ∧ cl_agent_id c = agentId ∧
    claim_token_hash c = hashClaimToken (res_claimToken r) ∧
    expires_at c = isoPlusSeconds ttlSeconds nowIso ∧ heartbeat_at c = nowIso.

Lemma same_core_granted ag ttl n r d d' : same_core d d' → lease_granted ag ttl n r d → lease_granted ag ttl n r d'.
Proof. unfold lease_granted. by intros (-> & -> & _). Qed.

Lemma attemptClaim_granted c ag ttl a n d r d' :
  good d → candidate_ok d c → attemptClaim c ag ttl a n d = Ok (Some r) d' →
  res_ticketId r = cr_id c ∧ lease_granted (ag_id ag) ttl n r d'.
Proof.
  unfold attemptClaim. intros Hg Hc Hr. run_step Hr.
  destruct (reap_sim _ _ _ _ _ _ Hrun Hc Hg) as [Hg1 _]. clear Hrun Hg Hc.
  destruct a0; [discriminate|]. run_step Hr. run_step Hr.
  apply newClaimToken_core in Hrun. apply newId_core in Hrun0. rename a0 into tok, a1 into id.
  assert (Hg2 : good s1) by (refine (proj1 (sim_same s s1 _ Hg1)); by etrans). clear Hg1 Hrun Hrun0.
  run_step Hr. apply catch_ok in Hrun as [Hins|(e & _ & Hins)].
  2: { destruct (isUniqueConstraint e); [|discriminate]. injection Hins as <- <-. discriminate. }
  apply bind_ok in Hins as (u & s3 & Hins & [= <- <-]). simpl in Hr. run_step Hr.
  destruct (acts_insert_claim (new_claim id (cr_id c) (ag_id ag) tok ttl n) _ _ _
    (proj1 Hg2) eq_refl Hins) as (_ & _ & -> & H1). simpl in H1.
  apply catch_ok in Hrun as [Hmv|(e & _ & Hmv)].
  2: { run_step Hmv. run_step Hrun. destruct (_ || _) in Hmv; [injection Hmv as <- <-; discriminate|discriminate]. }
  apply bind_ok in Hmv as (tr & s5 & Htr & [= <- <-]). simpl in Hr.
  destruct (transition_acts _ _ _ _ (acts_wf _ _ _ _ H1) Htr) as (t & Ht & _ & _ & _ & Hcl & H2).
  simpl in Ht, Hcl, H2. specialize (Hcl eq_refl). run_steps Hr. apply ticket_event_core in Hrun0.
  unfold tickets_findById in Hrun. pose proof (wf_tickets _ (acts_wf _ _ _ _ H2) _ _ Hrun) as Hid.
  split; [done|]. apply (same_core_granted _ _ _ _ _ _ Hrun0). unfold lease_granted. simpl. rewrite Hid. split.
  - exists a0. split; [done|]. pose proof (proj1 (proj2 H2)) as Hl. rewrite (proj1 (proj2 H1)) in Hl.
    unfold life_of at 1 in Hl. rewrite Hrun in Hl. unfold life_of in Hl.
    destruct (tickets s1 !! cr_id c); [|done]. by injection Hl.
  - exists id. eexists. split; [rewrite Hcl; simpl; by rewrite lookup_insert_eq|]. done.
Qed.

Lemma claim_first_granted cs ag ttl a n d r d' :
  good d → Forall (candidate_ok d) cs → claim_first cs ag ttl a n d = Ok (Some r) d' →
  res_ticketId r ∈ cr_id <$> cs ∧ lease_granted (ag_id ag) ttl n r d'.
Proof.
  revert d. induction cs as [|c cs IH]; intros d Hg Hcs Hr; [discriminate|].
  apply Forall_cons in Hcs as [Hc Hcs]. simpl in Hr. run_step Hr. destruct a0 as [r0|].
  - injection Hr as -> ->. destruct (attemptClaim_granted _ _ _ _ _ _ _ _ Hg Hc Hrun) as [-> Hl].
    split; [|done]. simpl. apply elem_of_cons. by left.
  - destruct (attemptClaim_sim _ _ _ _ _ _ _ _ Hrun Hc Hg) as [Hg1 _].
    destruct (IH s Hg1) as [Hin Hl]; [|done|].
    + eapply Forall_impl; [done|]. intros c'. eapply candidate_ok_kept. by eapply attemptClaim_kept.
    + split; [|done]. simpl. apply elem_of_cons. by right.
Qed.

(** The agent's view of the tables is not changed by stamping its row. *)
Lemma eligible_agent_ok agentId n d ag d1 :
  eligible_agent agentId n d = Ok ag d1 →
  agents d !! agentId = Some ag ∧ ag_status ag = AgentActive ∧
  d1 = agents_touchLastSeen (ag_id ag) n d.
Proof.
  unfold eligible_agent. intros Hr. run_steps Hr. apply bool_decide_eq_true in Hrun0. done.
Qed.
Lemma eligible_touch n' m caps k n d t : eligible n' m caps (agents_touchLastSeen k n d) t ↔ eligible n' m caps d t.
Proof. split; intros [? ? ? ? ? ? ? ?]; split; done. Qed.

(** C28: a claim is granted only for eligible work.  When [claimNextTicket]
    answers with a ticket, the agent exists and is active, the ticket was
    eligible for it at that instant, and afterwards the ticket is claimed
    and leased to that agent, under the returned token, for the requested
    time. *)
Theorem claimNextTicket_granted input a d r d' :
  good d → claimNextTicket input a d = Ok (Some r) d' →
  ∃ ag t, agents d !! cn_agentId input = Some ag ∧ ag_status ag = AgentActive ∧
    tickets d !! res_ticketId r = Some t ∧
    eligible (clock_now d) (riskRank (max_risk ag))
      (bound_capabilities nul_none (agents_capabilities (ag_id ag) d)) d t ∧
    lease_granted (ag_id ag) (cn_ttlSeconds input) (clock_now d) r d'.
Proof.
  unfold claimNextTicket, inTransaction. intros Hg Hr.
  apply bind_ok in Hr as (n & d0 & [= <- <-] & Hr).
  apply bind_ok in Hr as (a0 & d0 & (Hag & Hact & ->)%eligible_agent_ok & Hr).
  apply bind_ok in Hr as (cs & d0 & [= <- <-] & Hr).
  set (d1 := agents_touchLastSeen (ag_id a0) (clock_now d) d) in *.
  destruct (sim_touch_last_seen (ag_id a0) (clock_now d) d Hg) as [Hg1 _]. fold d1 in Hg1.
  destruct (queue_exact (clock_now d) (agent_criteria a0 d1) d1 (proj1 Hg1)) as [_ Hin].
  apply claim_first_granted in Hr as [Hc Hl]; [| done |].
  - apply Hin in Hc as (t & Ht & He). exists a0, t. split; [done|]. split; [done|]. split; [done|].
    split; [|done]. exact (proj1 (eligible_touch (clock_now d) _ _ (ag_id a0) (clock_now d) d t) He).
  - apply Forall_forall. intros c Hc. unfold claims_candidateTickets in Hc.
    rewrite merge_sort_Permutation in Hc. apply list_elem_of_fmap in Hc as (t & -> & [_ [j Hj]%rows_spec]%list_elem_of_filter).
    apply candidate_row_ok; [by destruct Hg1|]. by rewrite (wf_tickets _ (proj1 Hg1) _ _ Hj).
Qed.

(** Claiming a chosen ticket.  [claimTicket] never claims another ticket
    than the one asked for, applies the same eligibility rules, and otherwise
    throws with the database unchanged. *)
Theorem claimTicket_granted input a d r d' :
  good d → claimTicket input a d = Ok r d' →
  res_ticketId r = ct_ticketId input ∧
  ∃ ag t, agents d !! ct_agentId input = Some ag ∧ ag_status ag = AgentActive ∧
    tickets d !! ct_ticketId input = Some t ∧
    eligible (clock_now d) (riskRank (max_risk ag))
      (bound_capabilities space_none (agents_capabilities (ag_id ag) d)) d t ∧
    lease_granted (ag_id ag) (ct_ttlSeconds input) (clock_now d) r d'.
Proof.
  unfold claimTicket, inTransaction. intros Hg Hr.
  apply bind_ok in Hr as (n & d0 & [= <- <-] & Hr).
  apply bind_ok in Hr as (o & d0 & [= <- <-] & Hr).
  apply bind_ok in Hr as (tk & d0 & [Hrun ->]%require_ok & Hr).
  apply bind_ok in Hr as (a1 & d0 & (Hag & Hact & ->)%eligible_agent_ok & Hr).
  apply bind_ok in Hr as (cd & d0 & [= <- <-] & Hr).
  set (d1 := agents_touchLastSeen (ag_id a1) (clock_now d) d) in *.
  destruct (sim_touch_last_seen (ag_id a1) (clock_now d) d Hg) as [Hg1 _]. fold d1 in Hg1.
  unfold tickets_findById in Hrun. pose proof (wf_tickets d (proj1 Hg) _ _ Hrun) as Hid.
  destruct (claims_candidateForTicket _ _ _ _) as [c|] eqn:Hc.
  - unfold claims_candidateForTicket in Hc. apply bind_Some in Hc as (t & Ht & Hc).
    destruct (claimable _ _ _ _ _) eqn:Hcl; [|done]. injection Hc as <-. apply claimable_spec in Hcl.
    rewrite Hid in Ht. change (tickets d !! ct_ticketId input = Some t) in Ht.
    apply bind_ok in Hr as (o & d2 & Hrun0 & [-> <-]%require_ok).
    assert (Hok : candidate_ok d1 (candidate_row (clock_now d) d1 t)).
    { apply candidate_row_ok; [by destruct Hg1|]. by rewrite (wf_tickets d (proj1 Hg) _ _ Ht). }
    destruct (attemptClaim_granted _ _ _ _ _ _ _ _ Hg1 Hok Hrun0) as [-> Hl]. split.
    + simpl. by apply (wf_tickets d (proj1 Hg)).
    + exists a1, t. split; [done|]. split; [done|]. split; [done|]. split; [|done].
      exact (proj1 (eligible_touch (clock_now d) _ _ (ag_id a1) (clock_now d) d t) Hcl).
  - run_steps Hr. destruct (deps_unsatisfiedDependencies _ _); [|discriminate]. run_steps Hr.
Qed.
End claims.

(** ** Holding a lease *)

Section holding.
Context `{Env}.

Lemma ttlForClaim_stable c n : ttlForClaim (set_expires_at (isoPlusSeconds (ttlForClaim c) n) (set_heartbeat_at n c)) = ttlForClaim c.
Proof.
  unfold ttlForClaim at 1, isoPlusSeconds. simpl.
  replace (n + ttlForClaim c * 1000 - n + 500)%Z with (500 + ttlForClaim c * 1000)%Z by lia.
  rewrite Z.div_add by lia. change (500 `div` 1000)%Z with 0%Z. unfold ttlForClaim. lia.
Qed.

(** heartbeats keep the lease length.  A heartbeat needs a live claim
    under the token, moves its expiry to exactly one lease length from now
    and changes nothing else; and the lease length it leaves is the one it
    found, so a lease cannot grow however often it is renewed. *)
Theorem heartbeat_keeps_lease token d e d' :
  well_formed d → heartbeat token d = Ok e d' →
  ∃ i c c', ticket_claims d !! i = Some c ∧ cl_status c = Active ∧
    claim_token_hash c = hashClaimToken token ∧ (clock_now d < expires_at c)%Z ∧
    e = (clock_now d + ttlForClaim c * 1000)%Z ∧
    c' = set_expires_at e (set_heartbeat_at (clock_now d) c) ∧
    d' = set_ticket_claims (<[i := c']> (ticket_claims d)) d ∧ ttlForClaim c' = ttlForClaim c.
Proof.
  unfold heartbeat, inTransaction. intros Hwf Hr.
  apply bind_ok in Hr as (n & d0 & [= <- <-] & Hr).
  apply bind_ok in Hr as (c & d0 & (-> & [i Hi] & Ha & Hlive & Hh)%activeClaim_ok & Hr).
  run_steps Hr. unfold claims_extend in Hrun. pose proof (wf_claims d Hwf i c Hi) as Hid.
  rewrite Hid, Hi in Hrun. unfold is_active in Hrun. rewrite bool_decide_true in Hrun by done.
  injection Hrun as <-. exists i, c. eexists. split_and!; try done. apply ttlForClaim_stable.
Qed.

(** Every claim under the token is over, in status or in time. *)
Definition lapsed (token : string) (d : db) : Prop :=
  ∀ i c, ticket_claims d !! i = Some c → claim_token_hash c = hashClaimToken token →
    cl_status c = Active → (expires_at c ≤ clock_now d)%Z.

Lemma lapsed_token token d n : lapsed token d → n = clock_now d →
  activeClaimForToken token n d = Err (DispatchError CLAIM_INVALID "Unknown or expired claim token.").
Proof.
  intros Hl ->. unfold activeClaimForToken, mbind, M_bind, gets.
  destruct (claims_findActiveByTokenHash _ _ _) as [c|] eqn:E; [|done].
  apply head_filter in E as [(Hh & Ha & He) [i Hi]%rows_spec]. specialize (Hl i c Hi Hh Ha). lia.
Qed.

Definition refused {A} (m : Op A) (d : db) : Prop := ∃ e, m d = Err e.
Lemma refused_not_ok {A} (m : Op A) d : (∀ r d', m d ≠ Ok r d') → refused m d.
Proof. unfold refused. destruct (m d) as [r d'|e]; [|eauto]. intros Hn. by destruct (Hn r d'). Qed.
Lemma lapsed_claim_on token k d n : lapsed token d → n = clock_now d → ∀ r d', claim_on token k n d ≠ Ok r d'.
Proof.
  intros Hl Hn r d' Hr. unfold claim_on in Hr. apply bind_ok in Hr as (c & d1 & Hc & _). by rewrite (lapsed_token token d n Hl Hn) in Hc.
Qed.

(** a lapsed lease is powerless.  Once no live claim stands under a
    token, every claim-gated call that presents it is refused: heartbeat,
    release, submission, blocking, evidence and the runner's release. *)
Theorem lapsed_token_refused token a d :
  lapsed token d → token ≠ "" →
  refused (heartbeat token) d ∧ refused (releaseClaim token a) d ∧
  (∀ k, refused (assertClaimOnTicket token k) d) ∧
  (∀ k why, refused (submitForReview (mk_SubmitForReviewInput token k why) a) d) ∧
  (∀ k why, refused (markBlocked (mk_MarkBlockedInput (Some token) k why) a) d) ∧
  (∀ i, re_claimToken i = Some token → refused (recordEvidence i a) d) ∧
  (∀ i, rr_claimToken i = Some token → refused (runnerRelease i a) d).
Proof.
  intros Hl Hne. assert (Hg : given (Some token) = Some token) by (simpl; by rewrite bool_decide_false).
  split_and!; intros; apply refused_not_ok; intros r d' Hr.
  - unfold heartbeat in Hr. apply bind_ok in Hr as (n & d0 & [= <- <-] & Hr).
    unfold inTransaction in Hr. apply bind_ok in Hr as (c & d1 & Hc & _).
    by rewrite (lapsed_token token d _ Hl eq_refl) in Hc.
  - unfold releaseClaim in Hr. apply bind_ok in Hr as (n & d0 & [= <- <-] & Hr).
    unfold inTransaction in Hr. apply bind_ok in Hr as (c & d1 & Hc & _).
    by rewrite (lapsed_token token d _ Hl eq_refl) in Hc.
  - unfold assertClaimOnTicket in Hr. apply bind_ok in Hr as (n & d0 & [= <- <-] & Hr).
    by eapply lapsed_claim_on.
  - unfold submitForReview in Hr. apply bind_ok in Hr as (n & d0 & [= <- <-] & Hr).
    unfold inTransaction in Hr. apply bind_ok in Hr as (c & d1 & Hc & _). simpl in Hc.
    by rewrite (lapsed_token token d _ Hl eq_refl) in Hc.
  - unfold markBlocked in Hr. apply bind_ok in Hr as (n & d0 & [= <- <-] & Hr).
    unfold inTransaction in Hr. apply bind_ok in Hr as (t & d1 & [-> _]%resolveRef_ok & Hr).
    cbn [mb_claimToken] in Hr. rewrite Hg in Hr. apply bind_ok in Hr as (u & d2 & Hc & _).
    apply bind_ok in Hc as (c & d3 & Hc & _). by eapply lapsed_claim_on.
  - rename H0 into Htok. unfold recordEvidence in Hr. apply bind_ok in Hr as (n & d0 & [= <- <-] & Hr).
    unfold inTransaction in Hr. apply bind_ok in Hr as (t & d1 & [-> _]%resolveRef_ok & Hr).
    rewrite Htok, Hg in Hr. apply bind_ok in Hr as (u & d2 & Hc & _).
    apply bind_ok in Hc as (c & d3 & Hc & _). by eapply lapsed_claim_on.
  - rename H0 into Htok. unfold runnerRelease in Hr. apply bind_ok in Hr as (n & d0 & [= <- <-] & Hr).
    unfold inTransaction in Hr. apply bind_ok in Hr as (t & d1 & [-> _]%resolveRef_ok & Hr).
    rewrite Htok, Hg in Hr. apply bind_ok in Hr as (u & d2 & Hc & _).
    apply bind_ok in Hc as (c & d3 & Hc & _). by eapply lapsed_claim_on.
Qed.
End holding.

(** ** Witnesses *)

Lemma candidateTickets_spec_witness :
  well_formed demo_ready ∧
  ∀ k, k ∈ cr_id <$> claims_candidateTickets 1000 (mk_CandidateCriteria 1 []) demo_ready ↔
    ∃ t, tickets demo_ready !! k = Some t ∧ eligible 1000 1 [nul_none] demo_ready t.
Proof.
  split; [exact (proj1 demo_ready_good)|].
  exact (proj2 (candidateTickets_spec 1000 (mk_CandidateCriteria 1 []) demo_ready (proj1 demo_ready_good))).
Defined.

Definition demo_result : ClaimResult := mk_ClaimResult "u0" 1 "ct_r5" None.
Lemma claimNextTicket_granted_witness :
  ∃ ag t, agents demo_ready !! "u2" = Some ag ∧ ag_status ag = AgentActive ∧
    tickets demo_ready !! "u0" = Some t ∧
    eligible 1000 (riskRank (max_risk ag))
      (bound_capabilities nul_none (agents_capabilities (ag_id ag) demo_ready)) demo_ready t ∧
    lease_granted (ag_id ag) 60 1000 demo_result demo_claimed.
Proof.
  apply (claimNextTicket_granted (mk_ClaimNextInput "u2" 60) coder demo_ready demo_result demo_claimed).
  - exact demo_ready_good.
  - vm_compute; reflexivity.
Defined.

Definition demo_chosen : db :=
  match claimTicket (mk_ClaimTicketInput "u0" "u2" 60) coder demo_ready with Ok _ d => d | Err _ => demo_ready end.
Lemma claimTicket_granted_witness :
  ∃ ag t, agents demo_ready !! "u2" = Some ag ∧ ag_status ag = AgentActive ∧
    tickets demo_ready !! "u0" = Some t ∧
    eligible 1000 (riskRank (max_risk ag))
      (bound_capabilities space_none (agents_capabilities (ag_id ag) demo_ready)) demo_ready t ∧
    lease_granted (ag_id ag) 60 1000 demo_result demo_chosen.
Proof.
  apply (claimTicket_granted (mk_ClaimTicketInput "u0" "u2" 60) coder demo_ready demo_result demo_chosen).
  - exact demo_ready_good.
  - vm_compute; reflexivity.
Defined.

Lemma set_clocks_core n w d : same_core d (set_clocks n w d).
Proof. done. Qed.
Definition demo_later : db := set_clocks 31000 31000 demo_claimed.
Lemma heartbeat_keeps_lease_witness :
  ∃ i c c', ticket_claims demo_later !! i = Some c ∧ cl_status c = Active ∧
    claim_token_hash c = hashClaimToken "ct_r5" ∧ (31000 < expires_at c)%Z ∧
    91000%Z = (31000 + ttlForClaim c * 1000)%Z ∧
    c' = set_expires_at 91000 (set_heartbeat_at 31000 c) ∧
    exec (Heartbeat "ct_r5") coder demo_later
      = set_ticket_claims (<[i := c']> (ticket_claims demo_later)) demo_later ∧
    ttlForClaim c' = ttlForClaim c.
Proof.
  apply (heartbeat_keeps_lease "ct_r5" demo_later 91000 (exec (Heartbeat "ct_r5") coder demo_later)).
  - exact (same_core_wf demo_claimed _ (set_clocks_core 31000 31000 demo_claimed) (proj1 demo_claimed_good)).
  - vm_compute; reflexivity.
Defined.

Lemma demo_claims_lapsed : lapsed "ct_r5" demo_lapsed.
Proof.
  assert (Hall : map_Forall (λ _ c, (expires_at c ≤ clock_now demo_lapsed)%Z) (ticket_claims demo_lapsed)).
  { apply (bool_decide_eq_true_1 _). vm_compute. reflexivity. }
  intros i c Hi _ _. exact (Hall i c Hi).
Qed.
Lemma lapsed_token_refused_witness : refused (heartbeat "ct_r5") demo_lapsed.
Proof.
  apply (lapsed_token_refused "ct_r5" coder demo_lapsed).
  - exact demo_claims_lapsed.
  - discriminate.
Defined.
