(* ===== verification/Holders.v ===== *)
(** * What the holder of a ticket may do

    Evidence and acceptance criteria, submission, and the hand-back of by-hand
    work. *)
From S2P Require Import Prelude Json Types EventChain Store Policy Diff Transition Claims Tickets.
From S2P Require Import Pause Decisions Lifecycle Life Refinement Simulation Claiming System Demo.
From S2P Require Import Leases.

Section evidence.
Context `{Env}.

Definition same_criteria (d d' : db) : Prop := acceptance_criteria d' = acceptance_criteria d.
#[local] Instance same_criteria_preorder : PreOrder same_criteria.
Proof. split; [by intros d|]. intros d d1 d2 H1 H2. unfold same_criteria in *. congruence. Qed.

(** A live claim under [token] on ticket [k]. *)
Definition holds (token k : string) (d : db) : Prop :=
  ∃ i c, ticket_claims d !! i = Some c ∧ cl_ticket_id c = k ∧ cl_status c = Active ∧
    claim_token_hash c = hashClaimToken token ∧ (clock_now d < expires_at c)%Z.

Lemma claim_on_holds token k d c d' :
  claim_on token k (clock_now d) d = Ok c d' → d' = d ∧ holds token k d.
Proof.
  intros (-> & [i Hi] & Ha & He & Hh & Hk)%claim_on_ok. split; [done|]. by exists i, c.
Qed.

(** who marks a criterion satisfied.  If recording evidence changed any
    acceptance criterion, it is the one named in the input, it belongs to the
    ticket and is now satisfied, and the caller is a human without a token or
    presented a live claim on that very ticket: a reviewer's or a tester's
    note, and any agent without the lease, changes none. *)
Theorem recordEvidence_satisfies input a d r d' k :
  recordEvidence input a d = Ok r d' →
  acceptance_criteria d' !! k ≠ acceptance_criteria d !! k →
  re_ac_id input = Some k ∧
  ∃ c', acceptance_criteria d' !! k = Some c' ∧ ac_status c' = Satisfied ∧
    match given (re_claimToken input) with
    | Some token => holds token (ac_ticket_id c') d
    | None => actor_type a = Human
    end.
Proof.
  unfold recordEvidence, inTransaction. intros Hr Hne.
  apply bind_ok in Hr as (n & d0 & [= <- <-] & Hr).
  apply bind_ok in Hr as (t & d0 & [-> Ht]%resolveRef_ok & Hr).
  apply bind_ok in Hr as (u & d1 & Hauth & Hr). apply bind_ok in Hr as (u' & d2 & Hac & Hr).
  assert (d1 = d) as ->.
  { destruct (given _); [apply bind_ok in Hauth as (c & d3 & (-> & _)%claim_on_ok & [= _ <-])
                        |apply guard_ok in Hauth as [_ ->]]; done. }
  assert (Hac' : d2 = d ∧ ∀ id, re_ac_id input = Some id →
            ∃ c, acceptance_criteria d !! id = Some c ∧ ac_ticket_id c = tk_id t).
  { destruct (re_ac_id input) as [id|]; [|by injection Hac as _ <-].
    run_steps Hac. apply bool_decide_eq_true in Hac. split; [done|]. intros ? [= <-]. eauto. }
  destruct Hac' as [-> Hcrit]. apply bind_ok in Hr as (eid & d3 & Hid & Hr). injection Hid as <- <-.
  apply bind_ok in Hr as (u2 & d4 & Hev & Hr). apply bind_ok in Hr as (u3 & d5 & Hset & Hr).
  apply bind_ok in Hr as (ev & d6 & [= <- <-] & [= _ <-]). simpl in Hne.
  assert (Hc4 : acceptance_criteria d4 = acceptance_criteria d).
  { unfold evidence_insert in Hev. destruct (_ || _ || _ || _); [done|]. by injection Hev as _ <-. }
  destruct (re_ac_id input) as [id|]; [|injection Hset as _ <-; by rewrite Hc4 in Hne].
  destruct (is_review input a t) eqn:Hrev; simpl in Hset; [injection Hset as _ <-; by rewrite Hc4 in Hne|].
  injection Hset as _ <-. simpl in Hne |- *. unfold update_row in *.
  destruct (decide (id = k)) as [->|Hn]; [|by rewrite lookup_alter_ne, Hc4 in Hne].
  split; [done|]. destruct (Hcrit k eq_refl) as (c & Hc & Hk). rewrite lookup_alter_eq, Hc4, Hc. simpl.
  eexists. split; [done|]. split; [done|]. simpl. rewrite Hk.
  destruct (given (re_claimToken input)) as [token|].
  - apply bind_ok in Hauth as (cl & d7 & [_ Hh]%claim_on_holds & _). done.
  - apply guard_ok in Hauth as [Hh _]. rewrite orb_false_r in Hh. by apply bool_decide_eq_true in Hh.
Qed.

(** Only the owner hands by-hand work back.  When [humanReleaseTicket]
    succeeds the ticket was in progress under a person's name, a human caller
    is that person, and afterwards the ticket is ready and nobody's. *)
Theorem humanRelease_owner_only k a d r d' :
  well_formed d → humanReleaseTicket k a d = Ok r d' →
  ∃ t o t', tickets d !! k = Some t ∧ status t = InProgress ∧ human_owner t = Some o ∧
    (actor_type a = Human → (actor_id a ?? "human") = o) ∧
    tickets d' !! k = Some t' ∧ status t' = Ready ∧ human_owner t' = None.
Proof.
  unfold humanReleaseTicket, inTransaction. intros Hwf Hr. run_steps Hr.
  unfold tickets_findById in Hrun. apply andb_true_iff in Hrun0 as [Hs Ho].
  apply bool_decide_eq_true in Hs, Ho. pose proof (wf_tickets _ Hwf _ _ Hrun) as Hid.
  destruct (human_owner a0) as [o|] eqn:Eo; [|done]. apply ticket_event_core in Hrun3 as (Ht3 & _).
  destruct (transition_acts _ _ _ _ Hwf Hrun2) as (t & Ht & _ & _ & _ & _ & (_ & Hl & _)).
  simpl in Ht, Hl. rewrite Hid in *. rewrite Hrun in Ht. injection Ht as <-.
  unfold life_of at 2 in Hl. rewrite Hrun in Hl. unfold life_of in Hl.
  destruct (tickets s0 !! k) as [t'|] eqn:Et'; [|done]. injection Hl as Hst Hown _ _ _.
  exists a0, o, t'. split_and!; try done.
  - intros Hh. apply negb_true_iff, andb_false_iff in Hrun1 as [Hn|Hn].
    + by apply bool_decide_eq_false in Hn.
    + apply negb_false_iff, bool_decide_eq_true in Hn. by injection Hn.
  - by rewrite Ht3.
  - rewrite andb_false_r in Hown. apply bool_decide_eq_false in Hown.
    destruct (human_owner t'); [|done]. by destruct Hown.
Qed.

Lemma moved_status inp n t : status (moved_ticket inp n t) = toStatus inp.
Proof. destruct (moved_ticket_life inp n t false None) as [_ Hl]. by injection Hl. Qed.
Lemma moved_feedback inp n t :
  last_review_feedback (moved_ticket inp n t)
  = if bool_decide (toStatus inp = InReview) then None else last_review_feedback t.
Proof.
  unfold moved_ticket. cbv zeta. destruct (bool_decide (toStatus inp = InReview)),
    (bool_decide (human_owner t ≠ None) && _), (bool_decide (human_delivered t ≠ None) && _); reflexivity.
Qed.

(** The first half of [submitForReview] starts a claimed delivery. *)
Lemma start_if_claimed t why a d u d1 :
  good d →
  when (bool_decide (status t = Claimed))
    (transition (move (tk_id t) a InProgress why (Some Claimed) [agentSubmit]);;; mret tt) d = Ok u d1 →
  good d1 ∧ ticket_claims d1 = ticket_claims d.
Proof.
  intros Hg. destruct (bool_decide (status t = Claimed)); [|by intros [= _ <-]]. cbn [when]. intros Hr.
  apply bind_ok in Hr as (r1 & s1 & Ht & [= _ <-]). split; [exact (proj1 (start_sim _ _ _ _ _ _ Ht Hg))|].
  by destruct (transition_life _ _ _ _ Hg Ht) as (_ & _ & _ & _ & _ & -> & _).
Qed.

(** Submission.  [submitForReview] succeeds only for the holder of a live
    claim on that ticket, and then leaves the ticket in review, its old
    reject feedback cleared, the claim completed and no lease behind. *)
Theorem submitForReview_completes input a d r d' :
  good d → submitForReview input a d = Ok r d' →
  ∃ i c t', ticket_claims d !! i = Some c ∧ cl_status c = Active ∧ (clock_now d < expires_at c)%Z ∧
    claim_token_hash c = hashClaimToken (sr_claimToken input) ∧
    tickets d' !! cl_ticket_id c = Some t' ∧ status t' = InReview ∧ last_review_feedback t' = None ∧
    cl_status <$> ticket_claims d' !! i = Some Completed ∧ lease_held (cl_ticket_id c) d' = false.
Proof.
  unfold submitForReview, inTransaction. intros Hg Hr. apply bind_ok in Hr as (n & d0 & [= <- <-] & Hr).
  apply bind_ok in Hr as (c & d0 & (-> & [i Hi] & Ha & He & Hh)%activeClaim_ok & Hr).
  apply bind_ok in Hr as (t & d0 & [-> _]%resolveRef_ok & Hr).
  apply bind_ok in Hr as (u & d0 & [Hk%bool_decide_eq_true ->]%guard_ok & Hr).
  apply bind_ok in Hr as (u1 & d1 & [Hg1 Hc1]%start_if_claimed & Hr); [|done].
  apply bind_ok in Hr as (res & d2 & Htr & Hr). apply bind_ok in Hr as (u2 & d3 & [= <- <-] & Hr).
  apply bind_ok in Hr as (ev & d3 & Hev%ticket_event_core & [= _ <-]). destruct Hev as (Et & Ec & Ep).
  destruct (transition_life _ _ _ _ Hg1 Htr) as (l & Hl & _ & _ & _ & Hc2 & Hacts).
  specialize (Hc2 eq_refl). simpl in Hl, Hacts. pose proof (wf_claims d (proj1 Hg) i c Hi) as Hid.
  apply transition_ok in Htr as (t2 & pol & Ht2 & _ & -> & _); [|intros; by apply (wf_tickets d1 (proj1 Hg1))].
  simpl in Ht2. pose proof (wf_tickets d1 (proj1 Hg1) _ _ Ht2) as Hid2.
  set (d2 := after_transition _ _ _) in *. assert (Hi2 : ticket_claims d2 !! cl_id c = Some c) by (by rewrite Hc2, Hc1, Hid).
  assert (Ht' : tickets d2 !! tk_id t = Some (moved_ticket (move (tk_id t) a InReview
            (sr_reason input ?? "submit_for_review") (Some InProgress) [agentSubmit]) (clock_now d1) t2))
    by (unfold d2; simpl; by rewrite Hid2, lookup_insert_eq).
  clearbody d2.
  pose proof (acts_end_claim c Completed (clock_now d) d2 (acts_wf _ _ _ _ Hacts) Hi2 Ha ltac:(done)) as Hend.
  exists i, c. eexists. split_and!; try done.
  - rewrite Et, Hk. exact Ht'.
  - apply moved_status.
  - by rewrite moved_feedback.
  - rewrite Ec. simpl. unfold update_row. by rewrite Hid, lookup_alter_eq, <- Hid, Hi2.
  - assert (Hll : life_of d3 (cl_ticket_id c) = Some (unleased (moved InReview l))).
    { rewrite (same_core_life (claims_setStatus (cl_id c) Completed (clock_now d) d2) d3) by done.
      rewrite (proj1 (proj2 Hend)), Hk, (proj1 (proj2 Hacts)), Hl. done. }
    unfold life_of in Hll. destruct (tickets d3 !! _); [|done]. by injection Hll.
Qed.
End evidence.

(** ** Witnesses *)

Definition demo_note : RecordEvidenceInput :=
  mk_RecordEvidenceInput (Some "ct_r5") None "1" (Some "ac1") None TestOutput "green" None None.
Definition demo_noted : db := exec (RecordEvidence demo_note) coder demo_claimed.
Lemma recordEvidence_satisfies_witness :
  ∃ c', acceptance_criteria demo_noted !! "ac1" = Some c' ∧ ac_status c' = Satisfied ∧
    holds "ct_r5" (ac_ticket_id c') demo_claimed.
Proof.
  apply (recordEvidence_satisfies demo_note coder demo_claimed ("u9", "u10") demo_noted "ac1").
  - vm_compute; reflexivity.
  - vm_compute. discriminate.
Defined.

Lemma humanRelease_owner_only_witness :
  ∃ t o t', tickets demo_byhand !! "u0" = Some t ∧ status t = InProgress ∧ human_owner t = Some o ∧
    (Human = Human → "ana" = o) ∧
    tickets (exec (HumanRelease "1") human demo_byhand) !! "u0" = Some t' ∧
    status t' = Ready ∧ human_owner t' = None.
Proof.
  apply (humanRelease_owner_only "u0" human demo_byhand ("u0", Ready, "u8")
           (exec (HumanRelease "1") human demo_byhand)).
  - refine (proj1 (reachable_good demo_byhand _)). apply exec_reachable, demo_ready_reachable.
  - vm_compute; reflexivity.
Defined.

Lemma submitForReview_completes_witness :
  ∃ i c t', ticket_claims demo_claimed !! i = Some c ∧ cl_status c = Active ∧ (1000 < expires_at c)%Z ∧
    claim_token_hash c = hashClaimToken "ct_r5" ∧
    tickets demo_review !! cl_ticket_id c = Some t' ∧ status t' = InReview ∧
    last_review_feedback t' = None ∧
    cl_status <$> ticket_claims demo_review !! i = Some Completed ∧
    lease_held (cl_ticket_id c) demo_review = false.
Proof.
  apply (submitForReview_completes (mk_SubmitForReviewInput "ct_r5" "1" None) coder demo_claimed
           ("u0", InReview, "u11") demo_review).
  - exact demo_claimed_good.
  - vm_compute; reflexivity.
Defined.
