(* ===== verification/Sweep.v ===== *)
(** * The expiry sweep always completes

    [expireStaleClaims] is the recovery path for crashed agents, so it must
    not fail: every transition it asks for is legal in every state it can meet,
    and when it returns no stale claim is left. *)
From S2P Require Import Prelude Json Types EventChain Store Policy Diff Transition Claims Tickets.
From S2P Require Import Pause Decisions Lifecycle Life Refinement Simulation Claiming System Demo.
From S2P Require Import Leases.

(** Claims only end: what is active afterwards was there, unchanged. *)
Definition only_ends (d d' : db) : Prop :=
  ∀ i c, ticket_claims d' !! i = Some c → cl_status c = Active → ticket_claims d !! i = Some c.
#[export] Instance only_ends_preorder : PreOrder only_ends.
Proof. split; [by intros d i c|]. intros d d1 d2 H1 H2 i c Hi Ha. apply H1; [by apply H2|done]. Qed.
Lemma ends_same d d' : ticket_claims d' = ticket_claims d → only_ends d d'.
Proof. intros He i c Hi _. by rewrite He in Hi. Qed.
Lemma ends_set_status eid n d : only_ends d (claims_setStatus eid Expired n d).
Proof.
  intros i c. unfold claims_setStatus, update_row. simpl. destruct (decide (i = eid)) as [->|Hne].
  - rewrite lookup_alter_eq. destruct (ticket_claims d !! eid); [|done]. by intros [= <-].
  - by rewrite lookup_alter_ne by done.
Qed.
Lemma release_active k n c : cl_status (release_if_on k n c) = Active → release_if_on k n c = c.
Proof. unfold release_if_on. by destruct (_ && _). Qed.
Lemma ends_release k n d : only_ends d (claims_releaseActiveForTicket k n d).
Proof.
  intros i c. simpl. rewrite lookup_fmap. destruct (ticket_claims d !! i) as [c0|]; [|done].
  simpl. intros [= <-] Ha. by rewrite release_active.
Qed.
Lemma ends_effects input t n d : only_ends d (transition_effects input t n d).
Proof.
  unfold transition_effects. cbv zeta. rewrite ends_lease_claims.
  assert (H1 : only_ends d (set_ticket_claims (if ends_lease (toStatus input)
    then release_if_on (tk_id t) n <$> ticket_claims d else ticket_claims d) d)).
  { destruct (ends_lease _); [apply ends_release|]. by destruct d. }
  revert H1. generalize (set_ticket_claims (if ends_lease (toStatus input)
    then release_if_on (tk_id t) n <$> ticket_claims d else ticket_claims d) d). intros d1 H1.
  repeat match goal with |- context [if ?b then _ else _] => destruct b end; exact H1.
Qed.
Lemma ends_update_status k to v p n : evolves only_ends (tickets_updateStatus k to v p n).
Proof.
  intros d u d'. unfold tickets_updateStatus. destruct (_ !! _); [case_bool_decide|];
    intros [= _ <-]; by apply ends_same.
Qed.
#[export] Hint Resolve ends_update_status : gaffer.
#[export] Hint Extern 1 (evolves only_ends (modify _)) =>
  apply evolves_modify; intros; first [apply ends_set_status | apply ends_effects
    | apply ends_same; reflexivity] : gaffer.

Section sweep.
Context `{Env}.

Lemma core_ends {A} (m : Op A) : evolves same_core m → evolves only_ends m.
Proof. apply evolves_sub. intros d d' (_ & Hc & _). by apply ends_same. Qed.
#[local] Hint Extern 2 (evolves only_ends _) => apply core_ends; solve [auto with gaffer nocore] : gaffer.

Lemma transition_ends input : evolves only_ends (transition input).
Proof. unfold transition, transition_checks, inTransaction. structural. Qed.
#[local] Hint Resolve transition_ends : gaffer.
Lemma expire_claim_ends a n acc c : evolves only_ends (expire_claim a n acc c).
Proof. unfold expire_claim, returnLapsedResumeToPaused. structural. Qed.

(** ** Transitions that cannot be refused *)

Lemma transition_succeeds input d t :
  well_formed d → tickets d !! ticketId input = Some t →
  permitted (status t) (toStatus input) (flags input) = true → status t ≠ toStatus input →
  match expectedFromStatus input with Some s => status t = s | None => True end →
  flag humanBlock input = false →
  flag systemOverride input = true ∨ gateFor (toStatus input) = None →
  ∃ res d', transition input d = Ok res d'.
Proof.
  intros Hwf Ht Hp Hne He Hb Hgate. unfold permitted, edge in Hp.
  apply andb_true_iff in Hp as [Hedge Hguard]. eexists _, _.
  apply transition_ok; [intros; by apply (wf_tickets d Hwf)|].
  exists t, None. split; [done|]. split; [|split; reflexivity].
  unfold transition_checks, mbind, M_bind, guard_. rewrite Hb, Hedge. simpl.
  rewrite (bool_decide_false (status t = toStatus input)) by done. simpl.
  assert (Hexp : match expectedFromStatus input with
                 | Some s => bool_decide (status t = s) | None => true end = true)
    by (destruct (expectedFromStatus input); [by apply bool_decide_eq_true|done]).
  rewrite Hexp. unfold mret, M_ret. simpl.
  destruct (violatedGuard _ _ _); [done|]. destruct Hgate as [Ho|Hg].
  - rewrite Ho. by destruct (gateFor _).
  - by rewrite Hg.
Qed.

Lemma sweep_transition d t a to why :
  well_formed d → tickets d !! tk_id t = Some t → in_delivery (status t) = true → to = Ready ∨ to = Blocked →
  ∃ res d', transition (move (tk_id t) a to why None [systemOverride]) d = Ok res d'.
Proof.
  intros Hwf Ht Hin Hto. apply bool_decide_eq_true in Hin.
  apply (transition_succeeds _ d t); simpl; try done; [| |by left].
  - destruct Hin as [-> | ->], Hto as [-> | ->]; vm_compute; reflexivity.
  - destruct Hin as [-> | ->], Hto as [-> | ->]; done.
Qed.

Lemma returnLapsed_total t eid a d :
  well_formed d → tickets d !! tk_id t = Some t →
  ∃ r d', returnLapsedResumeToPaused t eid a d = Ok r d'.
Proof.
  intros Hwf Ht. unfold returnLapsedResumeToPaused.
  destruct (negb (bool_decide (status t = InProgress)) || _) eqn:E; [by eexists _, _|].
  apply orb_false_iff in E as [E _]. apply negb_false_iff, bool_decide_eq_true in E.
  unfold mbind, M_bind, gets. destruct (paused_find _ _); [|by eexists _, _].
  destruct (transition_succeeds (move (tk_id t) a Paused "claim_expired_mid_resume" (Some InProgress)
              [systemOverride; Transition.pauseDelivery]) d t) as (res & d1 & ->); try done.
  - rewrite E. vm_compute. reflexivity.
  - simpl. by rewrite E.
  - by left.
  - by eexists _, _.
Qed.

Lemma expire_claim_total a n acc c d :
  good d → (∃ x, ticket_claims d !! cl_id c = Some x ∧ cl_ticket_id x = cl_ticket_id c) →
  ∃ acc' d', expire_claim a n acc c d = Ok acc' d' ∧ acc'.1 = (acc.1 + 1)%Z ∧
    ∃ x', ticket_claims d' !! cl_id c = Some x' ∧ cl_status x' ≠ Active.
Proof.
  intros Hg (x & Hx & Hk).
  pose proof (acts_set_status _ x Expired n d (proj1 Hg) Hx ltac:(done)) as H1.
  set (d1 := claims_setStatus (cl_id c) Expired n d) in *.
  assert (Hx1 : ∀ d2, only_ends d1 d2 → claims_kept d1 d2 →
            ∃ x', ticket_claims d2 !! cl_id c = Some x' ∧ cl_status x' ≠ Active).
  { intros d2 He Hkept. destruct (Hkept (cl_id c) (claim_with_status Expired n x)) as (x' & Hx' & _).
    { unfold d1, claims_setStatus, update_row. simpl. by rewrite lookup_alter_eq, Hx. }
    exists x'. split; [done|]. intros Ha. specialize (He _ _ Hx' Ha).
    unfold d1, claims_setStatus, update_row in He. simpl in He. rewrite lookup_alter_eq, Hx in He.
    injection He as <-. done. }
  assert (Htot : ∃ acc' d', expire_claim a n acc c d = Ok acc' d' ∧ acc'.1 = (acc.1 + 1)%Z
                   ∧ only_ends d1 d' ∧ claims_kept d1 d').
  2: { destruct Htot as (acc' & d' & Hr & Ha & He & Hkp). exists acc', d'. auto. }
  unfold expire_claim, mbind at 1 2, M_bind at 1 2, modify, gets. fold d1. cbn beta iota.
  unfold tickets_findById. change (tickets d1) with (tickets d). rewrite <- Hk.
  destruct (tickets d !! cl_ticket_id x) as [t|] eqn:Ht; [|by destruct (wf_claim_ticket d (proj1 Hg) _ _ Hx)].
  pose proof (wf_tickets d (proj1 Hg) _ _ Ht) as Hid. rewrite <- Hid in Ht.
  destruct (negb (in_delivery (status t))) eqn:Hin; [by eexists _, _|]. apply negb_false_iff in Hin.
  destruct (returnLapsed_total t (cl_id c) a d1 (acts_wf _ _ _ _ H1) Ht) as (r & d2 & Hr).
  pose proof (lapsed_sim _ _ _ _ _ _ _ _ _ Hr Hg H1 ltac:(rewrite <- Hid; exact Ht)) as Hl.
  assert (He2 : only_ends d1 d2 ∧ claims_kept d1 d2).
  { split; [|by eapply returnLapsed_kept].
    revert Hr. generalize d1 r d2. unfold returnLapsedResumeToPaused.
    change (evolves only_ends (returnLapsedResumeToPaused t (cl_id c) a)).
    unfold returnLapsedResumeToPaused. structural. }
  unfold mbind at 1, M_bind at 1. rewrite Hr. destruct r; [by exists ((acc.1 + 1)%Z, acc.2), d2|].
  subst d2. unfold mbind at 1, M_bind at 1, gets.
  set (blocked := bool_decide _). set (to := if blocked then Blocked else Ready).
  destruct (sweep_transition d1 t a to "claim_expired") as (res & d3 & Htr);
    [by eapply acts_wf|done|done|by unfold to; destruct blocked; auto|].
  unfold mbind at 1, M_bind at 1. rewrite Htr. eexists _, _. split; [reflexivity|]. split; [done|]. split.
  - intros i c' Hi Ha. by apply (transition_ends _ _ _ _ Htr).
  - intros i c' Hi. by apply (transition_kept _ _ _ _ Htr).
Qed.

Lemma sweep_fold a n cs acc d :
  good d →
  Forall (λ c, ∃ x, ticket_claims d !! cl_id c = Some x ∧ cl_ticket_id x = cl_ticket_id c) cs →
  ∃ acc' d', for_fold (expire_claim a n) acc cs d = Ok acc' d' ∧
    acc'.1 = (acc.1 + Z.of_nat (length cs))%Z ∧ only_ends d d' ∧
    ∀ c, c ∈ cs → ∀ x', ticket_claims d' !! cl_id c = Some x' → cl_status x' ≠ Active.
Proof.
  revert acc d. induction cs as [|c cs IH]; intros acc d Hg Hcs.
  { exists acc, d. split; [done|]. split; [simpl; lia|]. split; [done|].
    intros c Hin. by apply not_elem_of_nil in Hin. }
  apply Forall_cons in Hcs as [Hc Hcs].
  destruct (expire_claim_total a n acc c d Hg Hc) as (acc1 & d1 & Hr & Ha1 & (x1 & Hx1 & Hn1)).
  destruct (expire_claim_sim _ _ _ _ _ _ _ Hr Hc Hg) as [Hg1 _].
  pose proof (expire_claim_kept _ _ _ _ _ _ _ Hr) as Hk. pose proof (expire_claim_ends _ _ _ _ _ _ _ Hr) as He.
  destruct (IH acc1 d1 Hg1) as (acc' & d' & Hr' & Ha' & He' & Hdone).
  { eapply Forall_impl; [done|]. intros c' (x & Hx & Ht). destruct (Hk _ _ Hx) as (x' & ? & ?).
    exists x'. split; [done|congruence]. }
  exists acc', d'. split; [cbn [for_fold]; unfold mbind, M_bind; by rewrite Hr|].
  split; [simpl length; lia|]. split; [by etrans|].
  intros c' [->|Hin]%elem_of_cons; [|by apply Hdone]. intros x' Hx' Ha.
  specialize (He' _ _ Hx' Ha). congruence.
Qed.

Lemma listExpired_spec n d c :
  c ∈ claims_listExpired n d ↔
  (∃ i, ticket_claims d !! i = Some c) ∧ cl_status c = Active ∧ (expires_at c < n)%Z.
Proof.
  unfold claims_listExpired, order_by. rewrite merge_sort_Permutation, list_elem_of_filter, rows_spec. tauto.
Qed.

(** C33: recovery always completes.  From any database that satisfies the
    invariants the sweep commits, counts every stale claim, and leaves no
    active claim past its expiry: a crashed agent's ticket can never make
    the sweep throw, nor keep its lease. *)
Theorem expireStaleClaims_completes a d :
  good d →
  ∃ n blocked d', expireStaleClaims a d = Ok (n, blocked) d' ∧
    n = Z.of_nat (length (claims_listExpired (clock_now d) d)) ∧
    ∀ i c, ticket_claims d' !! i = Some c → cl_status c = Active → (clock_now d ≤ expires_at c)%Z.
Proof.
  intros Hg. destruct (sweep_fold a (clock_now d) (claims_listExpired (clock_now d) d) (0%Z, []) d Hg)
    as ([n bl] & d' & Hr & Hn & He & Hdone).
  - apply Forall_forall. intros c [[i Hi] _]%listExpired_spec. exists c.
    by rewrite (wf_claims d (proj1 Hg) i c Hi).
  - exists n, bl, d'. split; [exact Hr|]. split; [simpl in Hn; lia|]. intros i c Hi Ha.
    pose proof (He i c Hi Ha) as Hi0. destruct (decide (expires_at c < clock_now d)%Z); [|lia].
    assert (Hin : c ∈ claims_listExpired (clock_now d) d) by (apply listExpired_spec; eauto).
    pose proof (wf_claims d (proj1 Hg) i c Hi0) as Hid. rewrite <- Hid in Hi. by destruct (Hdone c Hin c Hi).
Qed.
End sweep.

(** ** Witness *)
Lemma expireStaleClaims_completes_witness :
  ∃ n blocked d', expireStaleClaims runner demo_lapsed = Ok (n, blocked) d' ∧
    n = Z.of_nat (length (claims_listExpired (clock_now demo_lapsed) demo_lapsed)) ∧
    ∀ i c, ticket_claims d' !! i = Some c → cl_status c = Active →
      (clock_now demo_lapsed ≤ expires_at c)%Z.
Proof. apply (expireStaleClaims_completes runner demo_lapsed). exact (reachable_good _ demo_lapsed_reachable). Defined.
