(* ===== verification/Dependencies.v ===== *)
(** * The dependency graph

    [dependencyCycleWouldForm] terminates and decides reachability, so
    [addDependency] keeps the graph acyclic, and an acyclic graph can never
    deadlock the queue. *)
From S2P Require Import Prelude Json Types EventChain Store Policy Diff Transition Claims Tickets.
From S2P Require Import Pause Decisions Lifecycle Life Refinement System Demo Leases.

(** [a] waits on [b]. *)
Definition waits_on (d : db) (a b : string) : Prop :=
  ∃ x, x ∈ ticket_dependencies d ∧ dep_ticket_id x = a ∧ depends_on_ticket_id x = b.
Definition acyclic (d : db) : Prop := ∀ a, ¬ tc (waits_on d) a a.

Lemma dependsOn_spec d a b : b ∈ deps_dependsOn a d ↔ waits_on d a b.
Proof.
  unfold deps_dependsOn, waits_on. rewrite list_elem_of_fmap. setoid_rewrite list_elem_of_filter. naive_solver.
Qed.

Section walk.
Context (d : db) (target : string).

(** Edges whose source has not been expanded yet. *)
Definition open_edges (seen : gset string) : list TicketDependency :=
  filter (λ x, dep_ticket_id x ∉ seen) (ticket_dependencies d).

Lemma open_edges_split seen a :
  a ∉ seen →
  length (open_edges seen) = (length (open_edges ({[a]} ∪ seen)) + length (deps_dependsOn a d))%nat.
Proof.
  intros Ha. unfold open_edges, deps_dependsOn. rewrite length_fmap.
  induction (ticket_dependencies d) as [|x l IH]; [done|]. rewrite !filter_cons.
  repeat case_decide; simpl; try lia; set_solver.
Qed.

(** The fuel covers the stack and every edge still to be pushed. *)
Lemma walk_terminates fuel seen stack :
  (length stack + length (open_edges seen) < fuel)%nat → ∃ b, cycle_walk fuel target seen stack d = Some b.
Proof.
  revert seen stack. induction fuel as [|fuel IH]; intros seen stack Hf; [lia|]. simpl.
  destruct stack as [|a stack]; [eauto|]. case_bool_decide; [eauto|]. simpl in Hf.
  case_bool_decide as Hs; [apply IH; lia|]. apply IH. rewrite length_app, length_rev.
  rewrite (open_edges_split seen a Hs) in Hf. lia.
Qed.

(** Every node expanded so far has its successors expanded or waiting. *)
Definition frontier (start : string) (seen : gset string) (stack : list string) : Prop :=
  (start ∈ seen ∨ start ∈ stack) ∧ target ∉ seen ∧
  (∀ a b, a ∈ seen → waits_on d a b → b ∈ seen ∨ b ∈ stack) ∧
  (∀ a, a ∈ stack → rtc (waits_on d) start a).

Lemma walk_correct fuel start seen stack b :
  (∀ a, a ∈ seen → rtc (waits_on d) start a) →
  frontier start seen stack → cycle_walk fuel target seen stack d = Some b →
  b = true ↔ rtc (waits_on d) start target.
Proof.
  revert seen stack. induction fuel as [|fuel IH]; intros seen stack Hseen Hf Hr; [done|]. simpl in Hr.
  destruct Hf as (Hstart & Htarget & Hclosed & Hreach). destruct stack as [|a stack].
  - injection Hr as <-. split; [done|]. intros Hpath. exfalso. apply Htarget.
    destruct Hstart as [Hs|Hs]; [|by apply not_elem_of_nil in Hs].
    clear - Hpath Hs Hclosed. induction Hpath as [x|x y z Hxy _ IH]; [done|]. apply IH.
    destruct (Hclosed x y Hs Hxy) as [?|Hn]; [done|]. by apply not_elem_of_nil in Hn.
  - case_bool_decide as Ha.
    { injection Hr as <-. subst a. split; [|done]. intros _. apply Hreach. apply elem_of_cons. by left. }
    case_bool_decide as Hs.
    + apply IH in Hr; [done|done|]. split_and!; try done.
      * destruct Hstart as [?|[->|?]%elem_of_cons]; auto.
      * intros x y Hx Hxy. destruct (Hclosed x y Hx Hxy) as [?|[->|?]%elem_of_cons]; auto.
      * intros x Hx. apply Hreach. apply elem_of_cons. by right.
    + assert (Hra : rtc (waits_on d) start a) by (apply Hreach, elem_of_cons; by left).
      assert (Hpush : ∀ y, y ∈ rev (deps_dependsOn a d) ↔ waits_on d a y).
      { intros y. rewrite <- dependsOn_spec. rewrite !list_elem_of_In. symmetry. apply in_rev. }
      apply IH in Hr; [done| |split_and!].
      * intros x [->%elem_of_singleton|Hx]%elem_of_union; [done|by apply Hseen].
      * destruct Hstart as [?|[->|?]%elem_of_cons]; [set_solver|set_solver|].
        right. apply elem_of_app. by right.
      * set_solver.
      * intros x y [->%elem_of_singleton|Hx]%elem_of_union Hxy.
        -- right. apply elem_of_app. left. by apply Hpush.
        -- destruct (Hclosed x y Hx Hxy) as [?|[->|?]%elem_of_cons]; [set_solver|set_solver|].
           right. apply elem_of_app. by right.
      * intros x [Hx%Hpush|Hx]%elem_of_app; [by eapply rtc_r|]. apply Hreach, elem_of_cons. by right.
Qed.
End walk.

Lemma cycle_check_exact start target d :
  (∃ b, cycle_walk (cycle_fuel d) target ∅ [start] d = Some b) ∧
  (dependencyCycleWouldForm start target d = true ↔ rtc (waits_on d) start target).
Proof.
  assert (Ht : ∃ b, cycle_walk (cycle_fuel d) target ∅ [start] d = Some b).
  { apply walk_terminates. unfold cycle_fuel. change (length [start]) with 1%nat.
    assert (Hle : ∀ seen, (length (open_edges d seen) ≤ length (ticket_dependencies d))%nat)
      by (intros seen; apply length_filter). specialize (Hle ∅). lia. }
  split; [done|]. destruct Ht as [b Hb]. unfold dependencyCycleWouldForm. rewrite Hb. simpl.
  eapply walk_correct; [|split_and!|exact Hb].
  - set_solver.
  - right. apply elem_of_cons. by left.
  - set_solver.
  - set_solver.
  - intros a [->|Hn]%elem_of_cons; [done|]. by apply not_elem_of_nil in Hn.
Qed.

(** the cycle check terminates and is exact.  The walk never runs out of
    its fuel (one round per dependency row and two more), and it answers true
    exactly when the target is reachable from the start along the
    dependencies. *)
Theorem dependencyCycleWouldForm_exact start target d :
  (∃ b, cycle_walk (cycle_fuel d) target ∅ [start] d = Some b) ∧
  (dependencyCycleWouldForm start target d = true ↔ rtc (waits_on d) start target).
Proof. apply cycle_check_exact. Qed.

Section add.
Context `{Env}.

(** Adding the edge [a -> b] when [b] does not reach [a] closes no loop. *)
Lemma acyclic_insert d x :
  acyclic d → ¬ rtc (waits_on d) (depends_on_ticket_id x) (dep_ticket_id x) →
  acyclic (deps_insert x d).
Proof.
  intros Hac Hno.
  assert (Hedge : ∀ a b, waits_on (deps_insert x d) a b →
            waits_on d a b ∨ (a = dep_ticket_id x ∧ b = depends_on_ticket_id x)).
  { intros a b (y & [Hy|Hy%list_elem_of_singleton]%elem_of_app & <- & <-); [left; by exists y|right].
    by subst y. }
  assert (Hpath : ∀ a b, tc (waits_on (deps_insert x d)) a b →
    tc (waits_on d) a b ∨ (rtc (waits_on d) a (dep_ticket_id x) ∧ rtc (waits_on d) (depends_on_ticket_id x) b)).
  { induction 1 as [a b Hab|a b c Hab _ IH].
    - destruct (Hedge a b Hab) as [?|[-> ->]]; [left; by apply tc_once|by right].
    - destruct (Hedge a b Hab) as [Hd|[-> ->]].
      + destruct IH as [IH|[H1 H2]]; [left; by eapply tc_l|right; split; [by eapply rtc_l|done]].
      + right. split; [done|]. destruct IH as [IH|[_ IH]]; [by apply tc_rtc|done]. }
  intros a [Hc|[H1 H2]]%Hpath; [by eapply Hac|]. apply Hno. by etrans.
Qed.

(** Dependencies stay acyclic.  [addDependency] commits only if the new
    edge closes no loop: an acyclic dependency graph stays acyclic, and the
    edge added is the one asked for, between two different tickets. *)
Theorem addDependency_acyclic ref dependsOn a d r d' :
  acyclic d → addDependency ref dependsOn a d = Ok r d' →
  acyclic d' ∧ r.1.1 ≠ r.1.2 ∧ waits_on d' r.1.1 r.1.2 ∧
  ∀ x y, waits_on d' x y ↔ waits_on d x y ∨ (x = r.1.1 ∧ y = r.1.2).
Proof.
  unfold addDependency, inTransaction. intros Hac Hr. apply bind_ok in Hr as (n & d0 & [= <- <-] & Hr).
  apply bind_ok in Hr as (t & d0 & [-> _]%resolveRef_ok & Hr).
  apply bind_ok in Hr as (t' & d0 & [-> _]%resolveRef_ok & Hr).
  apply bind_ok in Hr as (u & d0 & [Hne ->]%guard_ok & Hr).
  apply bind_ok in Hr as (ex & d0 & [= <- <-] & Hr). apply bind_ok in Hr as (u1 & d0 & [_ ->]%guard_ok & Hr).
  apply bind_ok in Hr as (cy & d0 & [= <- <-] & Hr). apply bind_ok in Hr as (u2 & d0 & [Hcy ->]%guard_ok & Hr).
  apply bind_ok in Hr as (u3 & d0 & [= <- <-] & Hr). apply bind_ok in Hr as (ev & d1 & [= <- <-] & [= <- <-]).
  apply negb_true_iff, bool_decide_eq_false in Hne. apply negb_true_iff in Hcy. simpl.
  set (x := mk_TicketDependency _ _ _).
  assert (Hins : acyclic (deps_insert x d)).
  { apply acyclic_insert; [done|]. simpl. rewrite <- (proj2 (cycle_check_exact _ _ _)).
    by rewrite Hcy. }
  split; [exact Hins|]. split; [done|].
  assert (Hspec : ∀ p q, waits_on (deps_insert x d) p q ↔ waits_on d p q ∨ (p = tk_id t ∧ q = tk_id t')).
  { intros p q. unfold waits_on, deps_insert. simpl. setoid_rewrite elem_of_app.
    setoid_rewrite list_elem_of_singleton. unfold x. naive_solver. }
  split; [|exact Hspec]. apply (Hspec (tk_id t) (tk_id t')). by right.
Qed.
End add.

(** ** No deadlock *)
Definition unfinished (d : db) (id : string) : Prop :=
  ∃ t, tickets d !! id = Some t ∧ status t ≠ Done.

Lemma unsatisfied_spec id d :
  deps_hasUnsatisfiedDependencies id d = true ↔ ∃ b, waits_on d id b ∧ unfinished d b.
Proof.
  unfold deps_hasUnsatisfiedDependencies. rewrite existsb_exists. split.
  - intros (x & Hin%list_elem_of_In & [Hid%bool_decide_eq_true Hm]%andb_true_iff).
    destruct (tickets d !! depends_on_ticket_id x) as [t|] eqn:Ht; [|done].
    exists (depends_on_ticket_id x). split; [by exists x|]. exists t. split; [done|].
    by apply negb_true_iff, bool_decide_eq_false in Hm.
  - intros (b & (x & Hin & Ha & Hb) & t & Ht & Hs). exists x. split; [by apply list_elem_of_In|].
    rewrite Hb, Ht. apply andb_true_iff. split; [by apply bool_decide_eq_true|].
    by apply negb_true_iff, bool_decide_eq_false.
Qed.

(** Waiting is well-founded when nothing waits on itself. *)
Lemma acyclic_terminates d a : acyclic d → sn (waits_on d) a.
Proof.
  intros Hac. apply tc_finite_sn; [exact Hac|].
  exists (depends_on_ticket_id <$> ticket_dependencies d). intros b Hab.
  assert (∃ c, waits_on d c b) as (c & x & Hin & _ & <-) by (induction Hab; eauto).
  apply list_elem_of_fmap. by exists x.
Qed.

(** Dependencies never deadlock the queue.  With an acyclic graph, from
    any unfinished ticket the dependencies lead to an unfinished ticket (itself
    or one it transitively waits on) that the claim query does not hold back on
    dependencies. *)
Theorem dependencies_never_deadlock d id :
  acyclic d → unfinished d id →
  ∃ k, rtc (waits_on d) id k ∧ unfinished d k ∧ deps_hasUnsatisfiedDependencies k d = false.
Proof.
  intros Hac Hu. pose proof (acyclic_terminates d id Hac) as Hsn. revert Hu.
  induction Hsn as [a _ IH]. intros Hu.
  destruct (deps_hasUnsatisfiedDependencies a d) eqn:Hd; [|by exists a].
  apply unsatisfied_spec in Hd as (b & Hab & Hb). destruct (IH b Hab Hb) as (k & Hk & ?).
  exists k. split; [by eapply rtc_l|done].
Qed.

(** ** Two tickets *)
Definition demo_two : db := exec (CreateTicket demo_ticket) human demo_draft.
Definition demo_chain : db := exec (AddDependency "#1" "#2") human demo_two.

(** A rank that grows along every dependency rules loops out. *)
Lemma acyclic_by_rank (rank : string → nat) d :
  forallb (λ x, bool_decide (rank (dep_ticket_id x) < rank (depends_on_ticket_id x))%nat)
    (ticket_dependencies d) = true →
  acyclic d.
Proof.
  rewrite forallb_forall. intros Hr a Ha. cut (rank a < rank a)%nat; [lia|].
  assert (Hup : ∀ b c, waits_on d b c → (rank b < rank c)%nat).
  { intros b c (x & Hx%list_elem_of_In & <- & <-). by apply Hr, bool_decide_eq_true in Hx. }
  revert Ha. generalize a at 2 4. induction 1 as [b c Hbc|b c e Hbc _ IH]; [by apply Hup|].
  apply Hup in Hbc. lia.
Qed.
Definition demo_rank (id : string) : nat := if bool_decide (id = "u0") then 0 else 1.

Lemma addDependency_acyclic_witness :
  acyclic demo_two ∧ addDependency "#1" "#2" human demo_two = Ok ("u0", "u4", "u6") demo_chain ∧
  acyclic demo_chain.
Proof.
  assert (Hac : acyclic demo_two) by (apply (acyclic_by_rank demo_rank); vm_compute; reflexivity).
  assert (Hr : addDependency "#1" "#2" human demo_two = Ok ("u0", "u4", "u6") demo_chain)
    by (vm_compute; reflexivity). split; [exact Hac|]. split; [exact Hr|].
  exact (proj1 (addDependency_acyclic "#1" "#2" human demo_two _ _ Hac Hr)).
Defined.

Lemma dependencies_never_deadlock_witness :
  ∃ k, rtc (waits_on demo_chain) "u0" k ∧ unfinished demo_chain k ∧
       deps_hasUnsatisfiedDependencies k demo_chain = false.
Proof.
  apply dependencies_never_deadlock; [apply (acyclic_by_rank demo_rank); vm_compute; reflexivity|].
  eexists. split; [vm_compute; reflexivity|done].
Defined.
