(* ===== verification/Moves.v ===== *)
(** * The move table, and what a move does

    What the guards of [ALLOWED] and [GUARDED_EDGES] amount to, when
    [transition] commits and with what effect, why it refuses, and what a
    board move can do. *)
From S2P Require Import Prelude Json Types EventChain Store Policy Diff Transition Claims Tickets.
From S2P Require Import Pause Decisions Lifecycle Life Refinement Simulation Claiming System Demo.

(** ** The table *)

Definition all_statuses : list TicketStatus :=
  [Draft; Refining; Ready; Claimed; InProgress; Blocked; InReview; InTesting; ReadyForMerge; Done;
   Failed; Cancelled; Paused].
Lemma all_statuses_complete s : s ∈ all_statuses.
Proof. apply (bool_decide_eq_true_1 _). by destruct s. Qed.

(** The table as pairs. *)
Definition table : list (TicketStatus * TicketStatus) :=
  Eval vm_compute in
    filter (λ p, edge p.1 p.2 = true) (a ← all_statuses; b ← all_statuses; [(a, b)]).
Lemma edge_table a b : edge a b = true → (a, b) ∈ table.
Proof.
  assert (Hall : forallb (λ a, forallb (λ b, implb (edge a b) (bool_decide ((a, b) ∈ table)))
                                 all_statuses) all_statuses = true) by (vm_compute; reflexivity).
  rewrite forallb_forall in Hall.
  specialize (Hall a (proj1 (list_elem_of_In _ _) (all_statuses_complete a))). simpl in Hall.
  change (forallb (λ b, implb (edge a b) (bool_decide ((a, b) ∈ table))) all_statuses = true) in Hall.
  rewrite forallb_forall in Hall.
  specialize (Hall b (proj1 (list_elem_of_In _ _) (all_statuses_complete b))). simpl in Hall.
  intros He. rewrite He in Hall. by apply bool_decide_eq_true in Hall.
Qed.
(** One goal per edge of the table. *)
Ltac each_edge H :=
  apply edge_table in H;
  repeat (apply elem_of_cons in H as [[= -> ->]|H]; [|]);
  [..|by apply not_elem_of_nil in H].

Definition moves (a b : TicketStatus) : Prop := edge a b = true.

(** The statuses at most [n] moves away from [a]. *)
Fixpoint within (n : nat) (a : TicketStatus) : list TicketStatus :=
  match n with
  | O => [a]
  | S n => let l := within n a in
           filter (λ s, bool_decide (s ∈ l) || existsb (λ b, edge b s) l = true) all_statuses
  end.
Lemma within_sound n a b : b ∈ within n a → rtc moves a b.
Proof.
  revert b. induction n as [|n IH]; intros b; [by intros ->%list_elem_of_singleton|].
  cbn [within]. intros [[Hb|(c & Hc & Hcb)%existsb_exists]%orb_true_iff _]%list_elem_of_filter.
  - apply bool_decide_eq_true in Hb. by apply IH.
  - eapply rtc_r; [apply IH; by apply list_elem_of_In|exact Hcb].
Qed.

Lemma lane_entrance a b :
  bool_decide (a ∈ REVIEW_LANE_STATUSES) = false → edge a b = true → b ≠ InReview →
  bool_decide (b ∈ REVIEW_LANE_STATUSES) = false.
Proof. intros Ha He Hb. each_edge He; done. Qed.

(** The shape of the state machine.  Every status can be reached from
    [draft], no status is a trap ([done] can be reached from each), and there
    is no way around review: a path of moves that starts outside the review
    lane and does not enter [in_review] never enters the lane. *)
Theorem no_way_around_review :
  (∀ s, rtc moves Draft s ∧ rtc moves s Done) ∧
  ∀ s s', s ∉ REVIEW_LANE_STATUSES → rtc (λ a b, moves a b ∧ b ≠ InReview) s s' →
    s' ∉ REVIEW_LANE_STATUSES.
Proof.
  split.
  - intros s. split; apply (within_sound 7), (bool_decide_eq_true_1 _); destruct s; vm_compute; reflexivity.
  - intros s s' Hs Hp. induction Hp as [s|a b c [Hab Hb] _ IH]; [done|]. apply IH.
    apply (bool_decide_eq_false _), (lane_entrance a); [by apply (bool_decide_eq_false _)|done|done].
Qed.

(** The flags of which one must be set for an edge that has a guard. *)
Definition openers (from to : TicketStatus) : option (list Flag) :=
  anyOf <$> find (λ rule, existsb (λ e, bool_decide (e = edge_key from to)
                                    || bool_decide (e = "to:" +:+ status_name to)) (edges rule))
              GUARDED_EDGES.
Lemma permitted_opened from to fs :
  permitted from to fs = true →
  edge from to = true ∧ match openers from to with Some l => ∃ f, f ∈ l ∧ f ∈ fs | None => True end.
Proof.
  unfold permitted, violatedGuard, openers. intros [He Hv]%andb_true_iff. split; [exact He|].
  assert (Hn : find (rule_violated (edge_key from to) to fs) GUARDED_EDGES = None) by (by destruct find).
  clear Hv. induction GUARDED_EDGES as [|rule l IH]; [exact I|]. simpl in Hn |- *.
  unfold rule_violated at 1 in Hn. destruct (existsb _ (edges rule)); [|by apply IH].
  simpl in Hn |- *. destruct (existsb _ (anyOf rule)) eqn:Ha; [|discriminate].
  apply existsb_exists in Ha as (f & Hf & Hin). exists f. split; [by apply list_elem_of_In|].
  by apply bool_decide_eq_true in Hin.
Qed.

Lemma guards_open from to fs :
  permitted from to fs = true →
  match to with
  | Claimed => from = Ready ∧ agentClaim ∈ fs
  | InProgress => (from = Claimed ∧ agentSubmit ∈ fs) ∨ (from = Ready ∧ humanClaim ∈ fs)
                  ∨ (from = Paused ∧ resumeDelivery ∈ fs)
  | InReview => (from = InProgress ∧ (agentSubmit ∈ fs ∨ unleasedSubmit ∈ fs))
                ∨ (from = InTesting ∧ testerVerdict ∈ fs)
                ∨ (from ∈ [ReadyForMerge; Done] ∧ reopenForReview ∈ fs)
  | InTesting => from = InReview ∧ testerVerdict ∈ fs
  | ReadyForMerge => (from = InReview ∧ reviewApprove ∈ fs) ∨ (from = InTesting ∧ testerVerdict ∈ fs)
  | Done => from = ReadyForMerge ∧ markMerged ∈ fs
  | Cancelled => wontDo ∈ fs
  | Paused => from ∈ [InProgress; InReview; Claimed] ∧ Transition.pauseDelivery ∈ fs
  | _ => True
  end.
Proof.
  intros [He Ho]%permitted_opened. each_edge He; try exact I;
    match type of Ho with context [openers ?a ?b] =>
      let l := eval vm_compute in (openers a b) in change (openers a b) with l in Ho
    end; cbn iota in Ho; set_solver.
Qed.

(** C17: who may take the protected edges.  Whatever the flags of a call, it
    enters [claimed] only from [ready] on the claim path; starts delivery only
    from a claim, by hand, or out of a pause; is approved only from review or
    testing by the approve path or a tester's verdict; and is done, cancelled or
    paused only on the path of that name. *)
Theorem guards_protect from to fs :
  permitted from to fs = true →
  match to with
  | Claimed => from = Ready ∧ agentClaim ∈ fs
  | InProgress => (from = Claimed ∧ agentSubmit ∈ fs) ∨ (from = Ready ∧ humanClaim ∈ fs)
                  ∨ (from = Paused ∧ resumeDelivery ∈ fs)
  | InReview => (from = InProgress ∧ (agentSubmit ∈ fs ∨ unleasedSubmit ∈ fs))
                ∨ (from = InTesting ∧ testerVerdict ∈ fs)
                ∨ (from ∈ [ReadyForMerge; Done] ∧ reopenForReview ∈ fs)
  | InTesting => from = InReview ∧ testerVerdict ∈ fs
  | ReadyForMerge => (from = InReview ∧ reviewApprove ∈ fs) ∨ (from = InTesting ∧ testerVerdict ∈ fs)
  | Done => from = ReadyForMerge ∧ markMerged ∈ fs
  | Cancelled => wontDo ∈ fs
  | Paused => from ∈ [InProgress; InReview; Claimed] ∧ Transition.pauseDelivery ∈ fs
  | _ => True
  end.
Proof. apply guards_open. Qed.

(** ** [transition] *)
Section transition.
Context `{Env}.

(** The conditions on the ticket, its destination and the caller. *)
Definition may_move (input : TransitionInput) (t : Ticket) (d : db) : Prop :=
  (∀ s, expectedFromStatus input = Some s → status t = s) ∧
  permitted (status t) (toStatus input) (flags input) = true ∧
  (humanBlock ∈ flags input → actor_type (actor input) = Human ∨ actor_type (actor input) = Admin) ∧
  (∀ g, gateFor (toStatus input) = Some g → systemOverride ∉ flags input →
     allowed (evaluate t g (deliveryDiff input) d) = true).

Lemma edge_moves a b : edge a b = true → a ≠ b.
Proof. intros He. each_edge He; discriminate. Qed.

Lemma checks_iff input t d :
  (∃ pol, transition_checks input t d = Ok pol d) ↔ may_move input t d.
Proof.
  unfold may_move. split.
  - intros [pol Hr]. destruct (checks_permit _ _ _ _ _ Hr) as [Hp He]. split; [exact He|]. split; [exact Hp|].
    unfold transition_checks in Hr. run_steps Hr. unfold flag in *. split.
    + intros Hb. apply negb_true_iff in Hrun2. rewrite (bool_decide_eq_true_2 _ Hb) in Hrun2. simpl in Hrun2.
      destruct (actor_type (actor input)); try discriminate Hrun2; auto.
    + intros g Hg Ho. destruct (violatedGuard _ _ _); [discriminate|]. rewrite Hg in Hr.
      rewrite (bool_decide_eq_false_2 _ Ho) in Hr. run_steps Hr. by destruct (allowed _).
  - intros (He & [Hedge Hv]%andb_true_iff & Hb & Hg). unfold transition_checks, flag.
    pose proof (edge_moves _ _ Hedge) as Hne. unfold edge in Hedge.
    assert (Hexp : match expectedFromStatus input with
                   | Some s => bool_decide (status t = s) | None => true end = true).
    { destruct (expectedFromStatus input) as [s|]; [|done]. by apply bool_decide_eq_true_2, He. }
    assert (Hact : negb (bool_decide (humanBlock ∈ flags input)
              && negb (bool_decide (actor_type (actor input) = Human))
              && negb (bool_decide (actor_type (actor input) = Admin))) = true).
    { destruct (decide (humanBlock ∈ flags input)) as [Hf|Hf];
        [|by rewrite (bool_decide_eq_false_2 _ Hf)].
      rewrite (bool_decide_eq_true_2 _ Hf). by destruct (Hb Hf) as [->| ->]. }
    rewrite Hexp, (bool_decide_eq_false_2 _ Hne), Hedge, Hact.
    unfold mbind, M_bind, gets, guard_, mret, M_ret. cbn [negb].
    destruct (violatedGuard _ _ _); [discriminate|].
    destruct (gateFor _) as [g|] eqn:Eg; [|by eexists].
    destruct (decide (systemOverride ∈ flags input)) as [Ho|Ho];
      [rewrite (bool_decide_eq_true_2 _ Ho); by eexists|].
    rewrite (bool_decide_eq_false_2 _ Ho). rewrite (Hg g eq_refl Ho). by eexists.
Qed.

(** C2: [transition] commits exactly when the ticket is where the caller
    expects it, the edge is in the table and the call's flags open it, a
    block or unblock comes from a person, and the gate of the destination
    allows it or a system call overrides the gate.  It then writes that one
    ticket (the new status, the next row version, the patch), ends the
    ticket's leases if the destination is not delivery or review, drops the
    resume context unless paused or in progress, and appends one event; it
    touches no other table. *)
Theorem transition_spec input d t :
  tickets d !! ticketId input = Some t → tk_id t = ticketId input →
  (may_move input t d ↔ ∃ res d', transition input d = Ok res d') ∧
  ∀ res d', transition input d = Ok res d' →
    result_ticket res = moved_ticket input (clock_now d) t ∧
    status (result_ticket res) = toStatus input ∧
    row_version (result_ticket res) = (row_version t + 1)%Z ∧
    d' = set_tickets (<[ticketId input := result_ticket res]> (tickets d))
         (set_ticket_claims
            (if ends_lease (toStatus input)
             then release_if_on (ticketId input) (clock_now d) <$> ticket_claims d else ticket_claims d)
         (set_paused_deliveries
            (if keeps_context (toStatus input) then paused_deliveries d
             else delete (ticketId input) (paused_deliveries d))
         (set_work_events (work_events d ++ [linked (work_events d) (transition_row input t d)])
         (set_entropy (S (entropy d)) d)))).
Proof.
  intros Ht Hid. assert (Hok : ∀ res d', _ ↔ _) by
    (intros res d'; apply (transition_ok input d res d'); intros t' Ht'; congruence). split.
  - rewrite <- checks_iff. split.
    + intros [pol Hc]. do 2 eexists. apply Hok. exists t, pol. by repeat split.
    + intros (res & d' & (t' & pol & Ht' & Hc & _)%Hok). exists pol. congruence.
  - intros res d' (t' & pol & Ht' & Hc & -> & ->)%Hok. assert (t' = t) as -> by congruence.
    simpl. split; [done|]. split.
    { destruct (moved_ticket_life input (clock_now d) t false None) as [_ Hl]. by injection Hl. }
    split.
    { unfold moved_ticket. destruct t. simpl. by repeat case_match. }
    unfold after_transition. rewrite Hid. by destruct d.
Qed.

(** Why [transition] refuses.  A refusal names a missing ticket, a
    status the caller did not expect, a move to the status the ticket
    already has, a move the table or a guard forbids, a caller that may not
    make it, or a gate that denies it.  It is never a concurrency conflict:
    inside the transaction the version read is the version written. *)
Theorem transition_refusals input d e :
  (∀ t, tickets d !! ticketId input = Some t → tk_id t = ticketId input) →
  transition input d = Err e →
  match error_code e with
  | Some NOT_FOUND => tickets d !! ticketId input = None
  | Some STATE_CONFLICT => ∃ t s, tickets d !! ticketId input = Some t ∧
      expectedFromStatus input = Some s ∧ status t ≠ s
  | Some NO_OP => ∃ t, tickets d !! ticketId input = Some t ∧ status t = toStatus input
  | Some ILLEGAL_TRANSITION => ∃ t, tickets d !! ticketId input = Some t ∧
      permitted (status t) (toStatus input) (flags input) = false
  | Some ACTOR_NOT_PERMITTED => humanBlock ∈ flags input ∧
      actor_type (actor input) ∈ [AgentActor; SystemActor]
  | Some POLICY_DENIED => ∃ t g, tickets d !! ticketId input = Some t ∧
      gateFor (toStatus input) = Some g ∧ allowed (evaluate t g (deliveryDiff input) d) = false
  | _ => False
  end.
Proof.
  intros Hkey Hr.
  destruct (tickets d !! ticketId input) as [t|] eqn:Ht.
  2: { unfold transition, inTransaction, mbind, M_bind, gets in Hr. simpl in Hr.
       unfold tickets_findById in Hr. rewrite Ht in Hr. injection Hr as <-. done. }
  destruct (transition_checks input t d) as [pol d1|e'] eqn:Hc.
  { pose proof (transition_checks_pure _ _ _ _ _ Hc) as ->.
    pose proof (proj2 (transition_ok input d _ _
      ltac:(intros t' Ht'; apply Hkey; congruence))
      (ex_intro _ t (ex_intro _ pol (conj Ht (conj Hc (conj eq_refl eq_refl)))))) as Hok. congruence. }
  unfold transition, inTransaction, mbind, M_bind, gets in Hr. simpl in Hr.
  unfold tickets_findById in Hr. rewrite Ht in Hr. simpl in Hr. rewrite Hc in Hr. injection Hr as <-.
  clear Hkey. unfold transition_checks, mbind, M_bind, guard_, throw, gets, flag, mret, M_ret in Hc.
  destruct (match expectedFromStatus input with Some s => _ | None => _ end) eqn:Hs.
  2: { injection Hc as <-. simpl. destruct (expectedFromStatus input) as [s|]; [|discriminate].
       exists t, s. by apply bool_decide_eq_false in Hs. }
  destruct (bool_decide (status t = toStatus input)) eqn:Hn; cbn [negb] in Hc.
  { injection Hc as <-. exists t. by apply bool_decide_eq_true in Hn. }
  destruct (bool_decide (edge_key _ _ ∈ ALLOWED)) eqn:He.
  2: { injection Hc as <-. exists t. split; [done|]. unfold permitted, edge. by rewrite He. }
  destruct (bool_decide (humanBlock ∈ flags input) && _ && _) eqn:Hb; cbn [negb] in Hc.
  { injection Hc as <-. apply andb_true_iff in Hb as [[Hb Hh]%andb_true_iff Ha].
    apply bool_decide_eq_true in Hb. split; [exact Hb|].
    apply (bool_decide_eq_true_1 _). by destruct (actor_type (actor input)). }
  destruct (violatedGuard _ _ _) eqn:Hv.
  { injection Hc as <-. exists t. split; [done|]. unfold permitted. by rewrite Hv, andb_false_r. }
  destruct (gateFor _) as [g|] eqn:Hg; [|discriminate].
  destruct (bool_decide (systemOverride ∈ _)); [discriminate|].
  destruct (allowed _) eqn:Hal; [discriminate|]. injection Hc as <-. by exists t, g.
Qed.
End transition.

(** ** The board *)
Section board.
Context `{Env}.

(** What dragging a card can do.  A board move takes the ticket only if
    it is still where the board showed it; only to a queue or parked status,
    to [failed] from delivery, or to review when the work in progress holds
    no lease; and it never creates a lease.  In particular no drag claims,
    starts, approves, tests, finishes, cancels or pauses a ticket. *)
Theorem board_move_spec card to a d res d' :
  good d → board_move card to a d = Ok res d' →
  to ∈ [Draft; Refining; Ready; Blocked; InReview; Failed] ∧
  (∃ t, tickets d !! tk_id card = Some t ∧ status t = status card) ∧
  (to = InReview → status card = InProgress ∧ lease_held (tk_id card) d = false) ∧
  (to = Failed → status card = InProgress) ∧
  (lease_held (tk_id card) d' = true → lease_held (tk_id card) d = true ∧ to = Failed).
Proof.
  intros [Hwf _] Hr. unfold board_move, inTransaction in Hr.
  apply bind_ok in Hr as (leased & d1 & [= <- <-] & Hr).
  set (fs := if bool_decide (status card = InProgress) && _ && _ then [unleasedSubmit] else []) in Hr.
  apply transition_acts in Hr as (t & Ht & Hp & He & _ & _ & _ & Hl & _); [|done].
  cbn [ticketId toStatus flags expectedFromStatus move] in *. specialize (He _ eq_refl).
  pose proof (guards_open _ _ _ Hp) as Hg. rewrite He in Hg, Hp.
  assert (Hfs : ∀ f, f ∈ fs → f = unleasedSubmit ∧ status card = InProgress ∧ to = InReview ∧
                  claims_hasActiveForTicket (tk_id card) d = false).
  { intros f Hf. unfold fs in Hf. destruct (_ && _) eqn:Eb; [|by apply not_elem_of_nil in Hf].
    apply list_elem_of_singleton in Hf. apply andb_true_iff in Eb as [[H1 H2]%andb_true_iff H3].
    apply bool_decide_eq_true in H1, H2. by apply negb_true_iff in H3. }
  assert (Hto : to ∈ [Draft; Refining; Ready; Blocked; InReview; Failed]).
  { destruct to; try (apply (bool_decide_eq_true_1 _); reflexivity); exfalso; naive_solver. }
  split; [exact Hto|]. split; [eauto|]. split; [|split].
  - intros ->. destruct Hg as [[Hs [Hf|Hf]]|[[_ Hf]|[_ Hf]]]; by apply Hfs in Hf as (? & ? & ? & ?).
  - intros ->. apply andb_true_iff in Hp as [Hedge _]. by destruct (status card).
  - intros Hl'. unfold life_of in Hl. rewrite Ht in Hl. simpl in Hl.
    destruct (tickets d' !! tk_id card); [|done]. injection Hl as _ _ _ Hl _. rewrite Hl in Hl'.
    apply andb_true_iff in Hl' as [Hl1 Hl2]. split; [done|]. apply negb_true_iff in Hl2.
    apply (bool_decide_eq_true_2 _) in Hto.
    destruct to; try discriminate Hto; try discriminate Hl2; [|reflexivity]. exfalso.
    destruct Hg as [[_ [Hf|Hf]]|[[_ Hf]|[_ Hf]]]; apply Hfs in Hf as (? & ? & ? & Hno);
      try done; unfold lease_held in Hl1; congruence.
Qed.

(** A board move does touch claims.  Whoever drags a ticket an agent has
    claimed to the blocked column succeeds, and the agent's lease is gone;
    nothing on the path looks at the claim or asks for its token. *)
Theorem board_move_ends_lease k t a d :
  good d → tickets d !! k = Some t → status t = Claimed →
  lease_held k d = true ∧
  ∃ res d', board_move t Blocked a d = Ok res d' ∧ lease_held k d' = false.
Proof.
  intros [Hwf Hlives] Ht Hs. pose proof (wf_tickets d Hwf k t Ht) as Hid. split.
  { specialize (Hlives k). unfold life_of in Hlives. rewrite Ht in Hlives. simpl in Hlives.
    unfold life_ok in Hlives. rewrite Hs in Hlives. simpl in Hlives. by destruct (lease_held k d). }
  set (input := move k a Blocked "board_move" (Some Claimed) []).
  destruct (proj2 (checks_iff input t d)) as [pol Hc].
  { split; [by intros s [= <-]|]. split; [by rewrite Hs|]. split; [by intros ?%not_elem_of_nil|done]. }
  assert (Hrun : board_move t Blocked a d
    = Ok (mk_TransitionResult (moved_ticket input (clock_now d) t) (randomUUID (entropy d)) pol)
         (after_transition input t d)).
  { unfold board_move, inTransaction, mbind, M_bind, gets.
    rewrite Hs, Hid. change (bool_decide (Claimed = InProgress)) with false. cbn [andb].
    apply transition_ok; [intros t' Ht'; by apply (wf_tickets d Hwf)|]. by exists t, pol. }
  do 2 eexists. split; [exact Hrun|].
  destruct (after_transition_acts input t d Hwf ltac:(by rewrite Hid)) as (_ & Hl & _).
  rewrite Hid in Hl. unfold life_of in Hl. rewrite Ht in Hl. simpl in Hl. rewrite Hid, lookup_insert_eq in Hl.
  injection Hl as _ _ _ Hl _. rewrite Hl. apply andb_false_r.
Qed.
End board.

(** ** Witnesses *)
Lemma guards_protect_witness : Ready = Ready ∧ agentClaim ∈ [agentClaim].
Proof. apply (guards_protect Ready Claimed [agentClaim]). vm_compute. reflexivity. Defined.

Definition demo_claim_move : TransitionInput :=
  move "u0" coder Claimed "claim_next" (Some Ready) [agentClaim].
Lemma transition_spec_witness :
  ∃ t, tickets demo_ready !! "u0" = Some t ∧
    (may_move demo_claim_move t demo_ready ↔ ∃ res d', transition demo_claim_move demo_ready = Ok res d').
Proof.
  eexists. split; [vm_compute; reflexivity|]. eapply proj1.
  apply (transition_spec demo_claim_move demo_ready); vm_compute; reflexivity.
Defined.

(** Starting delivery straight from ready is forbidden. *)
Lemma transition_refusals_witness :
  ∃ t, tickets demo_ready !! "u0" = Some t ∧ permitted (status t) InProgress [agentSubmit] = false.
Proof.
  apply (transition_refusals (move "u0" coder InProgress "start" (Some Ready) [agentSubmit]) demo_ready
    (DispatchError ILLEGAL_TRANSITION "A ready ticket can only be taken by hand via the human-claim path.")).
  - intros t Ht. by apply (wf_tickets demo_ready (proj1 demo_ready_good)).
  - vm_compute. reflexivity.
Defined.

Lemma board_move_spec_witness :
  ∃ res d', board_move (seen "u0" demo_ready) Draft human demo_ready = Ok res d' ∧
    (lease_held (tk_id (seen "u0" demo_ready)) d' = true → Draft = Failed).
Proof.
  destruct (board_move (seen "u0" demo_ready) Draft human demo_ready) as [res d'|e] eqn:Hr;
    [|exfalso; revert Hr; vm_compute; discriminate].
  exists res, d'. split; [reflexivity|]. intros Hl.
  exact (proj2 (proj2 (proj2 (proj2 (proj2
    (board_move_spec _ _ _ _ _ _ demo_ready_good Hr)))) Hl)).
Defined.

Lemma board_move_ends_lease_witness :
  ∃ t res d', tickets demo_claimed !! "u0" = Some t ∧
    board_move t Blocked human demo_claimed = Ok res d' ∧ lease_held "u0" d' = false.
Proof.
  destruct (tickets demo_claimed !! "u0") as [t|] eqn:Ht; [|exfalso; revert Ht; vm_compute; discriminate].
  destruct (proj2 (board_move_ends_lease "u0" t human demo_claimed demo_claimed_good Ht
    ltac:(revert Ht; vm_compute; intros [= <-]; reflexivity))) as (res & d' & Hr & Hl). eauto 10.
Defined.
