(* ===== verification/Queue.v ===== *)
(** * The queue and the single-ticket query

    [candidateForTicket] against [candidateTickets], the queue's progress, and
    what [isClaimableNow] answers. *)
From S2P Require Import Prelude Json Types EventChain Store Policy Diff Transition Claims Tickets.
From S2P Require Import Pause Decisions Lifecycle Life Refinement Simulation Claiming System Demo.
From S2P Require Import Leases Moves.

(** ** The two candidate queries *)

Lemma chosen_exact k n criteria d row :
  well_formed d →
  claims_candidateForTicket k n criteria d = Some row ↔
  ∃ t, tickets d !! k = Some t ∧ row = candidate_row n d t ∧
    eligible n (maxRiskRank criteria) (bound_capabilities space_none (capabilities criteria)) d t.
Proof.
  intros Hwf. unfold claims_candidateForTicket. rewrite bind_Some. split.
  - intros (t & Ht & Hc). exists t. split; [done|].
    destruct (claimable _ _ _ _ _) eqn:E; [|done]. apply claimable_spec in E. by injection Hc as <-.
  - intros (t & Ht & -> & He%claimable_spec). exists t. split; [done|]. by rewrite He.
Qed.
Lemma queued_exact row n criteria d :
  row ∈ claims_candidateTickets n criteria d ↔
  ∃ t i, tickets d !! i = Some t ∧ row = candidate_row n d t ∧
    eligible n (maxRiskRank criteria) (bound_capabilities nul_none (capabilities criteria)) d t.
Proof.
  unfold claims_candidateTickets. rewrite merge_sort_Permutation, list_elem_of_fmap.
  setoid_rewrite list_elem_of_filter. setoid_rewrite claimable_spec. setoid_rewrite rows_spec. naive_solver.
Qed.

Lemma eligible_caps n m caps caps' d t :
  (∀ c, (tk_id t, c) ∈ ticket_required_capabilities d → c ∈ caps → c ∈ caps') →
  eligible n m caps d t → eligible n m caps' d t.
Proof. intros Hc [? ? ? ? ? ? ? ?]. split; eauto. Qed.

(** Claiming a chosen ticket follows the queue's rules.  For an agent with
    a capability, or on tickets that require neither placeholder capability,
    [candidateForTicket] answers exactly the row the queue holds for that
    ticket, and nothing when the queue holds none. *)
Theorem chosen_matches_queue k n criteria d row :
  well_formed d →
  capabilities criteria ≠ [] ∨
  (∀ c, (k, c) ∈ ticket_required_capabilities d → c ≠ nul_none ∧ c ≠ space_none) →
  claims_candidateForTicket k n criteria d = Some row ↔
  row ∈ claims_candidateTickets n criteria d ∧ cr_id row = k.
Proof.
  intros Hwf Hcaps. rewrite chosen_exact, queued_exact by done.
  assert (Hsame : ∀ t, tk_id t = k →
    eligible n (maxRiskRank criteria) (bound_capabilities space_none (capabilities criteria)) d t ↔
    eligible n (maxRiskRank criteria) (bound_capabilities nul_none (capabilities criteria)) d t).
  { intros t Hk. destruct Hcaps as [Hne|Hreq]; [by destruct (capabilities criteria)|].
    split; apply eligible_caps; intros c Hin; rewrite Hk in Hin; destruct (Hreq c Hin) as [H1 H2];
      unfold bound_capabilities; destruct (capabilities criteria); try done;
      by intros ->%list_elem_of_singleton. }
  split.
  - intros (t & Ht & -> & He). pose proof (wf_tickets d Hwf k t Ht) as Hid. split; [|done].
    exists t, k. split; [done|]. split; [done|]. by apply Hsame.
  - intros [(t & i & Ht & -> & He) Hk]. simpl in Hk. pose proof (wf_tickets d Hwf i t Ht) as Hid.
    exists t. split; [congruence|]. split; [done|]. by apply Hsame.
Qed.

(** The placeholder is a capability like any other.  An empty capability
    set is bound as a NUL followed by [__none__]; a ticket that requires just
    that string is offered by the queue to an agent with no capabilities at
    all, while [candidateForTicket], whose placeholder differs, refuses it. *)
Theorem placeholder_claims n m d k t :
  well_formed d → tickets d !! k = Some t →
  eligible n m [nul_none] d t → (k, nul_none) ∈ ticket_required_capabilities d →
  k ∈ cr_id <$> claims_candidateTickets n (mk_CandidateCriteria m []) d ∧
  claims_candidateForTicket k n (mk_CandidateCriteria m []) d = None.
Proof.
  intros Hwf Ht He Hreq. pose proof (wf_tickets d Hwf k t Ht) as Hid. split.
  - apply list_elem_of_fmap. exists (candidate_row n d t). split; [by simpl|].
    apply queued_exact. by exists t, k.
  - destruct (claims_candidateForTicket k n _ d) as [row|] eqn:Hc; [|done].
    apply chosen_exact in Hc as (t' & Ht' & _ & He'); [|done]. assert (t' = t) as -> by congruence.
    rewrite <- Hid in Hreq. apply (el_caps _ _ _ _ _ He') in Hreq.
    apply list_elem_of_singleton in Hreq. by vm_compute in Hreq.
Qed.

(** ** The list of claimable tickets *)

Lemma unsatisfied_nil k d :
  deps_unsatisfiedDependencies k d = [] ↔
  ∀ x t, x ∈ ticket_dependencies d → dep_ticket_id x = k →
    tickets d !! depends_on_ticket_id x = Some t → status t = Done.
Proof.
  unfold deps_unsatisfiedDependencies, deps_listForTicket, order_by. split.
  - intros E x t Hin Hk Ht. destruct (decide (status t = Done)) as [|Hne]; [done|].
    assert (Hm : mk_TicketDependencyView (depends_on_ticket_id x) (number t) (title t) (status t) false
                 ∈ ([] : list TicketDependencyView)); [|by apply not_elem_of_nil in Hm].
    rewrite <- E. apply list_elem_of_filter. split; [done|]. rewrite merge_sort_Permutation.
    apply list_elem_of_omap. exists x. split; [by apply list_elem_of_filter|].
    unfold dependency_view. rewrite Ht. simpl. by rewrite bool_decide_eq_false_2.
  - intros Hall. destruct (filter _ (merge_sort _ _)) as [|v l] eqn:E; [done|].
    assert (Hm : v ∈ v :: l) by (apply elem_of_cons; by left). rewrite <- E in Hm.
    apply list_elem_of_filter in Hm as [Hs Hm]. rewrite merge_sort_Permutation in Hm.
    apply list_elem_of_omap in Hm as (x & [Hk Hin]%list_elem_of_filter & Hv).
    unfold dependency_view in Hv. destruct (tickets d !! _) as [t|] eqn:Ht; [|done]. injection Hv as <-.
    simpl in Hs. apply bool_decide_eq_false in Hs. destruct Hs. by eapply Hall.
Qed.

Lemma ready_unleased k t d :
  good d → tickets d !! k = Some t → status t = Ready → lease_held k d = false.
Proof.
  intros [_ Hlives] Ht Hs. specialize (Hlives k). unfold life_of in Hlives. rewrite Ht in Hlives.
  unfold lives_ok, life_ok in Hlives. simpl in Hlives. rewrite Hs in Hlives. by destruct (lease_held k d).
Qed.
Lemma unleased_claims k d i c :
  lease_held k d = false → ticket_claims d !! i = Some c → cl_ticket_id c = k → cl_status c ≠ Active.
Proof.
  intros Hl Hi Hk Ha. assert (lease_held k d = true) by (apply lease_held_spec; eauto). congruence.
Qed.

Section listing.
Context `{Env}.

Lemma resolve_own d t : tickets d !! tk_id t = Some t → resolveRef (tk_id t) d = Ok t d.
Proof.
  intros Ht. unfold resolveRef, mbind, M_bind, gets, tickets_resolveRef, tickets_findById.
  by rewrite Ht.
Qed.

(** What is listed as claimable.  [isClaimableNow] answers, without a
    write, true exactly for the ready tickets that some agent could claim at
    some instant: it looks at the by-hand mark, the open decisions and the
    unfinished dependencies, and neither at the schedule nor at what the
    ticket demands of its agent. *)
Theorem isClaimableNow_spec t d :
  good d → tickets d !! tk_id t = Some t →
  ∃ b, isClaimableNow t d = Ok b d ∧
    (b = true ↔ status t = Ready ∧ ∃ n m caps, eligible n m caps d t).
Proof.
  intros Hg Ht. unfold isClaimableNow.
  destruct (decide (status t = Ready)) as [Hs|Hs].
  2: { rewrite bool_decide_eq_false_2 by done. exists false. split; [done|]. split; [done|naive_solver]. }
  rewrite bool_decide_eq_true_2 by done. destruct (decide (human_owner t = None)) as [Ho|Ho].
  2: { rewrite bool_decide_eq_true_2 by done. exists false. split; [done|]. split; [done|].
       intros (_ & n & m & caps & He). by destruct (el_human _ _ _ _ _ He). }
  rewrite bool_decide_eq_false_2 by tauto. cbn [negb orb].
  unfold claimability, mbind, M_bind. rewrite resolve_own by done. unfold gets. rewrite Hs.
  rewrite !bool_decide_eq_false_2 by done. cbn [negb orb]. eexists. split; [reflexivity|]. cbn [cb_ready].
  assert (Hnil : ∀ us os, bool_decide (length (dependency_blocker us ++ decision_blocker os) = 0)%nat = true
                   ↔ us = [] ∧ os = []).
  { intros [|? ?] [|? ?]; split; try done; by intros [? ?]. }
  rewrite Hnil, unsatisfied_nil, no_blockers. split.
  - intros [Hdeps Hdec]. split; [done|].
    exists (scheduled_after t ?? 0)%Z, (riskRank (risk_level t)), (required_capabilities (tk_id t) d).
    split; try done; try lia; [by left|..].
    + intros s ->. done.
    + intros c. by rewrite required_capabilities_spec.
    + intros i c Hi Hk Ha. by destruct (unleased_claims _ _ i c (ready_unleased _ _ _ Hg Ht Hs) Hi Hk).
  - intros (_ & n & m & caps & [? ? ? ? ? ? ? ?]). eauto.
Qed.
End listing.

(** ** Progress *)
Section progress.
Context `{Env}.

Lemma ticket_event_total k a e p d : ∃ i d', ticket_event k a e p d = Ok i d'.
Proof. unfold ticket_event, writeEvent. by do 2 eexists. Qed.

Lemma claim_gate_open t d :
  decisions_blockingForTicket (tk_id t) d = [] →
  allowed (evaluate t GateClaim None d) = true.
Proof.
  intros Hb. apply allowed_iff. unfold evaluate, policy_context. simpl.
  unfold claim_failures. cbn [hasUnresolvedHumanRequired blockingDecisions].
  unfold decisions_hasUnresolvedHumanRequired. rewrite Hb. simpl.
  by destruct (pack_in _ _).
Qed.

Lemma attempt_ready row ag ttl a n d t :
  good d → tickets d !! cr_id row = Some t → status t = Ready → expired_claim_id row = None →
  decisions_blockingForTicket (cr_id row) d = [] →
  ticket_claims d !! randomUUID (S (entropy d)) = None → agents d !! ag_id ag ≠ None →
  ∃ r d', attemptClaim row ag ttl a n d = Ok (Some r) d' ∧ res_ticketId r = cr_id row.
Proof.
  intros Hg Ht Hs Hex Hb Hfresh Hag. pose proof (wf_tickets d (proj1 Hg) _ _ Ht) as Hid.
  set (tok := "ct_" +:+ random_base64url (entropy d)).
  set (id := randomUUID (S (entropy d))).
  set (d2 := set_entropy (S (S (entropy d))) d).
  set (claim := new_claim id (cr_id row) (ag_id ag) tok ttl n).
  set (d3 := set_ticket_claims (<[id := claim]> (ticket_claims d2)) d2).
  assert (Hins : claims_insert claim d2 = Ok tt d3).
  { unfold claims_insert. simpl. unfold id in *. rewrite Hfresh.
    pose proof (ready_unleased _ _ _ Hg Ht Hs) as Hl. unfold lease_held in Hl.
    change (claims_hasActiveForTicket (cr_id row) d2) with (claims_hasActiveForTicket (cr_id row) d).
    rewrite Hl. simpl. rewrite bool_decide_eq_false_2; [done|].
    intros [?|?]; congruence. }
  assert (Hwf2 : well_formed d2) by (apply (same_core_wf d); [done|exact (proj1 Hg)]).
  pose proof (acts_insert_claim claim d2 tt d3 Hwf2 eq_refl Hins) as (_ & _ & _ & Hwf3 & _).
  set (input := move (cr_id row) a Claimed "claim_next" (Some Ready) [agentClaim]).
  assert (Hmay : may_move input t d3).
  { split; [by intros s [= <-]|]. split; [rewrite Hs; vm_compute; reflexivity|].
    split; [intros Hin; exfalso; revert Hin; set_solver|]. intros g [= <-] _. apply claim_gate_open; by rewrite Hid. }
  apply checks_iff in Hmay as [pol Hc].
  assert (Htr := proj2 (transition_ok input d3 _ _ ltac:(intros t' Ht'; by apply (wf_tickets d3 Hwf3)))
    (ex_intro _ t (ex_intro _ pol (conj Ht (conj Hc (conj eq_refl eq_refl)))))).
  set (d4 := after_transition input t d3) in *.
  assert (Hfind : tickets d4 !! cr_id row = Some (moved_ticket input (clock_now d3) t)).
  { unfold d4. simpl. by rewrite Hid, lookup_insert_eq. }
  assert (Hmid : tk_id (moved_ticket input (clock_now d3) t) = cr_id row).
  { rewrite <- Hid. apply (moved_ticket_life input (clock_now d3) t false None). }
  set (t' := moved_ticket input (clock_now d3) t) in *.
  destruct (ticket_event_total (tk_id t') a "claim.created"
    (JSObj [("claim_id", JSStr id); ("agent_id", JSStr (ag_id ag));
            ("expires_at", JSStr (toISOString (expires_at claim)))]) d4) as (ev & d5 & Hev).
  exists (mk_ClaimResult (tk_id t') (number t' ?? 0%Z) tok (last_review_feedback t')), d5.
  split; [|exact Hmid].
  unfold attemptClaim, reap_expired. rewrite Hex. unfold given.
  apply bind_ok. exists false, d. split; [done|].
  apply bind_ok. exists tok, (set_entropy (S (entropy d)) d). split; [done|].
  apply bind_ok. exists id, d2. split; [done|]. fold claim.
  apply bind_ok. exists true, d3. split; [apply catch_ok; left; apply bind_ok; by exists tt, d3|]. cbn [negb].
  apply bind_ok. exists true, d4. split; [apply catch_ok; left; apply bind_ok; by do 2 eexists|]. cbn [negb].
  apply bind_ok. exists (Some t'), d4. split; [unfold gets, tickets_findById; by rewrite Hfind|].
  apply bind_ok. exists t', d4. split; [done|].
  apply bind_ok. by exists ev, d5.
Qed.

(** C35: the queue makes progress.  When the head of an active agent's queue
    is a ready ticket, [claimNextTicket] commits and answers with that very
    ticket (given a fresh claim id): work at the head is neither skipped nor
    refused, and the claim gate never denies what the query offered. *)
Theorem claimNextTicket_progress input a d ag row rest t :
  good d → agents d !! cn_agentId input = Some ag → ag_id ag = cn_agentId input →
  ag_status ag = AgentActive →
  claims_candidateTickets (clock_now d) (agent_criteria ag d) d = row :: rest →
  tickets d !! cr_id row = Some t → status t = Ready →
  ticket_claims d !! randomUUID (S (entropy d)) = None →
  ∃ r d', claimNextTicket input a d = Ok (Some r) d' ∧ res_ticketId r = cr_id row.
Proof.
  intros Hg Hag Hagid Hact Hq Ht Hs Hfresh.
  set (d1 := agents_touchLastSeen (ag_id ag) (clock_now d) d).
  assert (Hrow : row ∈ claims_candidateTickets (clock_now d) (agent_criteria ag d) d)
    by (rewrite Hq; apply elem_of_cons; by left).
  apply queued_exact in Hrow as (t0 & i & Ht0 & Hr & He). pose proof (wf_tickets d (proj1 Hg) _ _ Ht0) as Hi.
  assert (cr_id row = i) as Hki by (rewrite Hr; simpl; congruence). assert (t0 = t) as -> by congruence.
  assert (Hex : expired_claim_id row = None).
  { rewrite Hr. simpl. destruct (expired_claims _ _ _) as [|c l] eqn:E; [done|]. exfalso.
    assert (Hne : expired_claims (tk_id t) (clock_now d) d ≠ []) by (by rewrite E).
    apply expired_claims_spec in Hne as (j & c' & Hj & Hk & Ha & _).
    eapply unleased_claims; [|exact Hj|exact Hk|exact Ha]. eapply ready_unleased; [done| |done]. congruence. }
  destruct (sim_touch_last_seen (ag_id ag) (clock_now d) d Hg) as [Hg1 _]. fold d1 in Hg1.
  destruct (attempt_ready row ag (cn_ttlSeconds input) a (clock_now d) d1 t) as (r & d' & Hrun & Hres);
    try done.
  { apply no_blockers. intros td x. rewrite Hki, <- Hi. apply (el_decisions _ _ _ _ _ He). }
  { simpl. unfold update_row. rewrite Hagid, lookup_alter_eq, Hag. done. }
  exists r, d'. split; [|done]. unfold claimNextTicket, inTransaction.
  apply bind_ok. exists (clock_now d), d. split; [done|].
  apply bind_ok. exists ag, d1. split.
  { unfold eligible_agent, agents_findById. apply bind_ok. exists (Some ag), d. split; [unfold gets; by rewrite Hag|].
    apply bind_ok. exists ag, d. split; [done|]. apply bind_ok. exists tt, d.
    split; [by apply guard_ok; rewrite Hact|]. by apply bind_ok; exists tt, d1. }
  apply bind_ok. exists (row :: rest), d1. split; [unfold gets; by rewrite <- Hq|]. simpl.
  apply bind_ok. by exists (Some r), d'.
Qed.
End progress.

(** ** Witnesses *)
Lemma chosen_matches_queue_witness :
  claims_candidateForTicket "u0" 1000 (mk_CandidateCriteria 1 ["ts"]) demo_ready
    = Some (mk_CandidateRow "u0" 5 1000 None) ∧
  mk_CandidateRow "u0" 5 1000 None ∈ claims_candidateTickets 1000 (mk_CandidateCriteria 1 ["ts"]) demo_ready.
Proof.
  assert (Hc : claims_candidateForTicket "u0" 1000 (mk_CandidateCriteria 1 ["ts"]) demo_ready
    = Some (mk_CandidateRow "u0" 5 1000 None)) by (vm_compute; reflexivity). split; [exact Hc|].
  apply (chosen_matches_queue "u0" 1000 (mk_CandidateCriteria 1 ["ts"]) demo_ready);
    [exact (proj1 demo_ready_good)|left; discriminate|exact Hc].
Defined.

(** The placeholder passes the input schema, which trims spaces only. *)
Definition demo_placeholder : db := exec (SetRequiredCapabilities "1" [nul_none]) human demo_ready.
Lemma demo_placeholder_good : good demo_placeholder.
Proof. apply reachable_good, exec_reachable, demo_ready_reachable. Qed.
Lemma placeholder_claims_witness :
  "u0" ∈ cr_id <$> claims_candidateTickets 1000 (mk_CandidateCriteria 1 []) demo_placeholder ∧
  claims_candidateForTicket "u0" 1000 (mk_CandidateCriteria 1 []) demo_placeholder = None.
Proof.
  destruct (tickets demo_placeholder !! "u0") as [t|] eqn:Ht; [|exfalso; revert Ht; vm_compute; discriminate].
  apply (placeholder_claims 1000 1 demo_placeholder "u0" t); [exact (proj1 demo_placeholder_good)|exact Ht|..].
  - apply claimable_spec. revert Ht. vm_compute. intros [= <-]. reflexivity.
  - apply (bool_decide_eq_true_1 _). vm_compute. reflexivity.
Defined.

Lemma isClaimableNow_spec_witness :
  ∃ t b, tickets demo_ready !! "u0" = Some t ∧ isClaimableNow t demo_ready = Ok b demo_ready ∧
    (b = true ↔ status t = Ready ∧ ∃ n m caps, eligible n m caps demo_ready t).
Proof.
  destruct (tickets demo_ready !! "u0") as [t|] eqn:Ht; [|exfalso; revert Ht; vm_compute; discriminate].
  assert (Hid : tk_id t = "u0") by (revert Ht; vm_compute; intros [= <-]; reflexivity).
  destruct (isClaimableNow_spec t demo_ready demo_ready_good ltac:(by rewrite Hid)) as (b & Hb). eauto.
Defined.

Lemma claimNextTicket_progress_witness :
  ∃ r d', claimNextTicket (mk_ClaimNextInput "u2" 60) coder demo_ready = Ok (Some r) d' ∧
    res_ticketId r = "u0".
Proof.
  destruct (agents demo_ready !! "u2") as [ag|] eqn:Ha; [|exfalso; revert Ha; vm_compute; discriminate].
  destruct (tickets demo_ready !! "u0") as [t|] eqn:Ht; [|exfalso; revert Ht; vm_compute; discriminate].
  apply (claimNextTicket_progress (mk_ClaimNextInput "u2" 60) coder demo_ready ag
    (mk_CandidateRow "u0" 5 1000 None) [] t demo_ready_good Ha);
    [revert Ha; vm_compute; intros [= <-]; reflexivity
    |revert Ha; vm_compute; intros [= <-]; reflexivity
    |revert Ha; vm_compute; intros [= <-]; reflexivity
    |exact Ht
    |revert Ht; vm_compute; intros [= <-]; reflexivity
    |vm_compute; reflexivity].
Defined.
