(* ===== verification/Pausing.v ===== *)
(** * Pause, continue, resume

    A paused delivery can always be continued and resumed, and the runner gets
    back the context the pause kept. *)
From S2P Require Import Prelude Json Types EventChain Store Policy Diff Transition Claims Tickets.
From S2P Require Import Pause Decisions Lifecycle Life Refinement Simulation Claiming System Demo.
From S2P Require Import Moves Queue.

(** The kept context is the one the runner handed over. *)
Definition keeps (i : PauseInput) (k : string) (p : PausedDelivery) : Prop :=
  pd_ticket_id p = k ∧ pd_reason p = pi_reason i ∧ pd_branch_name p = pi_branch_name i ∧
  worktree_path p = pi_worktree_path i ∧ worktrees_json p = pi_worktrees_json i ∧
  pd_repo p = pi_repo i ∧ pd_attempt p = (pi_attempt i ?? 0%Z) ∧ turns p = pi_turns i ∧
  spend p = pi_spend i.

Section pausing.
Context `{Env}.

(** The ids still to be drawn name no claim. *)
Definition unused_ids (d : db) : Prop :=
  ∀ n, (entropy d ≤ n)%nat → ticket_claims d !! randomUUID n = None.

(** The ticket is paused with the context of [i]; [b] says whether Continue
    was pressed. *)
Record parked (k : string) (i : PauseInput) (b : Z) (d : db) : Prop := {
  pk_wf : well_formed d;
  pk_ticket : ∃ t, tickets d !! k = Some t ∧ status t = Paused;
  pk_context : ∃ p, paused_deliveries d !! k = Some p ∧ keeps i k p ∧ resume_requested p = b
}.

Lemma ticket_event_frame k a e p d i d' :
  ticket_event k a e p d = Ok i d' →
  same_core d d' ∧ agents d' = agents d ∧ entropy d' = S (entropy d).
Proof. intros [= <- <-]. by destruct d. Qed.
Lemma parked_core k i b d d' : same_core d d' → parked k i b d → parked k i b d'.
Proof.
  intros Hs [Hwf Ht Hp]. split; [by eapply same_core_wf|..];
    destruct Hs as (Et & _ & Ep); by rewrite ?Et, ?Ep.
Qed.
(** The ids only advance, and no claim appears under an unused one. *)
Lemma unused_core d d' :
  ticket_claims d' = ticket_claims d → (entropy d ≤ entropy d')%nat → unused_ids d → unused_ids d'.
Proof. intros Hc He Hun n Hn. rewrite Hc. apply Hun. lia. Qed.

(** A transition whose conditions hold, run. *)
Lemma transition_run input t d :
  well_formed d → tickets d !! ticketId input = Some t → may_move input t d →
  ∃ pol, transition input d = Ok (mk_TransitionResult (moved_ticket input (clock_now d) t)
                                    (randomUUID (entropy d)) pol) (after_transition input t d).
Proof.
  intros Hwf Ht Hm. apply checks_iff in Hm as [pol Hc]. exists pol.
  apply transition_ok; [intros t' Ht'; by apply (wf_tickets d Hwf)|]. by exists t, pol.
Qed.
Lemma moved_ticket_status input n t : status (moved_ticket input n t) = toStatus input.
Proof. destruct (moved_ticket_life input n t false None) as [_ Hl]. by injection Hl. Qed.

Lemma resolve_key k t d : well_formed d → tickets d !! k = Some t → resolveRef k d = Ok t d.
Proof. intros Hwf Ht. pose proof (wf_tickets d Hwf k t Ht) as <-. by apply resolve_own. Qed.

Lemma pauseDelivery_parks k i a d r d' t :
  good d → tickets d !! k = Some t → Pause.pauseDelivery k i a d = Ok r d' →
  parked k i 0 d' ∧ agents d' = agents d ∧ (unused_ids d → unused_ids d').
Proof.
  intros [Hwf _] Ht Hr. pose proof (wf_tickets d Hwf k t Ht) as Hid.
  unfold Pause.pauseDelivery, inTransaction in Hr.
  apply bind_ok in Hr as (t0 & d0 & Hres & Hr). rewrite (resolve_key k t) in Hres by done.
  injection Hres as <- <-. apply bind_ok in Hr as (u & d0 & [_ ->]%guard_ok & Hr).
  apply bind_ok in Hr as (res & d1 & Htr & Hr).
  pose proof Htr as Hacts. apply transition_acts in Hacts as (_ & _ & _ & _ & _ & _ & Hwf1 & _); [|done].
  apply transition_ok in Htr as (t1 & pol & Ht1 & _ & -> & _); [|intros x Hx; by apply (wf_tickets d Hwf)].
  simpl in Ht1. rewrite Hid, Ht in Ht1. injection Ht1 as <-.
  apply bind_ok in Hr as (n & d2 & [= <- <-] & Hr). apply bind_ok in Hr as (u1 & d2 & [= <- <-] & Hr).
  apply bind_ok in Hr as (ev & d3 & Hev & [= <- <-]).
  destruct (ticket_event_frame _ _ _ _ _ _ _ Hev) as (Hcore & Hag & Hen). clear Hev.
  set (input := move (tk_id t) a Paused _ _ _) in *.
  assert (Htk : ∃ t2, tickets (after_transition input t d) !! k = Some t2 ∧ status t2 = Paused).
  { eexists. split; [simpl; rewrite Hid; apply lookup_insert_eq|]. by rewrite moved_ticket_status. }
  split; [apply (parked_core _ _ _ _ _ Hcore); split|split].
  - eapply acts_wf, acts_paused_upsert; [exact Hwf1|]. rewrite Hid. destruct Htk as (t2 & Htk & _).
    by rewrite Htk.
  - exact Htk.
  - eexists. split; [simpl; rewrite Hid; apply lookup_insert_eq|]. by repeat split.
  - by rewrite Hag.
  - intros Hun m Hm. destruct Hcore as (_ & -> & _). rewrite Hen in Hm. simpl in *.
    rewrite lookup_fmap, Hun by lia. done.
Qed.

Lemma requestContinue_runs k i b a d :
  parked k i b d →
  ∃ r d', requestContinue k a d = Ok r d' ∧ parked k i 1 d' ∧ agents d' = agents d ∧
          (unused_ids d → unused_ids d').
Proof.
  intros [Hwf (t & Ht & Hs) (p & Hp & Hk & _)]. pose proof (wf_tickets d Hwf k t Ht) as Hid.
  set (d1 := paused_setResumeRequested (tk_id t) true (clock_now d) d).
  destruct (ticket_event_total (tk_id t) a "ticket.resume_requested" (JSObj []) d1) as (ev & d2 & Hev).
  exists (tk_id t, ev), d2. split.
  { unfold requestContinue, inTransaction.
    apply bind_ok. exists t, d. split; [by apply resolve_key|].
    apply bind_ok. exists tt, d. split; [by apply guard_ok; rewrite Hs|].
    apply bind_ok. exists (Some p), d. split; [unfold gets, paused_find; by rewrite Hid, Hp|].
    apply bind_ok. exists tt, d. split; [by apply guard_ok|].
    apply bind_ok. exists (clock_now d), d. split; [done|].
    apply bind_ok. exists tt, d1. split; [done|]. apply bind_ok. by exists ev, d2. }
  unfold d1 in *. rewrite Hid in *. clear d1.
  destruct (ticket_event_frame _ _ _ _ _ _ _ Hev) as (Hcore & Hag & Hen). clear Hev.
  split; [apply (parked_core _ _ _ _ _ Hcore); split|split].
  - by eapply acts_wf, acts_resume_requested.
  - by exists t.
  - eexists. split; [simpl; unfold update_row; by rewrite lookup_alter_eq, Hp|].
    destruct Hk as (? & ? & ? & ? & ? & ? & ? & ? & ?). by repeat split.
  - by rewrite Hag.
  - apply unused_core; [by destruct Hcore as (_ & -> & _)|rewrite Hen; simpl; lia].
Qed.
(** The resumed delivery: in progress again, the context kept. *)
Record running (k : string) (i : PauseInput) (d : db) : Prop := {
  ru_wf : well_formed d;
  ru_ticket : ∃ t, tickets d !! k = Some t ∧ status t = InProgress;
  ru_context : ∃ p, paused_deliveries d !! k = Some p ∧ keeps i k p ∧ resume_requested p = 0%Z
}.
Lemma running_frame k i d d' :
  well_formed d' → tickets d' = tickets d → paused_deliveries d' = paused_deliveries d →
  running k i d → running k i d'.
Proof. intros Hwf Et Ep [_ Ht Hp]. by split; rewrite ?Et, ?Ep. Qed.

Lemma beginResume_runs k i b a d :
  parked k i b d →
  ∃ r d', beginResume k a d = Ok r d' ∧ rm_ticketId r = k ∧ keeps i k (rm_context r) ∧
    running k i d' ∧ agents d' = agents d ∧ clock_now d' = clock_now d ∧ (unused_ids d → unused_ids d').
Proof.
  intros [Hwf (t & Ht & Hs) (p & Hp & Hk & _)]. pose proof (wf_tickets d Hwf k t Ht) as Hid.
  set (input := move (tk_id t) a InProgress "resume_delivery" (Some Paused) [resumeDelivery]).
  destruct (transition_run input t d Hwf) as [pol Htr]; [by simpl; rewrite Hid| |].
  { split; [by intros s [= <-]|]. split; [rewrite Hs; vm_compute; reflexivity|].
    split; [intros Hin; exfalso; revert Hin; set_solver|done]. }
  pose proof Htr as Hacts. apply transition_acts in Hacts as (_ & _ & _ & _ & _ & _ & Hwf1 & _); [|done].
  set (d1 := after_transition input t d) in *.
  set (d2 := paused_setResumeRequested (tk_id t) false (clock_now d1) d1).
  destruct (ticket_event_total (tk_id t) a "ticket.resumed"
    (JSObj [("branch_name", JSNullable (pd_branch_name p)); ("attempt", JSNum (pd_attempt p))]) d2)
    as (ev & d3 & Hev).
  exists (mk_Resumed (tk_id t) ev p None), d3. split.
  { unfold beginResume, inTransaction.
    apply bind_ok. exists t, d. split; [by apply resolve_key|].
    apply bind_ok. exists tt, d. split; [by apply guard_ok; rewrite Hs|].
    apply bind_ok. exists (Some p), d. split; [unfold gets, paused_find; by rewrite Hid, Hp|].
    apply bind_ok. exists p, d. split; [done|].
    apply bind_ok. eexists _, d1. split; [exact Htr|].
    apply bind_ok. exists (clock_now d1), d1. split; [done|].
    apply bind_ok. exists tt, d2. split; [done|]. apply bind_ok. by exists ev, d3. }
  split; [done|]. split; [done|].
  destruct (ticket_event_frame _ _ _ _ _ _ _ Hev) as (Hcore & Hag & Hen).
  assert (Hclock : clock_now d3 = clock_now d2) by (by injection Hev as _ <-; destruct d2). clear Hev.
  split; [|split; [by rewrite Hag|split; [by rewrite Hclock|]]].
  - eapply running_frame; [eapply same_core_wf; [exact Hcore|]|by destruct Hcore|by destruct Hcore as (_ & _ & ?)|].
    { by eapply acts_wf, acts_resume_requested. }
    split; [by eapply acts_wf, acts_resume_requested|..].
    + eexists. split; [simpl; rewrite Hid; apply lookup_insert_eq|]. by rewrite moved_ticket_status.
    + eexists. split; [simpl; unfold update_row; rewrite Hid, lookup_alter_eq, Hp; reflexivity|].
      destruct Hk as (? & ? & ? & ? & ? & ? & ? & ? & ?). by repeat split.
  - apply unused_core; [by destruct Hcore as (_ & -> & _)|rewrite Hen; simpl; lia].
Qed.

Lemma leaseResumed_runs k i ag A ttl a d :
  running k i d → agents d !! ag = Some A → ag_id A = ag → ag_status A = AgentActive → unused_ids d →
  ∃ tok e d', leaseResumedDelivery k ag ttl a d = Ok (tok, e) d' ∧ running k i d' ∧
    ∃ j c, ticket_claims d' !! j = Some c ∧ cl_ticket_id c = k ∧ cl_status c = Active ∧
      cl_agent_id c = ag ∧ claim_token_hash c = hashClaimToken tok ∧
      expires_at c = isoPlusSeconds ttl (clock_now d).
Proof.
  intros Hrun HA Hid Hact Hun. destruct (ru_ticket _ _ _ Hrun) as (t & Ht & _).
  set (n := clock_now d). set (d1 := agents_touchLastSeen ag n d).
  set (d2 := claims_releaseActiveForTicket k n d1).
  set (tok := "ct_" +:+ random_base64url (entropy d)). set (id := randomUUID (S (entropy d))).
  set (d3 := set_entropy (S (S (entropy d))) d2).
  set (claim := new_claim id k ag tok ttl n).
  set (d4 := set_ticket_claims (<[id := claim]> (ticket_claims d3)) d3).
  assert (Hwf1 : well_formed d1) by (eapply same_core_wf; [|exact (ru_wf _ _ _ Hrun)]; done).
  pose proof (acts_release_active k n d1 Hwf1) as Hrel. fold d2 in Hrel.
  assert (Hwf3 : well_formed d3) by (eapply same_core_wf; [|by eapply acts_wf]; done).
  assert (Hfree : claims_hasActiveForTicket k d3 = false).
  { change (lease_held k d2 = false). destruct Hrel as (_ & Hl & _). unfold life_of in Hl.
    change (tickets d2) with (tickets d) in Hl. change (tickets d1) with (tickets d) in Hl.
    rewrite Ht in Hl. exact (f_equal (λ o, match o with Some l => leased l | None => false end) Hl). }
  assert (Hins : claims_insert claim d3 = Ok tt d4).
  { unfold claims_insert. change (cl_id claim) with id. change (cl_ticket_id claim) with k.
    assert (Hno : ticket_claims d3 !! id = None).
    { change (ticket_claims d3) with (release_if_on k n <$> ticket_claims d).
      rewrite lookup_fmap. unfold id. by rewrite Hun by lia. }
    rewrite Hno, Hfree, andb_false_r. rewrite bool_decide_eq_false_2; [done|].
    change (tickets d3) with (tickets d). change (cl_agent_id claim) with ag.
    change (agents d3) with (agents d1). simpl. unfold update_row.
    rewrite Ht, lookup_alter_eq, HA. by intros [?|?]. }
  pose proof (acts_insert_claim claim d3 tt d4 Hwf3 eq_refl Hins) as (_ & _ & _ & Hwf4 & _).
  destruct (ticket_event_total k a "claim.created"
    (JSObj [("claim_id", JSStr id); ("agent_id", JSStr ag);
            ("expires_at", JSStr (toISOString (expires_at claim))); ("resumed", JSBool true)]) d4)
    as (ev & d5 & Hev).
  destruct (ticket_event_frame _ _ _ _ _ _ _ Hev) as (Hcore & _ & _).
  exists tok, (expires_at claim), d5. split; [|split].
  - unfold leaseResumedDelivery, inTransaction.
    apply bind_ok. exists n, d. split; [done|].
    apply bind_ok. exists A, d1. split.
    { unfold eligible_agent, agents_findById. apply bind_ok. exists (Some A), d.
      split; [unfold gets; by rewrite HA|]. apply bind_ok. exists A, d. split; [done|].
      apply bind_ok. exists tt, d. split; [by apply guard_ok; rewrite Hact|].
      rewrite Hid. by apply bind_ok; exists tt, d1. }
    rewrite Hid. apply bind_ok. exists tt, d2. split; [done|].
    apply bind_ok. exists tok, (set_entropy (S (entropy d)) d2). split; [done|].
    apply bind_ok. exists id, d3. split; [done|].
    apply bind_ok. exists tt, d4. split; [exact Hins|]. apply bind_ok. by exists ev, d5.
  - pose proof Hcore as (Et & Ec & Ep).
    apply (running_frame k i d); [by eapply same_core_wf; [exact Hcore|]|by rewrite Et|by rewrite Ep|done].
  - exists id, claim. destruct Hcore as (_ & -> & _). split; [apply lookup_insert_eq|]. by repeat split.
Qed.

(** C39: pause and resume lose nothing.  Whatever delivery is paused, a person
    can continue it and the runner can then resume it under a fresh lease
    for any active agent; the runner gets back exactly the context the pause
    was given, the ticket is in progress again, the context is kept for a
    next cap with Continue cleared, and the returned token is the lease's. *)
Theorem pause_resume_roundtrip k i a1 a2 a3 ag A ttl d r d1 t :
  good d → tickets d !! k = Some t →
  agents d !! ag = Some A → ag_id A = ag → ag_status A = AgentActive → unused_ids d →
  Pause.pauseDelivery k i a1 d = Ok r d1 →
  ∃ c d2 res d3 tok, requestContinue k a2 d1 = Ok c d2 ∧
    lease_resume k a3 (Some (ag, ttl)) d2 = Ok res d3 ∧
    keeps i k (rm_context res) ∧ rm_claimToken res = Some tok ∧ running k i d3 ∧
    ∃ j cl, ticket_claims d3 !! j = Some cl ∧ cl_ticket_id cl = k ∧ cl_status cl = Active ∧
      cl_agent_id cl = ag ∧ claim_token_hash cl = hashClaimToken tok.
Proof.
  intros Hg Ht HA Hid Hact Hun Hp.
  destruct (pauseDelivery_parks _ _ _ _ _ _ _ Hg Ht Hp) as (Hpk & Hag1 & Hun1).
  destruct (requestContinue_runs _ _ _ a2 _ Hpk) as (c & d2 & Hc & Hpk2 & Hag2 & Hun2).
  destruct (beginResume_runs _ _ _ a3 _ Hpk2) as (r3 & d3 & Hb & Hk3 & Hkeep & Hrun & Hag3 & _ & Hun3).
  destruct (leaseResumed_runs k i ag A ttl a3 d3 Hrun) as (tok & e & d4 & Hl & Hrun4 & j & cl & Hcl);
    [by rewrite Hag3, Hag2, Hag1|done|done|by auto|].
  exists c, d2, (mk_Resumed (rm_ticketId r3) (rm_eventId r3) (rm_context r3) (Some tok)), d4, tok.
  split; [done|]. split.
  { unfold lease_resume, inTransaction. apply bind_ok. exists r3, d3. split; [done|].
    apply bind_ok. exists (tok, e), d4. by rewrite Hk3. }
  split; [exact Hkeep|]. split; [done|]. split; [exact Hrun4|]. exists j, cl. naive_solver.
Qed.
End pausing.

(** ** Witness *)
Lemma demo_ids_unused : unused_ids demo_claimed.
Proof.
  intros n Hn. destruct (ticket_claims demo_claimed !! randomUUID n) as [c|] eqn:Hc; [|done]. exfalso.
  assert (Hall : forallb (λ p, bool_decide (p.1 = "u6")) (map_to_list (ticket_claims demo_claimed)) = true)
    by (vm_compute; reflexivity).
  rewrite forallb_forall in Hall. apply elem_of_map_to_list, list_elem_of_In, Hall in Hc.
  apply bool_decide_eq_true in Hc. change ("u" +:+ pretty n = "u" +:+ pretty 6%nat) in Hc.
  injection Hc as Hc. assert (n = 6%nat) by (apply (inj pretty); exact Hc).
  assert (Hlt : (entropy demo_claimed <=? 6)%nat = false) by (vm_compute; reflexivity).
  apply Nat.leb_gt in Hlt. lia.
Qed.

Lemma pause_resume_roundtrip_witness :
  ∃ c d2 res d3 tok, requestContinue "u0" human demo_paused = Ok c d2 ∧
    lease_resume "u0" runner (Some ("u2", 60%Z)) d2 = Ok res d3 ∧
    keeps demo_pause "u0" (rm_context res) ∧ rm_claimToken res = Some tok ∧ running "u0" demo_pause d3 ∧
    ∃ j cl, ticket_claims d3 !! j = Some cl ∧ cl_ticket_id cl = "u0" ∧ cl_status cl = Active ∧
      cl_agent_id cl = "u2" ∧ claim_token_hash cl = hashClaimToken tok.
Proof.
  destruct (tickets demo_claimed !! "u0") as [t|] eqn:Ht; [|exfalso; revert Ht; vm_compute; discriminate].
  destruct (agents demo_claimed !! "u2") as [A|] eqn:HA; [|exfalso; revert HA; vm_compute; discriminate].
  destruct (Pause.pauseDelivery "u0" demo_pause runner demo_claimed) as [r d1|e] eqn:Hp;
    [|exfalso; revert Hp; vm_compute; discriminate].
  assert (Hd : d1 = demo_paused) by (revert Hp; vm_compute; intros [= _ <-]; reflexivity). subst d1.
  apply (pause_resume_roundtrip "u0" demo_pause runner human runner "u2" A 60 demo_claimed r demo_paused t);
    [exact demo_claimed_good|exact Ht|exact HA|revert HA; vm_compute; intros [= <-]; reflexivity
    |revert HA; vm_compute; intros [= <-]; reflexivity|exact demo_ids_unused|exact Hp].
Defined.
