(* ===== verification/Answers.v ===== *)
(** * Questions and answers

    What a decision does to the tickets it is linked to, when it is raised and
    when it is answered; and that a ticket a person blocks goes back where it
    came from. *)
From S2P Require Import Prelude Json Types EventChain Store Policy Diff Transition Claims Tickets.
From S2P Require Import Pause Decisions Lifecycle Life Refinement Simulation Claiming System Demo.
From S2P Require Import Moves Queue Pausing.

(** Rows under their own id, and links to decisions that exist (the foreign
    key of [ticket_decisions]). *)
Record decisions_formed (d : db) : Prop := {
  df_ids : ∀ i x, decisions d !! i = Some x → de_id x = i;
  df_links : ∀ td, td ∈ ticket_decisions d → decisions d !! td_decision_id td ≠ None
}.

Lemma linked_app k r d l :
  omap (λ td, if bool_decide (td_ticket_id td = k ∧ td_relation td = r)
              then decisions d !! td_decision_id td else None) (ticket_decisions d ++ l)
  = decisions_linked k r d ++
    omap (λ td, if bool_decide (td_ticket_id td = k ∧ td_relation td = r)
                then decisions d !! td_decision_id td else None) l.
Proof. unfold decisions_linked. by rewrite omap_app. Qed.

(** Replacing one decision's row replaces it in every ticket's list. *)
Lemma linked_replace k r d id x x' :
  decisions d !! id = Some x → (∀ i y, decisions d !! i = Some y → de_id y = i) →
  decisions_linked k r (set_decisions (<[id := x']> (decisions d)) d)
  = (λ y, if bool_decide (de_id y = id) then x' else y) <$> decisions_linked k r d.
Proof.
  intros Hx Hids. unfold decisions_linked. simpl. induction (ticket_decisions d) as [|td l IH]; [done|].
  simpl. destruct (bool_decide (td_ticket_id td = k ∧ td_relation td = r)); [|exact IH].
  destruct (decide (td_decision_id td = id)) as [Hd|Hd].
  - rewrite Hd, lookup_insert_eq, Hx. simpl. rewrite (bool_decide_eq_true_2 _ (Hids _ _ Hx)). by f_equal.
  - rewrite lookup_insert_ne by done. destruct (decisions d !! td_decision_id td) as [y|] eqn:Hy; [|exact IH].
    simpl. rewrite (bool_decide_eq_false_2 (de_id y = id)); [by f_equal|].
    pose proof (Hids _ _ Hy). congruence.
Qed.

Section answering.
Context `{Env}.

Lemma writeEvent_frame et ei a ty pl co d i d' :
  writeEvent et ei a ty pl co d = Ok i d' →
  decisions d' = decisions d ∧ ticket_decisions d' = ticket_decisions d.
Proof. intros [= <- <-]. by destruct d. Qed.

(** Answering a decision.  A resolution succeeds only on an open
    decision, records the outcome, unblocks every ticket the decision held
    (and changes no other hold), and is final: any later resolution of it is
    refused with [STATE_CONFLICT]. *)
Theorem resolveDecision_final input a d r d' :
  decisions_formed d → resolveDecision input a d = Ok r d' →
  let id := rs_decisionId input in
  (∃ x, decisions d !! id = Some x ∧ decision_resolved (de_status x) = false) ∧
  decisions d' !! id = Some r ∧ de_status r = resolution input ∧ resolved_answer r = rs_answer input ∧
  (∀ k, decisions_blockingForTicket k d'
        = filter (λ y, de_id y ≠ id) (decisions_blockingForTicket k d)) ∧
  ∀ input' a', rs_decisionId input' = id →
    ∃ e, resolveDecision input' a' d' = Err e ∧ error_code e = Some STATE_CONFLICT.
Proof.
  intros [Hids _] Hr id. unfold resolveDecision, inTransaction in Hr.
  apply bind_ok in Hr as (n & d0 & [= <- <-] & Hr).
  apply bind_ok in Hr as (x & d0 & Hx & Hr).
  apply bind_ok in Hx as (o & d1 & [= <- <-] & [Hx ->]%require_ok). unfold decisions_findById in Hx.
  apply bind_ok in Hr as (u & d0 & [Hopen ->]%guard_ok & Hr). apply negb_true_iff in Hopen.
  pose proof (Hids _ _ Hx) as Hid. apply bind_ok in Hr as (ok & d0 & Hres & Hr).
  unfold decisions_resolve in Hres. rewrite Hid, Hx in Hres. injection Hres as <- <-.
  apply bind_ok in Hr as (u1 & d0 & [_ ->]%guard_ok & Hr).
  apply bind_ok in Hr as (ev & d2 & [Ed Etd]%writeEvent_frame & Hr).
  apply bind_ok in Hr as (o & d3 & [= <- <-] & [Hfin <-]%require_ok).
  unfold decisions_findById in Hfin. rewrite Hid, Ed in Hfin. simpl in Hfin.
  rewrite lookup_insert_eq in Hfin. injection Hfin as <-.
  set (x' := decision_resolve_row _ _ _ _ _ _) in *. fold id in Hx, Ed.
  assert (Hres' : decision_resolved (de_status x') = true) by (simpl; unfold resolution; by case_match).
  split; [by exists x|]. split; [by rewrite Ed; simpl; rewrite lookup_insert_eq|]. split; [done|].
  split; [done|]. split.
  - intros k. unfold decisions_blockingForTicket.
    assert (Hl : decisions_linked k "blocks" d' = (λ y, if bool_decide (de_id y = id) then x' else y)
                   <$> decisions_linked k "blocks" d).
    { rewrite <- (linked_replace k "blocks" d id x x') by done. unfold decisions_linked.
      by rewrite Ed, Etd. }
    rewrite Hl. clear Hl. induction (decisions_linked k "blocks" d) as [|y l IH]; [done|].
    simpl. rewrite !filter_cons. destruct (decide (de_id y = id)) as [He|He].
    + rewrite (bool_decide_eq_true_2 _ He). rewrite decide_False by congruence.
      destruct (decide (decision_resolved (de_status y) = false)); [|exact IH].
      rewrite filter_cons, decide_False by (intros Hn; by apply Hn). exact IH.
    + rewrite (bool_decide_eq_false_2 _ He). destruct (decide (decision_resolved (de_status y) = false)); [|exact IH].
      rewrite filter_cons, decide_True by done. by f_equal.
  - intros input' a' Hid'. unfold resolveDecision, inTransaction.
    rewrite (bind_run _ _ _ (clock_now d') d') by done.
    assert (Hget : getDecision (rs_decisionId input') d' = Ok x' d').
    { unfold getDecision. apply bind_ok. exists (Some x'), d'. split; [|done].
      unfold gets, decisions_findById. rewrite Hid', Ed. simpl. by rewrite lookup_insert_eq. }
    rewrite (bind_run _ _ _ x' d') by exact Hget. rewrite Hres'. by eexists.
Qed.
(** The loop that links a new decision to its tickets. *)
Lemma links_run id rel n ks d u d' :
  for_each ks (λ k, decisions_link k id rel n) d = Ok u d' →
  decisions d' = decisions d ∧
  (∃ new, ticket_decisions d' = ticket_decisions d ++ new ∧
     ∀ td, td ∈ new → td_decision_id td = id ∧ td_relation td = rel) ∧
  ∀ k, k ∈ ks → ∃ td, td ∈ ticket_decisions d' ∧ td_ticket_id td = k ∧ td_decision_id td = id ∧
                       td_relation td = rel.
Proof.
  revert d. induction ks as [|k ks IH]; intros d Hr.
  { injection Hr as <- <-. split; [done|]. split.
    - exists []. rewrite app_nil_r. split; [done|]. by intros td ?%not_elem_of_nil.
    - by intros k ?%not_elem_of_nil. }
  cbn [for_each] in Hr. apply bind_ok in Hr as (u1 & d1 & Hl & Hr). unfold decisions_link in Hl.
  destruct (existsb _ (ticket_decisions d)) eqn:Ex.
  - injection Hl as <- <-. apply existsb_exists in Ex as (td & Hin & Htd).
    apply list_elem_of_In in Hin. apply bool_decide_eq_true in Htd as (H1 & H2 & H3).
    destruct (IH d Hr) as (Ed & (new & Etd & Hnew) & Hall). split; [done|]. split; [by exists new|].
    intros k' Hk'. apply elem_of_cons in Hk' as [->|Hk']; [|by apply Hall].
    exists td. split; [|done]. rewrite Etd. apply elem_of_app. by left.
  - destruct (bool_decide _); [discriminate|]. injection Hl as <- <-.
    destruct (IH _ Hr) as (Ed & (new & Etd & Hnew) & Hall). simpl in Ed, Etd. split; [done|]. split.
    + eexists. rewrite Etd, <- app_assoc. split; [reflexivity|].
      intros td Hin. apply elem_of_app in Hin as [->%list_elem_of_singleton|Hin]; [done|by apply Hnew].
    + intros k' Hk'. apply elem_of_cons in Hk' as [->|Hk']; [|by apply Hall].
      exists (mk_TicketDecision k id rel n). split; [|done]. rewrite Etd. apply elem_of_app. left.
      apply elem_of_app. right. by apply list_elem_of_singleton.
Qed.

Lemma linked_spec k rel d x :
  x ∈ decisions_linked k rel d ↔
  ∃ td, td ∈ ticket_decisions d ∧ td_ticket_id td = k ∧ td_relation td = rel ∧
        decisions d !! td_decision_id td = Some x.
Proof.
  unfold decisions_linked. rewrite list_elem_of_omap. split.
  - intros (td & Hin & Hx). case_bool_decide as Hc; [|done]. destruct Hc. by exists td.
  - intros (td & Hin & Hk & Hr & Hx). exists td. split; [done|]. by rewrite bool_decide_eq_true_2.
Qed.

(** Raising a decision.  A decision that needs a person's answer holds
    every ticket it names from that moment on; an informational or
    agent-decidable one holds no ticket it did not find held.  Either way it
    has a title and a question, is open, and no earlier hold is lost. *)
Theorem createDecision_holds input a d x d' :
  decisions_formed d → createDecision input a d = Ok x d' →
  trim (dc_title input) ≠ "" ∧ trim (dc_question input) ≠ "" ∧
  decisions d' !! de_id x = Some x ∧ decision_resolved (de_status x) = false ∧
  (∀ k, k ∈ linked_tickets input → informational (severity x) = false →
     x ∈ decisions_blockingForTicket k d') ∧
  (∀ k y, y ∈ decisions_blockingForTicket k d' →
     y ∈ decisions_blockingForTicket k d ∨ y = x ∧ informational (severity x) = false) ∧
  (∀ k y, y ∈ decisions_blockingForTicket k d → y ∈ decisions_blockingForTicket k d').
Proof.
  intros [_ Hfk] Hr. unfold createDecision, needs, inTransaction in Hr.
  apply bind_ok in Hr as (u1 & d0 & [Ht ->]%guard_ok & Hr).
  apply bind_ok in Hr as (u2 & d0 & [Hq ->]%guard_ok & Hr).
  apply negb_true_iff, bool_decide_eq_false in Ht, Hq. split; [done|]. split; [done|].
  apply bind_ok in Hr as (n & d0 & [= <- <-] & Hr). apply bind_ok in Hr as (id & d1 & [= <- <-] & Hr).
  set (y := mk_Decision _ _ _ _ _ _ _ _ _ _ _ _ _ _ _ _) in Hr.
  set (rel := if informational (severity y) then "informs" else "blocks") in Hr.
  apply bind_ok in Hr as (u3 & d1 & Hins & Hr). unfold decisions_insert in Hins. simpl in Hins.
  destruct (decisions d !! randomUUID (entropy d)) eqn:Hfresh; [discriminate|]. injection Hins as _ <-.
  apply bind_ok in Hr as (u4 & d2 & (Ed & (new & Etd & Hnew) & Hall)%links_run & Hr).
  apply bind_ok in Hr as (ev & d3 & [Ed3 Etd3]%writeEvent_frame & [= <- <-]). simpl in Ed, Etd.
  assert (Hlook : ∀ i, decisions d3 !! i = if decide (i = de_id y) then Some y else decisions d !! i).
  { intros i. rewrite Ed3, Ed. case_decide as Hi; [by rewrite Hi, lookup_insert_eq|].
    by rewrite lookup_insert_ne. }
  assert (Hopen : decision_resolved (de_status y) = false) by (simpl; by case_bool_decide).
  assert (Hin : ∀ k z, z ∈ decisions_blockingForTicket k d3 ↔ decision_resolved (de_status z) = false ∧
            ∃ td, td ∈ ticket_decisions d ++ new ∧ td_ticket_id td = k ∧ td_relation td = "blocks" ∧
              (if decide (td_decision_id td = de_id y) then Some y else decisions d !! td_decision_id td) = Some z).
  { intros k z. unfold decisions_blockingForTicket. rewrite list_elem_of_filter, linked_spec.
    setoid_rewrite Hlook. by rewrite Etd3, Etd. }
  split; [by rewrite Hlook, decide_True|]. split; [done|]. split; [|split].
  - intros k Hk Hinf. apply Hin. split; [done|]. destruct (Hall k Hk) as (td & Htd & H1 & H2 & H3).
    exists td. rewrite Etd in Htd. split; [done|]. split; [done|].
    split; [rewrite H3; unfold rel; by rewrite Hinf|]. by rewrite decide_True.
  - intros k z [Hz (td & [Htd|Htd]%elem_of_app & H1 & H2 & H3)]%Hin.
    + left. unfold decisions_blockingForTicket. rewrite list_elem_of_filter, linked_spec. split; [done|].
      exists td. rewrite decide_False in H3; [done|]. intros He. apply (Hfk td Htd). by rewrite He.
    + destruct (Hnew td Htd) as [H4 H5]. rewrite decide_True in H3 by done. injection H3 as <-. right.
      split; [done|]. rewrite H5 in H2. unfold rel in H2. by destruct (informational _).
  - intros k z Hz. unfold decisions_blockingForTicket in Hz.
    apply list_elem_of_filter in Hz as [Hz (td & Htd & H1 & H2 & H3)%linked_spec].
    apply Hin. split; [done|]. exists td. split; [apply elem_of_app; by left|]. split; [done|]. split; [done|].
    rewrite decide_False; [done|]. intros He. apply (Hfk td Htd). by rewrite He.
Qed.
End answering.

(** ** Block and unblock *)
Section blocking.
Context `{Env}.

(** No earlier block of the ticket is dated after now. *)
Definition blocks_dated (k : string) (d : db) : Prop :=
  ∀ r, r ∈ work_events d → EventChain.entity_id r = k → payload_string "to" r = Some "blocked" →
    str_le (we_created_at r) (toISOString (wall_now d)).

Definition into_blocked (k : string) (r : ChainRow) : Prop :=
  EventChain.entity_type r = "ticket" ∧ EventChain.entity_id r = k ∧
  EventChain.event_type r = "ticket.transitioned" ∧ payload_string "to" r = Some "blocked".

Lemma newer_some l b : ∃ r, foldl newer (Some b) l = Some r ∧ (r = b ∨ r ∈ l).
Proof.
  revert b. induction l as [|x l IH]; intros b; simpl; [eauto|].
  case_bool_decide; [destruct (IH x) as (r & -> & [->|?])|destruct (IH b) as (r & -> & [->|?])];
    eexists; split; try done; rewrite ?elem_of_cons; auto.
Qed.
(** The last of the newest rows wins. *)
Lemma newest_is_last l r :
  (∀ b, b ∈ l → str_le (we_created_at b) (we_created_at r)) →
  foldl newer None (l ++ [r]) = Some r.
Proof.
  intros Hl. rewrite foldl_app. destruct l as [|x l]; [done|]. simpl.
  destruct (newer_some l x) as (b & -> & Hb). simpl. rewrite bool_decide_eq_true_2; [done|].
  apply Hl. apply elem_of_cons. destruct Hb; auto.
Qed.

Lemma blocked_from_last k d pre r post :
  work_events d = pre ++ r :: post → into_blocked k r → (∀ b, b ∈ post → ¬ into_blocked k b) →
  (∀ b, b ∈ pre → into_blocked k b → str_le (we_created_at b) (we_created_at r)) →
  blocked_from k d = payload_string "from" r.
Proof.
  intros Hlog Hr Hpost Hpre. unfold blocked_from, last_block. rewrite Hlog, filter_app, filter_cons_True by exact Hr.
  assert (Hnil : filter (λ r, EventChain.entity_type r = "ticket" ∧ EventChain.entity_id r = k ∧
    EventChain.event_type r = "ticket.transitioned" ∧ payload_string "to" r = Some "blocked") post = []).
  { destruct (filter _ post) as [|x l] eqn:E; [done|]. assert (Hx : x ∈ x :: l) by (apply elem_of_cons; by left).
    rewrite <- E in Hx. apply list_elem_of_filter in Hx as [Hx Hin]. by destruct (Hpost x Hin). }
  rewrite Hnil, newest_is_last; [done|]. intros b [Hb Hin]%list_elem_of_filter. by apply Hpre.
Qed.

Lemma humanBlock_leaves k why a d r d1 t :
  well_formed d → blocks_dated k d → tickets d !! k = Some t → humanBlockTicket k why a d = Ok r d1 →
  well_formed d1 ∧ (∃ t1, tickets d1 !! k = Some t1 ∧ status t1 = Blocked) ∧
  blocked_from k d1 = Some (status_name (status t)).
Proof.
  intros Hwf Hdated Ht Hr. pose proof (wf_tickets d Hwf k t Ht) as Hid.
  unfold humanBlockTicket, inTransaction in Hr.
  apply bind_ok in Hr as (u & d0 & [_ ->]%guard_ok & Hr). apply bind_ok in Hr as (u1 & d0 & [_ ->]%guard_ok & Hr).
  apply bind_ok in Hr as (t0 & d0 & Hres & Hr). rewrite (resolve_key k t) in Hres by done.
  injection Hres as <- <-. apply bind_ok in Hr as (u2 & d0 & [_ ->]%guard_ok & Hr).
  apply bind_ok in Hr as (res & d0 & Htr & Hr).
  pose proof Htr as Hacts. apply transition_acts in Hacts as (_ & _ & _ & _ & _ & _ & Hwf1 & _); [|done].
  set (input := move (tk_id t) a Blocked (trim why) None [humanBlock]) in *.
  apply transition_ok in Htr as (t1 & pol & Ht1 & _ & -> & _); [|intros x Hx; by apply (wf_tickets d Hwf)].
  simpl in Ht1. rewrite Hid, Ht in Ht1. injection Ht1 as <-.
  apply bind_ok in Hr as (ev & d3 & Hev & [= _ <-]).
  pose proof (ticket_event_frame _ _ _ _ _ _ _ Hev) as (Hcore & _ & _).
  set (t1 := moved_ticket input (clock_now d) t).
  assert (Ht1 : tickets d3 !! k = Some t1).
  { destruct Hcore as (-> & _). simpl. rewrite Hid. apply lookup_insert_eq. }
  assert (Hs1 : status t1 = Blocked) by apply moved_ticket_status.
  split; [by eapply same_core_wf|]. split; [by exists t1|].
  assert (Hlog : ∃ row, work_events d3 = work_events d ++
              [linked (work_events d) (transition_row input t d); row] ∧
              EventChain.event_type row = "ticket.blocked").
  { injection Hev as _ <-. eexists. simpl. rewrite <- app_assoc. by split. }
  destruct Hlog as (row & Hlog & Hty). rewrite (blocked_from_last k d3 _ _ _ Hlog).
    - reflexivity.
    - split_and!; [reflexivity|exact Hid|reflexivity|reflexivity].
    - intros b ->%list_elem_of_singleton (_ & _ & Hb & _). rewrite Hty in Hb. discriminate.
    - intros b Hb (_ & Hbk & _ & Hto). by apply (Hdated b).
Qed.

(** A block can be undone.  When a person blocks a draft or refining
    ticket, a person who unblocks it without naming a destination always
    succeeds, and the ticket is back in the status it was blocked from
    (provided the log's clock did not run backwards over an earlier block of
    the same ticket). *)
Theorem block_unblock_returns k why a a2 d r d1 t :
  good d → blocks_dated k d → tickets d !! k = Some t → status t = Draft ∨ status t = Refining →
  humanBlockTicket k why a d = Ok r d1 → human_or_admin a2 = true →
  (∃ t1, tickets d1 !! k = Some t1 ∧ status t1 = Blocked) ∧
  ∃ ev d2, humanUnblockTicket k a2 None d1 = Ok (k, status t, ev) d2 ∧
    ∃ t2, tickets d2 !! k = Some t2 ∧ status t2 = status t.
Proof.
  intros [Hwf _] Hdated Ht Hst Hr Ha2.
  destruct (humanBlock_leaves k why a d r d1 t) as (Hwf1 & (t1 & Ht1 & Hs1) & Hfrom); try done.
  split; [by exists t1|]. rename d1 into d3.
  set (input2 := move (tk_id t1) a2 (status t) "unblock" None [humanBlock]).
  assert (Hid1 : tk_id t1 = k) by (by apply (wf_tickets d3 Hwf1)).
  destruct (transition_run input2 t1 d3 Hwf1) as [pol2 Htr2]; [by simpl; rewrite Hid1| |].
  { split; [done|]. split; [|split].
    - rewrite Hs1. unfold input2. simpl. destruct Hst as [-> | ->]; vm_compute; reflexivity.
    - intros _. unfold human_or_admin in Ha2. simpl. destruct (actor_type a2); try discriminate; auto.
    - intros g Hg _. simpl in Hg. destruct Hst as [Hst|Hst]; rewrite Hst in Hg; discriminate. }
  destruct (ticket_event_total (tk_id t1) a2 "ticket.unblocked" (JSObj [("to", JSStr (status_name (status t)))])
    (after_transition input2 t1 d3)) as (ev2 & d4 & Hev2).
  pose proof (ticket_event_frame _ _ _ _ _ _ _ Hev2) as (Hcore2 & _ & _).
  assert (Htarget : unblock_target None (Some (status_name (status t))) = status t)
    by (destruct Hst as [-> | ->]; reflexivity).
  exists ev2, d4. split.
  - unfold humanUnblockTicket, inTransaction, assertHumanOrAdmin.
    rewrite (bind_run _ _ _ tt d3) by (by apply guard_ok).
    rewrite (bind_run _ _ _ t1 d3) by (by apply resolve_key).
    rewrite (bind_run _ _ _ tt d3) by (apply guard_ok; by rewrite Hs1).
    rewrite (bind_run _ _ _ (Some (status_name (status t))) d3) by (unfold gets; by rewrite Hid1, Hfrom).
    rewrite Htarget. rewrite (bind_run _ _ _ _ _ Htr2). rewrite (bind_run _ _ _ _ _ Hev2).
    by rewrite Hid1.
  - eexists. destruct Hcore2 as (-> & _). simpl. rewrite Hid1. split; [apply lookup_insert_eq|].
    by rewrite moved_ticket_status.
Qed.
End blocking.

(** ** Witnesses *)
Definition demo_question : CreateDecisionInput :=
  mk_CreateDecisionInput "Which login?" "OAuth or password?" (Some HumanRequired) (Some "u0") None.
Definition demo_asked : db := exec (CreateDecision demo_question) human demo_ready.
Definition demo_answer : ResolveDecisionInput := mk_ResolveDecisionInput "u5" true (Some "OAuth") None.

Lemma demo_ready_decisions : decisions_formed demo_ready.
Proof.
  assert (Hd : decisions demo_ready = ∅) by (vm_compute; reflexivity).
  assert (Hl : ticket_decisions demo_ready = []) by (vm_compute; reflexivity).
  constructor.
  - rewrite Hd. intros i x Hx. rewrite lookup_empty in Hx. discriminate Hx.
  - rewrite Hl. intros td Hin. destruct (not_elem_of_nil _ Hin).
Qed.
Lemma createDecision_holds_witness :
  ∃ x, "u0" ∈ linked_tickets demo_question ∧ x ∈ decisions_blockingForTicket "u0" demo_asked.
Proof.
  destruct (createDecision demo_question human demo_ready) as [x d'|e] eqn:Hr;
    [|exfalso; revert Hr; vm_compute; discriminate].
  assert (Hd : d' = demo_asked) by (revert Hr; vm_compute; intros [= _ <-]; reflexivity).
  assert (Hs : informational (severity x) = false) by (revert Hr; vm_compute; intros [= <- _]; reflexivity).
  assert (Hin : "u0" ∈ linked_tickets demo_question)
    by (apply (bool_decide_eq_true_1 _); vm_compute; reflexivity).
  destruct (createDecision_holds demo_question human demo_ready x d' demo_ready_decisions Hr)
    as (_ & _ & _ & _ & Hall & _).
  exists x. split; [exact Hin|]. rewrite <- Hd. exact (Hall "u0" Hin Hs).
Defined.

Lemma demo_asked_decisions : decisions_formed demo_asked.
Proof.
  assert (Hd : map_Forall (λ i x, de_id x = i) (decisions demo_asked))
    by (apply (bool_decide_eq_true_1 _); vm_compute; reflexivity).
  assert (Hl : Forall (λ td, decisions demo_asked !! td_decision_id td ≠ None) (ticket_decisions demo_asked))
    by (apply (bool_decide_eq_true_1 _); vm_compute; reflexivity).
  split; [exact Hd|by apply Forall_forall].
Qed.
Lemma resolveDecision_final_witness :
  ∃ r d', resolveDecision demo_answer human demo_asked = Ok r d' ∧ de_status r = Accepted ∧
    decisions_blockingForTicket "u0" d'
    = filter (λ y, de_id y ≠ "u5") (decisions_blockingForTicket "u0" demo_asked).
Proof.
  destruct (resolveDecision demo_answer human demo_asked) as [r d'|e] eqn:Hr;
    [|exfalso; revert Hr; vm_compute; discriminate].
  destruct (resolveDecision_final demo_answer human demo_asked r d' demo_asked_decisions Hr)
    as (_ & _ & Hs & _ & Hb & _).
  exists r, d'. split; [reflexivity|]. split; [exact Hs|exact (Hb "u0")].
Defined.

Lemma block_unblock_returns_witness :
  ∃ d1 ev d2, humanUnblockTicket "u0" human None d1 = Ok ("u0", Draft, ev) d2 ∧
    ∃ t2, tickets d2 !! "u0" = Some t2 ∧ status t2 = Draft.
Proof.
  destruct (tickets demo_draft !! "u0") as [t|] eqn:Ht; [|exfalso; revert Ht; vm_compute; discriminate].
  assert (Hs : status t = Draft) by (revert Ht; vm_compute; intros [= <-]; reflexivity).
  destruct (humanBlockTicket "u0" "waiting on legal" human demo_draft) as [r d1|e] eqn:Hr;
    [|exfalso; revert Hr; vm_compute; discriminate].
  assert (Hg : good demo_draft) by (apply reachable_good; do 2 apply exec_reachable; apply demo_start_reachable).
  assert (Hdated : blocks_dated "u0" demo_draft).
  { intros row Hin _ _. assert (Hall : Forall (λ row, str_le (we_created_at row) (toISOString (wall_now demo_draft)))
      (work_events demo_draft)) by (apply (bool_decide_eq_true_1 _); vm_compute; reflexivity).
    rewrite Forall_forall in Hall. by apply Hall. }
  destruct (block_unblock_returns "u0" "waiting on legal" human human demo_draft r d1 t Hg Hdated Ht
    (or_introl Hs) Hr eq_refl) as (_ & ev & d2 & Hu & Ht2).
  rewrite Hs in Hu, Ht2. eauto.
Defined.
