(* ===== verification/Numbers.v ===== *)
(** * Ticket numbers

    Numbers identify tickets: each call keeps them unique, a new ticket takes
    the next one, so a [#n] reference means one ticket for good. *)
From S2P Require Import Prelude Json Types EventChain Store Policy Diff Transition Claims Tickets.
From S2P Require Import Pause Decisions Lifecycle Life Refinement Simulation Claiming System Frames.
From S2P Require Import Demo.

(** Every ticket is numbered, under its own id, and no two share a number. *)
Record numbered (d : db) : Prop := {
  nb_keyed : keyed d;
  nb_some : ∀ i t, tickets d !! i = Some t → ∃ n, number t = Some n ∧ (0 < n)%Z;
  nb_unique : ∀ i j t t', tickets d !! i = Some t → tickets d !! j = Some t' →
    number t = number t' → i = j
}.

(** Tickets keep their number, and the numbering stays sound. *)
Definition keeps_numbers (d d' : db) : Prop :=
  numbered d → numbered d' ∧
  ∀ k t, tickets d !! k = Some t → ∃ t', tickets d' !! k = Some t' ∧ number t' = number t.
#[export] Instance keeps_numbers_preorder : PreOrder keeps_numbers.
Proof.
  split; [by intros d Hd; eauto|]. intros d d1 d2 H1 H2 Hd. destruct (H1 Hd) as [Hd1 K1].
  destruct (H2 Hd1) as [Hd2 K2]. split; [done|]. intros k t (t1 & Ht1 & E1)%K1.
  destruct (K2 k t1 Ht1) as (t2 & ? & ?). exists t2. split; [done|congruence].
Qed.

(** Rows may change, ids and numbers not. *)
Lemma same_numbers d d' :
  (∀ k, (λ t, (tk_id t, number t)) <$> tickets d' !! k = (λ t, (tk_id t, number t)) <$> tickets d !! k) →
  keeps_numbers d d'.
Proof.
  intros Hs [Hk Hn Hu].
  assert (Hback : ∀ k t', tickets d' !! k = Some t' →
            ∃ t, tickets d !! k = Some t ∧ tk_id t' = tk_id t ∧ number t' = number t).
  { intros k t' Ht'. specialize (Hs k). rewrite Ht' in Hs. destruct (tickets d !! k) as [t|]; [|done].
    exists t. by injection Hs. }
  split; [split|].
  - intros i t' (t & Ht & -> & _)%Hback. by apply Hk.
  - intros i t' (t & Ht & _ & ->)%Hback. eauto.
  - intros i j t t' (u & Hi & _ & ->)%Hback (u' & Hj & _ & ->)%Hback. eauto.
  - intros k t Ht. specialize (Hs k). rewrite Ht in Hs. destruct (tickets d' !! k) as [t'|]; [|done].
    exists t'. by injection Hs.
Qed.
Lemma same_row_numbers k t t' d d' :
  tickets d !! k = Some t → tickets d' = <[k := t']> (tickets d) → tk_id t' = tk_id t → number t' = number t →
  keeps_numbers d d'.
Proof.
  intros Ht Ed Hid Hn. apply same_numbers. intros j. rewrite Ed. destruct (decide (j = k)) as [Hj|Hne].
  - rewrite Hj, lookup_insert_eq, Ht. simpl. by rewrite Hid, Hn.
  - by rewrite lookup_insert_ne.
Qed.

(** [tickets_nextNumber] is above every number in use. *)
Lemma nextNumber_above d i t n :
  tickets d !! i = Some t → number t = Some n → (n < tickets_nextNumber d)%Z.
Proof.
  intros Ht Hn. unfold tickets_nextNumber.
  assert (Hin : t ∈ rows (tickets d)) by (apply rows_spec; eauto).
  assert (n ≤ foldr (λ t m, Z.max (number t ?? 0) m) 0 (rows (tickets d)))%Z; [|lia].
  revert Hin. induction (rows (tickets d)) as [|u l IH]; [by intros ?%not_elem_of_nil|].
  intros [<-|Hin]%elem_of_cons; simpl; [rewrite Hn; simpl; lia|]. specialize (IH Hin). lia.
Qed.
Lemma nextNumber_positive d : (0 < tickets_nextNumber d)%Z.
Proof.
  unfold tickets_nextNumber.
  assert (0 ≤ foldr (λ t m, Z.max (number t ?? 0) m) 0 (rows (tickets d)))%Z; [|lia].
  induction (rows (tickets d)); simpl; lia.
Qed.

(** ** Spellings of a number *)

Definition digit_char (c : Ascii.ascii) : Prop := (48 ≤ Ascii.nat_of_ascii c ≤ 57)%nat.
Definition chars (s : string) : list Ascii.ascii := String.list_ascii_of_string s.

Lemma pretty_char x :
  (x < 10)%N → digit_char (pretty_N_char x) ∧ Ascii.nat_of_ascii (pretty_N_char x) - 48 = N.to_nat x.
Proof.
  intros Hx. unfold digit_char.
  assert (x ∈ [0; 1; 2; 3; 4; 5; 6; 7; 8; 9]%N) as Hin by (rewrite !elem_of_cons; lia).
  repeat (apply elem_of_cons in Hin as [->|Hin]; [vm_compute; lia|]). by apply not_elem_of_nil in Hin.
Qed.

(** The printer and [decimal] are inverse, and it prints digits only. *)
Lemma pretty_go_digits x s :
  Forall digit_char (chars s) →
  Forall digit_char (chars (pretty_N_go x s)) ∧ decimal 0 (pretty_N_go x s) = decimal (Z.of_N x) s.
Proof.
  revert s. induction (N.lt_wf_0 x) as [x _ IH]; intros s Hs.
  destruct (decide (0 < x)%N) as [Hx|Hx]; [|assert (x = 0)%N as -> by lia; by rewrite pretty_N_go_0].
  destruct (pretty_char (x mod 10)) as [Hc Hv]; [by apply N.mod_lt|].
  rewrite (pretty_N_go_step x s Hx).
  destruct (IH (x `div` 10)%N) with (s := String (pretty_N_char (x `mod` 10)) s) as [H1 H2];
    [by apply N.div_lt|by constructor|].
  split; [done|]. rewrite H2. simpl. rewrite bool_decide_eq_true_2 by exact Hc. f_equal.
  rewrite Hv, N_nat_Z. pose proof (N.div_mod x 10). lia.
Qed.
Lemma pretty_number n :
  (0 < n)%Z → Forall digit_char (chars (pretty n)) ∧ decimal 0 (pretty n) = Some n.
Proof.
  intros Hn. destruct n as [|p|p]; [lia| |lia].
  change (pretty (Zpos p)) with (pretty_N_go (Npos p) "").
  by destruct (pretty_go_digits (Npos p) "") as [H1 H2]; [constructor|].
Qed.

(** Digits and prefixes survive the trimming. *)
Lemma drop_spaces_none l : Forall (λ c, is_space c = false) l → drop_spaces l = l.
Proof. by intros [|c r Hc _]; [|simpl; rewrite Hc]. Qed.
Lemma trim_none s : Forall (λ c, is_space c = false) (chars s) → trim s = s.
Proof.
  intros Hs. unfold trim, trim_chars. fold (chars s). rewrite (drop_spaces_none _ Hs).
  rewrite drop_spaces_none by by apply Forall_rev. rewrite rev_involutive.
  apply String.string_of_list_ascii_of_string.
Qed.
Lemma digit_no_space c : digit_char c → is_space c = false.
Proof. intros Hc. apply bool_decide_eq_false_2. unfold digit_char in Hc. lia. Qed.
Lemma digits_no_space s : Forall digit_char (chars s) → Forall (λ c, is_space c = false) (chars s).
Proof. intros Hs. eapply Forall_impl; [exact Hs|exact digit_no_space]. Qed.
Lemma digits_bare s : Forall digit_char (chars s) → strip_hash s = s ∧ strip_T s = s.
Proof.
  destruct s as [|c s]; [done|]. intros [Hc _]%Forall_cons. unfold digit_char in Hc.
  destruct c as [[] [] [] [] [] [] [] []]; vm_compute in Hc; by (lia || split).
Qed.

(** Every spelling of a number reads as that number. *)
Lemma spelling_reads n s :
  (0 < n)%Z → s ∈ [pretty n; "#" +:+ pretty n; "T-" +:+ pretty n; "t-" +:+ pretty n; "#T-" +:+ pretty n] →
  js_Number (strip_T (strip_hash (trim s))) = Some n.
Proof.
  intros Hn Hs. destruct (pretty_number n Hn) as [Hd Hdec]. pose proof (digits_no_space _ Hd) as Hsp.
  destruct (digits_bare _ Hd) as [Hh HT]. rewrite trim_none.
  2:{ rewrite !elem_of_cons in Hs. destruct Hs as [->|[->|[->|[->|[->|Hs]]]]]; [done|..|by apply not_elem_of_nil in Hs];
      unfold chars; simpl; fold (chars (pretty n)); by repeat constructor. }
  assert (strip_T (strip_hash s) = pretty n) as ->.
  { rewrite !elem_of_cons in Hs. destruct Hs as [->|[->|[->|[->|[->|Hs]]]]]; simpl; [by rewrite Hh|done..|].
    by apply not_elem_of_nil in Hs. }
  unfold js_Number. by rewrite trim_none.
Qed.

Section numbers.
Context `{Env}.

Lemma create_numbers t u d d1 :
  number t = Some (tickets_nextNumber d) → tickets_insert t d = Ok u d1 →
  tickets d1 = <[tk_id t := t]> (tickets d) ∧ keeps_numbers d d1.
Proof.
  intros Hn Hins. unfold tickets_insert in Hins. destruct (tickets d !! tk_id t) eqn:Hnone; [discriminate|].
  rewrite Hn in Hins. case_bool_decide; [discriminate|]. injection Hins as _ <-. split; [done|].
  intros [Hk Hs Hu]. assert (Hnew : ∀ j t', tickets d !! j = Some t' → number t' ≠ number t).
  { intros j t' Ht'. destruct (Hs _ _ Ht') as (n & En & _). rewrite En, Hn. intros [= Heq].
    pose proof (nextNumber_above _ _ _ _ Ht' En). lia. }
  split; [split; unfold keyed; rewrite ?tickets_set_tickets|]; simpl.
  - intros i x [[<- <-]|[_ Hi]]%lookup_insert_Some; [done|by apply Hk].
  - intros i x [[<- <-]|[_ Hi]]%lookup_insert_Some; [|by eapply Hs].
    exists (tickets_nextNumber d). split; [done|apply nextNumber_positive].
  - intros i j x y [[<- <-]|[Hni Hi]]%lookup_insert_Some [[<- <-]|[Hnj Hj]]%lookup_insert_Some He.
    + done.
    + by destruct (Hnew _ _ Hj).
    + by destruct (Hnew _ _ Hi).
    + eauto.
  - intros k x Hx. exists x. split; [|done]. simpl. rewrite lookup_insert_ne; [done|].
    intros <-. congruence.
Qed.

Lemma transition_numbers input : evolves keeps_numbers (transition input).
Proof.
  intros d res d' Hr Hd. apply transition_ok in Hr as (t & pol & Ht & _ & -> & _); [|by apply (nb_keyed _ Hd)].
  pose proof (nb_keyed _ Hd _ _ Ht) as Hid. revert Hd.
  apply (same_row_numbers (ticketId input) t (moved_ticket input (clock_now d) t)); [done|by rewrite <- Hid|..];
    unfold moved_ticket; destruct t; simpl; by repeat case_match.
Qed.

Lemma row_numbers k f d :
  (∀ t, tk_id (f t) = tk_id t ∧ status (f t) = status t ∧ number (f t) = number t) →
  keeps_numbers d (set_tickets (update_row k f (tickets d)) d).
Proof.
  intros Hf. apply same_numbers. intros j. simpl. unfold update_row.
  destruct (decide (j = k)) as [->|Hne]; [|by rewrite lookup_alter_ne].
  rewrite lookup_alter_eq. destruct (tickets d !! k) as [t|]; [|done]. simpl.
  by destruct (Hf t) as (-> & _ & ->).
Qed.

#[global] Instance numbers_frame : CallFrame keeps_numbers.
Proof.
  split.
  - apply _.
  - intros d d' Ht _ _. apply same_numbers. by rewrite Ht.
  - intros et ei a ty pl co _ d r d' [= _ <-]. by apply same_numbers.
  - apply transition_numbers.
  - intros k f d Hf. apply row_numbers. intros t. by destruct (Hf t) as (? & ? & ? & _).
  - intros r p n d t d' d1 ok Hr Hu Hd.
    destruct (assign_same _ _ _ _ _ _ _ _ (nb_keyed _ Hd) Hr Hu) as [->|[Ht ->]]; [split; eauto|].
    revert Hd. by apply (same_row_numbers (tk_id t) t (status_updated (status t) p n t)).
  - intros t u a pl r d d1 d' _ Hn [_ Hins]%(create_numbers _ _ _ _ Hn) [= _ <-].
    etrans; [exact Hins|]. by apply same_numbers.
Qed.
#[global] Instance numbers_edit_frame : EditFrame keeps_numbers.
Proof.
  split; [apply _|apply row_numbers|]. intros d d' Ht _. apply same_numbers. by rewrite Ht.
Qed.

Lemma reachable_numbered d : reachable d → numbered d.
Proof.
  intros (d0 & (Ht & _ & _) & Hs).
  apply (steps_frame keeps_numbers _ _ Hs). by split; unfold keyed; rewrite Ht.
Qed.
Lemma findByNumber_unique d k t n :
  numbered d → tickets d !! k = Some t → number t = Some n → tickets_findByNumber n d = Some t.
Proof.
  intros Hd Ht Hn. unfold tickets_findByNumber.
  destruct (filter (λ t, number t = Some n) (rows (tickets d))) as [|u l] eqn:E.
  - assert (Hin : t ∈ ([] : list Ticket)); [|by apply not_elem_of_nil in Hin].
    rewrite <- E. apply list_elem_of_filter. split; [done|apply rows_spec; eauto].
  - simpl. f_equal. assert (Hin : u ∈ u :: l) by (apply elem_of_cons; by left). rewrite <- E in Hin.
    apply list_elem_of_filter in Hin as [Hu [i Hi]%rows_spec].
    assert (i = k) as -> by (eapply nb_unique; [done|exact Hi|exact Ht|congruence]). congruence.
Qed.

(** Ticket numbers are names.  In every reachable database each ticket
    has a positive number and no other ticket has it; and from then on, for
    as long as the system runs, the ticket keeps it. *)
Theorem reachable_numbers_unique d d' :
  reachable d → rtc step d d' →
  (∀ i t, tickets d !! i = Some t → ∃ n, number t = Some n ∧ (0 < n)%Z) ∧
  (∀ i j t t', tickets d !! i = Some t → tickets d !! j = Some t' → number t = number t' → i = j) ∧
  ∀ k t, tickets d !! k = Some t → ∃ t', tickets d' !! k = Some t' ∧ number t' = number t.
Proof.
  intros Hd%reachable_numbered Hs'.
  destruct (steps_frame keeps_numbers _ _ Hs' Hd) as [_ Hkeep].
  split; [apply (nb_some _ Hd)|]. split; [apply (nb_unique _ Hd)|done].
Qed.


(** References.  In every reachable database a ticket is found by its id
    and by its number in every spelling: [15], [#15], [T-15], [t-15] and
    [#T-15] all name the ticket numbered 15, unless some ticket has that
    very string as its id; the round trip from number to reference and back
    is exact. *)
Theorem refs_resolve d k t :
  reachable d → tickets d !! k = Some t →
  tickets_resolveRef k d = Some t ∧
  ∃ n, number t = Some n ∧
    ∀ s, s ∈ [pretty n; "#" +:+ pretty n; "T-" +:+ pretty n; "t-" +:+ pretty n; "#T-" +:+ pretty n] →
      tickets d !! s = None → tickets_resolveRef s d = Some t.
Proof.
  intros Hr Ht. pose proof (reachable_numbered d Hr) as Hd. unfold tickets_resolveRef, tickets_findById.
  split; [by rewrite Ht|]. destruct (nb_some _ Hd _ _ Ht) as (n & Hn & Hpos). exists n.
  split; [done|]. intros s Hs Hnone. rewrite Hnone, (spelling_reads n s Hpos Hs).
  rewrite bool_decide_eq_true_2 by done. by apply (findByNumber_unique d k).
Qed.
End numbers.

Lemma reachable_numbers_unique_witness :
  reachable demo_ready ∧ rtc step demo_ready demo_claimed ∧
  ∃ t', tickets demo_claimed !! "u0" = Some t' ∧ number t' = Some 1%Z.
Proof.
  assert (rtc step demo_ready demo_claimed) as Hs by (unfold demo_claimed; apply exec_steps, rtc_refl).
  split; [exact demo_ready_reachable|]. split; [exact Hs|].
  destruct (reachable_numbers_unique demo_ready demo_claimed demo_ready_reachable Hs) as (_ & _ & Hk).
  destruct (Hk "u0" (seen "u0" demo_ready)) as (t' & Ht' & Hn); [by vm_compute|].
  exists t'. split; [exact Ht'|]. rewrite Hn. by vm_compute.
Defined.

Lemma refs_resolve_witness :
  reachable demo_ready ∧ tickets_resolveRef "#T-1" demo_ready = Some (seen "u0" demo_ready).
Proof.
  split; [exact demo_ready_reachable|].
  destruct (refs_resolve demo_ready "u0" (seen "u0" demo_ready) demo_ready_reachable) as (_ & n & Hn & Href);
    [by vm_compute|].
  assert (n = 1%Z) as -> by (vm_compute in Hn; congruence).
  apply Href; [do 4 right; left|by vm_compute].
Defined.
