(* ===== verification/Frozen.v ===== *)
(** * The contract is frozen

    What the reviewer and the tester judge a ticket by is its title, its
    description, its criteria and its test contract.  The first three change
    only while delivery has not started, the last only before testing; so the
    hash a verdict is bound to stays what it was. *)
From S2P Require Import Prelude Json Types EventChain Store Policy Diff Transition Claims Tickets.
From S2P Require Import Decisions Pause Lifecycle Landing Autonomy Verdicts Review Approval Sendback Tester.
From S2P Require Import Edits Handover Deliveries Life Refinement Simulation Gate Changes Claiming System Frames.
From S2P Require Import Demo GateDemo.

(** ** Criteria *)

(** The criteria have their own ids and, within a ticket, places. *)
Record criteria_ok (d : db) : Prop := {
  co_keyed : ∀ i c, acceptance_criteria d !! i = Some c → ac_id c = i;
  co_order : ∀ i j c c', acceptance_criteria d !! i = Some c → acceptance_criteria d !! j = Some c' →
    ac_ticket_id c = ac_ticket_id c' → sort_order c = sort_order c' → i = j
}.
Definition texts_of (k : string) (d : db) : gmap string (string * string * string * Z) :=
  filter (λ p, p.2.1.1.2 = k) (criteria_texts d).

Lemma criteria_texts_lookup d d' i c :
  criteria_texts d' = criteria_texts d → acceptance_criteria d' !! i = Some c →
  ∃ c', acceptance_criteria d !! i = Some c' ∧ criterion_text c' = criterion_text c.
Proof.
  intros E Hc. assert (Ht : criteria_texts d' !! i = Some (criterion_text c)).
  { unfold criteria_texts. by rewrite lookup_fmap, Hc. }
  rewrite E in Ht. unfold criteria_texts in Ht. by apply lookup_fmap_Some in Ht as (c' & Ec & ?); eauto.
Qed.
Lemma criteria_ok_texts d d' : criteria_texts d' = criteria_texts d → criteria_ok d → criteria_ok d'.
Proof.
  intros E [Hk Ho]. split.
  - intros i c (c' & Hc' & [= <- _ _ _])%(criteria_texts_lookup d); [|done]. by apply Hk.
  - intros i j c1 c2 (c1' & H1 & [= _ E1 _ E1'])%(criteria_texts_lookup d); [|done].
    intros (c2' & H2 & [= _ E2 _ E2'])%(criteria_texts_lookup d) Et Es; [|done].
    apply (Ho _ _ _ _ H1 H2); congruence.
Qed.

(** The list of a ticket's criteria, as texts, depends on nothing else. *)
Definition place_le (x y : string * string * string * Z) : Prop := (x.2 ≤ y.2)%Z.
#[local] Instance asc_le_trans {A} (f : A → Z) : Transitive (asc_le f).
Proof. intros x y z. unfold asc_le. lia. Qed.
#[local] Instance asc_le_total {A} (f : A → Z) : Total (asc_le f).
Proof. intros x y. unfold asc_le. lia. Qed.
Lemma listForTicket_sorted k d : StronglySorted place_le (criterion_text <$> acs_listForTicket k d).
Proof.
  assert (Hs : StronglySorted (asc_le sort_order) (acs_listForTicket k d)).
  { apply StronglySorted_merge_sort; apply _. }
  induction Hs as [|c l _ IH Hl]; simpl; constructor; [done|].
  apply Forall_fmap. eapply Forall_impl; [exact Hl|]. done.
Qed.
Lemma elem_of_texts k d x :
  x ∈ (criterion_text <$> acs_listForTicket k d) ↔ ∃ i, texts_of k d !! i = Some x.
Proof.
  unfold acs_listForTicket, order_by. rewrite merge_sort_Permutation, list_elem_of_fmap.
  unfold texts_of, criteria_texts. split.
  - intros (c & -> & [Hk [i Hi]%rows_spec]%list_elem_of_filter). exists i.
    apply map_lookup_filter_Some. by rewrite lookup_fmap, Hi.
  - intros [i [(c & <- & Hc)%lookup_fmap_Some Hk]%map_lookup_filter_Some]. exists c. split; [done|].
    apply list_elem_of_filter. split; [done|]. apply rows_spec. eauto.
Qed.
Lemma texts_NoDup k d : criteria_ok d → NoDup (criterion_text <$> acs_listForTicket k d).
Proof.
  intros [Hk _]. unfold acs_listForTicket, order_by. rewrite merge_sort_Permutation.
  apply NoDup_fmap_2_strong.
  - intros c c' [_ [i Hi]%rows_spec]%list_elem_of_filter [_ [j Hj]%rows_spec]%list_elem_of_filter [= E _ _ _].
    rewrite (Hk _ _ Hi), (Hk _ _ Hj) in E. congruence.
  - apply NoDup_filter. unfold rows. apply NoDup_fmap_2_strong; [|apply NoDup_map_to_list].
    intros [i c] [j c'] Hi%elem_of_map_to_list Hj%elem_of_map_to_list. simpl. intros <-.
    by rewrite <- (Hk _ _ Hi), <- (Hk _ _ Hj).
Qed.
Lemma texts_determine k d d' :
  criteria_ok d → criteria_ok d' → texts_of k d' = texts_of k d →
  criterion_text <$> acs_listForTicket k d' = criterion_text <$> acs_listForTicket k d.
Proof.
  intros Hd Hd' E.
  assert (Hin : ∀ x, x ∈ (criterion_text <$> acs_listForTicket k d') ↔ x ∈ (criterion_text <$> acs_listForTicket k d)).
  { intros x. by rewrite !elem_of_texts, E. }
  apply (StronglySorted_unique_strong place_le); [|apply listForTicket_sorted..|].
  - intros x y Hx%Hin Hy. apply elem_of_texts in Hx as [i Hx], Hy as [j Hy].
    apply map_lookup_filter_Some in Hx as [(c & <- & Hc)%lookup_fmap_Some Hck],
      Hy as [(c' & <- & Hc')%lookup_fmap_Some Hck'].
    unfold place_le. simpl in *. intros H1 H2.
    assert (i = j) as -> by (apply (co_order _ Hd _ _ _ _ Hc Hc'); [congruence|lia]). congruence.
  - apply NoDup_Permutation; [by apply texts_NoDup..|done].
Qed.
Lemma texts_determine' k d d' :
  criteria_ok d → criteria_ok d' → texts_of k d' = texts_of k d →
  ac_text <$> acs_listForTicket k d' = ac_text <$> acs_listForTicket k d.
Proof.
  intros Hd Hd' E. pose proof (texts_determine k d d' Hd Hd' E) as Ht.
  apply (f_equal (fmap (λ x : string * string * string * Z, x.1.2))) in Ht.
  by rewrite <- !list_fmap_compose in Ht.
Qed.

(** ** What a write keeps *)

(** The terms of a ticket; its test contract is apart. *)
Definition terms (k : string) (d : db) :
    option (string * string * gmap string (string * string * string * Z)) :=
  t ← tickets d !! k; Some (title t, description t, texts_of k d).
Definition contract_at (k : string) (d : db) : option (option string) := test_contract <$> tickets d !! k.

Section settled.
Context `{Env} (P Q : string → Prop).

Definition settled (d d' : db) : Prop :=
  keyed d ∧ criteria_ok d →
  (keyed d' ∧ criteria_ok d') ∧ ∀ k, is_Some (tickets d !! k) →
    is_Some (tickets d' !! k) ∧ (P k → terms k d' = terms k d) ∧ (Q k → contract_at k d' = contract_at k d).
#[global] Instance settled_preorder : PreOrder settled.
Proof.
  split.
  - intros d Hd. split; [done|]. auto.
  - intros d d1 d2 H1 H2 Hd. destruct (H1 Hd) as [Hd1 K1], (H2 Hd1) as [Hd2 K2]. split; [done|].
    intros k Hk. destruct (K1 k Hk) as (Hk1 & P1 & Q1), (K2 k Hk1) as (Hk2 & P2 & Q2).
    split; [done|]. split; intros HP; [rewrite P2, P1|rewrite Q2, Q1]; done.
Qed.
(** Writes to the tickets, the criteria unchanged. *)
Lemma settled_tickets d d' :
  criteria_texts d' = criteria_texts d →
  (keyed d → keyed d') →
  (keyed d → ∀ k t, tickets d !! k = Some t → ∃ t', tickets d' !! k = Some t' ∧
    (P k → title t' = title t ∧ description t' = description t) ∧ (Q k → test_contract t' = test_contract t)) →
  settled d d'.
Proof.
  intros Ec Hk Hf [Hd Hc]. split; [split; [auto|by eapply criteria_ok_texts]|].
  intros k [t Ht]. destruct (Hf Hd k t Ht) as (t' & Ht' & HP & HQ). split; [eauto|].
  unfold terms, contract_at, texts_of. rewrite Ht, Ht', Ec. split.
  - intros [E1 E2]%HP. simpl. by rewrite E1, E2.
  - intros E%HQ. simpl. by rewrite E.
Qed.
Lemma settled_row k f d :
  (∀ t, tk_id (f t) = tk_id t ∧ (P k → title (f t) = title t ∧ description (f t) = description t) ∧
        (Q k → test_contract (f t) = test_contract t)) →
  settled d (set_tickets (update_row k f (tickets d)) d).
Proof.
  intros Hf. apply settled_tickets; [done|..].
  - intros Hk i t. simpl. unfold update_row. intros [(-> & t0 & Ht0 & ->)|[_ Hi]]%lookup_alter_Some.
    + destruct (Hf t0) as [-> _]. by apply Hk.
    + by apply Hk.
  - intros _ i t Ht. simpl. unfold update_row. destruct (decide (i = k)) as [->|Hne].
    + exists (f t). rewrite lookup_alter_eq, Ht. split; [done|]. apply (Hf t).
    + exists t. by rewrite lookup_alter_ne.
Qed.

Lemma settled_insert k t u d d' :
  tickets d !! k = Some t → tk_id u = k → contract_fields u = contract_fields t →
  tickets d' = <[k := u]> (tickets d) → criteria_texts d' = criteria_texts d → settled d d'.
Proof.
  intros Ht Hu [= E1 E2 E3] Et Ec. apply settled_tickets; [done|..]; unfold keyed; rewrite Et.
  - intros Hk i x [[<- <-]|[_ Hi]]%lookup_insert_Some; [done|by apply Hk].
  - intros Hk i x Hx. destruct (decide (i = k)) as [->|Hne].
    + exists u. rewrite lookup_insert_eq. rewrite Ht in Hx. injection Hx as <-. done.
    + exists x. by rewrite lookup_insert_ne.
Qed.
Lemma moved_contract input n t :
  tk_id (moved_ticket input n t) = tk_id t ∧ contract_fields (moved_ticket input n t) = contract_fields t.
Proof. unfold moved_ticket, status_updated. destruct t; simpl. by repeat case_match. Qed.

#[global] Instance settled_frame : CallFrame settled.
Proof.
  split.
  - apply _.
  - intros d d' Ht _ Ec. apply settled_tickets; [done|..]; unfold keyed; rewrite Ht; [done|eauto].
  - intros et ei a ty pl co _ d r d' [= _ <-]. apply settled_tickets; [done|done|eauto].
  - intros input d res d' Hr Hd.
    apply transition_ok in Hr as (t & pol & Ht & _ & -> & _); [|by apply Hd].
    destruct (moved_contract input (clock_now d) t) as [Hi Hc]. pose proof (proj1 Hd _ _ Ht) as Hid. revert Hd.
    apply (settled_insert (ticketId input) t (moved_ticket input (clock_now d) t)); [done|congruence|done| |done].
    by rewrite <- Hid.
  - intros k f d Hf. apply settled_row. intros t. by destruct (Hf t) as (? & _ & _ & [= ? ? ?]).
  - intros r p n d t d' d1 ok Hr Hu Hd.
    destruct (assign_same _ _ _ _ _ _ _ _ (proj1 Hd) Hr Hu) as [->|[Ht ->]]; [by auto|].
    revert Hd. by apply (settled_insert (tk_id t) t (status_updated (status t) p n t)).
  - intros t u a pl r d d1 d' _ _ Hins [= _ <-].
    unfold tickets_insert in Hins. destruct (tickets d !! tk_id t) eqn:Hnone; [done|].
    destruct (match number t with Some _ => _ | None => _ end); [done|]. injection Hins as _ <-.
    apply settled_tickets; [done|..].
    + intros Hk i x. simpl. intros [[<- <-]|[_ Hi]]%lookup_insert_Some; [done|by apply Hk].
    + intros Hk i x Hx. exists x. simpl. rewrite lookup_insert_ne; [done|congruence].
Qed.
End settled.

(** ** Edits *)

Lemma criteria_texts_update i f (m : gmap string AcceptanceCriterion) j :
  (criterion_text <$> update_row i f m) !! j
  = if bool_decide (j = i) then criterion_text ∘ f <$> m !! i else criterion_text <$> m !! j.
Proof.
  rewrite lookup_fmap. unfold update_row. case_bool_decide as Hj; [subst j|by rewrite lookup_alter_ne].
  rewrite lookup_alter_eq. by destruct (m !! i).
Qed.
Lemma nextSortOrder_above d i c :
  acceptance_criteria d !! i = Some c → (sort_order c < acs_nextSortOrder (ac_ticket_id c) d)%Z.
Proof.
  intros Hi. unfold acs_nextSortOrder.
  assert (Hin : c ∈ acs_listForTicket (ac_ticket_id c) d).
  { unfold acs_listForTicket, order_by. rewrite merge_sort_Permutation.
    apply list_elem_of_filter. split; [done|]. apply rows_spec. eauto. }
  revert Hin. generalize (acs_listForTicket (ac_ticket_id c) d) as l. intros l Hin.
  induction Hin as [x l|x y l _ IH]; simpl; [|specialize (IH Hi)]; lia.
Qed.

Section edits.
Context `{Env} (P Q : string → Prop) (x : string).
#[local] Abbreviation R := (settled P Q).

Lemma settled_criteria d d' :
  tickets d' = tickets d → (criteria_ok d → criteria_ok d') →
  (criteria_ok d → ∀ k, P k → texts_of k d' = texts_of k d) → R d d'.
Proof.
  intros Et Hok Hf [Hk Hc]. unfold keyed, terms, contract_at. rewrite Et. split; [by auto|].
  intros k Hs. split; [done|]. split; [|done]. intros HP. by rewrite (Hf Hc k HP).
Qed.

Section terms.
Context (HP : ¬ P x).
Lemma updateFields_settled v i n : evolves R (tickets_updateFields x v i n).
Proof.
  intros d ok d' [->| ->]%updateFields_cases; [reflexivity|]. apply settled_row. intros t. split; [done|].
  split; [by intros ?%HP|done].
Qed.
Lemma texts_of_other k j y d d' :
  criteria_texts d' = <[j := y]> (criteria_texts d) → y.1.1.2 = x →
  (∀ z, criteria_texts d !! j = Some z → z.1.1.2 = x) → P k → texts_of k d' = texts_of k d.
Proof.
  intros E Hy Hz Hk. unfold texts_of. rewrite E. apply map_eq. intros i. destruct (decide (i = j)) as [->|Hne].
  - assert (x ≠ k) by (by intros ->). rewrite !map_lookup_filter, lookup_insert_eq. simpl.
    rewrite option_guard_False by (simpl; congruence).
    destruct (criteria_texts d !! j) as [z|] eqn:Ez; [|done]. simpl.
    rewrite option_guard_False; [done|]. simpl. rewrite (Hz z); done.
  - by rewrite !map_lookup_filter, lookup_insert_ne.
Qed.
Lemma acs_insert_settled c d :
  ac_ticket_id c = x → sort_order c = acs_nextSortOrder x d → ∀ u d', acs_insert c d = Ok u d' → R d d'.
Proof.
  intros Hc Ho u d'. unfold acs_insert. destruct (acceptance_criteria d !! ac_id c) eqn:Hn; [done|].
  case_match; [done|]. intros [= _ <-]. apply settled_criteria; [done|..].
  - intros [Hk Hu]. split.
    + intros i c'. simpl. intros [[<- <-]|[_ Hi]]%lookup_insert_Some; [done|by apply Hk].
    + intros i j c1 c2. simpl. intros [[<- <-]|[Hni Hi]]%lookup_insert_Some [[<- <-]|[Hnj Hj]]%lookup_insert_Some Et Es.
      * done.
      * pose proof (nextSortOrder_above _ _ _ Hj) as Hlt. rewrite <- Et, Hc in Hlt. lia.
      * pose proof (nextSortOrder_above _ _ _ Hi) as Hlt. rewrite Et, Hc in Hlt. lia.
      * eauto.
  - intros _ k. apply (texts_of_other k (ac_id c) (criterion_text c)); [|done|].
    + unfold criteria_texts. simpl. by rewrite fmap_insert.
    + intros z. unfold criteria_texts. by rewrite lookup_fmap, Hn.
Qed.
Lemma acs_update_settled i c te m k n d :
  acceptance_criteria d !! i = Some c → ac_ticket_id c = x → R d (acs_update i te m k n d).
Proof.
  intros Hi Hc. apply settled_criteria; [done|..].
  - intros [Hk Hu]. split.
    + intros j c'. simpl. unfold update_row. intros [(-> & c0 & H0 & ->)|[_ Hj]]%lookup_alter_Some; [|by apply Hk].
      simpl. by apply Hk.
    + intros j1 j2 c1 c2. simpl. unfold update_row.
      intros [(-> & y1 & H1 & ->)|[Hn1 H1]]%lookup_alter_Some [(-> & y2 & H2 & ->)|[Hn2 H2]]%lookup_alter_Some;
        simpl; eauto.
  - intros _ j. apply (texts_of_other j i (criterion_text (ac_edited te m k n c))); [|done|].
    + apply map_eq. intros j'. unfold criteria_texts. simpl. rewrite criteria_texts_update, Hi.
      case_bool_decide as Hj; [subst j'; by rewrite lookup_insert_eq|].
      by rewrite lookup_insert_ne, lookup_fmap.
    + intros z. unfold criteria_texts. rewrite lookup_fmap, Hi. by intros [= <-].
Qed.
Lemma acs_delete_settled i c d :
  acceptance_criteria d !! i = Some c → ac_ticket_id c = x → R d (acs_delete i d).
Proof.
  intros Hi Hc. apply settled_criteria; [done|..].
  - intros [Hk Hu]. split.
    + intros j c'. simpl. intros [_ Hj]%lookup_delete_Some. by apply Hk.
    + intros j1 j2 c1 c2. simpl. intros [_ H1]%lookup_delete_Some [_ H2]%lookup_delete_Some. eauto.
  - intros _ k Hk. unfold texts_of, criteria_texts. simpl. rewrite fmap_delete. apply map_eq. intros j.
    rewrite !map_lookup_filter. destruct (decide (j = i)) as [->|Hne]; [|by rewrite lookup_delete_ne].
    rewrite lookup_delete_eq, lookup_fmap, Hi. simpl. rewrite option_guard_False; [done|]. simpl.
    rewrite Hc. by intros ->.
Qed.
End terms.

Lemma setTestContract_settled (HQ : ¬ Q x) v n d : R d (tickets_setTestContract x v n d).
Proof. apply settled_row. intros t. split; [done|]. split; [done|by intros ?%HQ]. Qed.
End edits.

Section run.
Context `{Env}.

Definition outside (L : list TicketStatus) (d : db) (k : string) : Prop :=
  ∀ t, tickets d !! k = Some t → status t ∉ L.
(** What an edit on [d] may not touch. *)
Definition frozen (d : db) : db → db → Prop :=
  settled (outside CONTRACT_EDITABLE_STATUSES d) (outside TEST_CONTRACT_EDITABLE_STATUSES d).

Lemma outside_not L d t : tickets d !! tk_id t = Some t → status t ∈ L → ¬ outside L d (tk_id t).
Proof. intros Ht Hs Ho. by apply (Ho t Ht). Qed.
Lemma resolve_then {A} ref (f : Ticket → Op A) d r d' :
  good d → (let* t := resolveRef ref in f t) d = Ok r d' →
  ∃ t, tickets d !! tk_id t = Some t ∧ f t d = Ok r d'.
Proof.
  intros [Hwf _] (t & d1 & [-> Ht]%resolveRef_ok & Hr)%bind_ok. eauto.
Qed.
Lemma editable_ok t w u d d' :
  assertContractEditable t w d = Ok u d' → d' = d ∧ status t ∈ CONTRACT_EDITABLE_STATUSES.
Proof. unfold assertContractEditable. intros [?%bool_decide_eq_true ->]%guard_ok. done. Qed.
Lemma test_editable_ok t w u d d' :
  assertTestContractEditable t w d = Ok u d' → d' = d ∧ status t ∈ TEST_CONTRACT_EDITABLE_STATUSES.
Proof. unfold assertTestContractEditable. intros [?%bool_decide_eq_true ->]%guard_ok. done. Qed.
Lemma resolveAc_ok t r d c d' :
  criteria_ok d → resolveAcceptanceCriterion t r d = Ok c d' →
  d' = d ∧ acceptance_criteria d !! ac_id c = Some c ∧ ac_ticket_id c = tk_id t.
Proof.
  intros [Hk _] Hr. unfold resolveAcceptanceCriterion in Hr.
  apply bind_ok in Hr as (acs & d1 & [= <- <-] & Hr).
  destruct (criterion_of _ _ _) as [e|c'] eqn:Ec; [done|]. injection Hr as -> ->. split; [done|].
  assert (Hin : c ∈ acs_listForTicket (tk_id t) d').
  { unfold criterion_of, at_position in Ec. destruct (is_position _).
    - destruct (js_Number (trim r)) as [n|]; [|done]. simpl in Ec. case_bool_decide; [|done].
      destruct (_ !! _) eqn:El; [|done]. injection Ec as <-. by eapply list_elem_of_lookup_2.
    - destruct (find _ _) eqn:Ef; [injection Ec as <-; by apply find_some in Ef as [?%list_elem_of_In _]|].
      case_bool_decide; [|done].
      destruct (filter _ _) as [|y [|z l]] eqn:El; [done| |done]. injection Ec as <-.
      assert (Hy : y ∈ [y]) by (by left). rewrite <- El in Hy. by apply list_elem_of_filter in Hy as [_ ?]. }
  unfold acs_listForTicket, order_by in Hin. rewrite merge_sort_Permutation in Hin.
  apply list_elem_of_filter in Hin as [Ht [i Hi]%rows_spec]. split; [|done]. by rewrite (Hk _ _ Hi).
Qed.

(** The edits that write no term and no test contract. *)
#[local] Hint Extern 1 (evolves (settled ?P ?Q) (modify _)) =>
  apply evolves_modify; intros; first
    [ apply settled_row; intros; repeat split; reflexivity | apply (frame_tables (R:=settled P Q)); reflexivity ] : gaffer.
#[local] Hint Extern 1 (evolves (settled ?P ?Q) _) => edit_pieces (settled P Q) : gaffer.
Lemma quiet_edit_settled P Q c a :
  match c with
  | AllowTestChanges _ _ _ | RecordAcceptance _ _ | RecordArtifact _ | RecordRepo _ | AttachEvidence _ _
  | DraftTicket _ | SetBudget _ _ => True
  | _ => False
  end → evolves (settled P Q) (run_edit c a).
Proof.
  destruct c; intros []; simpl; apply (ignore_frame (settled P Q)).
  - unfold setAllowTestChanges, inTransaction. structural.
  - unfold recordAcceptanceEvidence, inTransaction. structural.
  - apply (recordArtifact_frame (settled P Q)).
  - unfold recordRepoDelivery, inTransaction. structural.
  - unfold attachDeliveryEvidence, inTransaction. structural.
  - unfold createDraftTicket. unfold inTransaction at 1. structural.
  - unfold setDeliveryBudget, inTransaction. structural.
Qed.

Section one.
Context (d : db) (Hg : good d) (Hc : criteria_ok d).

#[local] Hint Extern 1 (evolves (settled ?P ?Q) (tickets_updateFields _ _ _ _)) =>
  apply updateFields_settled; assumption : gaffer.
Ltac tail Hr := match type of Hr with ?m _ = Ok _ _ =>
  let He := fresh in assert (He : evolves (frozen d) m) by (unfold frozen; structural); exact (He _ _ _ Hr) end.

Lemma fields_untouched i v n k :
  touches_contract i = false → evolves (frozen d) (tickets_updateFields k v i n).
Proof.
  unfold touches_contract. intros Et. apply negb_false_iff, andb_true_iff in Et as [[E1 E2]%andb_true_iff _].
  apply bool_decide_eq_true in E1, E2.
  intros d1 ok d2 [->| ->]%updateFields_cases; [reflexivity|]. apply settled_row. intros t. simpl.
  by rewrite E1, E2.
Qed.
Lemma editTicket_frozen ref raw a r d' : editTicket ref raw a d = Ok r d' → frozen d d d'.
Proof.
  unfold editTicket, inTransaction. intros (i & d1 & [_ ->]%require_ok & Hr)%bind_ok.
  apply resolve_then in Hr as (t & Ht & Hr); [|done].
  apply bind_ok in Hr as (u & d1 & Hu & Hr). unfold assertEditable in Hu.
  destruct (touches_contract i) eqn:Et.
  - apply editable_ok in Hu as [-> Hs]. pose proof (outside_not _ _ _ Ht Hs). tail Hr.
  - apply guard_ok in Hu as [_ ->]. pose proof (fields_untouched i) as Hf. unfold frozen in Hf. tail Hr.
Qed.
Lemma addAc_frozen raw a r d' : addAcceptanceCriterion raw a d = Ok r d' → frozen d d d'.
Proof.
  unfold addAcceptanceCriterion, inTransaction. intros (i & d1 & [_ ->]%require_ok & Hr)%bind_ok.
  apply bind_ok in Hr as (n & d1 & [= <- <-] & Hr).
  apply resolve_then in Hr as (t & Ht & Hr); [|done].
  apply bind_ok in Hr as (u & d1 & [-> Hs]%editable_ok & Hr). pose proof (outside_not _ _ _ Ht Hs) as HP.
  apply bind_ok in Hr as (id & d1 & Hid & Hr).
  assert (Hacs : acs_nextSortOrder (tk_id t) d1 = acs_nextSortOrder (tk_id t) d) by (by injection Hid as _ <-).
  apply (newId_frame (frozen d)) in Hid. etrans; [exact Hid|]. clear Hid.
  apply bind_ok in Hr as (o & d2 & [= <- <-] & Hr).
  apply bind_ok in Hr as (v & d2 & Hi & Hr). etrans;
    [by eapply (acs_insert_settled _ _ (tk_id t) HP); [| |exact Hi]|].
  clear Hi. tail Hr.
Qed.
Lemma editAc_frozen ref ac raw a r d' : editAcceptanceCriterion ref ac raw a d = Ok r d' → frozen d d d'.
Proof.
  unfold editAcceptanceCriterion, inTransaction. intros (i & d1 & [_ ->]%require_ok & Hr)%bind_ok.
  apply resolve_then in Hr as (t & Ht & Hr); [|done].
  apply bind_ok in Hr as (u & d1 & [-> Hs]%editable_ok & Hr). pose proof (outside_not _ _ _ Ht Hs) as HP.
  apply bind_ok in Hr as (c & d1 & (-> & Hk & Ho)%resolveAc_ok & Hr); [|done].
  apply bind_ok in Hr as (? & d1 & [_ ->]%guard_ok & Hr). apply bind_ok in Hr as (n & d1 & [= <- <-] & Hr).
  apply bind_ok in Hr as (? & d1 & [= _ <-] & Hr).
  etrans; [by eapply (acs_update_settled _ _ (tk_id t) HP)|]. tail Hr.
Qed.
Lemma removeAc_frozen ref ac a r d' : removeAcceptanceCriterion ref ac a d = Ok r d' → frozen d d d'.
Proof.
  unfold removeAcceptanceCriterion, inTransaction. intros (t & Ht & Hr)%resolve_then; [|done].
  apply bind_ok in Hr as (u & d1 & [-> Hs]%editable_ok & Hr). pose proof (outside_not _ _ _ Ht Hs) as HP.
  apply bind_ok in Hr as (c & d1 & (-> & Hk & Ho)%resolveAc_ok & Hr); [|done].
  apply bind_ok in Hr as (? & d1 & [= _ <-] & Hr).
  etrans; [by eapply (acs_delete_settled _ _ (tk_id t) HP)|]. tail Hr.
Qed.

#[local] Hint Extern 1 (evolves (settled ?P ?Q) (modify (tickets_setTestContract _ _ _))) =>
  apply evolves_modify; intros; apply setTestContract_settled; assumption : gaffer.
Lemma setTestable_frozen ref b a r d' : setTestable ref b a d = Ok r d' → frozen d d d'.
Proof.
  unfold setTestable, inTransaction. intros (t & Ht & Hr)%resolve_then; [|done].
  destruct (bool_decide (status t ∈ TEST_CONTRACT_EDITABLE_STATUSES)) eqn:Hs.
  - apply bool_decide_eq_true in Hs. pose proof (outside_not _ _ _ Ht Hs). tail Hr.
  - rewrite andb_false_r in Hr. change (when false _) with (mret (M:=M db error) tt) in Hr. tail Hr.
Qed.
Lemma setTestContract_frozen ref i a r d' : setTestContract ref i a d = Ok r d' → frozen d d d'.
Proof.
  unfold setTestContract, inTransaction. intros (i' & d1 & [_ ->]%require_ok & Hr)%bind_ok.
  apply resolve_then in Hr as (t & Ht & Hr); [|done].
  apply bind_ok in Hr as (u & d1 & [-> Hs]%test_editable_ok & Hr). pose proof (outside_not _ _ _ Ht Hs). tail Hr.
Qed.
Lemma setProfile_frozen ref p sp a r d' : setAcceptanceProfile ref p sp a d = Ok r d' → frozen d d d'.
Proof.
  unfold setAcceptanceProfile, inTransaction.
  intros (? & d1 & [_ ->]%guard_ok & (? & d2 & [_ ->]%require_ok & (? & d3 & [_ ->]%require_ok & (? & d4 & [_ ->]%guard_ok & Hr)%bind_ok)%bind_ok)%bind_ok)%bind_ok.
  apply resolve_then in Hr as (t & Ht & Hr); [|done].
  apply bind_ok in Hr as (u & d5 & [-> Hs]%test_editable_ok & Hr). pose proof (outside_not _ _ _ Ht Hs). tail Hr.
Qed.

Lemma run_edit_frozen c a d' : run_edit c a d = Ok tt d' → frozen d d d'.
Proof.
  intros Hr.
  destruct c; try (lazymatch type of Hr with run_edit ?c _ _ = _ => exact (quiet_edit_settled _ _ c a I _ _ _ Hr) end);
    simpl in Hr; apply bind_ok in Hr as (r & d1 & Hr & [= <-]).
  - by eapply editTicket_frozen.
  - by eapply addAc_frozen.
  - by eapply editAc_frozen.
  - by eapply removeAc_frozen.
  - by eapply setTestable_frozen.
  - by eapply setTestContract_frozen.
  - by eapply setProfile_frozen.
Qed.
End one.

Lemma step_frozen d d' : good d → criteria_ok d → step d d' → frozen d d d'.
Proof.
  intros Hg Hc Hs. revert Hg Hc.
  destruct Hs as [c a ? ? Hr|deps c a ? ? Hr|c a ? ? Hr|deps r to a res ? ? Hr|n w ?]; intros Hg Hc.
  - exact (run_call_frame _ c a _ _ _ Hr).
  - exact (run_gate_frame _ c a _ _ _ Hr).
  - by eapply run_edit_frozen.
  - exact (moveTicket_frame _ r to a _ _ _ Hr).
  - unfold frozen. apply (frame_tables (R:=settled _ _)); reflexivity.
Qed.

(** C7: the contract a verdict is bound to is frozen.  Whatever call is made
    by whomever: on a ticket that is not [draft], [refining], [ready] or
    [blocked] the title, the description and the criteria are as before, and on a ticket that
    is past review, [in_testing] on, the hash of the whole contract is; the
    criteria keep their ids and places, so the hash stays a function of the
    contract. *)
Theorem contract_frozen d d' k t :
  good d → criteria_ok d → step d d' → tickets d !! k = Some t →
  criteria_ok d' ∧ ∃ t', tickets d' !! k = Some t' ∧
    (status t ∉ CONTRACT_EDITABLE_STATUSES →
       title t' = title t ∧ description t' = description t ∧
       ac_text <$> acs_listForTicket k d' = ac_text <$> acs_listForTicket k d) ∧
    (status t ∉ TEST_CONTRACT_EDITABLE_STATUSES → contractHash k d' = contractHash k d).
Proof.
  intros Hg Hc Hs Ht. pose proof (wf_tickets d (proj1 Hg)) as Hk.
  destruct (step_frozen d d' Hg Hc Hs (conj Hk Hc)) as [[_ Hc'] Hf]. split; [done|].
  destruct (Hf k) as ([t' Ht'] & HP & HQ); [by rewrite Ht|]. exists t'. split; [done|].
  assert (Hterms : status t ∉ CONTRACT_EDITABLE_STATUSES →
    title t' = title t ∧ description t' = description t ∧
    ac_text <$> acs_listForTicket k d' = ac_text <$> acs_listForTicket k d).
  { intros Hn. unfold terms in HP. rewrite Ht, Ht' in HP. simpl in HP.
    assert (outside CONTRACT_EDITABLE_STATUSES d k) as [= -> -> E]%HP; [intros x Hx; congruence|].
    split; [done|]. split; [done|]. by apply texts_determine'. }
  split; [done|]. intros Hn.
  assert (status t ∉ CONTRACT_EDITABLE_STATUSES) as (E1 & E2 & E3)%Hterms.
  { intros Hin. apply Hn. apply elem_of_app. by left. }
  unfold contract_at in HQ. rewrite Ht, Ht' in HQ.
  assert (outside TEST_CONTRACT_EDITABLE_STATUSES d k) as [= E4]%HQ; [intros x Hx; congruence|].
  unfold contractHash. rewrite Ht, Ht'. simpl. by rewrite E1, E2, E3, E4.
Qed.
End run.

(** The criteria of a concrete database. *)
Definition criteria_okb (d : db) : bool :=
  let l := map_to_list (acceptance_criteria d) in
  forallb (λ p, bool_decide (ac_id p.2 = p.1)) l
  && forallb (λ p, forallb (λ q, negb (bool_decide (ac_ticket_id p.2 = ac_ticket_id q.2)
       && bool_decide (sort_order p.2 = sort_order q.2)) || bool_decide (p.1 = q.1)) l) l.
Lemma criteria_okb_ok d : criteria_okb d = true → criteria_ok d.
Proof.
  intros [H1 H2]%andb_true_iff. rewrite forallb_forall in H1, H2. split.
  - intros i c Hc%elem_of_map_to_list%list_elem_of_In. apply H1 in Hc. by apply bool_decide_eq_true in Hc.
  - intros i j c c' Hc%elem_of_map_to_list%list_elem_of_In Hc'%elem_of_map_to_list%list_elem_of_In Et Es.
    apply H2 in Hc. rewrite forallb_forall in Hc. apply Hc in Hc'. simpl in Hc'.
    rewrite !bool_decide_true in Hc' by done. by apply bool_decide_eq_true in Hc'.
Qed.
(** A ticket in testing whose flag is set while the tester runs: its contract
    stands, though an unseeded ticket before testing would be given one. *)
Definition gate_flagged : db :=
  match run_edit (SetTestable "1" true) human gate_testing with Ok _ d' => d' | Err _ => gate_testing end.
Lemma contract_frozen_witness :
  can_be_tested <$> tickets gate_flagged !! "u0" = Some 1%Z ∧
  contractHash "u0" gate_flagged = contractHash "u0" gate_testing.
Proof.
  split; [vm_compute; reflexivity|].
  assert (Hs : step gate_testing gate_flagged).
  { apply (step_edit (SetTestable "1" true) human). vm_compute; reflexivity. }
  destruct (contract_frozen gate_testing gate_flagged "u0" (seen "u0" gate_testing)) as (_ & t' & _ & _ & Hh).
  - exact (reachable_good _ gate_testing_reachable).
  - apply criteria_okb_ok; vm_compute; reflexivity.
  - exact Hs.
  - vm_compute; reflexivity.
  - apply Hh. vm_compute. intros Hin. repeat (apply elem_of_cons in Hin as [Hin|Hin]; [discriminate|]).
    by apply elem_of_nil in Hin.
Defined.
