(* ===== verification/Edited.v ===== *)
(** * What the edits do

    A ready ticket stays one its gate lets through, a criterion is found by
    position, id or prefix, the test contract the tester reads is the one that
    was set and leaks nothing, and a delivery's base commit is written once. *)
From S2P Require Import Prelude Json JsonParse Types EventChain Store Policy Diff Transition Claims Tickets.
From S2P Require Import Decisions Pause Lifecycle Landing Autonomy Verdicts Pattern Contract Review Approval.
From S2P Require Import Sendback Tester Edits Handover Deliveries Life Refinement Simulation Gate Changes Claiming.
From S2P Require Import System Demo GateDemo Frozen.

(** ** The patterns *)

(** the matcher is the patterns' semantics.  [RegExp.prototype.test], run
    by backtracking over the suffixes of the text, answers true exactly when the pattern, read
    as a relation between two places of the text, holds from some place. *)
Theorem test_is_matches r s :
  test r s = true ↔ ∃ p q, place_of None (String.list_ascii_of_string s) p ∧ Pattern.matches r p q.
Proof. apply test_spec. Qed.

(** ** The test contract *)

(** What [parseTestContract] can return. *)
Definition shaped (c : TestContract) : Prop :=
  tc_profile c ≠ Some PUnit ∧
  match profile_spec c with
  | Some s => tc_profile c ≠ None ∧ (∃ ms, s = JSObj ms) ∧ plain s
  | None => True
  end.
Lemma plain_str_arr l : plain (str_arr l).
Proof. apply plain_arr. by induction l; constructor. Qed.
Lemma string_list_str_arr l : string_list (Some (str_arr l)) = l.
Proof. unfold string_list, str_arr. induction l as [|s l IH]; [done|]. cbn. f_equal. exact IH. Qed.
Lemma plain_contract c : shaped c → plain (contract_js c) ∧ plain (reseeded_js c).
Proof.
  intros [_ Hs]. split; apply plain_obj; destruct c as [su de en co ha pr sp]; simpl in *; (split;
    [apply (bool_decide_unpack _); by destruct pr, sp; vm_compute|]);
    repeat (constructor; [first [apply plain_str_arr|done]|]); simpl;
    destruct pr, sp; simpl; repeat constructor; simpl; tauto.
Qed.
Lemma plain_seeded c : plain (seeded_js c).
Proof.
  apply plain_obj. destruct c as [su de en co ha pr sp]; simpl. split.
  - apply (bool_decide_unpack _). by destruct pr; vm_compute.
  - repeat (constructor; [first [apply plain_str_arr|done]|]). simpl.
    destruct pr; simpl; repeat constructor; simpl; apply plain_str_arr.
Qed.
(** An object that has a contract's members, in whatever order. *)
Definition holds_contract (c : TestContract) (v : js) : Prop :=
  (∃ ms, v = JSObj ms) ∧
  js_member "changed_surfaces" v = Some (str_arr (changed_surfaces c)) ∧
  js_member "runtime_deps" v = Some (str_arr (runtime_deps c)) ∧
  js_member "env_vars" v = Some (str_arr (env_vars c)) ∧
  js_member "run_command" v = Some (JSStr (run_command c)) ∧
  js_member "harness_ready" v = Some (JSBool (harness_ready c)) ∧
  js_member "profile" v = ((λ p, JSStr (profile_name p)) <$> tc_profile c) ∧
  js_member "profile_spec" v = profile_spec c.
Lemma contract_js_holds c : holds_contract c (contract_js c).
Proof. destruct c as [su de en co ha [pr|] [sp|]]; (split; [by eexists|]); repeat split. Qed.
Lemma reseeded_js_holds c : holds_contract c (reseeded_js c).
Proof. destruct c as [su de en co ha [pr|] [sp|]]; (split; [by eexists|]); repeat split. Qed.
Lemma seeded_js_holds c : profile_spec c = None → holds_contract c (seeded_js c).
Proof. destruct c as [su de en co ha [pr|] sp]; simpl; intros ->; (split; [by eexists|]); repeat split. Qed.

Lemma parse_contract_js s v c :
  JSON_parse s = Some v → holds_contract c v → shaped c → parseTestContract (Some s) = Some c.
Proof.
  intros Hp ([ms ->] & E1 & E2 & E3 & E4 & E5 & E6 & E7) [Hpr Hsp]. unfold parseTestContract, given.
  rewrite bool_decide_false by (intros ->; discriminate Hp). cbn [mbind option_bind]. rewrite Hp.
  cbn [mbind option_bind]. rewrite E1, E2, E3, E4, E5, E6, E7, !string_list_str_arr.
  unfold named_profile. destruct c as [su de en co ha [pr|] [sp|]]; simpl in *.
  - destruct Hsp as (_ & [ms' ->] & _). by destruct pr.
  - by destruct pr.
  - by destruct Hsp.
  - done.
Qed.
Lemma parse_written v c :
  plain v → holds_contract c v → shaped c → parseTestContract (JSON_stringify v) = Some c.
Proof.
  intros Hv Hh Hc. destruct (JSON_roundtrip _ Hv) as (s & -> & Hp). by eapply parse_contract_js.
Qed.

Definition cli_contract : TestContract :=
  mk_TestContract ["the login page"] ["postgres"] ["PGHOST=db"] "npm start" true (Some PCli)
    (Some (JSObj [("cases", JSArr [JSObj [("argv", JSArr [JSStr "login"]); ("exit", JSNum 0)]])])).

Section edited.
Context `{Env}.

Lemma validate_same c c' : validateTestContract c = inr c' → c' = c.
Proof. unfold validateTestContract. destruct (head _); [done|]. by intros [= <-]. Qed.
Definition surfaces_contract (p : option AcceptanceProfile) (l : list string) : TestContract :=
  mk_TestContract l [] [] "" false p None.
Lemma generic_clean p :
  validateTestContract (surfaces_contract p [SEEDED_GENERIC_SURFACE])
  = inr (surfaces_contract p [SEEDED_GENERIC_SURFACE]).
Proof.
  unfold validateTestContract. by replace (leaks _) with ([] : list error) by by vm_compute.
Qed.

(** Seeding never leaks.  Whatever a ticket's title says (a branch name, a
    commit hash, a source path), the contract seeded from it passes the leak
    check and is read back whole from the column it is written to. *)
Theorem seeded_contract_clean ti seed :
  validateTestContract (seededTestContract ti seed) = inr (seededTestContract ti seed) ∧
  parseTestContract (JSON_stringify (seeded_js (seededTestContract ti seed)))
  = Some (seededTestContract ti seed).
Proof.
  assert (Hp : profileFromTitle ti seed ≠ Some PUnit).
  { unfold profileFromTitle. by repeat case_match. }
  assert (∃ l, seededTestContract ti seed = surfaces_contract (profileFromTitle ti seed) l ∧
    validateTestContract (surfaces_contract (profileFromTitle ti seed) l)
    = inr (surfaces_contract (profileFromTitle ti seed) l)) as (l & -> & Hv).
  { unfold seededTestContract. case_bool_decide; [eexists; split; [done|apply generic_clean]|].
    destruct (validateTestContract _) as [e|c] eqn:Hv; [eexists; split; [done|apply generic_clean]|].
    pose proof (validate_same _ _ Hv) as ->. by eexists. }
  split; [done|]. apply parse_written; [apply plain_seeded|by apply seeded_js_holds|done].
Qed.

(** ** The base commit *)

Definition base_of (tk rp : string) (d : db) : option string := repoDeliveries_find tk rp d ≫= base_sha.
Definition row_at (tk rp : string) (l : list TicketRepoDelivery) : option TicketRepoDelivery :=
  head (filter (λ x, rd_ticket_id x = tk ∧ rd_repo_id x = rp) l).
Lemma row_at_cons tk rp x l :
  row_at tk rp (x :: l) = if delivery_row tk rp x then Some x else row_at tk rp l.
Proof.
  unfold row_at, delivery_row. rewrite filter_cons. destruct (decide (_ ∧ _)) as [[-> ->]|Hn].
  - by rewrite !bool_decide_true.
  - destruct (bool_decide (rd_ticket_id x = tk)) eqn:E1, (bool_decide (rd_repo_id x = rp)) eqn:E2; try done.
    apply bool_decide_eq_true in E1, E2. tauto.
Qed.
Lemma row_at_patched tk rp tk' rp' f l :
  (∀ x, rd_ticket_id (f x) = rd_ticket_id x ∧ rd_repo_id (f x) = rd_repo_id x) →
  row_at tk' rp' ((λ x, if delivery_row tk rp x then f x else x) <$> l)
  = if bool_decide (tk' = tk ∧ rp' = rp) then f <$> row_at tk rp l else row_at tk' rp' l.
Proof.
  intros Hf. induction l as [|x l IH]; [by case_bool_decide|].
  rewrite fmap_cons, !row_at_cons, IH. unfold delivery_row. destruct (Hf x) as [E1 E2].
  case_bool_decide as Hs.
  - destruct Hs as [-> ->]. destruct (bool_decide (rd_ticket_id x = tk) && _) eqn:E; [|by rewrite E].
    by rewrite E1, E2, E.
  - destruct (bool_decide (rd_ticket_id x = tk) && _) eqn:E; [|done]. rewrite E1, E2.
    apply andb_true_iff in E as [<-%bool_decide_eq_true <-%bool_decide_eq_true].
    destruct (bool_decide (rd_ticket_id x = tk')) eqn:E3, (bool_decide (rd_repo_id x = rp')) eqn:E4; try done.
    apply bool_decide_eq_true in E3, E4. naive_solver.
Qed.
Lemma row_at_snoc tk rp l x :
  row_at tk rp (l ++ [x])
  = match row_at tk rp l with Some y => Some y | None => if delivery_row tk rp x then Some x else None end.
Proof.
  induction l as [|y l IH]; [by rewrite app_nil_l, row_at_cons|]. rewrite <- app_comm_cons, !row_at_cons, IH.
  by destruct (delivery_row tk rp y).
Qed.
Lemma row_at_none tk rp l : existsb (delivery_row tk rp) l = false → row_at tk rp l = None.
Proof. induction l as [|y l IH]; [done|]. rewrite row_at_cons. simpl. by destruct (delivery_row tk rp y). Qed.
(** What an upsert leaves of each pair's base commit. *)
Lemma base_of_upsert tk rp tk' rp' i b st n d :
  base_of tk' rp' (repoDeliveries_upsert tk rp i b st n d)
  = if bool_decide (tk' = tk ∧ rp' = rp)
    then if b then coalesce (rr_base_sha i) (base_of tk rp d) else coalesce (base_of tk rp d) (rr_base_sha i)
    else base_of tk' rp' d.
Proof.
  unfold base_of, repoDeliveries_find, repoDeliveries_upsert. cbn [ticket_repo_delivery set_ticket_repo_delivery].
  generalize (ticket_repo_delivery d) as l. intros l. fold (row_at tk rp l) (row_at tk' rp' l).
  match goal with |- head (filter _ ?l') ≫= _ = _ => fold (row_at tk' rp' l') end.
  destruct (existsb (delivery_row tk rp) l) eqn:He.
  - rewrite row_at_patched by done. case_bool_decide; [|done].
    destruct (row_at tk rp l) eqn:Er; [by destruct b|]. exfalso.
    apply existsb_exists in He as (x & Hin%list_elem_of_In & Hx). clear -Er Hin Hx.
    induction Hin as [x l|x y l _ IH]; rewrite row_at_cons in Er; [by rewrite Hx in Er|].
    destruct (delivery_row tk rp y); [done|auto].
  - rewrite row_at_snoc. case_bool_decide as Hs.
    + destruct Hs as [-> ->]. rewrite row_at_none by done. unfold delivery_row. simpl.
      rewrite !bool_decide_true by done. simpl. by destruct b, (rr_base_sha i).
    + destruct (row_at tk' rp' l); [done|]. unfold delivery_row. simpl.
      destruct (bool_decide (tk = tk')) eqn:E1, (bool_decide (rp = rp')) eqn:E2; try done.
      apply bool_decide_eq_true in E1, E2. naive_solver.
Qed.

Lemma trimmed_some P o o' : trimmed P o = Some o' →
  (o = None ∧ o' = None) ∨ ∃ s, o = Some s ∧ o' = Some (trim s) ∧ P (trim s) = true.
Proof.
  destruct o as [s|]; [|by intros [= <-]; left]. unfold trimmed, optionally, when_ok.
  destruct (P (trim s)) eqn:E; [|done]. intros [= <-]. right. eauto.
Qed.
Lemma repo_input_base raw i :
  recordRepoDeliveryInput raw = Some i →
  rr_base_recut i = rr_base_recut raw ∧ rr_base_sha i = trim <$> rr_base_sha raw ∧
  ∀ b, rr_base_sha i = Some b → SHA_RE b = true.
Proof.
  unfold recordRepoDeliveryInput. intros (b & Hb & Hi)%bind_Some. apply bind_Some in Hi as (c & Hc & Hi).
  apply bind_Some in Hi as (s & Hs & Hi). apply bind_Some in Hi as (u & Hu & Hi).
  apply bind_Some in Hi as (e & He & Hi). destruct (_ || _); [done|]. injection Hi as <-. simpl. split; [done|].
  apply trimmed_some in Hs as [[-> ->]|(x & -> & -> & Hx)]; [done|]. split; [done|]. by intros ? [= <-].
Qed.

(** a delivery's base commit is written once, and never by an agent.
    After any recorded repo delivery, every pair of ticket and repository
    that had a base commit has the same one, unless a person or the runner
    said the branch was cut again and named the new one; and when an agent
    records, no base commit of any pair changes. *)
Theorem base_commit_written_once raw a d res d' tk rp :
  recordRepoDelivery raw a d = Ok res d' →
  (∀ b, base_of tk rp d = Some b → base_of tk rp d' = Some b ∨
     rr_base_recut raw = Some true ∧ actor_type a ≠ AgentActor ∧
     ∃ b', base_of tk rp d' = Some b' ∧ SHA_RE b' = true ∧ trim <$> rr_base_sha raw = Some b') ∧
  (actor_type a = AgentActor → base_of tk rp d' = base_of tk rp d).
Proof.
  unfold recordRepoDelivery, inTransaction. intros (i & d0 & [Hi ->]%require_ok & Hr)%bind_ok.
  apply bind_ok in Hr as (? & d0 & [Ha ->]%guard_ok & Hr). apply bind_ok in Hr as (n & d0 & [= <- <-] & Hr).
  apply bind_ok in Hr as (t & d0 & [-> _]%resolveRef_ok & Hr).
  apply bind_ok in Hr as (? & d0 & [= <- <-] & Hr). apply bind_ok in Hr as (repo & d0 & [_ ->]%require_ok & Hr).
  apply bind_ok in Hr as (? & d0 & [= <- <-] & Hr). apply bind_ok in Hr as (? & d0 & [_ ->]%guard_ok & Hr).
  apply bind_ok in Hr as (? & d0 & [= <- <-] & Hr). apply bind_ok in Hr as (? & d0 & [Hx ->]%guard_ok & Hr).
  apply bind_ok in Hr as (? & d0 & [= _ <-] & Hr).
  apply bind_ok in Hr as (? & d0 & [= <- <-] & Hr). apply bind_ok in Hr as (dl & d0 & [_ ->]%require_ok & Hr).
  apply bind_ok in Hr as (ev & d0 & Hev & [= _ <-]).
  assert (Eb : base_of tk rp d0 = base_of tk rp (repoDeliveries_upsert (tk_id t) (rp_id repo) i
    (bool_decide (replaced_base i (repoDeliveries_find (tk_id t) (rp_id repo) d) ≠ None))
    (rr_status i ?? ((rd_status <$> repoDeliveries_find (tk_id t) (rp_id repo) d) ?? NotStarted)) (clock_now d) d))
    by (by injection Hev as _ <-).
  rewrite Eb, base_of_upsert. clear Hev Eb.
  apply repo_input_base in Hi as (Er & Es & Hsha).
  set (old := repoDeliveries_find _ _ _) in *.
  assert (Ex : base_of (tk_id t) (rp_id repo) d = old ≫= base_sha) by done. clearbody old.
  destruct i as [? ? ? ? bs rc ? ? ?]. unfold replaced_base in *. simpl in *. subst bs rc.
  destruct (bool_decide (tk = tk_id t ∧ rp = rp_id repo)) eqn:Hs; [|by eauto].
  apply bool_decide_eq_true in Hs as [-> ->]. rewrite Ex in *. split.
  - intros b Eb. rewrite Eb in *. destruct (rr_base_sha raw) as [b'|] eqn:Eraw; simpl in *; [|by left].
    destruct (bool_decide (b = trim b')) eqn:Eq; simpl in *; [by left|]. right.
    apply bool_decide_eq_true in Hx. split; [done|].
    split; [|eauto]. intros Hag. by rewrite Hag in Ha.
  - intros Hag. rewrite Hag in Ha. destruct (rr_base_sha raw); [done|]. simpl in *. by destruct (old ≫= base_sha).
Qed.

(** ** Ready tickets *)

(** The ticket an edit of the contract names. *)
Definition edited_ref (c : edit_call) : option string :=
  match c with
  | EditTicket r _ => Some r
  | AddCriterion i => ai_ticket_id <$> addAcInput i
  | EditCriterion r _ _ => Some r
  | RemoveCriterion r _ => Some r
  | _ => None
  end.
Definition ready_allowed (k : string) (d : db) : Prop :=
  ∃ p, preview k Ready d = Ok (Some p) d ∧ allowed p = true.
Lemma recheck_ok t d u d' :
  recheckReadyGate t d = Ok u d' → d' = d ∧ (status t = Ready → ready_allowed (tk_id t) d).
Proof.
  unfold recheckReadyGate. destruct (bool_decide (status t = Ready)) eqn:Hs; simpl.
  - intros (p & d1 & Hp & [Hg ->]%guard_ok)%bind_ok. unfold preview in Hp. simpl in Hp.
    apply bind_ok in Hp as (o & d2 & [= <- <-] & Hp). apply bind_ok in Hp as (t' & d2 & [Ht ->]%require_ok & Hp).
    apply bind_ok in Hp as (r & d2 & [= <- <-] & [= <- <-]). split; [done|]. intros _.
    eexists. split; [|exact Hg]. unfold preview. simpl. unfold mbind, M_bind, gets. simpl. by rewrite Ht.
  - intros [= _ <-]. split; [done|]. intros E. by rewrite E in Hs.
Qed.

Ltac rechecked Hr Ht Hs :=
  run_steps Hr;
  repeat match goal with
  | H : now _ = Ok _ _ |- _ => injection H as <- <- | H : Some _ = Some _ |- _ => injection H as <-
  end;
  match goal with
  | H : recheckReadyGate ?t _ = Ok _ _, H' : resolveRef _ _ = Ok ?t _ |- _ =>
      apply recheck_ok in H as [-> H]; rewrite Ht in H'; injection H' as <- <-; specialize (H Hs)
  end;
  try match type of Hr with mret _ _ = Ok _ _ => injection Hr as <- end; assumption.
(** C30: an edit never leaves a ready ticket its gate would refuse.  Editing
    the ticket, adding, editing or removing a criterion: when the ticket was
    [ready], the policy pack's ready gate, evaluated on the database the edit
    left, allows it; an edit that would not pass is refused whole. *)
Theorem edit_keeps_ready c a d d' ref t :
  good d → run_edit c a d = Ok tt d' → edited_ref c = Some ref →
  resolveRef ref d = Ok t d → status t = Ready → ready_allowed (tk_id t) d'.
Proof.
  intros Hg Hr Hc Ht Hs. destruct c; try discriminate; simpl in Hr, Hc.
  - injection Hc as ->. unfold editTicket, inTransaction, ignore in Hr. rechecked Hr Ht Hs.
  - apply fmap_Some in Hc as (i' & Hi & ->).
    unfold addAcceptanceCriterion, inTransaction, ignore in Hr. rewrite Hi in Hr. rechecked Hr Ht Hs.
  - injection Hc as ->. unfold editAcceptanceCriterion, inTransaction, ignore in Hr. rechecked Hr Ht Hs.
  - injection Hc as ->. unfold removeAcceptanceCriterion, inTransaction, ignore in Hr. rechecked Hr Ht Hs.
Qed.
End edited.

Definition base_input : RecordRepoDeliveryInput :=
  mk_RecordRepoDeliveryInput "1" "app" (Some "gaffer/ticket-1") None (Some sha1) None None None None.
Definition with_base : db :=
  match recordRepoDelivery base_input runner gate_review with Ok _ d' => d' | Err _ => gate_review end.
Definition agent_input : RecordRepoDeliveryInput :=
  mk_RecordRepoDeliveryInput "1" "app" None (Some sha1) None None None None None.
Lemma base_commit_written_once_witness :
  base_of "u0" "r1" with_base = Some sha1 ∧
  ∃ res d', recordRepoDelivery agent_input coder with_base = Ok res d' ∧
    base_of "u0" "r1" d' = base_of "u0" "r1" with_base.
Proof.
  split; [vm_compute; reflexivity|].
  assert (∃ res d', recordRepoDelivery agent_input coder with_base = Ok res d') as (res & d' & Hr)
    by (eexists _, _; vm_compute; reflexivity).
  exists res, d'. split; [exact Hr|].
  apply (base_commit_written_once agent_input coder with_base res d' "u0" "r1" Hr). reflexivity.
Defined.

Definition retitle : edit_call := EditTicket "1" (mk_EditTicketInput (Some "Fix the login page") None None None).
Definition demo_retitled : db := match run_edit retitle human demo_ready with Ok _ d' => d' | Err _ => demo_ready end.
Lemma edit_keeps_ready_witness :
  title <$> tickets demo_retitled !! "u0" = Some "Fix the login page" ∧ ready_allowed "u0" demo_retitled.
Proof.
  split; [vm_compute; reflexivity|].
  apply (edit_keeps_ready retitle human demo_ready demo_retitled "1" (seen "u0" demo_ready)).
  - exact (reachable_good _ demo_ready_reachable).
  - vm_compute; reflexivity.
  - reflexivity.
  - vm_compute; reflexivity.
  - vm_compute; reflexivity.
Defined.
