(* ===== verification/Outcomes.v ===== *)
(** * What the buttons say

    The outcome a reviewer is promised before pressing a button:
    [src/packages/dispatch/src/services/rejectOutcome.ts],
    [approveOutcome.ts], and the facts they are made from
    ([reviewLifecycleService.ts], [landingFactsService.ts]). *)
From S2P Require Import Prelude Json Types EventChain Store Policy Diff Transition Claims Tickets.
From S2P Require Import Landing Autonomy Verdicts Review Approval Sendback.

(** ** [rejectOutcome.ts] *)

Inductive RejectOutcomeKind := to_refining | to_ready | parked_retry_cap | held_partly_landed.
Inductive FixTo := FixRefining | FixReady.
Record RejectOutcomeFacts := mk_RejectOutcomeFacts {
  rf_ticketNumber : option Z;
  rf_to : FixTo;
  rf_attemptCount : Z;
  rf_maxAttempts : Z;
  rf_landedRepos : list string;
  rf_requirements : Z
}.
Record RejectOutcome := mk_RejectOutcome {
  ro_kind : RejectOutcomeKind;
  ro_label : string;
  ro_sentence : string;
  ro_to_status : TicketStatus;
  ro_attempt : Z;
  ro_max_attempts : Z;
  ro_requirements : Z
}.
Definition rejectOutcome (f : RejectOutcomeFacts) : RejectOutcome :=
  let ref := match rf_ticketNumber f with Some n => "#" +:+ pretty n | None => "This ticket" end in
  let n := rf_requirements f in
  let reqs := pretty n +:+ " numbered requirement" +:+ (if bool_decide (n = 1%Z) then "" else "s") in
  let attempt := (rf_attemptCount f + 1)%Z in
  let reset := "Its acceptance criteria reset to not met." in
  let out k st sentence := mk_RejectOutcome k ("Fix these (" +:+ pretty n +:+ ")") sentence st attempt
                             (rf_maxAttempts f) n in
  let cap := pretty (rf_maxAttempts f) in
  let next := "the next delivery (attempt " +:+ pretty (attempt + 1)%Z +:+ " of " +:+ cap
              +:+ ") gets them in its prompt. " +:+ reset in
  if bool_decide (0 < length (rf_landedRepos f))%nat then
    out held_partly_landed Blocked
      ("Part of this change already landed (" +:+ comma_list (rf_landedRepos f) +:+ "), so " +:+ ref
       +:+ " is held for a person (blocked) with your " +:+ reqs
       +:+ " instead of going back to the queue. " +:+ reset)
  else if bool_decide (rf_maxAttempts f ≤ attempt)%Z then
    out parked_retry_cap Blocked
      ("This was attempt " +:+ pretty attempt +:+ " of " +:+ cap +:+ ", the last the cap allows, so " +:+ ref
       +:+ " is parked for a person (blocked) with your " +:+ reqs
       +:+ " instead of going back to the queue. " +:+ reset)
  else match rf_to f with
  | FixReady => out to_ready Ready (ref +:+ " goes back to Ready with your " +:+ reqs +:+ "; " +:+ next)
  | FixRefining => out to_refining Refining
      (ref +:+ " goes back to Refining with your " +:+ reqs +:+ "; you look at it there, and " +:+ next)
  end.

(** The send-back it is about. *)
Definition reject_to (to : FixTo) : RejectTo := match to with FixRefining => ToRefining | FixReady => ToReady end.

Section rejecting.
Context `{Env} `{ReviewDeps}.
(** The facts [reviewLifecycleService.ts] reads for it. *)
Definition reject_facts (ticket : Ticket) (to : FixTo) (requirements : Z) (d : db) : RejectOutcomeFacts :=
  mk_RejectOutcomeFacts (number ticket) to (attempt_count ticket) maxAttempts
    (recordedLandingRepos (tk_id ticket) d) requirements.
Definition reject_outcome (ref : string) (to : FixTo) (requirements : Z) : Op RejectOutcome :=
  let* ticket := resolveRef ref in
  gets (λ d, rejectOutcome (reject_facts ticket to requirements d)).
End rejecting.

(** ** [approveOutcome.ts] *)

Inductive ApproveOutcomeKind :=
  | held_ci | held_repo_unavailable | held_untested | held_test_modified
  | to_tester | land_now | land_next_tick | waits_for_merge.
#[export] Instance ApproveOutcomeKind_eq_dec : EqDecision ApproveOutcomeKind.
Proof. solve_decision. Defined.
Inductive ReviewMode := ModeHuman | ModeAgent | ModeBoth.
Record UnavailableFact := mk_UnavailableFact { uf_repo : string; uf_why : string; uf_fix : option string }.
Record UntestedFact := mk_UntestedFact {
  un_why : option NotCovered;
  un_tested : option string;
  un_head : option string
}.
Record ApproveOutcomeFacts := mk_ApproveOutcomeFacts {
  af_agent : bool;
  af_testModifiedHolds : list string;
  af_ciHold : option (option string * option string);
  af_unavailableRepos : list UnavailableFact;
  af_toTester : bool;
  af_untested : option UntestedFact;
  af_testedCommit : option string;
  af_acceptance : bool;
  af_autoMerge : bool;
  af_mergeCommand : bool;
  af_mergeLane : bool;
  af_mergeGateEarned : bool;
  af_reviewMode : ReviewMode;
  af_prMode : bool;
  af_prUrl : option string;
  af_prMergeMethod : string;
  af_landsRepo : option string;
  af_baseBranch : option string;
  af_alsoLandsRepos : list string;
  af_noCheckoutRepos : list string;
  af_pause : option (string * PauseKind)
}.
Inductive LandsVia := via_pr | via_local.
Record AgentHold := mk_AgentHold { ah_label : string; ah_sentence : string; ah_holds : list string }.
Record ApproveOutcome := mk_ApproveOutcome {
  ao_kind : ApproveOutcomeKind;
  ao_approvable : bool;
  ao_to_status : option TicketStatus;
  ao_label : string;
  ao_confirm_label : string;
  ao_done_label : string;
  ao_sentence : string;
  ao_via : option LandsVia;
  ao_pr_url : option string;
  ao_lands_repo : option string;
  ao_also_lands_repos : list string;
  ao_not_landed_repos : list string;
  ao_review_mode : ReviewMode;
  ao_agent_hold : option AgentHold
}.

Definition TEST_HOLD_LABEL : string := "Approve held: tests changed, a person must allow it".
Definition andList (xs : list string) : string :=
  match rev xs with
  | x :: (_ :: _) as init => comma_list (rev init) +:+ " and " +:+ x
  | _ => join_with "" xs
  end.

Section words.
Context (f : ApproveOutcomeFacts).

Definition landingClause : string :=
  let onto := match given (af_baseBranch f) with Some b => " onto " +:+ b | None => "" end in
  let repo := match given (af_landsRepo f) with Some r => r +:+ onto | None => "the default branch" end in
  match given (af_prUrl f) with
  | Some _ => "it merges " +:+ repo +:+ " through its pull request (gh pr merge, " +:+ af_prMergeMethod f +:+ ")"
  | None =>
      if af_prMode f
      then "it merges " +:+ repo +:+ " locally (no pull request was recorded for this delivery)"
      else "it merges " +:+ repo +:+ " locally"
  end.
Definition one (l : list string) : bool := bool_decide (length l = 1%nat).
Definition partialClause : string :=
  match given (af_landsRepo f) with
  | None => ""
  | Some _ =>
      (match af_alsoLandsRepos f with
       | [] => ""
       | l => " " +:+ andList l +:+ " " +:+ (if one l then "lands" else "land")
              +:+ " after it the same way, each through the merge gate on its own default branch."
              +:+ " A repo that fails is held with the landed ones recorded (Approved · partly landed), and the next landing merges only the rest."
       end)
      +:+ (match af_noCheckoutRepos f with
           | [] => ""
           | l => " " +:+ andList l +:+ " " +:+ (if one l then "has" else "have")
                  +:+ " no checkout on this machine, so no landing path can merge "
                  +:+ (if one l then "it" else "them") +:+ "."
           end)
  end.
Definition pauseClause : string :=
  match af_pause f with
  | None => ""
  | Some (until, kind) =>
      " The runner is paused for the " +:+ (match kind with rate_limit => "rate limit" | usage_limit => "usage limit" end)
      +:+ " until " +:+ until
      +:+ " and runs no tick before then, so the merge lane lands it on the first tick after."
  end.
Definition bothClause : string :=
  match af_reviewMode f with
  | ModeBoth => " Review mode is both: this click is the human confirmation; the reviewer agent's screen never approves on its own."
  | _ => ""
  end.
Definition testedClause : string :=
  match given (af_testedCommit f) with
  | Some c => " You approve tested commit " +:+ short c +:+ ": the independent tester passed it before your review."
  | None => ""
  end.
Definition lane_will : bool := (af_autoMerge f || af_mergeGateEarned f) && af_mergeLane f.
Definition afterPass : string :=
  if lane_will then "the runner's merge lane lands it" else "it waits for Merge now".
Definition agentHold : option AgentHold :=
  match af_testModifiedHolds f with
  | [] => None
  | hs => Some (mk_AgentHold TEST_HOLD_LABEL
      ("The delivery changed the tests that gate it (" +:+ join_with "; " hs
       +:+ "). An agent's or auto approval is refused until a person approves it or allows test changes on the ticket.")
      hs)
  end.
Definition testChangesClause (hold : option AgentHold) : string :=
  match hold with
  | Some _ => " The tests that gate it changed: your approval is not held by that (only an agent's or auto approval is), and the Flags below the button name what changed."
  | None => ""
  end.

(** An outcome under which no landing follows the click directly. *)
Definition outcome_of (k : ApproveOutcomeKind) (ok : bool) (st : option TicketStatus)
    (label confirm done_ sentence : string) : ApproveOutcome :=
  mk_ApproveOutcome k ok st label confirm done_ sentence None (af_prUrl f) None [] [] (af_reviewMode f)
    (if af_agent f then None else agentHold).
Definition held (k : ApproveOutcomeKind) (label sentence : string) : ApproveOutcome :=
  outcome_of k false None label label "Approve held" sentence.
(** One after which the change lands. *)
Definition landing_outcome (k : ApproveOutcomeKind) (label confirm done_ sentence : string) : ApproveOutcome :=
  mk_ApproveOutcome k true (Some ReadyForMerge) label confirm done_ sentence
    (Some (match given (af_prUrl f) with Some _ => via_pr | None => via_local end)) (af_prUrl f) (af_landsRepo f)
    (match given (af_landsRepo f) with Some _ => af_alsoLandsRepos f | None => [] end) (af_noCheckoutRepos f)
    (af_reviewMode f) (if af_agent f then None else agentHold).

Definition ci_held (state commit : option string) : ApproveOutcome :=
  let at_ := match given commit with Some c => " for " +:+ short c | None => "" end in
  match state with
  | None => held held_ci "Approve held: CI required, not reported"
      ("CI required: not reported" +:+ at_
       +:+ ". The server refuses approval until a passing result is recorded for this commit.")
  | Some s => held held_ci "Approve held: CI not passed"
      ("Required CI has not passed" +:+ at_ +:+ " (" +:+ s
       +:+ "). The server refuses approval until a passing result is recorded for this commit.")
  end.
Definition repos_held (missing : list UnavailableFact) : ApproveOutcome :=
  let names := uf_repo <$> missing in
  held held_repo_unavailable ("Approve held: " +:+ andList names +:+ " unavailable")
    (join_with "; " ((λ m, uf_repo m +:+ ": " +:+ uf_why m) <$> missing)
     +:+ ". An approval covers every repository this ticket writes to "
     +:+ "(one approved commit each, and the ticket is done only when every one has landed), so the server refuses it until "
     +:+ (if one names then "that repository's" else "each repository's") +:+ " delivery head can be read. "
     +:+ (if forallb (λ m, bool_decide (given (uf_fix m) ≠ None)) missing
          then "To approve: " +:+ join_with "; " ((λ m, uf_fix m ?? "") <$> missing) +:+ "; then review again."
          else "Restore the checkout or the delivery branch and review again, or make the repository read-only on the ticket.")).
Definition untested_held (u : UntestedFact) : ApproveOutcome :=
  let head_ := match given (un_head u) with Some h => " " +:+ short h | None => "" end in
  held held_untested "Approve held: not tested on this commit"
    ((match un_why u with
      | Some other_commit => "Not tested on this commit: the independent tester passed "
          +:+ (match given (un_tested u) with Some t => short t | None => "another commit" end)
          +:+ ", and the branch is now at" +:+ head_ +:+ "."
      | Some failed => "Not tested on this commit: the independent tester's latest verdict is a FAIL."
      | Some contract_changed => "Not tested on this contract: the ticket's title, description, criteria or test contract changed after the tester passed it."
      | _ => "Not tested on this commit yet: the independent tester has not passed"
             +:+ (if bool_decide (head_ = "") then " it" else head_) +:+ "."
      end)
     +:+ " The server refuses approval of a commit the tester did not pass; the runner sends it to the tester, and it comes back here after a PASS.").

(** What an approval that is not refused does first. *)
Definition goes_through (tests : string) : ApproveOutcome :=
  if af_toTester f then
    let why := if af_acceptance f then "An epic's acceptance ticket always goes to the independent tester."
               else "The independent tester gates this ticket and has not passed this commit." in
    outcome_of to_tester true (Some InTesting) "Approve and send to tester" "Confirm: send to tester" "Sent to tester"
      ("It moves to In testing, not to merge. " +:+ why +:+ " A PASS takes it to Ready for merge, where "
       +:+ afterPass +:+ "." +:+ bothClause +:+ tests)
  else if af_autoMerge f && af_mergeCommand f then
    landing_outcome land_now "Approve and land now" "Confirm and land now" "Landing now"
      ("Auto-merge on approval is on: the merge runner starts now, runs the landing check and the merge gate, then "
       +:+ landingClause +:+ "." +:+ partialClause +:+ bothClause +:+ tests)
  else if lane_will then
    let why := if af_autoMerge f then "Auto-merge on approval is on but this server has no merge command"
               else "An earned merge grant covers this ticket" in
    landing_outcome land_next_tick "Approve, lands on next tick" "Confirm: lands on next tick" "Waits for the merge lane"
      ("It moves to Ready for merge. " +:+ why
       +:+ ", so the runner's merge lane lands it at the start of its next tick (while the runner is running): "
       +:+ landingClause +:+ "." +:+ pauseClause +:+ partialClause +:+ bothClause +:+ tests)
  else
    let why := if af_autoMerge f
      then "Auto-merge on approval is on, but there is no merge command and the runner's merge lane is off"
      else "Auto-merge on approval is off" in
    outcome_of waits_for_merge true (Some ReadyForMerge) "Approve, merge is a separate click" "Confirm approval"
      "Waits for Merge now"
      ("It waits in Ready for merge: " +:+ why +:+ ", so it lands only when someone presses Merge now."
       +:+ bothClause +:+ tests).

Definition decideApproveOutcome : ApproveOutcome :=
  let tests := if af_agent f then "" else testChangesClause agentHold +:+ testedClause in
  match af_ciHold f, af_unavailableRepos f, af_untested f, agentHold with
  | Some (state, commit), _, _, _ => ci_held state commit
  | None, _ :: _, _, _ => repos_held (af_unavailableRepos f)
  | None, [], u, hold =>
      if af_agent f then
        match hold with
        | Some h => held held_test_modified TEST_HOLD_LABEL (ah_sentence h)
        | None => goes_through tests
        end
      else match u with Some u => untested_held u | None => goes_through tests end
  end.
End words.

(** ** [settleApproveOutcome] *)

Inductive MergeReport := MergeReported (triggered : bool) (skipped : option string).
Definition settle_facts (f : ApproveOutcomeFacts) (toTester autoMerge mergeCommand : bool) : ApproveOutcomeFacts :=
  mk_ApproveOutcomeFacts (af_agent f) (af_testModifiedHolds f) None [] toTester None (af_testedCommit f)
    (af_acceptance f) autoMerge mergeCommand (af_mergeLane f) (af_mergeGateEarned f) (af_reviewMode f)
    (af_prMode f) (af_prUrl f) (af_prMergeMethod f) (af_landsRepo f) (af_baseBranch f) (af_alsoLandsRepos f)
    (af_noCheckoutRepos f) (af_pause f).
Definition with_sentence (s : string) (o : ApproveOutcome) : ApproveOutcome :=
  mk_ApproveOutcome (ao_kind o) (ao_approvable o) (ao_to_status o) (ao_label o) (ao_confirm_label o)
    (ao_done_label o) s (ao_via o) (ao_pr_url o) (ao_lands_repo o) (ao_also_lands_repos o)
    (ao_not_landed_repos o) (ao_review_mode o) (ao_agent_hold o).
Definition settleApproveOutcome (f : ApproveOutcomeFacts) (toStatus : string) (merge : option MergeReport)
    : ApproveOutcome :=
  let free t a c := decideApproveOutcome (settle_facts f t a c) in
  if bool_decide (toStatus = "in_testing") then free true (af_autoMerge f) (af_mergeCommand f)
  else
    let predicted := free false (af_autoMerge f) (af_mergeCommand f) in
    match merge with
    | None => predicted
    | Some (MergeReported true _) => free false true true
    | Some (MergeReported false skipped) =>
        if bool_decide (skipped = Some "auto_merge_off") then free false false (af_mergeCommand f)
        else if bool_decide (skipped = Some "not_configured") then free false (af_autoMerge f) false
        else if bool_decide (skipped = Some "spawn_error") then
          let fallback := free false (af_autoMerge f) false in
          with_sentence ("The merge runner could not start. " +:+ ao_sentence fallback) fallback
        else predicted
    end.

(** ** The facts ([landingFactsService.ts]) *)

Definition repos_ticketRepoPrUrl (ticketId repoId : string) (d : db) : option string :=
  head (filter (λ tr, tr_ticket_id tr = ticketId ∧ tr_repo_id tr = repoId) (ticket_repos d)) ≫= tr_pr_url.
Definition lowered_or (s : option string) (dflt_ : string) (allowed_ : list string) : string :=
  let m := toLowerCase (trim (s ?? "")) in if bool_decide (m ∈ allowed_) then m else dflt_.

Section facts.
Context `{Env} `{ReviewDeps}.

Definition reviewMode : ReviewMode :=
  let m := toLowerCase (trim (process_env "REVIEW_MODE" ?? "human")) in
  if bool_decide (m = "agent") then ModeAgent else if bool_decide (m = "both") then ModeBoth else ModeHuman.
Definition mergeLaneOn : bool :=
  negb (bool_decide (toLowerCase (trim (process_env "GAFFER_MERGE_LANE" ?? "1")) ∈ ["0"; "false"; "no"; "off"])).

(** TESTER FIRST: the route, the hold and the tested commit. *)
Definition testerApproveFacts (ticket : Ticket) (agent read : bool) (d : db)
    : bool * option UntestedFact * option string :=
  if negb read || negb (laneApplies ticket d) then (false, None, None)
  else
    let cov := testerCoverage ticket (resolveReviewedHeads ticket d) d in
    if cov_covered cov then (false, None, cov_tested cov)
    else (true, (if agent then None
                 else Some (mk_UntestedFact (cov_why cov) (cov_tested cov) (cov_head cov))), None).
(** [risk] is what [observedRiskFor] answers, [None] when it throws; [pause]
    what the runner's pause file holds. *)
Definition approveOutcomeFacts (ticket : Ticket) (mergeCommand ci agent : bool) (lookup : PolicyLookup)
    (risk : option ObservedRisk) (pause : option (string * PauseKind)) (d : db) : ApproveOutcomeFacts :=
  let writes := filter (λ l, isActiveTicketRepoRelation (relation l.1) = true ∧ access l.1 = Write)
                  (repos_listForTicket (tk_id ticket) d) in
  let checkedOut (l : TicketRepo * Repository) := bool_decide (given (local_path l.2) ≠ None) in
  let lands := find checkedOut writes in
  let '(toTester, untested, testedCommit) := testerApproveFacts ticket agent ci d in
  mk_ApproveOutcomeFacts agent
    (if ci then match risk with
                | Some r => holds r
                | None => ["the delivery diff could not be read to check its tests"]
                end else [])
    (if ci then approveCiHold ticket d else None)
    (if ci then (λ m, mk_UnavailableFact (u_repo m) (u_why m) (Some (unavailableRepoRemedy m (number ticket))))
                  <$> unavailableWriteRepos ticket d else [])
    toTester untested testedCommit
    (bool_decide (acceptance ticket = 1%Z))
    (envFlagOn (process_env "AUTO_MERGE")) mergeCommand mergeLaneOn
    (isAutonomyAllowed lookup (writeRepoIdsForTicket ticket d) (risk_name (risk_level ticket)) GMerge)
    reviewMode (envFlagOn (process_env "GAFFER_CREATE_PR"))
    (match lands with
     | Some l => first_of [given (repos_ticketRepoPrUrl (tk_id ticket) (rp_id l.2) d); given (pr_url ticket)]
     | None => given (pr_url ticket)
     end)
    (lowered_or (process_env "GAFFER_PR_MERGE_METHOD") "merge" ["merge"; "squash"; "rebase"])
    ((λ l : TicketRepo * Repository, rp_name l.2) <$> lands)
    (lands ≫= λ l : TicketRepo * Repository, given (Some (default_branch l.2)))
    ((λ l : TicketRepo * Repository, rp_name l.2)
       <$> filter (λ l, checkedOut l = true ∧ (rp_id l.2) ≠ ((λ l : TicketRepo * Repository, rp_id l.2) <$> lands) ?? "") writes)
    ((λ l : TicketRepo * Repository, rp_name l.2) <$> filter (λ l, checkedOut l = false) writes)
    pause.
End facts.
