(* ===== verification/Promises.v ===== *)
(** * The buttons tell the truth

    What a reviewer is told before approving or sending back is what the call
    then does. *)
From S2P Require Import Prelude Json Types EventChain Store Policy Diff Transition Claims Tickets.
From S2P Require Import Decisions Pause Lifecycle Landing Autonomy Verdicts Review Approval Landings Replay.
From S2P Require Import Sendback Tester Outcomes Life Refinement Simulation Gate Claiming System Demo GateDemo.
From S2P Require Import Approved SentBack.

Section promises.
Context `{Env} `{ReviewDeps}.

(** A send-back ends where the outcome computed before it says. *)
Lemma rejected_as_promised to reason res t t' d d' n :
  rejected (reject_to to) reason res t t' d d' →
  let o := rejectOutcome (reject_facts t to n d) in
  status t' = ro_to_status o ∧ ro_requirements o = n ∧
  attempt_count t' = (if bool_decide (recordedLandingRepos (tk_id t) d = []) then ro_attempt o
                      else ro_attempt o - 1)%Z.
Proof.
  intros [_ _ _ Hs _ _ _ _]. unfold rejectOutcome, reject_facts. simpl.
  rewrite (bool_decide_false (reject_to to = ToCancelled)) in Hs by (by destruct to).
  destruct (recordedLandingRepos (tk_id t) d) as [|l ls] eqn:El.
  - cbn [rf_landedRepos length]. rewrite bool_decide_true in Hs by done. injection Hs as -> ->. simpl.
    case_bool_decide; simpl; [done|]. by destruct to.
  - cbn [rf_landedRepos length]. rewrite (bool_decide_true (0 < S _)%nat) by lia. injection Hs as -> ->. simpl.
    split; [done|]. split; [done|lia].
Qed.

(** C31: "Fix these" does what its button says.  The outcome shown before a
    send-back names the status the ticket is in after it; and the attempt it
    names is the one counted, except when the ticket is held because a
    repository already landed: then nothing is counted, though the outcome
    says one more. *)
Theorem reject_promise ref to a reason n d res d' o :
  good d → reject_outcome ref to n d = Ok o d → rejectReview ref (reject_to to) a reason d = Ok res d' →
  ∃ t t', resolveRef ref d = Ok t d ∧ tickets d' !! tk_id t = Some t' ∧ status t' = ro_to_status o ∧
    attempt_count t' = (if bool_decide (recordedLandingRepos (tk_id t) d = []) then ro_attempt o
                        else ro_attempt o - 1)%Z.
Proof.
  intros Hg Ho Hr. destruct (rejectReview_ok _ _ _ _ _ _ _ Hg Hr) as (t & t' & Ht & Hj).
  exists t, t'. split; [done|]. split; [apply Hj|].
  unfold reject_outcome in Ho. apply bind_ok in Ho as (t0 & d0 & Ht0 & Ho). rewrite Ht in Ht0.
  injection Ht0 as <- <-. injection Ho as <-.
  by destruct (rejected_as_promised _ _ _ _ _ _ _ n Hj) as (-> & _ & ->).
Qed.

(** What an outcome that is not held says. *)
Lemma goes_through_status f tests :
  ao_approvable (goes_through f tests) = true ∧
  ao_to_status (goes_through f tests) = Some (if af_toTester f then InTesting else ReadyForMerge).
Proof.
  unfold goes_through. destruct (af_toTester f); [done|]. destruct (_ && _); [done|]. by destruct (lane_will f).
Qed.
Lemma decide_free f :
  af_ciHold f = None → af_unavailableRepos f = [] →
  (if af_agent f then af_testModifiedHolds f = [] else af_untested f = None) →
  ∃ tests, decideApproveOutcome f = goes_through f tests.
Proof.
  intros Hc Hu Hh. unfold decideApproveOutcome, agentHold. rewrite Hc, Hu.
  destruct (af_agent f); rewrite Hh; eauto.
Qed.
Lemma facts_fields t mc agent lookup risk pause d :
  let f := approveOutcomeFacts t mc true agent lookup risk pause d in
  af_agent f = agent ∧ af_ciHold f = approveCiHold t d ∧
  (unavailableWriteRepos t d = [] → af_unavailableRepos f = []) ∧
  (∀ r, risk = Some r → af_testModifiedHolds f = holds r) ∧
  af_toTester f = approveRoutesToTesting t d ∧
  (approveRoutesToTesting t d = false → af_untested f = None).
Proof.
  unfold approveOutcomeFacts, testerApproveFacts, approveRoutesToTesting.
  destruct (laneApplies t d), (cov_covered _); simpl; repeat split; try done; try (by intros ->); by intros r ->.
Qed.

(** The outcome an approver is shown. *)
Definition shown_outcome (a : Actor) (t : Ticket) (mergeCommand : bool) (lookup : PolicyLookup)
    (risk : option ObservedRisk) (pause : option (string * PauseKind)) (d : db) : ApproveOutcome :=
  decideApproveOutcome (approveOutcomeFacts t mergeCommand true (negb (human_or_admin a)) lookup risk pause d).
(** The risk read for an agent's outcome is the one its approval is held on. *)
Definition same_risk_read (t : Ticket) (risk : option ObservedRisk) (d : db) : Prop :=
  ∃ f, observedRiskResolver = Some f ∧ f t d = Some risk.

(** C23: the approve button does what it says.  Shown on the database an
    approval then goes through on, the outcome was approvable and named the status
    the ticket goes to, the tester's or merge's; so a button that says
    "held" is one the server refuses. *)
Theorem approve_promise ref a opts d res d' mergeCommand lookup risk pause :
  good d → approveReview ref a opts d = Ok (inr res) d' →
  ∃ t, resolveRef ref d = Ok t d ∧
    (human_or_admin a = true ∨ same_risk_read t risk d →
     let o := shown_outcome a t mergeCommand lookup risk pause d in
     ao_approvable o = true ∧ ao_to_status o = Some (status (result_ticket res))).
Proof.
  intros Hg Hr. destruct (approveReview_ok _ _ _ _ _ _ Hg Hr) as (t & Ht & Hp & Hm & Hs & _).
  exists t. split; [done|]. intros Hrisk. destruct Hp as [_ Hun Hci _ _ Htest _].
  unfold shown_outcome.
  destruct (facts_fields t mergeCommand (negb (human_or_admin a)) lookup risk pause d) as (Ea & Ec & Eu & Er & Et & En).
  set (f := approveOutcomeFacts _ _ _ _ _ _ _ _) in *. simpl. rewrite Hci in Ec. specialize (Eu Hun).
  destruct (decide_free f Ec Eu) as [tests ->].
  - rewrite Ea. destruct (human_or_admin a) eqn:Eh; simpl; [by apply En, Htest|].
    destruct Hrisk as [|(g & Hg1 & Hg2)]; [done|]. destruct Hm as [|(_ & _ & Hm)]; [congruence|].
    destruct (Hm g Hg1) as (o & Ho & Hesc). rewrite Ho in Hg2. injection Hg2 as <-. rewrite (Er o eq_refl).
    unfold shouldEscalate in Hesc. apply orb_false_iff in Hesc as [[[_ Hl]%orb_false_iff _]%orb_false_iff _].
    destruct (holds o); [done|]. by apply bool_decide_eq_false in Hl; simpl in Hl; lia.
  - destruct (goes_through_status f tests) as [-> ->]. by rewrite Et, Hs.
Qed.
End promises.

Lemma reject_promise_witness :
  ∃ t', tickets gate_sent_back !! "u0" = Some t' ∧ status t' = Refining ∧ attempt_count t' = 1%Z.
Proof.
  assert (∃ res d', rejectReview "1" ToRefining human (Some "no tests") gate_review = Ok res d' ∧
            tickets d' = tickets gate_sent_back) as (res & d' & Hr & Ed)
    by (eexists _, _; split; vm_compute; reflexivity).
  assert (∃ o, reject_outcome "1" FixRefining 2 gate_review = Ok o gate_review ∧ ro_to_status o = Refining ∧
            ro_attempt o = 1%Z) as (o & Ho & E1 & E2) by (eexists; split; [|split]; vm_compute; reflexivity).
  destruct (reject_promise "1" FixRefining human (Some "no tests") 2 gate_review res d' o gate_review_good Ho Hr)
    as (t & t' & Ht & Ht' & Hs & Hn).
  assert (t = seen "u0" gate_review) as -> by (vm_compute in Ht; injection Ht as <-; vm_compute; reflexivity).
  exists t'. rewrite Ed in Ht'. split; [exact Ht'|]. rewrite Hs, Hn, E1, E2. split; vm_compute; reflexivity.
Defined.
Lemma approve_promise_witness :
  ∃ t, ao_kind (shown_outcome human t false (λ _ _ _, None) None None gate_review) = waits_for_merge ∧
    ao_to_status (shown_outcome human t false (λ _ _ _, None) None None gate_review) = Some ReadyForMerge.
Proof.
  assert (∃ r, approveReview "1" human shown gate_review = Ok (inr r) gate_approved ∧
            status (result_ticket r) = ReadyForMerge) as (res & Hr & Hs)
    by (eexists; split; vm_compute; reflexivity).
  destruct (approve_promise "1" human shown gate_review res gate_approved false (λ _ _ _, None) None None
              gate_review_good Hr) as (t & Ht & Ho).
  assert (t = seen "u0" gate_review) as -> by (vm_compute in Ht; injection Ht as <-; vm_compute; reflexivity).
  exists (seen "u0" gate_review). split; [vm_compute; reflexivity|].
  rewrite <- Hs. exact (proj2 (Ho (or_introl eq_refl))).
Defined.
