(* ===== verification/Extend.v ===== *)
(** * More tables

    A component whose own tables no other modelled operation touches keeps
    them beside the database: its operations are computations on the pair, and
    the core's operations run on the first half. *)
From S2P Require Import Prelude Json Types EventChain Store.

Record with_tables (T : Type) := mk_with { core : db; tables : T }.
Arguments mk_with {T} core tables.
Arguments core {T} w.
Arguments tables {T} w.
Abbreviation OpX T := (M (with_tables T) error).

Section extend.
Context {T : Type}.

Definition on_core {A} (m : Op A) : OpX T A := λ w,
  match m (core w) with
  | Ok a d => Ok a (mk_with d (tables w))
  | Err e => Err e
  end.
Definition read {A} (f : db → T → A) : OpX T A := gets (λ w, f (core w) (tables w)).
Definition write (f : T → T) : OpX T unit := modify (λ w, mk_with (core w) (f (tables w))).

Lemma on_core_ok {A} (m : Op A) w a w' :
  on_core m w = Ok a w' ↔ m (core w) = Ok a (core w') ∧ tables w' = tables w.
Proof.
  unfold on_core. destruct w as [d t], w' as [d' t']; simpl.
  destruct (m d) as [b d1|e]; naive_solver.
Qed.

(** Preorders on either half. *)
Definition core_rel (R : db → db → Prop) (w w' : with_tables T) : Prop := R (core w) (core w').
Definition tables_rel (R : T → T → Prop) (w w' : with_tables T) : Prop := R (tables w) (tables w').
#[export] Instance core_rel_preorder R `{!PreOrder R} : PreOrder (core_rel R).
Proof. split; [intros w|intros w1 w2 w3]; unfold core_rel; [done|apply transitivity]. Qed.
#[export] Instance tables_rel_preorder R `{!PreOrder R} : PreOrder (tables_rel R).
Proof. split; [intros w|intros w1 w2 w3]; unfold tables_rel; [done|apply transitivity]. Qed.

Lemma on_core_core R {A} (m : Op A) : evolves R m → evolves (core_rel R) (on_core m).
Proof. intros Hm w a w' [H _]%on_core_ok. by eapply Hm. Qed.
Lemma on_core_tables R `{!PreOrder R} {A} (m : Op A) : evolves (tables_rel R) (on_core m).
Proof. intros w a w' [_ E]%on_core_ok. unfold tables_rel. by rewrite E. Qed.
Lemma read_ok {A} (f : db → T → A) w a w' : read f w = Ok a w' ↔ a = f (core w) (tables w) ∧ w' = w.
Proof. unfold read, gets. naive_solver. Qed.
Lemma write_ok (f : T → T) w u w' : write f w = Ok u w' ↔ u = tt ∧ w' = mk_with (core w) (f (tables w)).
Proof. unfold write, modify. destruct u. naive_solver. Qed.
End extend.
