(* ===== verification/Access.v ===== *)
(** * Access scopes ([services/accessScope.ts])

    The one evaluation every scoped credential goes through, and what it
    grants. *)
From S2P Require Import Prelude Json Types EventChain Store Landing.

Record AccessScope := mk_AccessScope {
  sc_repos : option (list string);
  sc_tickets : option (list string)
}.
Record ScopeTicket := mk_ScopeTicket {
  st_id : string;
  st_number : option Z;
  st_repos : list string
}.
Definition isScoped (scope : option AccessScope) : bool :=
  match scope with
  | Some s => bool_decide (sc_repos s ≠ None) || bool_decide (sc_tickets s ≠ None)
  | None => false
  end.

(** [ScopeDenialReason], with the one reason that is not about the scope. *)
Inductive DenialReason :=
  | outside_ticket_scope | outside_repo_scope | no_repos | factory_wide | admin_required
  | read_only.
#[export] Instance DenialReason_eq_dec : EqDecision DenialReason.
Proof. solve_decision. Defined.
Inductive Via := unscoped | via_ticket | via_repo.
Inductive ScopeDecision :=
  | scope_allowed (via : Via)
  | scope_denied (reason : DenialReason) (outsideRepos : list string).

Definition evaluateRepoScope (scope : option AccessScope) (repoIds : list string) : ScopeDecision :=
  if negb (isScoped scope) then scope_allowed unscoped
  else
    let granted := (scope ≫= sc_repos) ?? [] in
    match repoIds with
    | [] => scope_denied no_repos []
    | _ =>
        match distinct (filter (λ r, r ∉ granted) repoIds) with
        | [] => scope_allowed via_repo
        | outside => scope_denied outside_repo_scope outside
        end
    end.
Definition evaluateTicketScope (scope : option AccessScope) (ticket : ScopeTicket) : ScopeDecision :=
  if negb (isScoped scope) then scope_allowed unscoped
  else if bool_decide (st_id ticket ∈ (scope ≫= sc_tickets) ?? []) then scope_allowed via_ticket
  else match scope ≫= sc_repos with
  | None => scope_denied outside_ticket_scope []
  | Some _ =>
      match evaluateRepoScope scope (st_repos ticket) with
      | scope_allowed _ => scope_allowed via_repo
      | d => d
      end
  end.

Record Access := mk_Access {
  ax_readOnly : bool;
  ax_admin : bool;
  ax_scope : option AccessScope
}.
Definition OPERATOR_ACCESS : Access := mk_Access false true None.

Inductive AccessAction :=
  | read_ticket (ticket : ScopeTicket)
  | write_ticket (ticket : ScopeTicket)
  | create_ticket (repos : list string)
  | write_repo (repos : option (list string))
  | write_factory
  | read_factory.
Inductive AccessDecision :=
  | access_allowed
  | access_denied (code : DispatchErrorCode) (reason : DenialReason) (outsideRepos : list string).

Definition isWriteAction (action : AccessAction) : bool :=
  match action with
  | write_ticket _ | create_ticket _ | write_repo _ | write_factory => true
  | read_ticket _ | read_factory => false
  end.
Definition deny (reason : DenialReason) (outsideRepos : list string) : AccessDecision :=
  access_denied SCOPE_DENIED reason outsideRepos.
(** [d.allowed ? { allowed: true } : deny(d.reason, d.outsideRepos)] *)
Definition decided (d : ScopeDecision) : AccessDecision :=
  match d with
  | scope_allowed _ => access_allowed
  | scope_denied reason outsideRepos => deny reason outsideRepos
  end.
Definition authorizeAccess (access : Access) (action : AccessAction) : AccessDecision :=
  if ax_readOnly access && isWriteAction action then access_denied READ_ONLY_TOKEN read_only []
  else
    let scoped := isScoped (ax_scope access) in
    match action with
    | read_ticket t | write_ticket t => decided (evaluateTicketScope (ax_scope access) t)
    | create_ticket repos => decided (evaluateRepoScope (ax_scope access) repos)
    | write_repo repos =>
        if negb (ax_admin access) then deny admin_required []
        else if negb scoped then access_allowed
        else match repos with
        | None => deny factory_wide []
        | Some rs => decided (evaluateRepoScope (ax_scope access) rs)
        end
    | write_factory | read_factory => if scoped then deny factory_wide [] else access_allowed
    end.

Record DenialLabels := mk_DenialLabels {
  dl_scope : string;
  dl_ticket : option string;
  dl_outsideRepos : list string
}.
Definition describeDenial (reason : DenialReason) (labels : DenialLabels) : string :=
  let t := dl_ticket labels ?? "this request" in
  let scoped := "This credential is scoped to " +:+ dl_scope labels +:+ "; " in
  match reason with
  | read_only => "This token is read-scoped; mutating routes are not permitted."
  | admin_required =>
      "Repository-level changes (registering, linking or hiding a repo, its branch or commands, onboarding, a ticket's repo access, settings) need an admin principal."
  | factory_wide => scoped +:+ "factory-wide reads and changes are outside it."
  | no_repos => scoped +:+ t +:+ " names no repository, so its repo scope cannot cover it."
  | outside_repo_scope =>
      let names := comma_list (dl_outsideRepos labels) in
      scoped +:+ t +:+ " also touches " +:+ (if bool_decide (names = "") then "another repository" else names) +:+ "."
  | outside_ticket_scope => scoped +:+ t +:+ " is not one of them."
  end.

(** A dependency as the scoped reader's list carries it; [dep_rest] stands for
    the fields nothing here reads. *)
Record Dep (A : Type) := mk_Dep {
  depends_on_ticket_id : string;
  dep_title : option string;
  outside_scope : bool;
  dep_rest : A
}.
Arguments mk_Dep {A}.
Arguments depends_on_ticket_id {A} _.
Arguments dep_title {A} _.
Arguments outside_scope {A} _.
Arguments dep_rest {A} _.
Definition hideOutOfScopeDependencies {A} (deps : list (Dep A)) (visible : option (string → bool))
    : list (Dep A) :=
  match visible with
  | None => deps
  | Some v => (λ d, if v (depends_on_ticket_id d) then d
                    else mk_Dep (depends_on_ticket_id d) None true (dep_rest d)) <$> deps
  end.

(** ** What a credential grants *)

(** The repository axis covers a nonempty list of granted repositories. *)
Definition repos_cover (s : AccessScope) (rs : list string) : Prop :=
  rs ≠ [] ∧ ∃ granted, sc_repos s = Some granted ∧ ∀ r, r ∈ rs → r ∈ granted.
Definition ticket_cover (s : AccessScope) (t : ScopeTicket) : Prop :=
  (∃ ids, sc_tickets s = Some ids ∧ st_id t ∈ ids) ∨ repos_cover s (st_repos t).
Definition scope_covers (s : AccessScope) (action : AccessAction) : Prop :=
  match action with
  | read_ticket t | write_ticket t => ticket_cover s t
  | create_ticket rs => repos_cover s rs
  | write_repo (Some rs) => repos_cover s rs
  | write_repo None | write_factory | read_factory => False
  end.
(** A scope is set when one of its axes is. *)
Definition narrows (acc : Access) : option AccessScope :=
  match ax_scope acc with
  | Some s => if bool_decide (sc_repos s = None ∧ sc_tickets s = None) then None else Some s
  | None => None
  end.
Record grants (acc : Access) (action : AccessAction) : Prop := {
  grants_writes : isWriteAction action = true → ax_readOnly acc = false;
  grants_admin : (∃ rs, action = write_repo rs) → ax_admin acc = true;
  grants_scope s : narrows acc = Some s → scope_covers s action
}.

Lemma isScoped_narrows acc : isScoped (ax_scope acc) = bool_decide (narrows acc ≠ None).
Proof.
  unfold narrows, isScoped. destruct (ax_scope acc) as [[[r|] [t|]]|]; simpl; done.
Qed.
Lemma narrows_scope acc s : narrows acc = Some s → ax_scope acc = Some s ∧ isScoped (ax_scope acc) = true.
Proof.
  intros E. rewrite isScoped_narrows, E. split; [|by apply bool_decide_eq_true].
  unfold narrows in E. destruct (ax_scope acc); [|done]. case_bool_decide; naive_solver.
Qed.
Lemma outside_nil (granted rs : list string) :
  distinct (filter (λ r, r ∉ granted) rs) = [] ↔ ∀ r, r ∈ rs → r ∈ granted.
Proof.
  split.
  - intros E r Hr. destruct (decide (r ∈ granted)) as [|Hn]; [done|]. exfalso.
    assert (Hin : r ∈ distinct (filter (λ r, r ∉ granted) rs))
      by (apply distinct_spec, list_elem_of_filter; done).
    rewrite E in Hin. by apply not_elem_of_nil in Hin.
  - intros Hall. destruct (distinct _) as [|r l] eqn:E; [done|]. exfalso.
    assert (Hin : r ∈ distinct (filter (λ r, r ∉ granted) rs)) by (rewrite E; left).
    apply distinct_spec, list_elem_of_filter in Hin as [Hn Hr]. by apply Hn, Hall.
Qed.
Lemma repo_scope_allowed s rs via :
  isScoped (Some s) = true → evaluateRepoScope (Some s) rs = scope_allowed via → repos_cover s rs.
Proof.
  intros Hs. unfold evaluateRepoScope. rewrite Hs. simpl. destruct rs as [|r0 rs]; [done|].
  destruct (distinct _) eqn:E; [|done]. intros _. rewrite outside_nil in E. split; [done|].
  destruct (sc_repos s) as [g|]; simpl in E; [by exists g|]. exfalso.
  by apply (not_elem_of_nil r0), E; left.
Qed.
Lemma repo_scope_covers s rs :
  repos_cover s rs → evaluateRepoScope (Some s) rs = scope_allowed via_repo.
Proof.
  intros [Hne (g & Eg & Hg)]. unfold evaluateRepoScope. simpl. rewrite Eg. simpl.
  destruct rs; [done|]. by rewrite (proj2 (outside_nil g _)) by done.
Qed.
Lemma decided_allowed d : decided d = access_allowed ↔ ∃ via, d = scope_allowed via.
Proof. destruct d; simpl; naive_solver. Qed.
Lemma repo_scope_iff s rs :
  isScoped (Some s) = true → decided (evaluateRepoScope (Some s) rs) = access_allowed ↔ repos_cover s rs.
Proof.
  intros Hs. rewrite decided_allowed. split.
  - intros [via Hv]. by eapply repo_scope_allowed.
  - intros Hc. rewrite repo_scope_covers by done. eauto.
Qed.
Lemma ticket_scope_iff s t :
  isScoped (Some s) = true →
  decided (evaluateTicketScope (Some s) t) = access_allowed ↔ ticket_cover s t.
Proof.
  intros Hs. unfold evaluateTicketScope, ticket_cover. rewrite Hs. simpl.
  case_bool_decide as Hin.
  - split; [|done]. intros _. left. destruct (sc_tickets s); simpl in Hin; [by eexists|].
    by apply not_elem_of_nil in Hin.
  - assert (¬ ∃ ids, sc_tickets s = Some ids ∧ st_id t ∈ ids) as Hno.
    { intros (ids & E & Hi). apply Hin. by rewrite E. }
    destruct (sc_repos s) as [g|] eqn:Eg.
    + rewrite <- (repo_scope_iff s (st_repos t)) by done.
      destruct (evaluateRepoScope _ _); simpl; naive_solver.
    + split; [done|]. intros [|[_ (g & E & _)]]; [done|congruence].
Qed.

(** C8: every scoped credential is confined to what it grants.  An action is
    authorised exactly when it is not a write of a read-only credential, not a
    repository-level write of one that is no admin, and, if a scope is set,
    inside the scope: a ticket it names or whose repositories are all granted,
    a new ticket or repository change on granted repositories only, and
    nothing factory-wide.  Admin does not widen a scope, an axis left out and
    an empty list grant nothing. *)
Theorem authorizeAccess_confined acc action :
  authorizeAccess acc action = access_allowed ↔ grants acc action.
Proof.
  unfold authorizeAccess. destruct (ax_readOnly acc && isWriteAction action) eqn:Er.
  { split; [done|]. intros [Hw _ _]. apply andb_true_iff in Er as [Er Ew].
    specialize (Hw Ew). congruence. }
  assert (Hw : isWriteAction action = true → ax_readOnly acc = false)
    by (intros Ew; rewrite Ew, andb_true_r in Er; done).
  destruct (narrows acc) as [s|] eqn:En.
  - destruct (narrows_scope _ _ En) as [Es Hs]. rewrite Es in *. rewrite Hs. simpl.
    assert (∀ P, (P ↔ scope_covers s action) → (∀ rs, action ≠ write_repo rs) → P ↔ grants acc action) as Hgo.
    { intros P HP Hno. rewrite HP. split; [|intros [_ _ Hg]; by apply Hg].
      intros Hc. split; [done|naive_solver|]. intros s' Es'. rewrite En in Es'. by injection Es' as <-. }
    destruct action as [t|t|rs|rs| |].
    + apply Hgo; [|done]. by apply ticket_scope_iff.
    + apply Hgo; [|done]. by apply ticket_scope_iff.
    + apply Hgo; [|done]. by apply repo_scope_iff.
    + destruct (ax_admin acc) eqn:Ea; simpl.
      * assert (grants acc (write_repo rs) ↔ scope_covers s (write_repo rs)) as ->.
        { split; [intros [_ _ Hg]; by apply Hg|]. intros Hc. split; [done..|]. intros s' Es'.
          rewrite En in Es'. by injection Es' as <-. }
        destruct rs as [rs|]; simpl; [by apply repo_scope_iff|done].
      * split; [done|]. intros [_ Ha _]. rewrite Ha in Ea by eauto. done.
    + by apply Hgo.
    + by apply Hgo.
  - assert (isScoped (ax_scope acc) = false) as Hs by (rewrite isScoped_narrows, En; done).
    assert (∀ P : Prop, (P ↔ ((∃ rs, action = write_repo rs) → ax_admin acc = true)) → P ↔ grants acc action) as Hgo.
    { intros P ->. split; [intros Ha; split; [done|done|congruence]|by intros [_ Ha _]]. }
    apply Hgo. unfold evaluateTicketScope, evaluateRepoScope. rewrite Hs.
    destruct action as [t|t|rs|rs| |]; simpl; try (split; [by intros _ (? & [=])|done]).
    destruct (ax_admin acc); simpl; split; try done. intros Ha. discriminate Ha. eauto.
Qed.
