(* ===== verification/Principals.v ===== *)
(** * Principals ([principalRepository.ts], [principalService.ts], [principalAdminService.ts])

    Named bearer credentials: the table [api_principals], minting and revoking
    a token, resolving one, and the check REST and the command line share. *)
From Stdlib Require Import Ascii.
From S2P Require Import Prelude Json JsonParse Types EventChain Store Decisions Landing Verdicts Outcomes.
From S2P Require Import Extend Access.

(** ** The table *)

Inductive PrincipalCapability := CapFull | CapRead.
#[export] Instance PrincipalCapability_eq_dec : EqDecision PrincipalCapability.
Proof. solve_decision. Defined.
Definition capability_name (c : PrincipalCapability) : string :=
  match c with CapFull => "full" | CapRead => "read" end.
Inductive PrincipalActorType := PHuman | PAdmin.
#[export] Instance PrincipalActorType_eq_dec : EqDecision PrincipalActorType.
Proof. solve_decision. Defined.
Definition principal_actor_type (t : PrincipalActorType) : ActorType :=
  match t with PHuman => Human | PAdmin => Admin end.

(** The columns a row and its view share. *)
Record PrincipalPublic := mk_PrincipalPublic {
  pr_id : string;
  pr_name : string;
  pr_capability : PrincipalCapability;
  pr_actor_type : PrincipalActorType;
  pr_actor_id : string;
  pr_created_by : option string;
  pr_created_at : instant;
  pr_last_used_at : option instant;
  pr_revoked_at : option instant
}.
Record PrincipalRow := mk_PrincipalRow {
  pr_public : PrincipalPublic;
  pr_token_hash : string;
  pr_scope_repos : option string;
  pr_scope_tickets : option string
}.
Record PrincipalScopeView := mk_PrincipalScopeView {
  psv_repos : option (list (string * option string));
  psv_tickets : option (list (string * option Z))
}.
Record PrincipalView := mk_PrincipalView {
  pv_public : PrincipalPublic;
  pv_scope : option PrincipalScopeView
}.
Abbreviation principals := (gmap string PrincipalRow).
Abbreviation OpP := (OpX principals).

Definition set_last_used (now : instant) (r : PrincipalRow) : PrincipalRow :=
  let p := pr_public r in
  mk_PrincipalRow (mk_PrincipalPublic (pr_id p) (pr_name p) (pr_capability p) (pr_actor_type p) (pr_actor_id p)
    (pr_created_by p) (pr_created_at p) (Some now) (pr_revoked_at p))
    (pr_token_hash r) (pr_scope_repos r) (pr_scope_tickets r).
Definition set_revoked (now : instant) (r : PrincipalRow) : PrincipalRow :=
  let p := pr_public r in
  if bool_decide (pr_revoked_at p = None) then
    mk_PrincipalRow (mk_PrincipalPublic (pr_id p) (pr_name p) (pr_capability p) (pr_actor_type p) (pr_actor_id p)
      (pr_created_by p) (pr_created_at p) (pr_last_used_at p) (Some now))
      (pr_token_hash r) (pr_scope_repos r) (pr_scope_tickets r)
  else r.

(** The ids a scope column holds; one that does not parse grants nothing. *)
Definition idList (json : option string) : option (list string) :=
  match json with
  | None => None
  | Some s =>
      Some match JSON_parse s with
           | Some (JSArr l) => omap (λ v, match v with JSStr x => Some x | _ => None end) l
           | _ => []
           end
  end.
Definition scope_column (ids : option (list string)) : option string :=
  ids ≫= λ l, JSON_stringify (JSArr (JSStr <$> l)).

Definition view (row : PrincipalRow) (d : db) : PrincipalView :=
  let repos := idList (pr_scope_repos row) in
  let tks := idList (pr_scope_tickets row) in
  mk_PrincipalView (pr_public row)
    match repos, tks with
    | None, None => None
    | _, _ => Some (mk_PrincipalScopeView
        (map (λ id, (id, rp_name <$> repositories d !! id)) <$> repos)
        (map (λ id, (id, Store.tickets d !! id ≫= number)) <$> tks))
    end.

Definition principals_get (id : string) (d : db) (t : principals) : option PrincipalView :=
  (λ r, view r d) <$> t !! id.
Definition principals_getByName (name : string) (d : db) (t : principals) : option PrincipalView :=
  (λ r, view r d) <$> head (filter (λ r, pr_name (pr_public r) = name) (rows t)).
(** [ORDER BY created_at DESC, name ASC] *)
Definition principal_le (a b : PrincipalRow) : Prop :=
  (pr_created_at (pr_public b) ≤ pr_created_at (pr_public a))%Z ∧
  (pr_created_at (pr_public a) = pr_created_at (pr_public b) →
   str_le (pr_name (pr_public a)) (pr_name (pr_public b))).
#[export] Instance principal_le_dec : RelDecision principal_le.
Proof. intros a b. unfold principal_le. apply _. Defined.
Definition principals_list (d : db) (t : principals) : list PrincipalView :=
  (λ r, view r d) <$> merge_sort principal_le (rows t).
Definition active_with_hash (tokenHash : string) (t : principals) : option PrincipalRow :=
  head (filter (λ r, pr_token_hash r = tokenHash ∧ pr_revoked_at (pr_public r) = None) (rows t)).
Definition principals_findActiveByHash (tokenHash : string) (d : db) (t : principals) : option PrincipalView :=
  (λ r, view r d) <$> active_with_hash tokenHash t.
Definition principals_revoke (id : string) (now : instant) (t : principals) : principals :=
  update_row id (set_revoked now) t.
Definition principals_touch (id : string) (now : instant) (t : principals) : principals :=
  update_row id (set_last_used now) t.
(** [INSERT]: the primary key and the two unique columns. *)
Definition principals_insert_row (row : PrincipalRow) : OpP unit := λ w,
  let t := tables w in
  match t !! pr_id (pr_public row) with
  | Some _ => Err SqliteConstraintPrimaryKey
  | None =>
      if existsb (λ r, bool_decide (pr_name (pr_public r) = pr_name (pr_public row))
                       || bool_decide (pr_token_hash r = pr_token_hash row)) (rows t)
      then Err SqliteConstraintUnique
      else Ok tt (mk_with (core w) (<[pr_id (pr_public row) := row]> t))
  end.
Record PrincipalInsert := mk_PrincipalInsert {
  pi_id : string;
  pi_name : string;
  pi_tokenHash : string;
  pi_capability : PrincipalCapability;
  pi_actorType : PrincipalActorType;
  pi_actorId : string;
  pi_createdBy : option string;
  pi_now : instant;
  pi_scopeRepos : option (list string);
  pi_scopeTickets : option (list string)
}.
Definition inserted_row (i : PrincipalInsert) : PrincipalRow :=
  mk_PrincipalRow
    (mk_PrincipalPublic (pi_id i) (pi_name i) (pi_capability i) (pi_actorType i) (pi_actorId i)
       (pi_createdBy i) (pi_now i) None None)
    (pi_tokenHash i) (scope_column (pi_scopeRepos i)) (scope_column (pi_scopeTickets i)).
Definition principals_insert (i : PrincipalInsert) : OpP PrincipalView :=
  principals_insert_row (inserted_row i);;;
  let* o := read (principals_get (pi_id i)) in
  require o (DispatchError VALIDATION_ERROR "api_principals insert did not persist").

(** ** The token *)

Section principals.
Context `{Env}.

Definition PRINCIPAL_TOKEN_PREFIX : string := "gfp_".
Definition mintPrincipalToken : Op string :=
  let* n := draw in mret (PRINCIPAL_TOKEN_PREFIX +:+ random_base64url n).
Definition hashPrincipalToken (token : string) : string := sha256_hex token.
Definition looksLikePrincipalToken (credential : string) : bool :=
  String.prefix PRINCIPAL_TOKEN_PREFIX credential && bool_decide (20 ≤ String.length credential)%nat.
Definition principalActor (p : PrincipalView) : Actor :=
  mk_Actor (principal_actor_type (pr_actor_type (pv_public p))) (Some (pr_actor_id (pv_public p))).
Definition principalScope (p : PrincipalView) : option AccessScope :=
  (λ s, mk_AccessScope (map fst <$> psv_repos s) (map fst <$> psv_tickets s)) <$> pv_scope p.
Definition principalAccess (p : PrincipalView) : Access :=
  mk_Access (bool_decide (pr_capability (pv_public p) = CapRead))
    (bool_decide (pr_actor_type (pv_public p) = PAdmin)) (principalScope p).
(** [/^[A-Za-z0-9][A-Za-z0-9._@-]{0,63}$/] *)
Definition PRINCIPAL_NAME_RE (name : string) : bool :=
  match String.list_ascii_of_string name with
  | c :: r => is_alnum c && bool_decide (length r ≤ 63)%nat
              && forallb (λ x, is_alnum x || bool_decide (x ∈ ["."; "_"; "@"; "-"]%char)) r
  | [] => false
  end.

(** ** Administration *)

(** [[...new Map(xs.map(x => [key(x), x])).values()]] *)
Fixpoint map_set {A} (key : A → string) (x : A) (l : list A) : list A :=
  match l with
  | [] => [x]
  | y :: r => if bool_decide (key y = key x) then x :: r else y :: map_set key x r
  end.
Definition map_values {A} (key : A → string) (xs : list A) : list A :=
  foldl (λ m x, map_set key x m) [] xs.

Definition repos_findByName (name : string) (d : db) : option Repository :=
  head (filter (λ r, rp_name r = name) (rows (repositories d))).
Definition scope_repo (ref : string) : Op Repository :=
  let* o := gets (λ d, coalesce (repos_findByName ref d) (repositories d !! ref)) in
  require o (notFound "repository" ref).
Definition given_list {A} (l : option (list A)) : option (list A) :=
  match l with Some [] => None | _ => l end.
Definition resolve_all {A} (key : A → string) (f : string → Op A) (refs : option (list string))
    : Op (option (list A)) :=
  match given_list refs with
  | Some refs => let* xs := mapM f refs in mret (Some (map_values key xs))
  | None => mret None
  end.
Definition agent_named (actorId : string) (d : db) : bool :=
  existsb (λ a, bool_decide (toLowerCase (ag_id a) = toLowerCase actorId)) (rows (agents d)).

Record CreatePrincipalInput := mk_CreatePrincipalInput {
  cp_name : string;
  cp_capability : option PrincipalCapability;
  cp_actorType : option PrincipalActorType;
  cp_actorId : option string;
  cp_repos : option (list string);
  cp_tickets : option (list string)
}.
Definition opt_member {A} (k : string) (f : A → js) (o : option A) : list (string * js) :=
  match o with Some x => [(k, f x)] | None => [] end.
Definition created_payload (name : string) (c : PrincipalCapability) (t : PrincipalActorType) (actorId : string)
    (repos : option (list Repository)) (tks : option (list Ticket)) : js :=
  JSObj ([("name", JSStr name); ("capability", JSStr (capability_name c));
          ("actor_type", JSStr (actor_type_name (principal_actor_type t))); ("actor_id", JSStr actorId)]
    ++ opt_member "scope_repos" (λ l, JSArr ((λ r, JSStr (rp_name r)) <$> l)) repos
    ++ opt_member "scope_tickets"
         (λ l, JSArr ((λ t, match number t with Some n => JSNum n | None => JSNull end) <$> l)) tks).
Definition createPrincipal (input : CreatePrincipalInput) (actor : Actor) : OpP (PrincipalView * string) :=
  let name := trim (cp_name input) in
  guard_ (PRINCIPAL_NAME_RE name) (DispatchError VALIDATION_ERROR
    "Principal name must be 1–64 characters: letters, digits, '.', '_', '@' or '-', starting with a letter or digit.");;;
  let* same := read (principals_getByName name) in
  guard_ (bool_decide (same = None))
    (DispatchError DUPLICATE ("A principal named '" +:+ name +:+ "' already exists."));;;
  let capability := cp_capability input ?? CapFull in
  let actorType := cp_actorType input ?? PHuman in
  let actorId := given (Some (trim (cp_actorId input ?? name))) ?? name in
  let* taken := read (λ d _, agent_named actorId d) in
  guard_ (negb taken) (DispatchError DUPLICATE ("actor_id '" +:+ actorId
    +:+ "' is a registered agent's id; a " +:+ actor_type_name (principal_actor_type actorType)
    +:+ " principal needs its own identity (pick another actor_id). Nothing was created."));;;
  let* scopeRepos := on_core (resolve_all rp_id scope_repo (cp_repos input)) in
  let* scopeTickets := on_core (resolve_all tk_id resolveRef (cp_tickets input)) in
  let* token := on_core mintPrincipalToken in
  let* now := on_core now in
  let* principal := inTransaction (
    let* id := on_core newId in
    let* row := principals_insert (mk_PrincipalInsert id name (hashPrincipalToken token) capability actorType
      actorId (Some (actor_id actor ?? actor_type_name (actor_type actor))) now
      (map rp_id <$> scopeRepos) (map tk_id <$> scopeTickets)) in
    on_core (writeEvent "principal" (pr_id (pv_public row)) actor "principal.created"
      (Some (created_payload name capability actorType actorId scopeRepos scopeTickets)) None);;;
    mret row) in
  mret (principal, token).

Definition principal_by_ref (ref : string) (d : db) (t : principals) : option PrincipalView :=
  coalesce (principals_get ref d t) (principals_getByName ref d t).
Definition getPrincipal (ref : string) : OpP PrincipalView :=
  let* o := read (principal_by_ref ref) in require o (notFound "principal" ref).
Definition revokePrincipal (ref : string) (actor : Actor) : OpP PrincipalView :=
  let* o := read (principal_by_ref ref) in
  let* row := require o (notFound "principal" ref) in
  let p := pv_public row in
  guard_ (bool_decide (pr_revoked_at p = None))
    (DispatchError NO_OP ("Principal '" +:+ pr_name p +:+ "' is already revoked."));;;
  let* now := on_core now in
  inTransaction (
    write (principals_revoke (pr_id p) now);;;
    on_core (writeEvent "principal" (pr_id p) actor "principal.revoked"
      (Some (JSObj [("name", JSStr (pr_name p))])) None);;;
    let* after := read (principals_get (pr_id p)) in
    require after (notFound "principal" ref)).

(** ** Enforcement *)

Definition scopeTicketFor (id : string) (number : option Z) (d : db) : ScopeTicket :=
  let links := repos_listForTicket id d in
  let writes := filter (λ l, access l.1 = Write ∧ relation l.1 ∈ [Confirmed; ImplicitSingleRepo]) links in
  let linked := filter (λ l, relation l.1 ≠ RelRejected) links in
  mk_ScopeTicket id number
    ((λ l : TicketRepo * Repository, rp_id l.2) <$> (if bool_decide (0 < length writes)%nat then writes else linked)).
Definition scopeTicket (ref : string) : Op ScopeTicket :=
  let* ticket := resolveRef ref in gets (scopeTicketFor (tk_id ticket) (number ticket)).
(** Built once per request: the memo answers what the database says. *)
Definition ticketVisibility (principal : PrincipalView) (d : db) : option (string → bool) :=
  let access := principalAccess principal in
  if negb (isScoped (ax_scope access)) then None
  else Some (λ ticketId,
    match Store.tickets d !! ticketId with
    | Some t => match evaluateTicketScope (ax_scope access) (scopeTicketFor (tk_id t) (number t) d) with
                | scope_allowed _ => true
                | scope_denied _ _ => false
                end
    | None => false
    end).
Definition decisionTicketIds (decisionId : string) : Op (list string) :=
  getDecision decisionId;;;
  gets (λ d, distinct (td_ticket_id <$> filter (λ r, td_decision_id r = decisionId) (ticket_decisions d))).

Definition scope_label (scope : option PrincipalScopeView) : string :=
  let axis {A} (word : string) (show : string * option A → string) (o : option (list (string * option A))) :=
    match o with Some l => word +:+ comma_list (show <$> l) | None => "" end in
  let label := join_with " and " (filter (λ x, x ≠ "")
    [axis "repos " (λ r, r.2 ?? r.1) (scope ≫= psv_repos);
     axis "tickets " (λ t, "#" +:+ match t.2 with Some n => pretty n | None => t.1 end) (scope ≫= psv_tickets)]) in
  if bool_decide (label = "") then "no scope" else label.
Definition assertPrincipalAccess (principal : PrincipalView) (action : AccessAction) (access : Access)
    : OpP unit :=
  match authorizeAccess access action with
  | access_allowed => mret tt
  | access_denied READ_ONLY_TOKEN _ _ =>
      throw (DispatchError READ_ONLY_TOKEN (describeDenial read_only (mk_DenialLabels "" None [])))
  | access_denied _ reason outsideRepos =>
      let* outside := read (λ d _, (λ id, (rp_name <$> repositories d !! id) ?? id) <$> outsideRepos) in
      let ticket := match action with
        | read_ticket t | write_ticket t =>
            Some ("ticket #" +:+ match st_number t with Some n => pretty n | None => st_id t end)
        | create_ticket _ => Some "the new ticket"
        | _ => None
        end in
      throw (DispatchError SCOPE_DENIED
        (describeDenial reason (mk_DenialLabels (scope_label (pv_scope principal)) ticket outside)))
  end.
Definition resolvePrincipalToken (token : string) : OpP (option (PrincipalView * Actor)) :=
  let* o := read (principals_findActiveByHash (hashPrincipalToken token)) in
  match o with
  | None => mret None
  | Some row =>
      let p := pv_public row in
      let* now := on_core now in
      when (match pr_last_used_at p with
            | None => true
            | Some used => bool_decide (60000 < now - used)%Z
            end) (write (principals_touch (pr_id p) now));;;
      mret (Some (row, principalActor row))
  end.
End principals.
