(* ===== verification/Credentials.v ===== *)
(** * What a credential is worth

    A token speaks for the identity it was minted for, with the access it was
    minted with, until it is revoked and never after; a scoped principal sees
    the tickets it may change. *)
From S2P Require Import Prelude Json JsonParse Types EventChain Store Decisions Landing Verdicts Outcomes.
From S2P Require Import Life Refinement Extend Access Principals System Demo.

(** ** Scope columns *)

Lemma idList_column ids : idList (scope_column ids) = ids.
Proof.
  destruct ids as [l|]; [|done].
  destruct (JSON_roundtrip (JSArr (JSStr <$> l))) as (s & Es & Hs); [by apply plain_arr, Forall_fmap, Forall_true|].
  transitivity (idList (Some s)); [f_equal; exact Es|]. simpl. rewrite Hs. f_equal.
  clear Es Hs. induction l as [|x l IH]; [done|]. simpl. by f_equal.
Qed.

(** The access of a row: only its own columns decide it. *)
Definition row_scope (r : PrincipalRow) : option AccessScope :=
  match idList (pr_scope_repos r), idList (pr_scope_tickets r) with
  | None, None => None
  | repos, tks => Some (mk_AccessScope repos tks)
  end.
Definition row_access (r : PrincipalRow) : Access :=
  mk_Access (bool_decide (pr_capability (pr_public r) = CapRead))
    (bool_decide (pr_actor_type (pr_public r) = PAdmin)) (row_scope r).
Lemma map_fst_pair {A B} (f : A → B) l : map fst (map (λ x, (x, f x)) l) = l.
Proof. induction l as [|x l IH]; [done|]. simpl. by rewrite IH. Qed.
Lemma view_access r d : principalAccess (view r d) = row_access r.
Proof.
  unfold principalAccess, row_access, principalScope, row_scope, view.
  destruct (idList (pr_scope_repos r)), (idList (pr_scope_tickets r)); simpl; by rewrite ?map_fst_pair.
Qed.

(** ** The table *)

(** Rows sit under their id and no two share a token. *)
Definition sound (t : principals) : Prop :=
  (∀ id r, t !! id = Some r → pr_id (pr_public r) = id) ∧
  (∀ i j r r', t !! i = Some r → t !! j = Some r' → pr_token_hash r = pr_token_hash r' → i = j).
(** What no operation changes of a row. *)
Definition identity (r : PrincipalRow) :=
  let p := pr_public r in
  (pr_id p, pr_name p, (pr_capability p, pr_actor_type p, pr_actor_id p), (pr_created_by p, pr_created_at p),
   pr_token_hash r, (pr_scope_repos r, pr_scope_tickets r)).
Definition grown (t t' : principals) : Prop :=
  ∀ id r, t !! id = Some r → ∃ r', t' !! id = Some r' ∧ identity r' = identity r ∧
    (is_Some (pr_revoked_at (pr_public r)) → pr_revoked_at (pr_public r') = pr_revoked_at (pr_public r)).
Definition kept (t t' : principals) : Prop := grown t t' ∧ (sound t → sound t').
#[export] Instance kept_preorder : PreOrder kept.
Proof.
  split.
  - intros t. split; [|done]. intros id r Hr. by exists r.
  - intros t1 t2 t3 [G1 S1] [G2 S2]. split; [|auto]. intros id r Hr.
    destruct (G1 _ _ Hr) as (r2 & H2 & E2 & R2). destruct (G2 _ _ H2) as (r3 & H3 & E3 & R3).
    exists r3. split; [done|]. split; [congruence|]. intros Hs. specialize (R2 Hs).
    rewrite R3; [done|]. by rewrite R2.
Qed.

Lemma kept_update id f t :
  (∀ r, identity (f r) = identity r ∧
        (is_Some (pr_revoked_at (pr_public r)) → pr_revoked_at (pr_public (f r)) = pr_revoked_at (pr_public r))) →
  kept t (update_row id f t).
Proof.
  intros Hf. unfold update_row.
  assert (Hback : ∀ i r, alter f id t !! i = Some r → ∃ r0, t !! i = Some r0 ∧ identity r = identity r0).
  { intros i r Hr. destruct (decide (i = id)) as [->|Hn].
    - rewrite lookup_alter_eq in Hr. destruct (t !! id) as [r0|]; [|done]. injection Hr as <-.
      exists r0. split; [done|]. apply Hf.
    - rewrite lookup_alter_ne in Hr by done. by exists r. }
  split.
  - intros i r Hr. destruct (decide (i = id)) as [->|Hn].
    + exists (f r). rewrite lookup_alter_eq, Hr. split; [done|]. apply Hf.
    + exists r. by rewrite lookup_alter_ne.
  - intros [Hid Hh]. split.
    + intros i r (r0 & H0 & E)%Hback. injection E as E _ _ _ _ _ _ _ _ _. rewrite E. by apply Hid.
    + intros i j r r' (r0 & H0 & E)%Hback (r1 & H1 & E1)%Hback Eh. apply (Hh i j r0 r1 H0 H1).
      unfold identity in E, E1. congruence.
Qed.
Lemma kept_touch id now t : kept t (principals_touch id now t).
Proof. by apply kept_update. Qed.
Lemma kept_revoke id now t : kept t (principals_revoke id now t).
Proof.
  apply kept_update. intros r. unfold set_revoked. case_bool_decide as E; [|done].
  split; [done|]. rewrite E. by intros [].
Qed.
Lemma insert_row_ok row w u w' :
  principals_insert_row row w = Ok u w' →
  w' = mk_with (core w) (<[pr_id (pr_public row) := row]> (tables w)) ∧
  tables w !! pr_id (pr_public row) = None ∧
  ∀ i r, tables w !! i = Some r →
    pr_name (pr_public r) ≠ pr_name (pr_public row) ∧ pr_token_hash r ≠ pr_token_hash row.
Proof.
  unfold principals_insert_row. destruct (tables w !! pr_id (pr_public row)) eqn:En; [done|].
  destruct (existsb _ _) eqn:Ee; [done|]. intros [= _ <-]. split; [done|]. split; [done|].
  intros i r Hr. apply not_true_iff_false in Ee. rewrite existsb_exists in Ee. split; intros E; apply Ee.
  all: exists r; split; [apply list_elem_of_In, rows_spec; by exists i|].
  - by rewrite bool_decide_true.
  - by rewrite (bool_decide_true (_ = pr_token_hash row)), orb_true_r.
Qed.
Lemma kept_insert_row row w u w' : principals_insert_row row w = Ok u w' → kept (tables w) (tables w').
Proof.
  intros (-> & Hnew & Hu)%insert_row_ok. simpl. split.
  - intros id r Hr. exists r. rewrite lookup_insert_ne by congruence. done.
  - intros [Hid Hh]. split.
    + intros i r. rewrite lookup_insert_Some. intros [[<- <-]|[_ Hr]]; [done|by apply Hid].
    + intros i j r r'. rewrite !lookup_insert_Some. intros [[<- <-]|[_ Hr]] [[<- <-]|[_ Hr']] Eh; try done.
      * by destruct (Hu _ _ Hr').
      * by destruct (Hu _ _ Hr).
      * by eapply Hh.
Qed.

(** ** The calls *)

Section credentials.
Context `{Env}.

(** Anything may happen to the rest of the database between two of them. *)
Inductive principal_step : with_tables principals → with_tables principals → Prop :=
| step_create input a r w w' : createPrincipal input a w = Ok r w' → principal_step w w'
| step_revoke ref a r w w' : revokePrincipal ref a w = Ok r w' → principal_step w w'
| step_resolve token r w w' : resolvePrincipalToken token w = Ok r w' → principal_step w w'
| step_core d w : principal_step w (mk_with d (tables w)).

Lemma evolves_on_core {A} (m : Op A) : evolves (tables_rel kept) (on_core m).
Proof. apply on_core_tables, _. Qed.
Lemma evolves_read {A} (f : db → principals → A) : evolves (tables_rel kept) (read f).
Proof. apply evolves_gets, _. Qed.
Lemma evolves_write f : (∀ t, kept t (f t)) → evolves (tables_rel kept) (write f).
Proof. intros Hf. apply evolves_modify. intros w. apply Hf. Qed.
Lemma evolves_insert i : evolves (tables_rel kept) (principals_insert i).
Proof.
  apply evolves_bind; [apply _| |intros []].
  - intros w u w' Hi. by eapply kept_insert_row.
  - apply evolves_bind; [apply _|apply evolves_read|]. intros o. apply evolves_require, _.
Qed.
End credentials.
#[export] Hint Resolve kept_touch kept_revoke : gaffer.
Ltac table_steps := repeat first
  [ apply evolves_insert | apply evolves_on_core | apply evolves_read
  | apply evolves_write; intros; solve [auto with gaffer]
  | apply evolves_guard, _ | apply evolves_require, _ | apply evolves_ret, _
  | apply evolves_when; [apply _|] | apply evolves_bind; [apply _| |intros ?] ].

Section steps.
Context `{Env}.
Lemma createPrincipal_kept input a : evolves (tables_rel kept) (createPrincipal input a).
Proof. unfold createPrincipal, inTransaction. table_steps. Qed.
Lemma revokePrincipal_kept ref a : evolves (tables_rel kept) (revokePrincipal ref a).
Proof. unfold revokePrincipal, inTransaction. table_steps. Qed.
Lemma resolvePrincipalToken_kept token : evolves (tables_rel kept) (resolvePrincipalToken token).
Proof.
  unfold resolvePrincipalToken. apply evolves_bind; [apply _|apply evolves_read|]. intros [row|]; table_steps.
Qed.
Lemma principal_step_kept w w' : principal_step w w' → kept (tables w) (tables w').
Proof.
  destruct 1 as [input a r w w' Hr|ref a r w w' Hr|token r w w' Hr|d w]; [..|done].
  - by eapply createPrincipal_kept.
  - by eapply revokePrincipal_kept.
  - by eapply resolvePrincipalToken_kept.
Qed.
Lemma principal_steps_kept w w' : rtc principal_step w w' → kept (tables w) (tables w').
Proof. induction 1 as [|x y z Hs _ IH]; [done|]. etrans; [by apply principal_step_kept|done]. Qed.
End steps.

(** ** Minting *)

Lemma map_set_keys {A} (key : A → string) x l k :
  k ∈ map key (map_set key x l) ↔ k = key x ∨ k ∈ map key l.
Proof.
  induction l as [|y l IH]; simpl; [by rewrite elem_of_cons|].
  case_bool_decide as E; simpl; rewrite !elem_of_cons; [rewrite E; tauto|rewrite IH; tauto].
Qed.
Lemma map_values_keys {A} (key : A → string) xs k : k ∈ map key (map_values key xs) ↔ k ∈ map key xs.
Proof.
  unfold map_values. enough (∀ m, k ∈ map key (foldl (λ m x, map_set key x m) m xs)
                                  ↔ k ∈ map key m ∨ k ∈ map key xs) as ->.
  { simpl. rewrite elem_of_nil. tauto. }
  induction xs as [|x xs IH]; intros m; simpl; [rewrite elem_of_nil; tauto|].
  rewrite IH, map_set_keys, elem_of_cons. tauto.
Qed.

Section minting.
Context `{Env}.

Definition reads {A} (m : Op A) : Prop := ∀ d a d', m d = Ok a d' → d' = d.
Lemma reads_scope_repo ref : reads (scope_repo ref).
Proof. intros d a d' (o & d1 & [= _ <-] & [_ ->]%require_ok)%bind_ok. done. Qed.
Lemma reads_resolveRef ref : reads (resolveRef ref).
Proof. intros d a d' (o & d1 & [= _ <-] & [_ ->]%require_ok)%bind_ok. done. Qed.

(** What the references of one axis of a scope come to. *)
Definition axis_of {A} (key : A → string) (f : string → Op A) (refs : option (list string)) (d : db)
    (xs : option (list A)) : Prop :=
  match given_list refs, xs with
  | None, None => True
  | Some refs, Some xs => ∀ k, k ∈ map key xs ↔ ∃ ref x, ref ∈ refs ∧ f ref d = Ok x d ∧ key x = k
  | _, _ => False
  end.
Lemma mapM_reads {A} (f : string → Op A) refs d xs d' :
  (∀ ref, reads (f ref)) → mapM f refs d = Ok xs d' → d' = d ∧ Forall2 (λ ref x, f ref d = Ok x d) refs xs.
Proof.
  intros Hf. revert xs. induction refs as [|ref refs IH]; intros xs; [by intros [= <- <-]|].
  intros (x & d1 & Hx & (ys & d2 & Hys & [= <- <-])%bind_ok)%bind_ok.
  pose proof (Hf _ _ _ _ Hx) as ->. destruct (IH _ Hys) as [-> Hall]. split; [done|]. by constructor.
Qed.
Lemma resolve_all_axis {A} (key : A → string) f refs d xs d' :
  (∀ ref, reads (f ref)) → resolve_all key f refs d = Ok xs d' → d' = d ∧ axis_of key f refs d xs.
Proof.
  intros Hf. unfold resolve_all, axis_of. destruct (given_list refs) as [rs|]; [|by intros [= <- <-]].
  intros (ys & d1 & Hys & [= <- <-])%bind_ok. destruct (mapM_reads _ _ _ _ _ Hf Hys) as [-> Hall].
  split; [done|]. intros k. rewrite map_values_keys, list_elem_of_fmap. split.
  - intros (x & -> & Hx). apply list_elem_of_lookup in Hx as [i Hi].
    destruct (Forall2_lookup_r _ _ _ _ _ Hall Hi) as (ref & Hr & Hrx).
    exists ref, x. split; [|done]. by eapply list_elem_of_lookup_2.
  - intros (ref & x & Hr & Hx & <-). apply list_elem_of_lookup in Hr as [i Hi].
    destruct (Forall2_lookup_l _ _ _ _ _ Hall Hi) as (y & Hy & Hry). rewrite Hx in Hry. injection Hry as <-.
    exists x. split; [done|]. by eapply list_elem_of_lookup_2.
Qed.

(** The row a mint stores. *)
Record minted (input : CreatePrincipalInput) (d : db) (token : string) (repos : option (list Repository))
    (tks : option (list Ticket)) (row : PrincipalRow) : Prop := {
  minted_name : pr_name (pr_public row) = trim (cp_name input) ∧ PRINCIPAL_NAME_RE (trim (cp_name input)) = true;
  minted_actor : agent_named (pr_actor_id (pr_public row)) d = false ∧
    pr_actor_type (pr_public row) = cp_actorType input ?? PHuman ∧
    pr_capability (pr_public row) = cp_capability input ?? CapFull;
  minted_live : pr_revoked_at (pr_public row) = None;
  minted_token : pr_token_hash row = hashPrincipalToken token;
  minted_repos : idList (pr_scope_repos row) = map rp_id <$> repos ∧ axis_of rp_id scope_repo (cp_repos input) d repos;
  minted_tickets : idList (pr_scope_tickets row) = map tk_id <$> tks ∧ axis_of tk_id resolveRef (cp_tickets input) d tks
}.
Lemma createPrincipal_ok input a w p token w' :
  createPrincipal input a w = Ok (p, token) w' →
  ∃ repos tks row d, minted input (core w) token repos tks row ∧ p = view row d ∧
    tables w !! pr_id (pr_public row) = None ∧ tables w' = <[pr_id (pr_public row) := row]> (tables w).
Proof.
  unfold createPrincipal, inTransaction.
  intros ([] & ? & [Hname ->]%guard_ok & Hr)%bind_ok.
  apply bind_ok in Hr as (same & ? & [-> ->]%read_ok & ([] & ? & [_ ->]%guard_ok & Hr)%bind_ok).
  apply bind_ok in Hr as (taken & ? & [-> ->]%read_ok & ([] & ? & [Htaken ->]%guard_ok & Hr)%bind_ok).
  apply bind_ok in Hr as (repos & w1 & [H1 T1]%on_core_ok & (tks & w2 & [H2 T2]%on_core_ok & Hr)%bind_ok).
  apply (resolve_all_axis _ _ _ _ _ _ reads_scope_repo) in H1 as [E1 H1]. rewrite E1 in H2.
  apply (resolve_all_axis _ _ _ _ _ _ reads_resolveRef) in H2 as [E2 H2].
  apply bind_ok in Hr as (tok & w3 & [_ T3]%on_core_ok & (nw & w4 & [_ T4]%on_core_ok & Hr)%bind_ok).
  apply bind_ok in Hr as (row & w7 & Hr & [= <- <- <-]).
  apply bind_ok in Hr as (id & w5 & [_ T5]%on_core_ok & (row' & w6 & Hi & Hr)%bind_ok).
  apply bind_ok in Hr as (ev & w8 & [_ T8]%on_core_ok & [= -> ->]).
  unfold principals_insert in Hi. apply bind_ok in Hi as ([] & w9 & (-> & Hn & _)%insert_row_ok & Hi).
  apply bind_ok in Hi as (o & ? & [-> ->]%read_ok & [Ho ->]%require_ok).
  set (r := inserted_row _) in *. exists repos, tks, r. rewrite T5, T4, T3, T2, T1 in *.
  unfold principals_get in Ho. simpl in Ho. rewrite lookup_insert_eq in Ho. injection Ho as <-.
  eexists. split; [|split; [reflexivity|done]].
  apply negb_true_iff in Htaken. split; simpl; try done; by rewrite idList_column.
Qed.
End minting.

(** ** The life of a token *)

Section tokens.
Context `{Env}.

Lemma active_spec h t r :
  sound t → t !! pr_id (pr_public r) = Some r → pr_token_hash r = h →
  active_with_hash h t = match pr_revoked_at (pr_public r) with None => Some r | Some _ => None end.
Proof.
  intros [_ Hh] Hr Eh. unfold active_with_hash.
  set (P := λ x, pr_token_hash x = h ∧ pr_revoked_at (pr_public x) = None).
  assert (Hsame : ∀ x, x ∈ filter P (rows t) → x = r ∧ pr_revoked_at (pr_public r) = None).
  { intros x [[E1 E2] [i Hi]%rows_spec]%list_elem_of_filter.
    rewrite (Hh _ _ _ _ Hi Hr) in Hi by congruence. rewrite Hr in Hi. injection Hi as ->. done. }
  destruct (filter P (rows t)) as [|x l] eqn:El.
  - simpl. destruct (pr_revoked_at (pr_public r)) eqn:Ev; [done|]. exfalso.
    apply (not_elem_of_nil r). rewrite <- El. apply list_elem_of_filter. split; [done|].
    apply rows_spec. eauto.
  - destruct (Hsame x) as [-> ->]; [left|done].
Qed.
(** Authentication reads the row and nothing else. *)
Lemma resolve_active token w :
  ∃ w', resolvePrincipalToken token w
        = Ok ((λ r, (view r (core w), principalActor (view r (core w)))) <$>
              active_with_hash (hashPrincipalToken token) (tables w)) w'.
Proof.
  unfold resolvePrincipalToken, principals_findActiveByHash.
  erewrite bind_run by reflexivity. destruct (active_with_hash _ _) as [r|]; simpl; [|by eexists].
  erewrite bind_run; [|unfold now, on_core, gets; reflexivity].
  destruct (match pr_last_used_at _ with None => _ | Some _ => _ end); by eexists.
Qed.


(** a revoked credential stays revoked.  After a revocation commits, no
    sequence of mints, uses and further revocations lets any token with the
    revoked hash in again. *)
Theorem revoked_never_again ref a w p w1 w2 token :
  sound (tables w) → revokePrincipal ref a w = Ok p w1 → rtc principal_step w1 w2 →
  (λ r, pr_token_hash r) <$> tables w !! pr_id (pv_public p) = Some (hashPrincipalToken token) →
  ∃ w3, resolvePrincipalToken token w2 = Ok None w3.
Proof.
  intros Hs Hr Hst Hh. destruct (revokePrincipal_kept _ _ _ _ _ Hr) as [Hg1 Hs1]. specialize (Hs1 Hs).
  destruct (principal_steps_kept _ _ Hst) as [Hg Hs2]. specialize (Hs2 Hs1).
  assert (∃ r1, tables w1 !! pr_id (pr_public r1) = Some r1 ∧ p = view r1 (core w1) ∧
            is_Some (pr_revoked_at (pr_public r1))) as (r1 & Hr1 & -> & Hrev).
  { revert Hr. unfold revokePrincipal, inTransaction.
    intros (o & ? & [-> ->]%read_ok & (v & ? & [_ ->]%require_ok & Hr)%bind_ok)%bind_ok.
    apply bind_ok in Hr as ([] & ? & [_ ->]%guard_ok & (nw & w4 & [_ T4]%on_core_ok & Hr)%bind_ok).
    apply bind_ok in Hr as ([] & ? & [_ ->]%write_ok & (e & w5 & [_ T5]%on_core_ok & Hr)%bind_ok).
    apply bind_ok in Hr as (o & ? & [-> ->]%read_ok & [Ho ->]%require_ok).
    simpl in T5. unfold principals_get, principals_revoke, update_row in Ho, T5. rewrite T5, lookup_alter_eq, T4 in Ho.
    destruct (tables w !! pr_id (pv_public v)) as [r|] eqn:Er; [|done]. injection Ho as <-.
    exists (set_revoked nw r). pose proof (proj1 Hs _ _ Er) as Eid.
    assert (pr_id (pr_public (set_revoked nw r)) = pr_id (pv_public v)) as Eid'
      by (unfold set_revoked; case_bool_decide; done).
    rewrite Eid', T5, lookup_alter_eq, T4, Er. split; [done|]. split; [done|].
    unfold set_revoked. case_bool_decide as E; simpl; [eauto|].
    destruct (pr_revoked_at (pr_public r)); [eauto|done]. }
  simpl in Hh. destruct (tables w !! pr_id (pr_public r1)) as [r0|] eqn:Er0; [|done]. injection Hh as Hh.
  destruct (Hg1 _ _ Er0) as (r1' & Hr1' & E1 & _). rewrite Hr1 in Hr1'. injection Hr1' as <-.
  destruct (Hg _ _ Hr1) as (r2 & Hr2 & E2 & R2). specialize (R2 Hrev).
  destruct (resolve_active token w2) as [w3 Hres]. exists w3. rewrite Hres.
  unfold identity in E1, E2. injection E2 as Eid _ _ _ _ _ _ Eh _ _.
  rewrite (active_spec _ _ r2 Hs2); [|by rewrite Eid|congruence].
  rewrite R2. by destruct Hrev as [x ->].
Qed.

(** What one axis of a scope asks for. *)
Definition asks (l : option (list string)) : bool := bool_decide (given_list l ≠ None).

(** a credential is minted with the access that was asked for, and for an
    identity of its own.  It is read-only and admin as asked; its scope is set
    exactly when repositories or tickets were named, and then grants precisely
    the ids those references resolve to; the actor it speaks for is no
    registered agent under any capitalisation; and its token resolves to it
    at once. *)
Theorem createPrincipal_grants input a w p token w' :
  sound (tables w) → createPrincipal input a w = Ok (p, token) w' →
  agent_named (pr_actor_id (pv_public p)) (core w) = false ∧
  (∃ p' w2, resolvePrincipalToken token w' = Ok (Some (p', principalActor p)) w2) ∧
  ∃ acc, principalAccess p = acc ∧
    ax_readOnly acc = bool_decide (cp_capability input = Some CapRead) ∧
    ax_admin acc = bool_decide (cp_actorType input = Some PAdmin) ∧
    match narrows acc with
    | None => asks (cp_repos input) = false ∧ asks (cp_tickets input) = false
    | Some s => (asks (cp_repos input) || asks (cp_tickets input)) = true ∧
        (∀ ids id, sc_repos s = Some ids → id ∈ ids ↔
           ∃ refs ref r, cp_repos input = Some refs ∧ ref ∈ refs ∧ scope_repo ref (core w) = Ok r (core w) ∧ rp_id r = id) ∧
        (∀ ids id, sc_tickets s = Some ids → id ∈ ids ↔
           ∃ refs ref t, cp_tickets input = Some refs ∧ ref ∈ refs ∧ resolveRef ref (core w) = Ok t (core w) ∧ tk_id t = id)
    end.
Proof.
  intros Hs Hc. destruct (createPrincipal_ok _ _ _ _ _ _ Hc) as (repos & tks & r & d & Hm & -> & _ & Ht).
  destruct (createPrincipal_kept _ _ _ _ _ Hc) as [_ Hs1]. specialize (Hs1 Hs).
  destruct Hm as [_ (Ha & Ety & Ecap) Hl Htk [Er Hr] [Et Htx]].
  split; [done|]. split.
  { destruct (resolve_active token w') as [w2 Hres].
    rewrite (active_spec _ _ r Hs1), Hl in Hres by (by rewrite ?Ht, ?lookup_insert_eq). simpl in Hres. eauto. }
  eexists. split; [reflexivity|]. rewrite view_access. unfold row_access, row_scope. rewrite Er, Et. simpl.
  split; [|split].
  - rewrite Ecap. by destruct (cp_capability input) as [[]|].
  - rewrite Ety. by destruct (cp_actorType input) as [[]|].
  - unfold axis_of, asks, narrows in *. simpl.
    assert (Hax : ∀ {A} (l : option (list string)) (xs : list A) (P : string → list string → Prop),
      (∀ refs, given_list l = Some refs → l = Some refs)) by (intros A [[|]|] xs P refs; simpl; congruence).
    destruct (given_list (cp_repos input)) as [lr|] eqn:Elr, repos as [rs|]; try done;
    destruct (given_list (cp_tickets input)) as [lt|] eqn:Elt, tks as [ts|]; try done; simpl.
    all: split; [done|]; split; intros ids id Hids; simplify_eq/=.
    all: try (rewrite Hr; split; [intros (ref & x & Hx)|intros (refs & ref & x & El & Hx)];
              [exists lr, ref, x; split; [by apply (Hax unit _ [] (λ _ _, True))|done]
              |rewrite El in Elr; exists ref, x; by destruct refs; simplify_eq/=]).
    all: (rewrite Htx; split; [intros (ref & x & Hx)|intros (refs & ref & x & El & Hx)];
              [exists lt, ref, x; split; [by apply (Hax unit _ [] (λ _ _, True))|done]
              |rewrite El in Elt; exists ref, x; by destruct refs; simplify_eq/=]).
Qed.
End tokens.

(** The read rule is the write rule: what a scoped principal is shown is what
    it may change. *)
Lemma sees_what_it_may_change `{Env} p vis id t w :
  ticketVisibility p (core w) = Some vis → Store.tickets (core w) !! id = Some t →
  ax_readOnly (principalAccess p) = false →
  vis id = true ↔
  assertPrincipalAccess p (write_ticket (scopeTicketFor (tk_id t) (number t) (core w))) (principalAccess p) w = Ok tt w.
Proof.
  unfold ticketVisibility. destruct (isScoped _); [|done]. intros [= <-] Ht Hr.
  unfold assertPrincipalAccess, authorizeAccess. rewrite Ht, Hr. simpl.
  by destruct (evaluateTicketScope _ _).
Qed.

(** ** A principal *)

Definition vault : with_tables principals := mk_with demo_ready ∅.
Definition ci_bot : CreatePrincipalInput :=
  mk_CreatePrincipalInput " ci-bot " (Some CapFull) None None None (Some ["#1"; "u0"]).
Definition vault_minted : with_tables principals :=
  match createPrincipal ci_bot human vault with Ok _ w => w | Err _ => vault end.
Definition vault_revoked : with_tables principals :=
  match revokePrincipal "ci-bot" human vault_minted with Ok _ w => w | Err _ => vault end.
Lemma vault_sound : sound (tables vault).
Proof. split; simpl; intros *; by rewrite lookup_empty. Qed.
Lemma vault_minted_sound : sound (tables vault_minted).
Proof.
  assert (∃ r, createPrincipal ci_bot human vault = Ok r vault_minted) as [r Hr] by (eexists; vm_compute; reflexivity).
  exact (proj2 (createPrincipal_kept _ _ _ _ _ Hr) vault_sound).
Qed.

Lemma revoked_never_again_witness :
  ∃ w3, resolvePrincipalToken "gfp_r5" vault_revoked = Ok None w3.
Proof.
  assert (∃ q, revokePrincipal "ci-bot" human vault_minted = Ok q vault_revoked ∧ pr_id (pv_public q) = "u6")
    as (q & Hq & Eq) by (eexists; split; vm_compute; reflexivity).
  apply (revoked_never_again "ci-bot" human vault_minted q vault_revoked vault_revoked "gfp_r5"
    vault_minted_sound Hq (rtc_refl _ _)).
  rewrite Eq. vm_compute. reflexivity.
Defined.
Lemma createPrincipal_grants_witness :
  ∃ p, createPrincipal ci_bot human vault = Ok (p, "gfp_r5") vault_minted ∧
    agent_named "ci-bot" (core vault) = false ∧
    principalScope p = Some (mk_AccessScope None (Some ["u0"])).
Proof.
  assert (∃ p, createPrincipal ci_bot human vault = Ok (p, "gfp_r5") vault_minted ∧ pr_actor_id (pv_public p) = "ci-bot"
            ∧ principalScope p = Some (mk_AccessScope None (Some ["u0"])))
    as (p & Hc & Ea & Es) by (eexists; split; [|split]; vm_compute; reflexivity).
  exists p. split; [exact Hc|]. split; [|exact Es]. rewrite <- Ea.
  exact (proj1 (createPrincipal_grants ci_bot human vault p "gfp_r5" vault_minted vault_sound Hc)).
Defined.
