(* ===== verification/ReviewComments.v ===== *)
(** * Review comments ([services/reviewCommentService.ts], and over it [reviewLifecycleService.ts])

    A reviewer's comments on a delivery, their anchors in git, who may resolve
    them, and "Fix these": the send-back that carries them as requirements. *)
From Stdlib Require Import Ascii.
From S2P Require Import Prelude Json JsonParse Types EventChain Store Diff Transition Claims Tickets Landing Verdicts.
From S2P Require Import Review Approval Landings Replay Sendback Outcomes Extend.

Inductive ReviewCommentSeverity := must_fix | consider.
#[export] Instance ReviewCommentSeverity_eq_dec : EqDecision ReviewCommentSeverity.
Proof. solve_decision. Defined.
Inductive ReviewCommentStatus := RcOpen | RcResolved | RcWithdrawn.
#[export] Instance ReviewCommentStatus_eq_dec : EqDecision ReviewCommentStatus.
Proof. solve_decision. Defined.
Definition severity_name (s : ReviewCommentSeverity) : string :=
  match s with must_fix => "must_fix" | consider => "consider" end.
Definition comment_status_name (s : ReviewCommentStatus) : string :=
  match s with RcOpen => "open" | RcResolved => "resolved" | RcWithdrawn => "withdrawn" end.
Inductive Side := SideNew | SideOld.
#[export] Instance Side_eq_dec : EqDecision Side.
Proof. solve_decision. Defined.
Definition side_name (s : Side) : string := match s with SideNew => "new" | SideOld => "old" end.

Definition ANCHOR_CONTEXT_LINES : Z := 3.
Definition MAX_COMMENT_BODY : nat := Z.to_nat 20000.

Record ReviewComment := mk_ReviewComment {
  rc_id : string;
  rc_ticket_id : string;
  rc_repo_id : option string;
  rc_path : option string;
  rc_side : option Side;
  rc_line : option Z;
  rc_anchor_sha : option string;
  rc_anchor_excerpt : option string;
  rc_anchor_hash : option string;
  rc_body : string;
  rc_severity : ReviewCommentSeverity;
  rc_status : ReviewCommentStatus;
  rc_author_type : ActorType;
  rc_author_id : option string;
  rc_round : Z;
  rc_sent_round : option Z;
  rc_created_at : instant;
  rc_updated_at : instant;
  rc_resolved_at : option instant;
  rc_resolved_by : option string;
  rc_resolved_at_sha : option string
}.
Abbreviation comments := (list ReviewComment).
Abbreviation OpC := (OpX comments).

(** [UPDATE review_comments SET status, updated_at, resolved_at, resolved_by, resolved_at_sha] *)
Definition set_state (st : ReviewCommentStatus) (now : instant) (at_ : option instant) (by_ sha : option string)
    (c : ReviewComment) : ReviewComment :=
  mk_ReviewComment (rc_id c) (rc_ticket_id c) (rc_repo_id c) (rc_path c) (rc_side c) (rc_line c) (rc_anchor_sha c)
    (rc_anchor_excerpt c) (rc_anchor_hash c) (rc_body c) (rc_severity c) st (rc_author_type c) (rc_author_id c)
    (rc_round c) (rc_sent_round c) (rc_created_at c) now at_ by_ sha.
(** [UPDATE review_comments SET sent_round, updated_at] *)
Definition set_sent (round : Z) (now : instant) (c : ReviewComment) : ReviewComment :=
  mk_ReviewComment (rc_id c) (rc_ticket_id c) (rc_repo_id c) (rc_path c) (rc_side c) (rc_line c) (rc_anchor_sha c)
    (rc_anchor_excerpt c) (rc_anchor_hash c) (rc_body c) (rc_severity c) (rc_status c) (rc_author_type c) (rc_author_id c)
    (rc_round c) (Some round) (rc_created_at c) now (rc_resolved_at c) (rc_resolved_by c) (rc_resolved_at_sha c).
(** [... WHERE id = ?] on the rows. *)
Definition update_comment (id : string) (f : ReviewComment → ReviewComment) (t : comments) : comments :=
  (λ c, if bool_decide (rc_id c = id) then f c else c) <$> t.

Inductive AnchorState := anchor_current | anchor_untouched | anchor_changed | anchor_unknown.
#[export] Instance AnchorState_eq_dec : EqDecision AnchorState.
Proof. solve_decision. Defined.
Record AgentReply := mk_AgentReply { ar_evidence_id : string; ar_summary : string; ar_created_at : instant }.
Record ReviewCommentView := mk_ReviewCommentView {
  cv_comment : ReviewComment;
  cv_short_id : string;
  cv_repo : option string;
  cv_anchor_state : option AnchorState;
  cv_anchor_head : option string;
  cv_agent_replies : list AgentReply
}.
Record CommentRepoContext := mk_CommentRepoContext {
  cx_repoId : string;
  cx_repo : string;
  cx_localPath : string;
  cx_baseBranch : string;
  cx_branch : string;
  cx_head : option string
}.
Record CreateCommentInput := mk_CreateCommentInput {
  ci_body : string;
  ci_severity : option ReviewCommentSeverity;
  ci_repo : option string;
  ci_path : option string;
  ci_line : option Z;
  ci_side : option Side;
  ci_commit : option string
}.
Record ReviewCommentCounts := mk_ReviewCommentCounts {
  n_open : nat; n_open_must_fix : nat; n_resolved : nat; n_withdrawn : nat
}.

Definition assertHuman (actor : Actor) (what : string) : OpC unit :=
  guard_ (human_or_admin actor) (DispatchError ACTOR_NOT_PERMITTED
    (what +:+ " is a reviewer's act: only a human or an admin may do it (this actor is "
     +:+ actor_type_name (actor_type actor)
     +:+ "). A delivery agent answers a comment with a reply (agent evidence), which is a claim, never a resolution.")).
Definition invalid_comment (message : string) : error := DispatchError VALIDATION_ERROR message.

(** ** Paths and text *)

Fixpoint drop_while (P : ascii → bool) (l : list ascii) : list ascii :=
  match l with c :: r => if P c then drop_while P r else l | [] => [] end.
Definition is_slash (c : ascii) : bool := bool_decide (c = "/"%char).
(** [cleanPath]: [None] is the throw. *)
Definition cleanPath (p : string) : option string :=
  let l := String.list_ascii_of_string (trim p) in
  let l := match l with
           | "."%char :: "/"%char :: r => drop_while is_slash r
           | _ => l
           end in
  let l := drop_while is_slash l in
  if bool_decide (l = []) || existsb (λ c, bool_decide (c = ascii_of_nat 0)) l
     || existsb (λ w, bool_decide (w = [".";"."]%char)) (split_on "/"%char l)
  then None else Some (String.string_of_list_ascii l).
Definition text_lines (s : string) : list string :=
  String.string_of_list_ascii <$> split_on newline (String.list_ascii_of_string s).
(** A text without the newline it ends in. *)
Definition chomp (s : string) : string :=
  match rev (String.list_ascii_of_string s) with
  | c :: r => if bool_decide (c = newline) then String.string_of_list_ascii (rev r) else s
  | [] => s
  end.

(** ** Anchors *)

(** The lines a pattern's [^] may start at under the [m] flag. *)
Definition lines_m (s : string) : list (list ascii) :=
  mjoin (split_on (ascii_of_nat 13) <$> split_on newline (String.list_ascii_of_string s)).
Fixpoint strip (w l : list ascii) : option (list ascii) :=
  match w, l with
  | [], _ => Some l
  | a :: w, b :: l => if bool_decide (a = b) then strip w l else None
  | _ :: _, [] => None
  end.
Definition strip_text (w : string) (l : list ascii) : option (list ascii) := strip (String.list_ascii_of_string w) l.
(** [(\d+)] and what follows it. *)
Definition take_number (l : list ascii) : option (Z * list ascii) :=
  match l with
  | c :: _ => if is_digit c then Some (digits 0 l, drop_while is_digit l) else None
  | [] => None
  end.
(** [(?:,(\d+))?] *)
Definition take_count (l : list ascii) : option Z * list ascii :=
  match l with
  | ","%char :: r => match take_number r with Some (n, r) => (Some n, r) | None => (None, l) end
  | _ => (None, l)
  end.
(** [/^@@ -(\d+)(?:,(\d+))? \+\d+(?:,\d+)? @@/] on one line. *)
Definition hunk_header (l : list ascii) : option (Z * option Z) :=
  l ← strip_text "@@ -" l;
  p ← take_number l;
  let q := take_count p.2 in
  l ← strip_text " +" q.2;
  p' ← take_number l;
  _ ← strip_text " @@" (take_count p'.2).2;
  Some (p.1, q.1).
Definition hunk_range (h : Z * option Z) : Z * Z :=
  let len := h.2 ?? 1%Z in
  if bool_decide (len = 0%Z) then (h.1, h.1 + 1)%Z else (h.1, h.1 + len - 1)%Z.
Definition oldHunkRanges (diff : string) : list (Z * Z) := hunk_range <$> omap hunk_header (lines_m diff).

Section git.
Context `{Env}.
Definition resolveBranchHead (localPath branch : string) : option string :=
  let res := runGit localPath ["rev-parse"; "--verify"; "--quiet"; "refs/heads/" +:+ branch +:+ "^{commit}"] in
  let sha := if bool_decide (git_status res = 0%Z) then toLowerCase (trim (git_stdout res)) else "" in
  if SHA_RE sha then Some sha else None.
Definition fileLines (ctx : CommentRepoContext) (rev_ path : string) : option (list string) :=
  let res := runGit (cx_localPath ctx) ["show"; rev_ +:+ ":" +:+ path] in
  if bool_decide (git_status res = 0%Z) then Some (text_lines (chomp (git_stdout res))) else None.
Definition oldSideRev (ctx : CommentRepoContext) (head_ : string) : option string :=
  let mb := runGit (cx_localPath ctx) ["merge-base"; cx_baseBranch ctx; head_] in
  let sha := if bool_decide (git_status mb = 0%Z) then toLowerCase (trim (git_stdout mb)) else "" in
  if SHA_RE sha then Some sha else None.
Definition commit_known (ctx : CommentRepoContext) (sha : string) : bool :=
  bool_decide (git_status (runGit (cx_localPath ctx) ["cat-file"; "-e"; sha +:+ "^{commit}"]) = 0%Z).

Definition anchorStateOf (c : ReviewComment) (ctx : option CommentRepoContext) : option AnchorState :=
  match given (rc_path c) with
  | None => None
  | Some path =>
      Some match ctx ≫= (λ x, (x,.) <$> given (cx_head x)), given (rc_anchor_sha c) with
      | Some (x, head_), Some sha =>
          if bool_decide (sha = head_) then anchor_current
          else if negb (commit_known x sha) then anchor_unknown
          else
            let res := runGit (cx_localPath x)
                         ["diff"; "--no-ext-diff"; "--no-textconv"; "-U0"; sha; head_; "--"; path] in
            let out := git_stdout res in
            if negb (bool_decide (git_status res = 0%Z)) then anchor_unknown
            else if bool_decide (trim out = "") then anchor_untouched
            else if existsb (λ l, bool_decide (is_Some (strip_text "deleted file mode" l))) (lines_m out)
            then anchor_changed
            else match rc_line c with
            | None => anchor_changed
            | Some line =>
                if bool_decide (rc_side c = Some SideOld) then anchor_changed
                else
                  let lo := (1 `max` (line - ANCHOR_CONTEXT_LINES))%Z in
                  let hi := (line + ANCHOR_CONTEXT_LINES)%Z in
                  if existsb (λ r, bool_decide (r.1 ≤ hi ∧ lo ≤ r.2)%Z) (oldHunkRanges out)
                  then anchor_changed else anchor_untouched
            end
      | _, _ => anchor_unknown
      end
  end.

(** [commentRepoContexts] of [ticketGitService.ts]. *)
Definition comment_repo (ticket : Ticket) (d : db) (l : TicketRepo * Repository) : option CommentRepoContext :=
  if isActiveTicketRepoRelation (relation l.1) && bool_decide (access l.1 = Write) then
    match given (local_path l.2) with
    | Some path =>
        if existsSync path then
          match first_of [repos_ticketRepoBranch (tk_id ticket) (rp_id l.2) d;
                          repoDeliveries_find (tk_id ticket) (rp_id l.2) d ≫= rd_branch_name;
                          branch_name ticket] with
          | Some branch =>
              if bool_decide (trim branch = "") then None
              else Some (mk_CommentRepoContext (rp_id l.2) (rp_name l.2) path
                     (or_else (default_branch l.2) "main") branch (resolveBranchHead path branch))
          | None => None
          end
        else None
    | None => None
    end
  else None.
Definition commentRepoContexts (ticket : Ticket) (d : db) : list CommentRepoContext :=
  omap (comment_repo ticket d) (repos_accessLinksForTicket (tk_id ticket) d).
End git.

(** ** Reads *)

Definition quoted (s : string) : string := String dquote s +:+ String dquote EmptyString.
Definition comment_row (id : string) (t : comments) : option ReviewComment :=
  find (λ c, bool_decide (rc_id c = id)) t.
(** [/^[0-9a-f-]{6,}$/i] *)
Definition id_prefix_re (v : string) : bool :=
  let l := String.list_ascii_of_string v in
  bool_decide (6 ≤ length l)%nat
  && forallb (λ c, is_hex_lower (lower_char c) || bool_decide (c = "-"%char)) l.
Definition on_ticket (ticketId : option string) (c : ReviewComment) : bool :=
  match given ticketId with Some i => bool_decide (rc_ticket_id c = i) | None => true end.
Definition resolveComment (ref : string) (ticketId : option string) : OpC ReviewComment := λ w,
  let v := trim ref in
  let missing := DispatchError NOT_FOUND ("No review comment " +:+ quoted v +:+ ".") in
  match filter (λ c, on_ticket ticketId c = true) (option_list (comment_row v (tables w))) with
  | c :: _ => Ok c w
  | [] =>
      if id_prefix_re v then
        match filter (λ c, like_prefix v (rc_id c) = true ∧ on_ticket ticketId c = true) (tables w) with
        | [c] => Ok c w
        | [] => Err missing
        | _ :: _ :: _ => Err (DispatchError AMBIGUOUS_REF
            ("More than one review comment starts with " +:+ quoted v +:+ "; give more of the id."))
        end
      else Err missing
  end.

Definition listRows (ticketId : string) (open : bool) (t : comments) : list ReviewComment :=
  order_by rc_created_at
    (filter (λ c, rc_ticket_id c = ticketId ∧ (open = true → rc_status c = RcOpen)) t).
Definition short_id (id : string) : string := String.substring 0 8 id.
Definition toView (c : ReviewComment) (d : db) : ReviewCommentView :=
  mk_ReviewCommentView c (short_id (rc_id c)) (given (rc_repo_id c) ≫= λ i, rp_name <$> repositories d !! i)
    None None [].
Definition reply_ref (e : Evidence) : string :=
  match ev_payload e ≫= js_member "comment_id" with Some (JSStr s) => toLowerCase (trim s) | _ => "" end.
Definition is_reply (ticketId : string) (e : Evidence) : bool :=
  bool_decide (ev_ticket_id e = ticketId) && bool_decide (recorded_by_actor_type e = Some "agent")
  && match ev_payload e ≫= js_member "kind" with Some (JSStr s) => bool_decide (s = "comment_reply") | _ => false end.
(** The replies to one comment: those whose reference names it first among the
    ticket's comments. *)
Definition agentReplies (ticketId commentId : string) (d : db) (t : comments) : list AgentReply :=
  let all := listRows ticketId false t in
  let names (e : Evidence) :=
    let ref := reply_ref e in
    if bool_decide (String.length ref < 6)%nat then None
    else find (λ c, bool_decide (rc_id c = ref) || String.prefix ref (rc_id c)) all in
  (λ e, mk_AgentReply (ev_id e) (summary e) (ev_created_at e)) <$>
    filter (λ e, rc_id <$> names e = Some commentId)
      (order_by ev_created_at (filter (λ e, is_reply ticketId e = true) (evidence d))).
Definition listViews (ticketId : string) (open : bool) (d : db) (t : comments) : list ReviewCommentView :=
  (λ c, let v := toView c d in
        mk_ReviewCommentView c (cv_short_id v) (cv_repo v) None None (agentReplies ticketId (rc_id c) d t))
    <$> listRows ticketId open t.
Definition counts (ticketId : string) (t : comments) : ReviewCommentCounts :=
  let n (P : ReviewComment → bool) :=
    length (filter (λ c, P c = true) (filter (λ c, rc_ticket_id c = ticketId) t)) in
  mk_ReviewCommentCounts (n (λ c, bool_decide (rc_status c = RcOpen)))
    (n (λ c, bool_decide (rc_status c = RcOpen) && bool_decide (rc_severity c = must_fix)))
    (n (λ c, bool_decide (rc_status c = RcResolved))) (n (λ c, bool_decide (rc_status c = RcWithdrawn))).

Section service.
Context `{Env}.

(** The comments with where git says their anchors are now. *)
Definition listWithAnchors (ref : string) (open : bool) : OpC (list ReviewCommentView) :=
  let* ticket := on_core (resolveRef ref) in
  read (λ d t,
    let contexts := commentRepoContexts ticket d in
    (λ v, let c := cv_comment v in
          let ctx := find (λ x, bool_decide (rc_repo_id c = Some (cx_repoId x))) contexts in
          mk_ReviewCommentView c (cv_short_id v) (cv_repo v) (anchorStateOf c ctx) (ctx ≫= cx_head)
            (cv_agent_replies v))
      <$> listViews (tk_id ticket) open d t).

(** ** Writing a comment *)

Definition comment_event (ticketId : string) (actor : Actor) (ty : string) (c : ReviewComment)
    (extra : list (string * js)) : Op string :=
  ticket_event ticketId actor ty (JSObj
    ([("comment_id", JSStr (rc_id c)); ("repo_id", JSNullable (rc_repo_id c)); ("path", JSNullable (rc_path c));
      ("side", JSNullable (side_name <$> rc_side c));
      ("line", match rc_line c with Some n => JSNum n | None => JSNull end);
      ("severity", JSStr (severity_name (rc_severity c))); ("status", JSStr (comment_status_name (rc_status c)));
      ("round", JSNum (rc_round c)); ("anchor_sha", JSNullable (rc_anchor_sha c));
      ("body_sha256", JSStr (sha256_hex (rc_body c)))] ++ extra)).
Definition ticket_no (t : Ticket) : string := match number t with Some n => pretty n | None => "?" end.
Definition COMMENTABLE : list TicketStatus := [InReview; Refining].

Record Anchor := mk_Anchor {
  an_repo_id : option string;
  an_path : option string;
  an_side : option Side;
  an_line : option Z;
  an_sha : option string;
  an_excerpt : option string
}.
Definition no_anchor : Anchor := mk_Anchor None None None None None None.
(** The excerpt of line [n], three lines either side. *)
Definition excerpt_of (lines : list string) (n : Z) : string :=
  let lo := (1 `max` (n - ANCHOR_CONTEXT_LINES))%Z in
  join_with (String newline EmptyString)
    (take (Z.to_nat (n + ANCHOR_CONTEXT_LINES) - Z.to_nat (lo - 1))%nat (drop (Z.to_nat (lo - 1)) lines)).
Definition anchor_line (ctx : CommentRepoContext) (path : string) (sha : option string) (n : Z) (side : Side)
    : option string :=
  let rev_ := sha ≫= λ s, match side with SideNew => Some s | SideOld => oldSideRev ctx s end in
  match rev_ ≫= λ r, fileLines ctx r path with
  | Some lines => if bool_decide (n ≤ Z.of_nat (length lines))%Z then Some (excerpt_of lines n) else None
  | None => None
  end.
(** Where the input says the comment belongs, read from git. *)
Definition anchor_of (ticket : Ticket) (input : CreateCommentInput) (d : db) : error + Anchor :=
  match given (ci_path input) with
  | None => if bool_decide (ci_line input = None) then inr no_anchor
            else inl (invalid_comment "A line comment names its file (path).")
  | Some p =>
      match cleanPath p with
      | None => inl (invalid_comment (quoted p +:+ " is not a path inside the repository."))
      | Some path =>
          let contexts := commentRepoContexts ticket d in
          let want := match given (ci_repo input) with Some r => given (Some (trim r)) | None => None end in
          let ctx := match want, contexts with
                     | Some w, _ => find (λ x, bool_decide (cx_repoId x = w) || bool_decide (cx_repo x = w)) contexts
                     | None, [x] => Some x
                     | None, _ => None
                     end in
          match ctx with
          | None => inl (invalid_comment match want with
              | Some w => quoted w +:+ " is not a write repository of #" +:+ ticket_no ticket
                          +:+ " with a delivery on this machine."
              | None => "#" +:+ ticket_no ticket +:+ " changes " +:+ pretty (Z.of_nat (length contexts))
                        +:+ " repositories; name the one the comment is about (repo)."
              end)
          | Some x =>
              let commit := match given (ci_commit input) with
                            | Some c => toLowerCase (trim c) | None => "" end in
              if negb (bool_decide (commit = "")) && negb (SHA_RE commit)
              then inl (invalid_comment "commit is a full commit id.")
              else
                let sha := if negb (bool_decide (commit = "")) && commit_known x commit
                           then Some commit else cx_head x in
                match ci_line input with
                | None => inr (mk_Anchor (Some (cx_repoId x)) (Some path) None None sha None)
                | Some n =>
                    if bool_decide (n < 1)%Z then inl (invalid_comment "line is a positive whole number.")
                    else
                      let side := ci_side input ?? SideNew in
                      match anchor_line x path sha n side with
                      | Some excerpt => inr (mk_Anchor (Some (cx_repoId x)) (Some path) (Some side) (Some n) sha
                                               (Some excerpt))
                      | None => inl (invalid_comment (path +:+ " has no line " +:+ pretty n +:+ " on the "
                          +:+ side_name side +:+ " side of the diff"
                          +:+ match given sha with Some s => " at " +:+ short s | None => "" end
                          +:+ ". Comment on the file instead."))
                      end
                end
          end
      end
  end.

(** [INSERT INTO review_comments]: its primary key; the ticket was just read. *)
Definition comment_insert (c : ReviewComment) : OpC unit := λ w,
  if bool_decide (comment_row (rc_id c) (tables w) = None)
  then Ok tt (mk_with (core w) (tables w ++ [c])) else Err SqliteConstraintPrimaryKey.
Definition create (ref : string) (input : CreateCommentInput) (actor : Actor) : OpC ReviewCommentView :=
  assertHuman actor "Writing a review comment";;;
  let* ticket := on_core (resolveRef ref) in
  guard_ (bool_decide (status ticket ∈ COMMENTABLE)) (DispatchError ILLEGAL_TRANSITION
    ("A review comment can be written while a ticket is in review or in Refining (#" +:+ ticket_no ticket
     +:+ " is " +:+ status_name (status ticket) +:+ ")."));;;
  let body := trim (ci_body input) in
  guard_ (negb (bool_decide (body = ""))) (invalid_comment "A review comment needs a body.");;;
  guard_ (bool_decide (String.length body ≤ MAX_COMMENT_BODY)%nat)
    (invalid_comment "A review comment is at most 20000 characters.");;;
  let* anchored := read (λ d _, anchor_of ticket input d) in
  match anchored with
  | inl e => throw e
  | inr a =>
      let* nowIso := on_core now in
      let* id := on_core newId in
      let c := mk_ReviewComment id (tk_id ticket) (an_repo_id a) (an_path a) (an_side a) (an_line a) (an_sha a)
        (an_excerpt a) (sha256_hex <$> an_excerpt a) body (ci_severity input ?? consider) RcOpen
        (actor_type actor) (actor_id actor) (attempt_count ticket) None nowIso nowIso None None None in
      inTransaction (
        comment_insert c;;;
        on_core (comment_event (tk_id ticket) actor "review.comment_created" c []));;;
      read (λ d _, toView c d)
  end.

(** ** Resolving, reopening, withdrawing *)

Inductive CommentAction := resolve | reopen | withdraw.
#[export] Instance CommentAction_eq_dec : EqDecision CommentAction.
Proof. solve_decision. Defined.
Definition action_status (a : CommentAction) : ReviewCommentStatus :=
  match a with resolve => RcResolved | reopen => RcOpen | withdraw => RcWithdrawn end.
Definition action_words (a : CommentAction) : string * string :=
  match a with
  | resolve => ("Resolving a review comment", "review.comment_resolved")
  | reopen => ("Reopening a review comment", "review.comment_reopened")
  | withdraw => ("Withdrawing a review comment", "review.comment_withdrawn")
  end.
Definition setState (commentRef : string) (action : CommentAction) (actor : Actor) (ticketRef : option string)
    : OpC ReviewCommentView :=
  assertHuman actor (action_words action).1;;;
  let* ticketId := match given ticketRef with
                   | Some r => let* t := on_core (resolveRef r) in mret (Some (tk_id t))
                   | None => mret None
                   end in
  let* c := resolveComment commentRef ticketId in
  let want := action_status action in
  guard_ (negb (bool_decide (rc_status c = want))) (DispatchError NO_OP
    ("Review comment " +:+ short_id (rc_id c) +:+ " is already " +:+ comment_status_name want +:+ "."));;;
  guard_ (negb (bool_decide (action = withdraw) && negb (bool_decide (actor_type actor = Admin))
                && negb (bool_decide (rc_author_id c = actor_id actor))))
    (DispatchError ACTOR_NOT_PERMITTED ("Only the comment's author (" +:+ (rc_author_id c ?? "unknown")
      +:+ ") or an admin may withdraw it; resolve it instead."));;;
  let* ticket := on_core (resolveRef (rc_ticket_id c)) in
  let* contexts := read (λ d _, commentRepoContexts ticket d) in
  let ctx := match given (rc_repo_id c), contexts with
             | Some r, _ => find (λ x, bool_decide (cx_repoId x = r)) contexts
             | None, [x] => Some x
             | None, _ => None
             end in
  let* nowIso := on_core now in
  let cleared := bool_decide (want = RcOpen) in
  let at_ := if cleared then None else Some nowIso in
  let by_ := if cleared then None else Some (actor_id actor ?? actor_type_name (actor_type actor)) in
  let sha := if bool_decide (want = RcResolved) then ctx ≫= cx_head else None in
  let next := set_state want nowIso at_ by_ sha c in
  inTransaction (
    write (update_comment (rc_id c) (set_state want nowIso at_ by_ sha));;;
    on_core (comment_event (rc_ticket_id c) actor (action_words action).2 next
      ([("from", JSStr (comment_status_name (rc_status c)))]
       ++ optional_field "resolved_at_sha" (given sha))));;;
  read (λ d _, toView next d).

(** ** Fix these *)

Definition open_must_fix (ticketId : string) (t : comments) : list ReviewComment :=
  filter (λ c, rc_severity c = must_fix) (listRows ticketId true t).
(** The named comments, each an open must-fix of the ticket, once each. *)
Definition fix_named (ticketId : string) (out : list ReviewComment) (ref : string) : OpC (list ReviewComment) :=
  let* c := resolveComment ref (Some ticketId) in
  guard_ (bool_decide (rc_status c = RcOpen) && bool_decide (rc_severity c = must_fix))
    (invalid_comment ("Review comment " +:+ short_id (rc_id c) +:+ " is "
      +:+ (if bool_decide (rc_status c = RcOpen) then "a consider comment" else comment_status_name (rc_status c))
      +:+ "; Fix these sends open must-fix comments."));;;
  mret (if existsb (λ x, bool_decide (rc_id x = rc_id c)) out then out else out ++ [c]).
Definition fixSet (ticketId : string) (ids : list string) : OpC (list ReviewComment) :=
  match ids with
  | [] => read (λ _ t, open_must_fix ticketId t)
  | _ => for_fold (fix_named ticketId) [] ids
  end.
Definition markSent (ids : list string) (round : Z) : OpC unit :=
  let* nowIso := on_core now in
  for_each ids (λ id, write (update_comment id (set_sent round nowIso))).
Definition fixTheseReason (comments : list ReviewComment) : string :=
  let n := Z.of_nat (length comments) in
  "Fix these: " +:+ pretty n +:+ " requirement" +:+ (if bool_decide (n = 1%Z) then "" else "s") +:+ " ("
  +:+ comma_list ((λ c, short_id (rc_id c)) <$> comments) +:+ ")".
End service.

Section fix_these.
Context `{Env, ReviewDeps}.

Record FixResult := mk_FixResult {
  fx_result : TransitionResult;
  fx_landedAlready : list LandingStarted;
  fx_requirements : list ReviewCommentView;
  fx_outcome : RejectOutcome
}.
Definition with_to_status (st : TicketStatus) (o : RejectOutcome) : RejectOutcome :=
  mk_RejectOutcome (ro_kind o) (ro_label o) (ro_sentence o) st (ro_attempt o) (ro_max_attempts o) (ro_requirements o).
(** What the send-back did: the predicted kind unless the status says otherwise. *)
Definition settled (predicted : RejectOutcome) (st : TicketStatus) (ticket : Ticket) (to : FixTo) (n : Z) (d : db)
    : RejectOutcome :=
  if bool_decide (st = ro_to_status predicted) then predicted
  else if bool_decide (st = Blocked) then rejectOutcome (reject_facts ticket to n d)
  else with_to_status (if bool_decide (st = Ready) then Ready else Refining) predicted.
Definition fixThese (ref : string) (commentIds : list string) (to : option FixTo) (actor : Actor) : OpC FixResult :=
  guard_ (human_or_admin actor) (DispatchError ACTOR_NOT_PERMITTED
    ("Fix these is a reviewer's act: only a human or an admin may send a change back with review comments (this actor is "
     +:+ actor_type_name (actor_type actor) +:+ ")."));;;
  let* ticket := on_core (resolveRef ref) in
  let to := to ?? FixRefining in
  let* set := fixSet (tk_id ticket) commentIds in
  guard_ (bool_decide (set ≠ [])) (invalid_comment ("#" +:+ ticket_no ticket
    +:+ " has no open must-fix review comment to send back. Write one, or use Send back with a reason."));;;
  let n := Z.of_nat (length set) in
  let* predicted := on_core (reject_outcome (tk_id ticket) to n) in
  let* res := on_core (facade_rejectReview (tk_id ticket) (reject_to to) actor (Some (fixTheseReason set))) in
  let after := result_ticket res.1 in
  markSent (rc_id <$> set) (attempt_count after);;;
  let* requirements := read (λ d t,
    filter (λ v, rc_id (cv_comment v) ∈ rc_id <$> set) (listViews (tk_id ticket) false d t)) in
  let* outcome := read (λ d _, settled predicted (status after) ticket to n d) in
  mret (mk_FixResult res.1 res.2 requirements outcome).
End fix_these.
