(* ===== verification/Requirements.v ===== *)
(** * A reviewer's requirements

    Comments are the reviewer's: no agent writes, resolves or withdraws one,
    and what was written is never rewritten.  "Fix these" sends back exactly
    the open must-fix comments and does what its button says. *)
From Stdlib Require Import Ascii.
From S2P Require Import Prelude Json JsonParse Types EventChain Store Diff Transition Claims Tickets Landing Verdicts.
From S2P Require Import Conform Review Approval Landings Replay Sendback Outcomes Life Refinement Simulation Gate System.
From S2P Require Import Claiming Demo GateDemo Approved SentBack Promises Extend ReviewComments.

(** ** What no operation rewrites *)

Definition written (c : ReviewComment) :=
  (rc_id c, rc_ticket_id c, (rc_repo_id c, rc_path c, rc_side c, rc_line c),
   (rc_anchor_sha c, rc_anchor_excerpt c, rc_anchor_hash c), rc_body c, rc_severity c,
   (rc_author_type c, rc_author_id c), rc_round c, rc_created_at c).
(** Rows stay, and a status changes only to one of [P]. *)
Definition comments_kept (P : ReviewCommentStatus → Prop) (t t' : comments) : Prop :=
  ∀ i x, t !! i = Some x → ∃ y, t' !! i = Some y ∧ written y = written x ∧
    (rc_status y ≠ rc_status x → P (rc_status y)).
#[export] Instance comments_kept_preorder P : PreOrder (comments_kept P).
Proof.
  split.
  - intros t i x Hx. exists x. split; [done|]. by split.
  - intros t1 t2 t3 H1 H2 i x Hx. destruct (H1 _ _ Hx) as (y & Hy & E1 & S1).
    destruct (H2 _ _ Hy) as (z & Hz & E2 & S2). exists z. split; [done|]. split; [congruence|].
    intros Hn. destruct (decide (rc_status z = rc_status y)) as [E|Hne]; [|by apply S2].
    rewrite E in *. by apply S1.
Qed.
Lemma kept_update_comment P id f t :
  (∀ c, written (f c) = written c ∧ (rc_status (f c) ≠ rc_status c → P (rc_status (f c)))) →
  comments_kept P t (update_comment id f t).
Proof.
  intros Hf i x Hx. unfold update_comment. rewrite list_lookup_fmap, Hx. simpl. eexists. split; [done|].
  case_bool_decide; [apply Hf|by split].
Qed.
Lemma kept_set_state st n a b s id t : comments_kept (eq st) t (update_comment id (set_state st n a b s) t).
Proof. by apply kept_update_comment. Qed.
Lemma kept_set_sent P r n id t : comments_kept P t (update_comment id (set_sent r n) t).
Proof. by apply kept_update_comment. Qed.
#[export] Hint Resolve kept_set_state kept_set_sent : gaffer.

Section kept.
Context `{Env} (P : ReviewCommentStatus → Prop).
Notation R := (tables_rel (comments_kept P)).
Lemma comments_on_core {A} (m : Op A) : evolves R (on_core m).
Proof. apply on_core_tables, _. Qed.
Lemma comments_read {A} (f : db → comments → A) : evolves R (read f).
Proof. apply evolves_gets, _. Qed.
Lemma comments_write f : (∀ t, comments_kept P t (f t)) → evolves R (write f).
Proof. intros Hf. apply evolves_modify. intros w. apply Hf. Qed.
Lemma comments_resolve ref i : evolves R (resolveComment ref i).
Proof. intros w c w' Hr. unfold resolveComment in Hr. repeat case_match; by simplify_eq. Qed.
Lemma comments_insert c : evolves R (comment_insert c).
Proof.
  intros w u w'. unfold comment_insert. case_bool_decide; [|done]. intros [= _ <-] i x Hx. simpl.
  exists x. split; [by apply lookup_app_l_Some|]. by split.
Qed.
End kept.
Ltac comment_steps := repeat first
  [ apply comments_on_core | apply comments_read | apply comments_resolve | apply comments_insert
  | apply comments_write; intros; solve [auto with gaffer]
  | apply evolves_guard, _ | apply evolves_ret, _ | apply evolves_throw
  | apply evolves_for_each; [apply _|intros ?] | apply evolves_for_fold; [apply _|intros ? ?]
  | apply evolves_bind; [apply _| |intros ?] | case_match ].

Section calls.
Context `{Env, ReviewDeps}.
Lemma create_kept ref input a : evolves (tables_rel (comments_kept (λ _, False))) (create ref input a).
Proof. unfold create, assertHuman, inTransaction. comment_steps. Qed.
Lemma setState_kept ref x a t : evolves (tables_rel (comments_kept (eq (action_status x)))) (setState ref x a t).
Proof. unfold setState, assertHuman, inTransaction. comment_steps. Qed.
Lemma fixThese_kept ref ids to a : evolves (tables_rel (comments_kept (λ _, False))) (fixThese ref ids to a).
Proof. unfold fixThese, fixSet, fix_named, markSent. comment_steps. Qed.

Inductive comment_call :=
  | CreateComment (ref : string) (input : CreateCommentInput)
  | SetCommentState (commentRef : string) (action : CommentAction) (ticketRef : option string)
  | FixThese (ref : string) (commentIds : list string) (to : option FixTo).
Definition run_comment (c : comment_call) (a : Actor) : OpC unit :=
  match c with
  | CreateComment ref input => create ref input a;;; mret tt
  | SetCommentState cref x t => setState cref x a t;;; mret tt
  | FixThese ref ids to => fixThese ref ids to a;;; mret tt
  end.
Definition changes_status (c : comment_call) (st : ReviewCommentStatus) : Prop :=
  match c with SetCommentState _ x _ => action_status x = st | _ => False end.
Lemma run_comment_kept c a : evolves (tables_rel (comments_kept (changes_status c))) (run_comment c a).
Proof.
  destruct c; simpl; (apply evolves_bind; [apply _| |intros ?; apply evolves_ret, _]).
  - apply create_kept.
  - apply setState_kept.
  - apply fixThese_kept.
Qed.

(** C32: a review comment is its reviewer's.  Every call on comments by an
    agent or the runner is refused with [ACTOR_NOT_PERMITTED].  A call that commits keeps
    every comment in its place with its text, anchor, severity, author and
    round as written, and only resolving, reopening or withdrawing changes a
    status, to the one that was asked for. *)
Theorem reviewers_only c a w :
  (human_or_admin a = false → ∃ m, run_comment c a w = Err (DispatchError ACTOR_NOT_PERMITTED m)) ∧
  ∀ w', run_comment c a w = Ok tt w' →
    ∀ i x, tables w !! i = Some x → ∃ y, tables w' !! i = Some y ∧ written y = written x ∧
      (rc_status y ≠ rc_status x →
         ∃ ref action t, c = SetCommentState ref action t ∧ rc_status y = action_status action).
Proof.
  split.
  - intros Ha. destruct c; simpl; unfold create, setState, fixThese, assertHuman; rewrite Ha; by eexists.
  - intros w' Hr i x Hx. destruct (run_comment_kept _ _ _ _ _ Hr i x Hx) as (y & Hy & E & Hs).
    exists y. split; [done|]. split; [done|]. intros Hn. specialize (Hs Hn). destruct c; try done.
    simpl in Hs. eauto 6.
Qed.
End calls.

(** ** Fix these *)

Lemma trim_starts c s : is_space c = false → trim (String c s) ≠ "".
Proof.
  intros Hc. unfold trim. simpl. unfold trim_chars. simpl. rewrite Hc. simpl.
  destruct (drop_spaces_snoc (rev (String.list_ascii_of_string s)) c Hc) as [y ->]. by rewrite rev_app_distr.
Qed.
Lemma fix_reason_kept l f : reason_or (Some (fixTheseReason l)) f = fixTheseReason l.
Proof.
  unfold reason_or. rewrite bool_decide_false; [done|]. unfold fixTheseReason. by apply trim_starts.
Qed.

Definition stamped (ids : list string) (round : Z) (n : instant) (t : comments) : comments :=
  (λ c, if bool_decide (rc_id c ∈ ids) then set_sent round n c else c) <$> t.
Lemma stamp_step id ids r n c :
  (if bool_decide (rc_id (if bool_decide (rc_id c = id) then set_sent r n c else c) ∈ ids)
   then set_sent r n (if bool_decide (rc_id c = id) then set_sent r n c else c)
   else if bool_decide (rc_id c = id) then set_sent r n c else c)
  = if bool_decide (rc_id c ∈ id :: ids) then set_sent r n c else c.
Proof.
  destruct (decide (rc_id c = id)) as [E|E].
  - rewrite (bool_decide_true (rc_id c = id)) by done.
    rewrite (bool_decide_true (rc_id c ∈ id :: ids)) by (rewrite E; left).
    simpl. by case_bool_decide.
  - rewrite (bool_decide_false (rc_id c = id)) by done.
    rewrite (bool_decide_ext (rc_id c ∈ id :: ids) (rc_id c ∈ ids)); [done|]. rewrite elem_of_cons. tauto.
Qed.
Lemma markSent_ok `{Env} ids r w u w' :
  markSent ids r w = Ok u w' →
  core w' = core w ∧ tables w' = stamped ids r (clock_now (core w)) (tables w).
Proof.
  unfold markSent. intros (n & w1 & [[= En E] T]%on_core_ok & Hr)%bind_ok. rewrite En. clear En.
  assert (w1 = w) as -> by (destruct w1, w; simpl in *; congruence). clear E T. revert w Hr. induction ids as [|id ids IH]; intros w Hr.
  - injection Hr as _ <-. split; [done|]. symmetry. apply list_fmap_id.
  - apply bind_ok in Hr as ([] & w1 & [_ ->]%write_ok & Hr). apply IH in Hr as [-> ->]. split; [done|]. simpl.
    unfold stamped, update_comment. rewrite <- list_fmap_compose. apply list_fmap_ext. intros i c _. simpl.
    apply stamp_step.
Qed.

Section fix_spec.
Context `{Env}.
Definition sendable (ticketId : string) (t : comments) (c : ReviewComment) : Prop :=
  c ∈ t ∧ rc_status c = RcOpen ∧ rc_severity c = must_fix ∧ (ticketId ≠ "" → rc_ticket_id c = ticketId).
Lemma resolveComment_ok ref i w c w' :
  resolveComment ref i w = Ok c w' → w' = w ∧ c ∈ tables w ∧ ∀ k, given i = Some k → rc_ticket_id c = k.
Proof.
  unfold resolveComment.
  assert (∀ c, on_ticket i c = true → ∀ k, given i = Some k → rc_ticket_id c = k) as Hon.
  { intros x Hx k Hk. unfold on_ticket in Hx. rewrite Hk in Hx. by apply bool_decide_eq_true in Hx. }
  destruct (filter _ (option_list _)) as [|x l] eqn:Ef.
  - destruct (id_prefix_re _); [|done]. destruct (filter _ (tables w)) as [|x [|]] eqn:Et; [done| |done].
    intros [= <- <-]. assert (Hin : x ∈ [x]) by left. rewrite <- Et in Hin.
    apply list_elem_of_filter in Hin as [[_ Ho] Hin]. eauto.
  - intros [= <- <-]. assert (Hin : x ∈ x :: l) by left. rewrite <- Ef in Hin.
    apply list_elem_of_filter in Hin as [Ho Hin]. split; [done|]. split; [|by apply Hon].
    destruct (comment_row _ _) eqn:Er; simpl in Hin; [|by apply not_elem_of_nil in Hin].
    apply list_elem_of_singleton in Hin as ->. unfold comment_row in Er. apply find_some in Er as [Hi _].
    by apply list_elem_of_In.
Qed.
Lemma open_must_fix_sendable k t c : c ∈ open_must_fix k t → sendable k t c.
Proof.
  unfold open_must_fix, listRows, order_by. intros [Hs Hin]%list_elem_of_filter.
  rewrite (merge_sort_Permutation _ _) in Hin. apply list_elem_of_filter in Hin as [[Ht Ho] Hin].
  split; [done|]. split; [by apply Ho|]. by split.
Qed.
(** One named comment joins the list. *)
Lemma fix_named_ok k out ref w out' w' :
  Forall (sendable k (tables w)) out → fix_named k out ref w = Ok out' w' →
  w' = w ∧ Forall (sendable k (tables w)) out' ∧ rc_id <$> out ⊆ rc_id <$> out' ∧
  ∃ c, resolveComment ref (Some k) w = Ok c w ∧ rc_id c ∈ rc_id <$> out'.
Proof.
  intros Hout (c & w1 & Hc & ([] & w2 & [Hg ->]%guard_ok & [= <- <-])%bind_ok)%bind_ok.
  pose proof (resolveComment_ok _ _ _ _ _ Hc) as (-> & Hin & Hk). split; [done|].
  apply andb_true_iff in Hg as [Ho%bool_decide_eq_true Hm%bool_decide_eq_true].
  assert (sendable k (tables w) c) as Hs.
  { split; [done|]. split; [done|]. split; [done|]. intros Hne. apply Hk. simpl. by rewrite bool_decide_false. }
  destruct (existsb _ _) eqn:Ee.
  - split; [done|]. split; [done|]. exists c. split; [done|].
    apply existsb_exists in Ee as (x & Hx & E%bool_decide_eq_true). rewrite <- E.
    apply list_elem_of_fmap_2, list_elem_of_In. exact Hx.
  - split; [by apply Forall_app_2; [|by constructor]|]. rewrite fmap_app. split; [set_solver|].
    exists c. split; [done|]. set_solver.
Qed.
Lemma fix_named_all k ids out w set w' :
  Forall (sendable k (tables w)) out → for_fold (fix_named k) out ids w = Ok set w' →
  w' = w ∧ Forall (sendable k (tables w)) set ∧ rc_id <$> out ⊆ rc_id <$> set ∧
  ∀ ref, ref ∈ ids → ∃ c, resolveComment ref (Some k) w = Ok c w ∧ rc_id c ∈ rc_id <$> set.
Proof.
  revert out. induction ids as [|r ids IH]; intros out Hout Hr.
  - injection Hr as <- <-. split; [done|]. split; [done|]. split; [done|]. intros ? []%elem_of_nil.
  - apply bind_ok in Hr as (out1 & w1 & H1 & Hr).
    apply fix_named_ok in H1 as (-> & Hout1 & Hsub & c & Hc & Hin); [|done].
    apply IH in Hr as (-> & Hset & Hsub' & Hall); [|done]. split; [done|]. split; [done|].
    split; [set_solver|]. intros ref [->|Hin']%elem_of_cons; [|by apply Hall]. exists c. split; [done|]. set_solver.
Qed.
(** The comments a send-back carries. *)
Record carried (k : string) (ids : list string) (w : with_tables comments) (set : list ReviewComment) : Prop := {
  carried_open : Forall (sendable k (tables w)) set;
  carried_all : ids = [] → set = open_must_fix k (tables w);
  carried_named ref : ref ∈ ids → ∃ c, resolveComment ref (Some k) w = Ok c w ∧ rc_id c ∈ rc_id <$> set
}.
Lemma fixSet_ok k ids w set w' : fixSet k ids w = Ok set w' → w' = w ∧ carried k ids w set.
Proof.
  destruct ids as [|r ids]; intros Hr.
  - apply read_ok in Hr as [-> ->]. split; [done|]. split; [|done|intros ? []%elem_of_nil].
    apply Forall_forall. intros c. apply open_must_fix_sendable.
  - change (for_fold (fix_named k) [] (r :: ids) w = Ok set w') in Hr.
    apply fix_named_all in Hr as (-> & Hs & _ & Hn); [|done]. split; [done|]. by split.
Qed.
End fix_spec.

Section fix_theorem.
Context `{Env, ReviewDeps}.
End fix_theorem.

(** ** A review with one requirement *)

Definition no_tests : CreateCommentInput :=
  mk_CreateCommentInput " the refund path has no test " (Some must_fix) None None None None None.
Definition desk : with_tables comments := mk_with gate_review [].
Definition desk_asked : with_tables comments :=
  match create "1" no_tests human desk with Ok _ w => w | Err _ => desk end.
Definition desk_sent : with_tables comments :=
  match fixThese "1" [] None human desk_asked with Ok _ w => w | Err _ => desk end.
Lemma desk_asked_core : simulates gate_review (core desk_asked).
Proof.
  assert (∃ v, create "1" no_tests human desk = Ok v desk_asked) as [v Hv] by (eexists; vm_compute; reflexivity).
  assert (same_core gate_review (core desk_asked)) as Hs by (split; [|split]; vm_compute; reflexivity).
  by apply sim_same.
Qed.
