(* ===== verification/Guards.v ===== *)
(** * The crew's guards ([src/packages/crew/src/safety])

    Globs ([glob.ts]), the branch policy ([branchPolicy.ts]), the git guard
    ([gitGuard.ts]), secret paths ([secretPaths.ts]) and the post-conditions of
    a delivery ([postconditions.ts]). *)
From Stdlib Require Import Ascii.
From S2P Require Import Prelude Json JsonParse Types EventChain Store Diff Landing Verdicts Pattern.

(** ** Decisions ([decision.ts]) *)

Inductive SafetyOutcome := outcome_allowed | outcome_needs_approval | outcome_denied.
#[export] Instance SafetyOutcome_eq_dec : EqDecision SafetyOutcome.
Proof. solve_decision. Defined.
Record SafetyDecision := mk_SafetyDecision {
  sd_allowed : bool;
  sd_outcome : SafetyOutcome;
  sd_reason : string;
  sd_approvalScope : option string;
  sd_rule : option string
}.
Definition allow (reason rule : string) : SafetyDecision :=
  mk_SafetyDecision true outcome_allowed reason None (Some rule).
Definition deny (reason rule : string) : SafetyDecision :=
  mk_SafetyDecision false outcome_denied reason None (Some rule).
Definition needsApproval (reason approvalScope rule : string) : SafetyDecision :=
  mk_SafetyDecision false outcome_needs_approval reason (Some approvalScope) (Some rule).

(** ** Globs *)

Definition chars (s : string) : list ascii := String.list_ascii_of_string s.
Definition text (l : list ascii) : string := String.string_of_list_ascii l.
(** [.]: everything but a line terminator; [[^/]]. *)
Definition dot_char (c : ascii) : bool := negb (bool_decide (c = newline)) && negb (bool_decide (c = ascii_of_nat 13)).
Definition seg_char (c : ascii) : bool := negb (bool_decide (c = "/"%char)).
Definition Dots : re := Star (Class dot_char).
Definition Char (c : ascii) : re := Class (λ x, bool_decide (x = c)).
(** The loop of [globToRegExp], as the pattern its text denotes. *)
Fixpoint glob_re (l : list ascii) : re :=
  match l with
  | [] => Empty
  | "*"%char :: "*"%char :: "/"%char :: r => Then (Opt (Then Dots (Char "/"%char))) (glob_re r)
  | "*"%char :: "*"%char :: r => Then Dots (glob_re r)
  | "*"%char :: r => Then (Star (Class seg_char)) (glob_re r)
  | "?"%char :: r => Then (Class seg_char) (glob_re r)
  | c :: r => Then (Char c) (glob_re r)
  end.
Definition globToRegExp (pattern : list ascii) : re := All [Begin; glob_re pattern; Finish].
Definition strip_dot_slash (l : list ascii) : list ascii :=
  match l with "."%char :: "/"%char :: r => r | _ => l end.
Definition normaliseRelative (p : string) : string :=
  text (strip_dot_slash ((λ c, if bool_decide (c = "\"%char) then "/"%char else c) <$> chars p)).
Definition has_char (c : ascii) (s : string) : bool := bool_decide (c ∈ chars s).
Definition ends_with (s suffix_ : string) : bool := bool_decide (chars suffix_ `suffix_of` chars s).
Definition matchesGlob (relativePath pattern : string) : bool :=
  let path := normaliseRelative relativePath in
  let pat := normaliseRelative pattern in
  if test (globToRegExp (chars pat)) path then true
  else if negb (has_char "/"%char pat) && negb (has_char "*"%char pat)
  then bool_decide (path = pat) || ends_with path ("/" +:+ pat) else false.
Definition matchesAnyGlob (relativePath : string) (patterns : list string) : bool :=
  existsb (matchesGlob relativePath) patterns.

(** ** Branches *)

Record GitPolicy := mk_GitPolicy {
  deny_force_push : bool;
  deny_push_to_protected_branches : bool;
  deny_delete_branch : bool;
  deny_tag_mutation : bool;
  deny_rebase_shared_branch : bool;
  require_branch_prefix : string;
  protected_branches : list string
}.
Definition default_git_policy : GitPolicy :=
  mk_GitPolicy true true true true true "gaffer/"
    ["main"; "master"; "develop"; "production"; "release/*"; "hotfix/*"].
Definition isProtectedBranch (branch : string) (p : GitPolicy) : bool :=
  existsb (matchesGlob branch) (protected_branches p).
Definition checkBranchPolicy (branch : string) (p : GitPolicy) : SafetyDecision :=
  if isProtectedBranch branch p then
    deny ("Branch '" +:+ branch +:+ "' is a protected branch; loops must work on prefixed branches.") "branch.protected"
  else
    let prefix_ := require_branch_prefix p in
    if negb (bool_decide (prefix_ = "")) && negb (String.prefix prefix_ branch) then
      deny ("Branch '" +:+ branch +:+ "' must start with the required prefix '" +:+ prefix_ +:+ "'.") "branch.prefix"
    else allow ("Branch '" +:+ branch +:+ "' satisfies the branch policy.") "branch.ok".
(** Each run of characters outside [a-z0-9] becomes one dash. *)
Definition slug_char (c : ascii) : bool :=
  let n := nat_of_ascii c in bool_decide (97 ≤ n ∧ n ≤ 122)%nat || is_digit c.
Fixpoint dashed (in_run : bool) (l : list ascii) : list ascii :=
  match l with
  | [] => []
  | c :: r => if slug_char c then c :: dashed false r
              else if in_run then dashed true r else "-"%char :: dashed true r
  end.
Fixpoint drop_dashes (l : list ascii) : list ascii :=
  match l with "-"%char :: r => drop_dashes r | _ => l end.
Definition clean_slug (slug : string) : string :=
  text (rev (drop_dashes (rev (drop_dashes (dashed false (chars (toLowerCase slug))))))).
Definition buildBranchName (slug : string) (p : GitPolicy) : string :=
  let clean := clean_slug slug in
  let prefix_ := require_branch_prefix p in
  if bool_decide (prefix_ = "") then clean
  else if String.prefix prefix_ clean then clean else prefix_ +:+ clean.

(** ** Git commands *)

Definition is_quote (c : ascii) : bool := bool_decide (c = "034"%char) || bool_decide (c = "'"%char).
Fixpoint span (P : ascii → bool) (l : list ascii) : list ascii * list ascii :=
  match l with
  | c :: r => if P c then let '(a, b) := span P r in (c :: a, b) else ([], l)
  | [] => ([], [])
  end.
(** One token at the start of [l] and the rest: a quoted stretch where the
    quote closes, else everything up to the next space. *)
Definition word_at (l : list ascii) : option (list ascii * list ascii) :=
  match l with
  | c :: r =>
      if is_space c then None
      else
        let plain_ := span (λ x, negb (is_space x)) l in
        if is_quote c then
          match span (λ x, negb (bool_decide (x = c))) r with
          | (body, _ :: rest) => Some (c :: body ++ [c], rest)
          | (_, []) => Some plain_
          end
        else Some plain_
  | [] => None
  end.
(** A quote at either end of a token is dropped. *)
Definition unquote (w : list ascii) : list ascii :=
  let w := match w with c :: r => if is_quote c then r else w | [] => [] end in
  match rev w with c :: r => if is_quote c then rev r else w | [] => [] end.
Fixpoint words (fuel : nat) (l : list ascii) : list (list ascii) :=
  match fuel with
  | O => []
  | S n =>
      match l with
      | [] => []
      | _ :: r => match word_at l with
                  | Some (w, rest) => w :: words n rest
                  | None => words n r
                  end
      end
  end.
Definition tokenise (command : string) : list string :=
  (λ w, text (unquote w)) <$> words (S (length (chars command))) (chars command).
Definition hasFlag (tokens flags : list string) : bool := existsb (λ t, bool_decide (t ∈ flags)) tokens.

Definition starts (w s : string) : bool := String.prefix w s.
Definition plus_refspec (t : string) : bool := starts "+" t && has_char ":"%char t.
Definition delete_refspec (t : string) : bool := starts ":" t && bool_decide (1 < String.length t)%nat.
Definition pushed_branch (ref : string) : string :=
  if has_char ":"%char ref then text (nth 1 (split_on ":"%char (chars ref)) []) else ref.
Definition push_refs (tokens : list string) : list string := filter (λ t, starts "-" t = false) (drop 3 tokens).
Definition protected_push (p : GitPolicy) (ref : string) : option string :=
  let branch := pushed_branch ref in
  if negb (bool_decide (branch = "")) && isProtectedBranch branch p then Some branch else None.
Definition classifyPush (tokens : list string) (p : GitPolicy) : SafetyDecision :=
  if deny_force_push p && hasFlag tokens ["--force"; "-f"; "--force-with-lease"; "--mirror"] then
    deny "Force push is denied by safety policy." "git.force_push"
  else if deny_force_push p && existsb plus_refspec tokens then
    deny "Force push via '+refspec' is denied by safety policy." "git.force_push"
  else if deny_delete_branch p && existsb delete_refspec tokens then
    deny "Deleting a remote branch via push is denied by safety policy." "git.delete_branch"
  else
    match (if deny_push_to_protected_branches p then head (omap (protected_push p) (push_refs tokens)) else None) with
    | Some branch => deny ("Pushing to protected branch '" +:+ branch +:+ "' is denied.") "git.protected_push"
    | None => allow "Push is allowed by safety policy." "git.push_ok"
    end.
(** [/^-[a-z]*f[a-z]*d/] *)
Definition clean_flags : re :=
  let az := Star (Class (λ c, let n := nat_of_ascii c in bool_decide (97 ≤ n ∧ n ≤ 122)%nat)) in
  All [Begin; Char "-"%char; az; Char "f"%char; az; Char "d"%char].
Definition classifyGitCommand (command : string) (p : GitPolicy) : SafetyDecision :=
  let tokens := tokenise (trim command) in
  if negb (bool_decide (head tokens = Some "git")) then allow "Not a git command." "git.not_git"
  else
    let sub := nth 1 tokens "" in
    if bool_decide (sub = "push") then classifyPush tokens p
    else if deny_delete_branch p && bool_decide (sub = "branch") && hasFlag tokens ["-D"; "-d"; "--delete"] then
      deny "Branch deletion is denied by safety policy." "git.delete_branch"
    else if deny_tag_mutation p && bool_decide (sub = "tag") && hasFlag tokens ["-d"; "--delete"] then
      deny "Tag deletion is denied by safety policy." "git.tag_mutation"
    else if bool_decide (sub = "reset") && hasFlag tokens ["--hard"] then
      needsApproval "Hard reset can discard work; it is approval-gated." "command:git reset --hard" "git.hard_reset"
    else if bool_decide (sub = "clean") && existsb (λ t, test clean_flags t || bool_decide (t = "-fdx")) tokens then
      deny "'git clean -fdx' is denied by safety policy." "git.clean"
    else if deny_rebase_shared_branch p && bool_decide (sub = "rebase") then
      needsApproval "Rebase of a potentially shared branch is approval-gated." "command:git rebase" "git.rebase"
    else allow "Git command is allowed by safety policy." "git.ok".

(** ** Secret paths *)

Definition SECRET_PATH_GLOBS : list string :=
  [".env"; ".env.*"; "**/.env"; "**/.env.*"; "**/secrets/**"; "secrets/**"; "**/credentials/**"; "credentials/**";
   "**/*.pem"; "**/*.key"; "**/*.p12"; "**/*.pfx"; "**/id_rsa"; "**/id_ed25519"; "**/id_dsa"; "**/id_ecdsa";
   "**/.aws/**"; ".aws/**"; "**/.ssh/**"; ".ssh/**"; "**/.npmrc"; ".npmrc"; "**/.git-credentials";
   ".git-credentials"; "**/.netrc"; ".netrc"].
Definition SECRET_DIR_NAMES : list string :=
  [".ssh"; ".aws"; ".gnupg"; "secrets"; "secret"; "credentials"; ".secrets"].
Definition SKIP_DIR_NAMES : list string :=
  [".git"; "node_modules"; "dist"; "build"; "out"; "coverage"; ".next"; ".turbo"; ".cache"; "target"; "vendor";
   "__pycache__"; ".venv"; "venv"].
(** [/(^|[._-])(secret|...|private[_-]?key)([._-]|$)/i] *)
Definition sep_char (c : ascii) : bool := bool_decide (c ∈ ["."; "_"; "-"]%char).
Definition dash_opt : re := Opt (OneOf "_-").
Definition SECRET_NAME_FRAGMENT : re :=
  All [Or Begin (Class sep_char);
       AnyOf [Lit "secret"; Lit "secrets"; Lit "credential"; Lit "credentials"; Lit "password"; Lit "passwd";
              Lit "token"; Lit "apikey"; All [Lit "api"; dash_opt; Lit "key"]; All [Lit "private"; dash_opt; Lit "key"]];
       Or (Class sep_char) Finish].
Definition path_segments (path : string) : list string := text <$> split_on "/"%char (chars path).
(** [basename] of [node:path]: the last segment, trailing slashes aside. *)
Fixpoint drop_slashes (l : list ascii) : list ascii :=
  match l with "/"%char :: r => drop_slashes r | _ => l end.
Definition basename (path : string) : string :=
  text (rev (span seg_char (drop_slashes (rev (chars path)))).1).
Definition isSecretPath (relPath : string) : bool :=
  let path := normaliseRelative relPath in
  matchesAnyGlob path SECRET_PATH_GLOBS
  || existsb (λ s, bool_decide (toLowerCase s ∈ SECRET_DIR_NAMES)) (path_segments path)
  || test SECRET_NAME_FRAGMENT (basename path).
Definition isExcludedDir (dirName : string) : bool :=
  let name := toLowerCase dirName in bool_decide (name ∈ SECRET_DIR_NAMES) || bool_decide (name ∈ SKIP_DIR_NAMES).

(** ** The post-conditions of a delivery *)

Record PostConditionCheck := mk_PostConditionCheck {
  pc_id : string; pc_name : string; pc_required : bool; pc_satisfied : bool; pc_reason : string
}.
Record PostConditionReport := mk_PostConditionReport {
  pcr_passed : bool; pcr_checks : list PostConditionCheck; pcr_failures : list PostConditionCheck
}.
Record DeliveryEvidence := mk_DeliveryEvidence { dv_acId : option string; dv_evidenceType : string }.
Record PostConditionRequirements := mk_PostConditionRequirements {
  rq_branchPrefix : bool; rq_testEvidence : bool; rq_acEvidence : bool; rq_lintClean : bool
}.
Record DeliveryFacts := mk_DeliveryFacts {
  df_branch : string;
  df_ticketNumber : Z;
  df_gitPolicy : GitPolicy;
  df_acceptanceCriteria : list (string * string);
  df_evidence : list DeliveryEvidence;
  df_lintConfigured : bool;
  df_requirements : PostConditionRequirements
}.
Definition isTestEvidence (evidenceType : string) : bool := test (Lit "test") evidenceType.
Definition isLintEvidence (evidenceType : string) : bool := test (Lit "lint") evidenceType.
(** [s.includes(w)] *)
Definition includes (s w : string) : bool :=
  existsb (λ i, bool_decide (chars w `prefix_of` drop i (chars s))) (List.seq 0 (S (length (chars s)))).

Section postconditions.
Context (f : DeliveryFacts).
Definition branch_check : PostConditionCheck :=
  let decision := checkBranchPolicy (df_branch f) (df_gitPolicy f) in
  let token := "ticket-" +:+ pretty (df_ticketNumber f) in
  let referenced := includes (df_branch f) token in
  mk_PostConditionCheck "branch.prefix" "Branch matches the required prefix and ticket" true
    (sd_allowed decision && referenced)
    (if negb (sd_allowed decision) then sd_reason decision
     else if referenced then "Branch '" +:+ df_branch f +:+ "' carries the required prefix and references the ticket."
     else "Branch '" +:+ df_branch f +:+ "' does not reference the ticket (expected to contain '" +:+ token +:+ "').").
Definition test_check : PostConditionCheck :=
  let ok := existsb (λ e, isTestEvidence (dv_evidenceType e)) (df_evidence f) in
  mk_PostConditionCheck "tests.evidence" "Tests were actually run (test evidence present)" true ok
    (if ok then "Test-run evidence is present on the delivery."
     else "No test-run evidence was recorded for this delivery.").
Definition uncovered : list (string * string) :=
  filter (λ ac, existsb (λ e, bool_decide (dv_acId e = Some ac.1)) (df_evidence f) = false) (df_acceptanceCriteria f).
Definition ac_check : PostConditionCheck :=
  let ok := bool_decide (length uncovered = 0%nat) in
  mk_PostConditionCheck "ac.evidence" "Every acceptance criterion has evidence" true ok
    (if ok then "Every acceptance criterion has at least one evidence item."
     else pretty (Z.of_nat (length uncovered)) +:+ " acceptance criterion(s) have no recorded evidence.").
Definition lint_check : PostConditionCheck :=
  if negb (df_lintConfigured f) then
    mk_PostConditionCheck "lint.clean" "Lint is clean (lint evidence present)" false true
      "No lint command is configured for the repo; lint post-condition not applicable."
  else
    let ok := existsb (λ e, isLintEvidence (dv_evidenceType e)) (df_evidence f) in
    mk_PostConditionCheck "lint.clean" "Lint is clean (lint evidence present)" true ok
      (if ok then "Lint evidence is present on the delivery."
       else "Repo has a lint command but no lint evidence was recorded.").
Definition checkPostConditions : PostConditionReport :=
  let req := df_requirements f in
  let checks := (if rq_branchPrefix req then [branch_check] else []) ++ (if rq_testEvidence req then [test_check] else [])
    ++ (if rq_acEvidence req then [ac_check] else []) ++ (if rq_lintClean req then [lint_check] else []) in
  let failures := filter (λ c, pc_required c = true ∧ pc_satisfied c = false) checks in
  mk_PostConditionReport (bool_decide (length failures = 0%nat)) checks failures.
End postconditions.
Definition summarisePostConditionFailures (r : PostConditionReport) : string :=
  join_with " | " ((λ c, pc_name c +:+ " — " +:+ pc_reason c) <$> pcr_failures r).

(** ** Forbidden actions ([forbiddenActions.ts]) *)

Definition forbiddenActions (git : GitPolicy) (deny_write_paths deny_commands : list string) : list string :=
  (if deny_force_push git then ["Force-push (git push --force / -f / +refspec)"] else [])
  ++ (if deny_push_to_protected_branches git
      then ["Push to protected branches: " +:+ comma_list (protected_branches git)] else [])
  ++ (if deny_delete_branch git then ["Delete branches (local or remote)"] else [])
  ++ (if deny_tag_mutation git then ["Delete or move tags"] else [])
  ++ ["Write to secret/protected paths: " +:+ comma_list deny_write_paths; "Write outside the repository root"]
  ++ ((λ c, "Run command: " +:+ c) <$> deny_commands).
