(* ===== verification/Globs.v ===== *)
(** * What the crew's guards promise

    The globs of the safety policy, given a meaning of their own: a pattern is
    a relation between texts, and the regular expression the code builds is
    proved to recognise exactly that relation.  On it rest the closure of the
    secret paths under nesting, and the agreement of the branch policy with the
    push guard. *)
From Stdlib Require Import Ascii.
From S2P Require Import Prelude Json JsonParse Types EventChain Store Diff Landing Verdicts Pattern Guards.

(** ** The language of a glob *)

Notation text_of P d := (Forall (λ c : ascii, P c = true) d).
Inductive glob_matches : list ascii → list ascii → Prop :=
| glob_nil : glob_matches [] []
| glob_deep_here r t : glob_matches r t → glob_matches ("*" :: "*" :: "/" :: r)%char t
| glob_deep d r t : text_of dot_char d → glob_matches r t →
    glob_matches ("*" :: "*" :: "/" :: r)%char (d ++ "/"%char :: t)
| glob_any d r t : head r ≠ Some "/"%char → text_of dot_char d → glob_matches r t →
    glob_matches ("*" :: "*" :: r)%char (d ++ t)
| glob_segment d r t : head r ≠ Some "*"%char → text_of seg_char d → glob_matches r t →
    glob_matches ("*" :: r)%char (d ++ t)
| glob_one c r t : seg_char c = true → glob_matches r t → glob_matches ("?" :: r)%char (c :: t)
| glob_plain c r t : c ≠ "*"%char → c ≠ "?"%char → glob_matches r t → glob_matches (c :: r) (c :: t).

(** The cases in which the loop reads a pattern. *)
Inductive glob_form : list ascii → Prop :=
| form_nil : glob_form []
| form_deep r : glob_form ("*" :: "*" :: "/" :: r)%char
| form_any r : head r ≠ Some "/"%char → glob_form ("*" :: "*" :: r)%char
| form_segment r : head r ≠ Some "*"%char → glob_form ("*" :: r)%char
| form_one r : glob_form ("?" :: r)%char
| form_plain c r : c ≠ "*"%char → c ≠ "?"%char → glob_form (c :: r).
Lemma glob_formed l : glob_form l.
Proof.
  destruct l as [|c l]; [constructor|].
  destruct (decide (c = "*"%char)) as [->|H1].
  - destruct (decide (head l = Some "*"%char)) as [Hs|Hs]; [|by apply form_segment].
    destruct l as [|x l]; [done|]. simpl in Hs. injection Hs as ->.
    destruct (decide (head l = Some "/"%char)) as [Hd|Hd]; [|by apply form_any].
    destruct l as [|x l]; [done|]. simpl in Hd. injection Hd as ->. apply form_deep.
  - destruct (decide (c = "?"%char)) as [->|H2]; by constructor.
Qed.

Ltac each_char c := destruct c as [[] [] [] [] [] [] [] []]; try done.
Lemma glob_re_any r : head r ≠ Some "/"%char →
  glob_re ("*" :: "*" :: r)%char = Then Dots (glob_re r).
Proof. destruct r as [|c r]; [done|]. simpl. intros H. each_char c. Qed.
Lemma glob_re_segment r : head r ≠ Some "*"%char →
  glob_re ("*" :: r)%char = Then (Star (Class seg_char)) (glob_re r).
Proof. destruct r as [|c r]; [done|]. simpl. intros H. each_char c. Qed.
Lemma glob_re_plain c r : c ≠ "*"%char → c ≠ "?"%char → glob_re (c :: r) = Then (Char c) (glob_re r).
Proof. intros H1 H2. each_char c. Qed.

(** ** Reading a text with the patterns of a glob *)

Definition reads (r : re) (o : option ascii) (t : list ascii) : Prop :=
  ∃ o', matches r (o, t) (o', []).
Lemma matches_then r s p x : matches (Then r s) p x ↔ ∃ q, matches r p q ∧ matches s q x.
Proof. split; [inversion 1; eauto|intros (q & ? & ?); by eapply match_then]. Qed.
Lemma matches_class P o t q :
  matches (Class P) (o, t) q ↔ ∃ c u, t = c :: u ∧ q = (Some c, u) ∧ P c = true.
Proof. split; [inversion 1; eauto|intros (c & u & -> & -> & ?); by constructor]. Qed.
Lemma star_reads P o t q :
  matches (Star (Class P)) (o, t) q → ∃ d, t = d ++ q.2 ∧ text_of P d.
Proof.
  intros H. remember (o, t) as p eqn:Ep. remember (Star (Class P)) as r eqn:Er. revert o t Ep.
  induction H as [| | | | |? p|? p q x H1 _ H2 IH| | |]; simplify_eq; intros o t Ep.
  - subst p. exists []. by split.
  - subst p. apply matches_class in H1 as (c & u & -> & -> & Hc).
    destruct (IH eq_refl _ _ eq_refl) as (d & -> & Hd).
    exists (c :: d). split; [done|by constructor].
Qed.
Lemma star_matches P d u o : text_of P d → ∃ o', matches (Star (Class P)) (o, d ++ u) (o', u).
Proof.
  intros Hd. revert o. induction Hd as [|c d Hc _ IH]; intros o; [eexists; apply match_stop|].
  destruct (IH (Some c)) as [o' H]. exists o'. eapply match_more; [by apply match_class|done].
Qed.

Section continue.
Context (s : re) (G : list ascii → Prop) (HG : ∀ o t, reads s o t ↔ G t).
Lemma reads_class P o t : reads (Then (Class P) s) o t ↔ ∃ c u, t = c :: u ∧ P c = true ∧ G u.
Proof.
  unfold reads. setoid_rewrite matches_then. setoid_rewrite matches_class. split.
  - intros (o' & q & (c & u & -> & -> & Hc) & Hs). exists c, u. rewrite <- (HG (Some c)). by unfold reads; eauto.
  - intros (c & u & -> & Hc & [o' Hs]%(HG (Some c))). exists o', (Some c, u). eauto 6.
Qed.
Lemma reads_star P o t :
  reads (Then (Star (Class P)) s) o t ↔ ∃ d u, t = d ++ u ∧ text_of P d ∧ G u.
Proof.
  unfold reads. setoid_rewrite matches_then. split.
  - intros (o' & [o1 u] & (d & -> & Hd)%star_reads & Hs). exists d, u. rewrite <- (HG o1). unfold reads; eauto.
  - intros (d & u & -> & Hd & Hu). destruct (star_matches P d u o Hd) as [o1 H1].
    pose proof (proj2 (HG o1 u) Hu) as [o' Hs]. eauto.
Qed.
End continue.
Lemma reads_deep s G (HG : ∀ o t, reads s o t ↔ G t) o t :
  reads (Then (Opt (Then Dots (Char "/"%char))) s) o t ↔
  G t ∨ ∃ d u, t = d ++ "/"%char :: u ∧ text_of dot_char d ∧ G u.
Proof.
  assert (reads (Then (Opt (Then Dots (Char "/"%char))) s) o t ↔
    reads (Then Dots (Then (Char "/"%char) s)) o t ∨ reads s o t) as ->.
  { unfold reads. setoid_rewrite matches_then. split.
    - intros (o' & q & H & Hs). inversion H as [| | |? ? ? ? Hd|? ? ? ? He| | | | |]; subst.
      + apply matches_then in Hd as (q' & ? & ?). left. exists o', q'. split; [done|]. by eapply match_then.
      + inversion He; subst. right; eauto.
    - intros [(o' & q & Hd & (q' & Hc & Hs)%matches_then)|[o' Hs]]; exists o'; eexists; (split; [|done]).
      + apply match_left. by eapply match_then.
      + apply match_right. constructor. }
  unfold Dots, Char. rewrite (reads_star _ _ (reads_class s G HG _)), (HG o t). split.
  - intros [(d & u & -> & Hd & c & u' & -> & ->%bool_decide_eq_true & Hu)|]; [right; eauto|by left].
  - intros [|(d & u & -> & Hd & Hu)]; [by right|left]. exists d, ("/"%char :: u). eauto 8 using bool_decide_eq_true_2.
Qed.

(** The expression built from a pattern reads exactly the pattern's language. *)
Lemma glob_re_reads l o t : reads (glob_re l) o t ↔ glob_matches l t.
Proof.
  remember (length l) as n eqn:En. revert l En o t.
  induction n as [n IH] using lt_wf_ind. intros l -> o t.
  assert (∀ r, (length r < length l)%nat → ∀ o t, reads (glob_re r) o t ↔ glob_matches r t) as IHr by eauto.
  clear IH. destruct (glob_formed l) as [|r|r Hr|r Hr|r|c r H1 H2].
  - split; [intros [o' H]; inversion H; constructor|]. inversion 1. eexists. constructor.
  - simpl glob_re. rewrite (reads_deep _ _ (IHr r ltac:(simpl; lia))). split.
    + intros [|(d & u & -> & ? & ?)]; by constructor.
    + inversion 1; simplify_eq/=; eauto 8; done.
  - rewrite glob_re_any by done. unfold Dots. rewrite (reads_star _ _ (IHr r ltac:(simpl; lia))). split.
    + intros (d & u & -> & ? & ?); by constructor.
    + inversion 1; simplify_eq/=; eauto 8; done.
  - rewrite glob_re_segment by done. rewrite (reads_star _ _ (IHr r ltac:(simpl; lia))). split.
    + intros (d & u & -> & ? & ?); by constructor.
    + inversion 1; simplify_eq/=; eauto 8; done.
  - simpl glob_re. rewrite (reads_class _ _ (IHr r ltac:(simpl; lia))). split.
    + intros (c & u & -> & ? & ?); by constructor.
    + inversion 1; simplify_eq/=; eauto 8; done.
  - rewrite glob_re_plain by done. unfold Char. rewrite (reads_class _ _ (IHr r ltac:(simpl; lia))). split.
    + intros (x & u & -> & ->%bool_decide_eq_true & ?); by constructor.
    + inversion 1; simplify_eq/=; eauto 8 using bool_decide_eq_true_2; done.
Qed.
Lemma place_of_begin l t : place_of None l (None, t) → t = l.
Proof.
  intros H. enough (∀ o l p, place_of o l p → p = (o, l) ∨ p.1 ≠ None) as Hp.
  { destruct (Hp _ _ _ H) as [[=]|]; [done|]. by simpl in *. }
  clear. intros o l p. induction 1 as [|o c l p _ IH]; [by left|]. right. destruct IH as [->|]; [done|done].
Qed.
Lemma globToRegExp_reads pattern path :
  test (globToRegExp (chars pattern)) path = true ↔ glob_matches (chars pattern) (chars path).
Proof.
  rewrite test_spec, <- (glob_re_reads _ None). unfold globToRegExp, All, reads. simpl. split.
  - intros ([o t] & q & Hp & (p1 & Hb & (p2 & Hg & (p3 & Hf & He)%matches_then)%matches_then)%matches_then).
    inversion Hb; subst. apply place_of_begin in Hp as ->. inversion Hf; subst. eauto.
  - intros [o' Hg]. exists (None, chars path), (o', []). split; [constructor|].
    rewrite matches_then. eexists. split; [constructor|]. rewrite matches_then. eexists. split; [done|].
    rewrite matches_then. eexists. split; constructor.
Qed.


(** ** Secret paths under nesting *)

Lemma glob_deeper h d t : text_of dot_char d → glob_matches ("*" :: "*" :: "/" :: h)%char t →
  glob_matches ("*" :: "*" :: "/" :: h)%char (d ++ "/"%char :: t).
Proof.
  intros Hd. inversion 1 as [|? ? Hm|x ? u Hx Hm|? ? ? Hh|? ? ? Hh|? ? ? Hh|? ? ? Hh]; simplify_eq/=;
    try done; [by apply glob_deep|].
  rewrite app_comm_cons, app_assoc. apply glob_deep; [|done].
  apply Forall_app. split; [done|]. constructor; [done|done].
Qed.

(** A path in the form the guard reads. *)
Definition relative (p : string) : Prop := normaliseRelative p = p.
Definition below (d p : string) : string := d +:+ "/" +:+ p.
Lemma chars_app a b : chars (a +:+ b) = chars a ++ chars b.
Proof. induction a as [|c a IH]; [done|]. unfold chars in *. simpl. by rewrite <- IH. Qed.
Lemma chars_below d p : chars (below d p) = chars d ++ "/"%char :: chars p.
Proof. unfold below. by rewrite !chars_app. Qed.
Lemma chars_text l : chars (text l) = l.
Proof. apply String.list_ascii_of_string_of_list_ascii. Qed.
Lemma text_chars s : text (chars s) = s.
Proof. apply String.string_of_list_ascii_of_string. Qed.
Lemma chars_inj a b : chars a = chars b → a = b.
Proof. intros H. by rewrite <- (text_chars a), H, text_chars. Qed.

Lemma strip_dot_slash_length l : strip_dot_slash l = l ∨ (length (strip_dot_slash l) < length l)%nat.
Proof.
  unfold strip_dot_slash. destruct l as [|c [|x l]]; [by left| |];
    destruct c as [[] [] [] [] [] [] [] []]; try by left.
  destruct x as [[] [] [] [] [] [] [] []]; try by left. right. simpl. lia.
Qed.
Lemma relative_iff p :
  relative p ↔ "\"%char ∉ chars p ∧ strip_dot_slash (chars p) = chars p.
Proof.
  unfold relative, normaliseRelative. set (f := λ c : ascii, if bool_decide (c = "\"%char) then "/"%char else c).
  assert ("\"%char ∉ chars p → f <$> chars p = chars p) as Hid.
  { intros H. induction (chars p) as [|c l IH]; [done|]. apply not_elem_of_cons in H as [Hc Hl].
    rewrite fmap_cons, (IH Hl). unfold f. by rewrite bool_decide_eq_false_2 by congruence. }
  split.
  - intros H%(f_equal chars). rewrite chars_text in H.
    destruct (strip_dot_slash_length (f <$> chars p)) as [E|E].
    + rewrite E in H. assert ("\"%char ∉ chars p) as Hn.
      { rewrite <- H. intros (c & Hc & _)%list_elem_of_fmap. unfold f in Hc.
        destruct (bool_decide_reflect (c = "\"%char)); congruence. }
      split; [done|]. by rewrite (Hid Hn) in E.
    + rewrite H, length_fmap in E. lia.
  - intros [Hn Hs]. rewrite (Hid Hn), Hs. apply text_chars.
Qed.
Lemma relative_below d p : relative d → relative p → d ≠ "." → relative (below d p).
Proof.
  rewrite !relative_iff, chars_below. intros [Hd Hs] [Hp _] Hdot. split.
  - rewrite elem_of_app, elem_of_cons. intros [|[|]]; done.
  - destruct (chars d) as [|c l] eqn:E; [done|].
    assert (l = [] → c ≠ "."%char) as Hl.
    { intros -> ->. apply Hdot, chars_inj. by rewrite E. }
    clear -Hs Hl. unfold strip_dot_slash in *.
    destruct l as [|x l]; simpl in *.
    + destruct c as [[] [] [] [] [] [] [] []]; try done. by destruct Hl.
    + destruct c as [[] [] [] [] [] [] [] []]; try done.
      destruct x as [[] [] [] [] [] [] [] []]; try done. apply (f_equal length) in Hs. simpl in Hs. lia.
Qed.

Lemma matchesGlob_relative p pat : relative p → relative pat →
  matchesGlob p pat = true ↔
  glob_matches (chars pat) (chars p) ∨
  (has_char "/"%char pat = false ∧ has_char "*"%char pat = false ∧
   (p = pat ∨ ends_with p ("/" +:+ pat) = true)).
Proof.
  unfold relative, matchesGlob. intros -> ->. rewrite <- globToRegExp_reads.
  destruct (test _ p); [tauto|].
  destruct (has_char "/"%char pat), (has_char "*"%char pat); simpl;
    rewrite ?orb_true_iff, ?bool_decide_eq_true; naive_solver.
Qed.

(** Every secret glob is anchored at any depth, or has a twin in the list
    that is. *)
Definition deep (g : string) : bool := String.prefix "**/" g || bool_decide ("**/" +:+ g ∈ SECRET_PATH_GLOBS).
Lemma secret_globs_deep g : g ∈ SECRET_PATH_GLOBS → deep g = true ∧ relative g.
Proof.
  assert (Forall (λ g, deep g = true ∧ relative g) SECRET_PATH_GLOBS) as H.
  { repeat constructor; vm_compute; reflexivity. }
  intros Hg. by apply (proj1 (Forall_forall _ _) H).
Qed.
Lemma prefix_chars a b : String.prefix a b = true ↔ ∃ r, chars b = chars a ++ r.
Proof.
  revert b. induction a as [|x a IH]; intros [|y b]; simpl.
  - split; [intros _; by exists []|done].
  - split; [intros _; by eexists|done].
  - split; [done|by intros (r & ?)].
  - unfold chars in *. simpl. destruct (ascii_dec x y) as [->|Hn].
    + rewrite IH. split; intros [r H]; exists r; congruence.
    + split; [done|intros (r & ?); congruence].
Qed.
Lemma deep_chars g : deep g = true → g ∈ SECRET_PATH_GLOBS →
  (∃ h, chars g = ("*" :: "*" :: "/" :: h)%char) ∨
  ∃ g', g' ∈ SECRET_PATH_GLOBS ∧ chars g' = ("*" :: "*" :: "/" :: chars g)%char.
Proof.
  unfold deep. rewrite orb_true_iff, bool_decide_eq_true, prefix_chars. intros [[r H]|H] _; [left; by exists r|].
  right. exists ("**/" +:+ g). by rewrite chars_app.
Qed.

Section nested.
Context (d p : string) (Hd : relative d) (Hp : relative p) (Hdot : d ≠ ".")
  (Hdots : text_of dot_char (chars d)).

Lemma secret_glob_below g : g ∈ SECRET_PATH_GLOBS → matchesGlob p g = true →
  ∃ g', g' ∈ SECRET_PATH_GLOBS ∧ matchesGlob (below d p) g' = true.
Proof.
  intros Hg. destruct (secret_globs_deep g Hg) as [Hdeep Hr].
  rewrite matchesGlob_relative by done. intros [Hm|(H1 & H2 & Hb)].
  - destruct (deep_chars g Hdeep Hg) as [[h Eh]|(g' & Hg' & Eg)].
    + exists g. split; [done|]. apply matchesGlob_relative; [by apply relative_below|done|]. left.
      rewrite Eh in *. rewrite chars_below. by apply glob_deeper.
    + destruct (secret_globs_deep g' Hg') as [_ Hr']. exists g'. split; [done|].
      apply matchesGlob_relative; [by apply relative_below|done|]. left.
      rewrite Eg, chars_below. by apply glob_deep.
  - exists g. split; [done|]. apply matchesGlob_relative; [by apply relative_below|done|]. right.
    split; [done|]. split; [done|]. right. unfold ends_with in *. apply bool_decide_eq_true.
    rewrite chars_below, chars_app in *. destruct Hb as [->|[x Hx]%bool_decide_eq_true].
    + by exists (chars d).
    + exists (chars d ++ "/"%char :: x). by rewrite Hx, <- app_assoc.
Qed.

Lemma split_on_app c l r : split_on c (l ++ c :: r) = split_on c l ++ split_on c r.
Proof.
  induction l as [|x l IH]; simpl; [by rewrite bool_decide_eq_true_2|].
  case_bool_decide; [by rewrite IH|]. rewrite IH.
  destruct (split_on c l) as [|y ys] eqn:E; [|done]. destruct l; simpl in E; [done|].
  case_bool_decide; [done|]. by destruct (split_on c l).
Qed.
Lemma path_segments_below : path_segments (below d p) = path_segments d ++ path_segments p.
Proof. unfold path_segments. by rewrite chars_below, split_on_app, fmap_app. Qed.

Lemma drop_slashes_app l r : drop_slashes l ≠ [] → drop_slashes (l ++ r) = drop_slashes l ++ r.
Proof.
  induction l as [|c l IH]; [done|]. simpl. intros H.
  destruct c as [[] [] [] [] [] [] [] []]; try done. by apply IH.
Qed.
Lemma span_app_stop P (l : list ascii) c r : P c = false → (span P (l ++ c :: r)).1 = (span P l).1.
Proof.
  intros Hc. induction l as [|x l IH]; simpl; [by rewrite Hc|].
  destruct (P x); [|done]. destruct (span P (l ++ c :: r)), (span P l). simpl in *. by rewrite IH.
Qed.
(** The last segment of a nested path is the last segment of the path, unless
    the path has none. *)
Lemma basename_below : basename p = "" ∨ basename (below d p) = basename p.
Proof.
  unfold basename. rewrite chars_below, rev_app_distr. simpl. rewrite <- app_assoc.
  destruct (drop_slashes (rev (chars p))) as [|c l] eqn:E; [by left|right].
  rewrite drop_slashes_app by by rewrite E. rewrite E. simpl app.
  by rewrite app_comm_cons, span_app_stop.
Qed.
Lemma secret_below : isSecretPath p = true → isSecretPath (below d p) = true.
Proof.
  unfold isSecretPath. rewrite (relative_below d p Hd Hp Hdot : normaliseRelative _ = _).
  rewrite (Hp : normaliseRelative _ = _), !orb_true_iff.
  intros [[Hm|Hm]|Hm]; [left; left|left; right|].
  - apply existsb_exists in Hm as (g & Hg & Hm). rewrite <- list_elem_of_In in Hg.
    destruct (secret_glob_below g Hg Hm) as (g' & Hg' & Hm').
    apply existsb_exists. exists g'. by rewrite <- list_elem_of_In.
  - rewrite path_segments_below, existsb_app, Hm. apply orb_true_r.
  - right. destruct basename_below as [E| ->]; [|done]. rewrite E in Hm. by vm_compute in Hm.
Qed.
End nested.

(** A secret stays a secret wherever it is put: a path the scanner excludes
    is excluded again under any directory whose name holds no line break, so
    moving a file deeper into the tree never exposes it. *)
Theorem isSecretPath_nested d p :
  relative d → relative p → d ≠ "." → text_of dot_char (chars d) →
  isSecretPath p = true → isSecretPath (below d p) = true.
Proof. intros. by apply secret_below. Qed.
Lemma isSecretPath_nested_witness :
  isSecretPath "a/.env.local" = true ∧ isSecretPath (below "web/src" "a/.env.local") = true.
Proof.
  split; [vm_compute; reflexivity|].
  apply isSecretPath_nested; [vm_compute; reflexivity|vm_compute; reflexivity|done| |vm_compute; reflexivity].
  repeat constructor.
Defined.

(** ** Branches a plan builds *)

Lemma glob_matches_plain l t :
  Forall (λ c, c ≠ "*"%char ∧ c ≠ "?"%char) l → glob_matches l t ↔ t = l.
Proof.
  intros Hl. split.
  - intros Hm. induction Hm as [| | | | | |c r t _ _ _ IH]; try done;
      inversion Hl as [|? ? [? ?] Hr]; subst; try done. by rewrite IH.
  - intros ->. induction Hl as [|c l [H1 H2] _ IH]; by constructor.
Qed.
Lemma glob_matches_prefix r l u :
  Forall (λ c, c ≠ "*"%char ∧ c ≠ "?"%char) r → glob_matches (r ++ l) u →
  ∃ t, u = r ++ t ∧ glob_matches l t.
Proof.
  intros Hr. revert u. induction Hr as [|c r [H1 H2] _ IH]; intros u H; [by exists u|].
  inversion H as [| | | | | |? ? v _ _ Hv]; simplify_eq/=; try done.
  destruct (IH _ Hv) as (t & -> & Ht). by exists t.
Qed.
(** A protected name without a wildcard or a slash covers the branches that
    end in it. *)
Lemma matchesGlob_name b n :
  relative b → Forall (λ c, c ≠ "*"%char ∧ c ≠ "?"%char ∧ c ≠ "/"%char) (chars n) → relative n →
  matchesGlob b n = true ↔ b = n ∨ ends_with b ("/" +:+ n) = true.
Proof.
  intros Hb Hn Hr. rewrite matchesGlob_relative by done. rewrite glob_matches_plain by
    (eapply Forall_impl; [done|]; naive_solver).
  assert (∀ c, (∀ x, x ∈ chars n → x ≠ c) → has_char c n = false) as Hno.
  { intros c Hc. apply bool_decide_eq_false. intros H. by apply (Hc c). }
  rewrite Forall_forall in Hn. rewrite !Hno by naive_solver.
  split; [|naive_solver]. intros [->%chars_inj|]; naive_solver.
Qed.
Lemma ends_after_slash b d n : "/"%char ∉ chars b → "/"%char ∉ chars n →
  ends_with (d +:+ "/" +:+ b) ("/" +:+ n) = true ↔ b = n.
Proof.
  intros Hb Hn. unfold ends_with. rewrite bool_decide_eq_true, !chars_app. simpl. split.
  - intros [x Hx]. destruct (app_eq_inv _ _ _ _ Hx) as [(k & _ & H)|(k & _ & H)]; clear Hx;
      (destruct k as [|c k]; [injection H; intros; by apply chars_inj|exfalso]);
      injection H as _ H; [apply Hn|apply Hb]; rewrite H; apply elem_of_app; right; apply elem_of_cons; by left.
  - intros ->. by exists (chars d).
Qed.

Definition branch_char (c : ascii) : bool := slug_char c || bool_decide (c = "-"%char).
Lemma dashed_chars f l : text_of branch_char (dashed f l).
Proof.
  revert f. induction l as [|c l IH]; intros f; simpl; [constructor|].
  destruct (slug_char c) eqn:E; [constructor; [by unfold branch_char; rewrite E|done]|].
  destruct f; [done|by constructor].
Qed.
Lemma drop_dashes_sub P l : Forall P l → Forall P (drop_dashes l).
Proof.
  induction 1 as [|c l Hc Hl IH]; [constructor|]. simpl.
  destruct c as [[] [] [] [] [] [] [] []]; try (by constructor). done.
Qed.
Lemma clean_slug_chars slug : text_of branch_char (chars (clean_slug slug)).
Proof.
  unfold clean_slug. rewrite chars_text. apply Forall_rev, drop_dashes_sub, Forall_rev, drop_dashes_sub.
  apply dashed_chars.
Qed.
Lemma branch_char_not c x : branch_char c = false → branch_char x = true → x ≠ c.
Proof. intros ? ? ->. congruence. Qed.
Lemma branch_chars_free c l : branch_char c = false → text_of branch_char l → c ∉ l.
Proof. rewrite Forall_forall. intros Hc Hl H%Hl. congruence. Qed.

Definition protected_names : list string := ["main"; "master"; "develop"; "production"].
Lemma branch_free b c : text_of branch_char (chars b) → branch_char c = false → c ∉ chars b.
Proof. intros H Hc. by apply branch_chars_free. Qed.
Lemma relative_head c l s : chars s = c :: l → c ≠ "."%char → "\"%char ∉ chars s → relative s.
Proof.
  intros E Hc Hn. apply relative_iff. split; [done|]. rewrite E. simpl. each_char c.
Qed.
(** The branches a built name can have: one segment under a directory that is
    none of the protected ones. *)
Lemma isProtectedBranch_below d c :
  relative (d +:+ "/" +:+ c) → "/"%char ∉ chars c → "/"%char ∉ chars d → d ∉ ["release"; "hotfix"] →
  isProtectedBranch (d +:+ "/" +:+ c) default_git_policy = bool_decide (c ∈ protected_names).
Proof.
  intros Hr Hc Hd Hnot. apply eq_bool_prop_intro. rewrite !Is_true_true, bool_decide_eq_true.
  assert (∀ n, "/"%char ∉ chars n → relative n →
    Forall (λ c, c ≠ "*"%char ∧ c ≠ "?"%char ∧ c ≠ "/"%char) (chars n) →
    matchesGlob (d +:+ "/" +:+ c) n = true ↔ c = n) as Hname.
  { intros n Hn Hrn Hp. rewrite matchesGlob_name by done. rewrite ends_after_slash by done.
    split; [|by right]. intros [E|]; [|done]. exfalso. apply Hn. rewrite <- E, !chars_app.
    apply elem_of_app; right. apply elem_of_app; left. by apply list_elem_of_singleton. }
  assert (∀ n, n ∈ ["release"; "hotfix"] → matchesGlob (d +:+ "/" +:+ c) (n +:+ "/*") = false) as Hdir.
  { intros n Hn. assert (relative (n +:+ "/*") ∧ has_char "/"%char (n +:+ "/*") = true ∧ "/"%char ∉ chars n ∧
      Forall (λ c, c ≠ "*"%char ∧ c ≠ "?"%char) (chars n)) as (H1 & H2 & H3 & H4).
    { rewrite !elem_of_cons, elem_of_nil in Hn. destruct Hn as [->|[->|[]]];
        (split; [vm_compute; reflexivity|split; [vm_compute; reflexivity|split]]);
        [apply (bool_decide_eq_false_1 _); vm_compute; reflexivity|repeat constructor; done
        |apply (bool_decide_eq_false_1 _); vm_compute; reflexivity|repeat constructor; done]. }
    apply not_true_is_false. rewrite matchesGlob_relative by done. intros [Hm|(Hs & _)]; [|congruence].
    assert (∃ t, chars d ++ "/"%char :: chars c = chars n ++ "/"%char :: t) as [t Ht].
    { rewrite !chars_app in Hm. apply glob_matches_prefix in Hm as (t & Et & Hm); [|done].
      simpl in Et, Hm. rewrite Et. inversion Hm; simplify_eq/=. by eexists. }
    apply Hnot. assert (d = n) as ->; [|done]. apply chars_inj.
    destruct (app_eq_inv _ _ _ _ Ht) as [(k & E & H)|(k & E & H)]; destruct k as [|x k];
      rewrite ?app_nil_r in E; try done; injection H as <- H; exfalso;
      [apply Hd|apply H3]; rewrite E; apply elem_of_app; right; apply elem_of_cons; by left. }
  unfold isProtectedBranch, protected_names. simpl existsb.
  change "release/*" with ("release" +:+ "/*"). change "hotfix/*" with ("hotfix" +:+ "/*").
  rewrite !Hdir by (rewrite !elem_of_cons; tauto). rewrite !orb_true_iff, !elem_of_cons, elem_of_nil.
  rewrite !Hname by first [done | vm_compute; reflexivity | repeat constructor; done
    | apply (bool_decide_eq_false_1 _); vm_compute; reflexivity]. intuition congruence.
Qed.

Lemma built_name slug : buildBranchName slug default_git_policy = "gaffer/" +:+ clean_slug slug.
Proof.
  unfold buildBranchName. simpl require_branch_prefix. simpl bool_decide.
  destruct (String.prefix "gaffer/" (clean_slug slug)) eqn:E; [|done].
  apply prefix_chars in E as [r E]. exfalso.
  apply (branch_free (clean_slug slug) "/"%char (clean_slug_chars slug)); [by vm_compute|].
  rewrite E, elem_of_app. left. apply (bool_decide_eq_true_1 _). vm_compute. reflexivity.
Qed.
Lemma built_relative slug : relative ("gaffer" +:+ "/" +:+ clean_slug slug).
Proof.
  eapply relative_head; [by rewrite chars_app|done|]. rewrite !chars_app, !not_elem_of_app.
  split; [apply (bool_decide_eq_false_1 _); vm_compute; reflexivity|].
  split; [apply (bool_decide_eq_false_1 _); vm_compute; reflexivity|].
  apply branch_free; [apply clean_slug_chars|by vm_compute].
Qed.
Lemma built_protected slug :
  isProtectedBranch (buildBranchName slug default_git_policy) default_git_policy =
  bool_decide (clean_slug slug ∈ protected_names).
Proof.
  rewrite built_name. change ("gaffer/" +:+ clean_slug slug) with ("gaffer" +:+ "/" +:+ clean_slug slug).
  apply isProtectedBranch_below.
  - apply built_relative.
  - apply branch_free; [apply clean_slug_chars|by vm_compute].
  - apply (bool_decide_eq_false_1 _); vm_compute; reflexivity.
  - apply (bool_decide_eq_false_1 _); vm_compute; reflexivity.
Qed.
Lemma built_checked slug :
  sd_allowed (checkBranchPolicy (buildBranchName slug default_git_policy) default_git_policy) =
  negb (bool_decide (clean_slug slug ∈ protected_names)).
Proof.
  unfold checkBranchPolicy. rewrite built_protected. destruct (bool_decide (clean_slug slug ∈ _)); [done|].
  simpl require_branch_prefix. rewrite built_name. by rewrite (proj2 (prefix_chars _ _)) by (by eexists).
Qed.

(** ** Reading a command *)

Definition plain_char (c : ascii) : bool := negb (is_space c) && negb (is_quote c).
Notation plain w := (text_of plain_char w).
Lemma plain_not_space c : plain_char c = true → is_space c = false.
Proof. unfold plain_char. by destruct (is_space c). Qed.
Lemma plain_not_quote c : plain_char c = true → is_quote c = false.
Proof. unfold plain_char. by destruct (is_space c), (is_quote c). Qed.
Lemma span_word w r : plain w → span (λ x, negb (is_space x)) (w ++ " "%char :: r) = (w, " "%char :: r).
Proof. induction 1 as [|c w Hc _ IH]; simpl; [done|]. by rewrite (plain_not_space _ Hc), IH. Qed.
Lemma span_last w : plain w → span (λ x, negb (is_space x)) w = (w, []).
Proof. induction 1 as [|c w Hc _ IH]; simpl; [done|]. by rewrite (plain_not_space _ Hc), IH. Qed.
Lemma words_nil n : words n [] = [].
Proof. by destruct n. Qed.
Lemma words_word n w r : plain w → w ≠ [] →
  words (S n) (w ++ " "%char :: r) = w :: words n (" "%char :: r).
Proof.
  intros Hw Hne. destruct w as [|c w]; [done|]. pose proof (span_word _ r Hw) as Hs.
  inversion Hw as [|? ? Hc]; subst.
  cbn [words app]. unfold word_at. rewrite (plain_not_space _ Hc), (plain_not_quote _ Hc).
  rewrite app_comm_cons, Hs. done.
Qed.
Lemma words_last n w : plain w → w ≠ [] → words (S n) w = [w].
Proof.
  intros Hw Hne. destruct w as [|c w]; [done|]. pose proof (span_last _ Hw) as Hs.
  inversion Hw as [|? ? Hc]; subst. cbn [words]. unfold word_at.
  rewrite (plain_not_space _ Hc), (plain_not_quote _ Hc), Hs, words_nil. done.
Qed.
Lemma words_space n r : words (S n) (" "%char :: r) = words n r.
Proof. done. Qed.
Lemma unquote_plain w : plain w → unquote w = w.
Proof.
  intros Hw. unfold unquote. assert (match w with c :: r => if is_quote c then r else w | [] => [] end = w) as ->.
  { destruct w as [|c w]; [done|]. inversion Hw as [|? ? Hc]; subst. by rewrite (plain_not_quote _ Hc). }
  apply Forall_rev in Hw. destruct (rev w) as [|c r] eqn:E.
  { apply (f_equal (@rev _)) in E. by rewrite rev_involutive in E. }
  inversion Hw as [|? ? Hc Hr]; subst. by rewrite (plain_not_quote _ Hc).
Qed.
Lemma trim_word s c w d l : chars s = c :: w → chars s = l ++ [d] →
  is_space c = false → is_space d = false → trim s = s.
Proof.
  intros Hc Hd Nc Nd. unfold trim, trim_chars. fold (chars s). rewrite Hc. simpl. rewrite Nc, <- Hc.
  rewrite Hd, rev_app_distr. simpl. rewrite Nd. simpl. rewrite rev_involutive, <- Hd. apply text_chars.
Qed.
(** [git push origin w], where [w] is one word. *)
Definition push_of (w : string) : string := "git push origin " +:+ w.
Lemma tokenise_push w : plain (chars w) → chars w ≠ [] → tokenise (trim (push_of w)) = ["git"; "push"; "origin"; w].
Proof.
  intros Hw Hne. destruct (exists_last Hne) as (l & d & E).
  rewrite (trim_word _ "g"%char (chars ("it push origin " +:+ w)) d (chars "git push origin " ++ l)).
  - unfold tokenise, push_of. rewrite (chars_app "git push origin " w), length_app.
    change (length (chars "git push origin ") + length (chars w))%nat with (16 + length (chars w))%nat.
    change (chars "git push origin " ++ chars w) with
      (chars "git" ++ " "%char :: chars "push" ++ " "%char :: chars "origin" ++ " "%char :: chars w).
    rewrite (words_word _ (chars "git")) by first [done|by repeat constructor]. cbn [Nat.add]. rewrite words_space.
    rewrite (words_word _ (chars "push")) by first [done|by repeat constructor]. rewrite words_space.
    rewrite (words_word _ (chars "origin")) by first [done|by repeat constructor]. rewrite words_space.
    rewrite words_last, !fmap_cons, fmap_nil, (unquote_plain (chars w)), text_chars by done. reflexivity.
  - reflexivity.
  - unfold push_of. by rewrite (chars_app "git push origin " w), E, app_assoc.
  - done.
  - rewrite E in Hw. apply Forall_app in Hw as [_ Hd]. inversion Hd; subst. by apply plain_not_space.
Qed.
Lemma hasFlag_push w flags : "git" ∉ flags → "push" ∉ flags → "origin" ∉ flags → w ∉ flags →
  hasFlag ["git"; "push"; "origin"; w] flags = false.
Proof. intros. unfold hasFlag. simpl. by rewrite !bool_decide_eq_false_2. Qed.
Lemma starts_char x w s : starts (String x "") (String w s) = bool_decide (x = w).
Proof. unfold starts. simpl. destruct (ascii_dec x w); [destruct s; by rewrite bool_decide_eq_true_2|by rewrite bool_decide_eq_false_2]. Qed.

(** What the guard says to a push of one plain word that is neither an option
    nor a refspec: it asks only whether the word is a protected branch. *)
Lemma push_word c s : plain (chars (String c s)) → ":"%char ∉ chars (String c s) → c ≠ "-"%char →
  sd_allowed (classifyGitCommand (push_of (String c s)) default_git_policy) =
  negb (isProtectedBranch (String c s) default_git_policy).
Proof.
  intros Hw Hcolon Hdash. unfold classifyGitCommand. rewrite tokenise_push by done.
  cbn [head nth bool_decide decide_rel negb]. set (w := String c s) in *.
  assert (has_char ":"%char w = false) as Hc by by apply bool_decide_eq_false.
  unfold classifyPush. rewrite hasFlag_push.
  2-4: apply (bool_decide_eq_false_1 _); vm_compute; reflexivity.
  2: { unfold w. rewrite !elem_of_cons, elem_of_nil. intros [H|[H|[H|[H|[]]]]]; by injection H. }
  assert (existsb plus_refspec ["git"; "push"; "origin"; w] = false) as ->.
  { simpl. unfold plus_refspec at 1. rewrite Hc. by rewrite andb_false_r. }
  assert (existsb delete_refspec ["git"; "push"; "origin"; w] = false) as ->.
  { simpl. unfold delete_refspec, w. rewrite starts_char. rewrite bool_decide_eq_false_2; [done|].
    intros <-. apply Hcolon. by left. }
  cbn [andb deny_force_push deny_delete_branch deny_push_to_protected_branches default_git_policy].
  unfold push_refs. cbn [drop]. rewrite filter_cons_True, filter_nil.
  2: { unfold w. rewrite starts_char. by apply bool_decide_eq_false_2. }
  unfold protected_push, pushed_branch. simpl omap. rewrite Hc. unfold w. simpl bool_decide. cbn [negb andb].
  by destruct (isProtectedBranch _ _).
Qed.

Lemma plain_branch l : text_of branch_char l → plain l ∧ ":"%char ∉ l.
Proof.
  intros H. split; [|by apply branch_chars_free]. eapply Forall_impl; [done|]. intros c Hc.
  assert (∀ x, branch_char x = false → x ≠ c) as Hno by (intros x Hx ->; congruence).
  unfold plain_char. apply andb_true_iff. split; apply negb_true_iff; apply not_true_is_false.
  - intros Hs. clear -Hs Hc. destruct c as [[] [] [] [] [] [] [] []]; vm_compute in Hs, Hc; done.
  - intros Hq. clear -Hq Hc. destruct c as [[] [] [] [] [] [] [] []]; vm_compute in Hq, Hc; done.
Qed.
Lemma built_word slug :
  plain (chars (buildBranchName slug default_git_policy)) ∧ ":"%char ∉ chars (buildBranchName slug default_git_policy).
Proof.
  rewrite built_name, chars_app. destruct (plain_branch _ (clean_slug_chars slug)) as [H1 H2]. split.
  - apply Forall_app. split; [by repeat constructor|done].
  - rewrite not_elem_of_app. split; [apply (bool_decide_eq_false_1 _); vm_compute; reflexivity|done].
Qed.

(** The branch policy and the push guard agree on every branch the crew
    names: for any slug at all, the name built from it passes the branch policy
    under the default policy exactly when pushing it to the remote is allowed,
    and that is unless the slug, once cleaned, spells a protected branch. *)
Theorem built_branch_guards slug :
  let b := buildBranchName slug default_git_policy in
  sd_allowed (checkBranchPolicy b default_git_policy) = negb (bool_decide (clean_slug slug ∈ protected_names)) ∧
  sd_allowed (classifyGitCommand (push_of b) default_git_policy) =
  sd_allowed (checkBranchPolicy b default_git_policy).
Proof.
  cbv zeta. rewrite built_checked. split; [done|]. destruct (built_word slug) as [Hp Hc].
  pose proof (built_protected slug) as Hb. rewrite built_name in *.
  change ("gaffer/" +:+ clean_slug slug) with (String "g" ("affer/" +:+ clean_slug slug)) in *.
  rewrite push_word by done. by rewrite Hb.
Qed.

Lemma plus_unprotected s : text_of branch_char (chars s) → isProtectedBranch ("+" +:+ s) default_git_policy = false.
Proof.
  intros Hs. pose proof (branch_chars_free "/"%char _ eq_refl Hs) as Hslash.
  pose proof (branch_chars_free "\"%char _ eq_refl Hs) as Hback.
  assert (relative ("+" +:+ s)) as Hr.
  { eapply relative_head; [by rewrite chars_app|done|]. rewrite chars_app, not_elem_of_app. split; [|done].
    apply (bool_decide_eq_false_1 _). vm_compute. reflexivity. }
  assert (∀ pat, relative pat → head (chars pat) ≠ Some "+"%char → head (chars pat) ≠ Some "*"%char →
    head (chars pat) ≠ Some "?"%char → chars pat ≠ [] → matchesGlob ("+" +:+ s) pat = false) as Hno.
  { intros pat Hp H1 H2 H3 H4. apply not_true_is_false. rewrite matchesGlob_relative by done.
    intros [Hm|(_ & _ & [E|E])].
    - rewrite chars_app in Hm. destruct (chars pat) as [|x r]; [done|]. simpl in *.
      inversion Hm; simplify_eq/=; congruence.
    - apply H1. by rewrite <- E, chars_app.
    - unfold ends_with in E. apply bool_decide_eq_true in E as [l E]. rewrite !chars_app in E. simpl in E.
      destruct l as [|y l]; [done|]. injection E as _ E. apply Hslash. rewrite E. apply elem_of_app; right. by left. }
  unfold isProtectedBranch. simpl existsb. rewrite !Hno; first [done | vm_compute; reflexivity].
Qed.
(** The guard's force-push rule misses the short form: [+branch] with no
    colon is a force push of that branch, and the guard allows it for every
    branch name of one segment, [main] included, although it denies the plain
    push of [main]. *)
Theorem plus_branch_allowed s :
  text_of branch_char (chars s) →
  sd_allowed (classifyGitCommand (push_of ("+" +:+ s)) default_git_policy) = true ∧
  sd_allowed (classifyGitCommand (push_of "main") default_git_policy) = false.
Proof.
  intros Hs. split; [|vm_compute; reflexivity]. destruct (plain_branch _ Hs) as [Hp Hc].
  change ("+" +:+ s) with (String "+" s). rewrite push_word; [| | |done].
  - by rewrite (plus_unprotected s Hs : isProtectedBranch (String "+" s) _ = false).
  - by constructor.
  - intros H. inversion H; subst; done.
Qed.
Lemma plus_branch_allowed_witness :
  sd_allowed (classifyGitCommand (push_of "+main") default_git_policy) = true ∧
  sd_allowed (classifyGitCommand (push_of "main") default_git_policy) = false.
Proof. apply (plus_branch_allowed "main"). by repeat constructor. Defined.
