(* ===== verification/Roots.v ===== *)
(** * Repository roots ([src/packages/crew/src/safety])

    The root set a run may write and read ([rootAccess.ts]) and the filesystem
    guard ([fsGuard.ts]), over the path arithmetic of [node:path], and the
    proof that no spelling of a path gets a write past the guard.  The working
    directory of the process is an argument. *)
From Stdlib Require Import Ascii.
From S2P Require Import Prelude Json JsonParse Types EventChain Store Diff Landing Verdicts Pattern Guards Globs.

(** ** Paths *)

Definition segment : Type := list ascii.
Definition isAbsolute (p : string) : bool := String.prefix "/" p.
(** One step of path normalisation; the segments read so far are in reverse. *)
Definition path_step (acc : list segment) (s : segment) : list segment :=
  if bool_decide (s = []) || bool_decide (s = ["."%char]) then acc
  else if bool_decide (s = [".";"."]%char) then tail acc else s :: acc.
Definition normal_segments (l : list segment) : list segment := rev (foldl path_step [] l).
Fixpoint join_path (l : list segment) : list ascii :=
  match l with [] => [] | [s] => s | s :: r => s ++ "/"%char :: join_path r end.
Fixpoint relative_segments (from to_ : list segment) : list segment :=
  match from, to_ with
  | f :: from', t :: to' => if bool_decide (f = t) then relative_segments from' to'
                            else replicate (length from) [".";"."]%char ++ to_
  | _, _ => replicate (length from) [".";"."]%char ++ to_
  end.

Record RootSet := mk_RootSet { writeRoots : list string; readRoots : list string }.
Inductive RootAccess := access_write | access_read | access_outside.
#[export] Instance RootAccess_eq_dec : EqDecision RootAccess.
Proof. solve_decision. Defined.
Record FilesystemPolicy := mk_FilesystemPolicy {
  allowed_roots : list string;
  deny_write_paths : list string;
  require_approval_write_paths : list string
}.
Definition default_filesystem_policy : FilesystemPolicy :=
  mk_FilesystemPolicy []
    [".git/**"; ".env"; ".env.*"; "**/secrets/**"; "**/credentials/**"; "**/*.pem"; "**/*.key"; "**/id_rsa";
     "**/id_ed25519"; "**/.aws/**"; "**/.ssh/**"]
    [".github/workflows/**"; "infra/**"; "terraform/**"; "k8s/**"; "Dockerfile"; "docker-compose.yml";
     "package.json"; "package-lock.json"; "pnpm-lock.yaml"; "yarn.lock"; "poetry.lock"; "requirements.txt";
     "migrations/**"].
Record FsGuardContext := mk_FsGuardContext {
  repoRoot : string;
  fs_policy : FilesystemPolicy;
  fs_roots : option RootSet
}.

Section paths.
Context (cwd : string).
(** Where a path leads: its segments from the root. *)
Definition resolved (p : string) : list segment :=
  normal_segments (split_on "/"%char (chars (if isAbsolute p then p else cwd +:+ "/" +:+ p))).
Definition path_resolve (p : string) : string := text ("/"%char :: join_path (resolved p)).
(** [resolve(base, p)]: an empty argument does not count. *)
Definition resolve_from (base p : string) : string :=
  path_resolve (if isAbsolute p || bool_decide (base = "") then p else base +:+ "/" +:+ p).
Definition path_relative (from to_ : string) : string :=
  text (join_path (relative_segments (resolved from) (resolved to_))).

(** ** Root access *)

Definition isInsideRoot (root target : string) : bool :=
  let rel := path_relative (path_resolve root) (path_resolve target) in
  bool_decide (rel = "") || (negb (String.prefix ".." rel) && negb (isAbsolute rel)).
Definition isInsideAny (roots : list string) (target : string) : bool :=
  existsb (λ root, isInsideRoot root target) roots.
Definition classifyRootAccess (targetPath : string) (roots : RootSet) : RootAccess :=
  let abs := path_resolve targetPath in
  if isInsideAny (writeRoots roots) abs then access_write
  else if isInsideAny (readRoots roots) abs then access_read else access_outside.
Definition rootsConfigured (roots : RootSet) : bool :=
  bool_decide (0 < length (writeRoots roots))%nat || bool_decide (0 < length (readRoots roots))%nat.
(** [value.split(/[\n:]+/)]: what the runs of separators leave is told apart
    from single separators only by empty pieces, which the next step drops. *)
Definition parseRoots (value : option string) : list string :=
  match value with
  | None => []
  | Some v => if bool_decide (v = "") then [] else
      path_resolve <$> filter (λ p, p ≠ "")
        (trim ∘ text <$> mjoin (split_on ":"%char <$> split_on newline (chars v)))
  end.
Definition rootSetFromEnv (env : string → option string) : RootSet :=
  mk_RootSet (parseRoots (env "GAFFER_WRITE_ROOTS")) (parseRoots (env "GAFFER_READ_ROOTS")).

(** ** The write guard *)

Definition absolute_target (targetPath : string) (ctx : FsGuardContext) : string :=
  if isAbsolute targetPath then targetPath else resolve_from (repoRoot ctx) targetPath.
Definition access_refused (targetPath : string) (ctx : FsGuardContext) : option SafetyDecision :=
  let absolute := absolute_target targetPath ctx in
  let single :=
    if isInsideRoot (repoRoot ctx) absolute then None
    else Some (deny ("Write to '" +:+ targetPath +:+ "' is outside the repo root '" +:+ repoRoot ctx +:+ "'.")
                 "fs.outside_root") in
  match fs_roots ctx with
  | Some roots =>
      if rootsConfigured roots then
        match classifyRootAccess absolute roots with
        | access_write => None
        | access => Some (deny ("Write to '" +:+ targetPath +:+ "' is outside the write-roots (target is "
            +:+ (if bool_decide (access = access_read) then "a read-only root" else "outside all roots") +:+ ").")
            "fs.outside_write_roots")
        end
      else single
  | None => single
  end.
Definition written_path (targetPath : string) (ctx : FsGuardContext) : string :=
  normaliseRelative (path_relative (path_resolve (repoRoot ctx)) (path_resolve (absolute_target targetPath ctx))).
Definition checkFileWrite (targetPath : string) (ctx : FsGuardContext) : SafetyDecision :=
  match access_refused targetPath ctx with
  | Some d => d
  | None =>
      let rel := written_path targetPath ctx in
      if matchesAnyGlob rel (deny_write_paths (fs_policy ctx)) then
        deny ("Write to '" +:+ rel +:+ "' is a denied secret/protected path.") "fs.denied_path"
      else if matchesAnyGlob rel (require_approval_write_paths (fs_policy ctx)) then
        needsApproval ("Write to '" +:+ rel +:+ "' affects build/deploy/dependencies/data and requires approval.")
          ("path:" +:+ rel) "fs.approval_path"
      else allow ("Write to '" +:+ rel +:+ "' is within policy.") "fs.ok"
  end.
End paths.

(** ** What normalisation leaves *)

(** A segment that names something. *)
Definition named (s : segment) : Prop :=
  s ≠ [] ∧ s ≠ ["."%char] ∧ s ≠ [".";"."]%char ∧ "/"%char ∉ s.
Lemma split_on_free c l : Forall (λ s, c ∉ s) (split_on c l).
Proof.
  induction l as [|x l IH]; simpl; [by repeat constructor; apply not_elem_of_nil|].
  case_bool_decide; [constructor; [apply not_elem_of_nil|done]|].
  destruct (split_on c l) as [|s ss]; [repeat constructor|].
  - by apply not_elem_of_cons; split; [|apply not_elem_of_nil].
  - inversion IH; subst. constructor; [|done]. by apply not_elem_of_cons.
Qed.
Lemma path_step_named acc s : Forall named acc → "/"%char ∉ s → Forall named (path_step acc s).
Proof.
  intros Ha Hs. unfold path_step. repeat case_bool_decide; simpl; try done.
  - by destruct Ha.
  - by constructor.
Qed.
Lemma normal_named l : Forall (λ s, "/"%char ∉ s) l → Forall named (normal_segments l).
Proof.
  intros Hl. apply Forall_rev. assert (Forall named []) as H by constructor. revert H.
  generalize (@nil segment) as acc. induction Hl as [|s l Hs _ IH]; intros acc Ha; simpl; [done|].
  by apply IH, path_step_named.
Qed.
Lemma resolved_named cwd p : Forall named (resolved cwd p).
Proof. apply normal_named, split_on_free. Qed.
Lemma foldl_named l acc : Forall named l → foldl path_step acc l = rev l ++ acc.
Proof.
  intros Hl. revert acc. induction Hl as [|s l (H1 & H2 & H3 & _) _ IH]; intros acc; simpl; [done|].
  rewrite IH, <- app_assoc. unfold path_step. by rewrite !bool_decide_eq_false_2.
Qed.
Lemma split_join l : Forall named l → l ≠ [] → split_on "/"%char (join_path l) = l.
Proof.
  induction 1 as [|s l (Hne & _ & _ & Hs) Hl IH]; [done|]. intros _.
  assert (∀ s, "/"%char ∉ s → split_on "/"%char s = [s]) as Hone.
  { clear. induction s as [|c s IH]; intros H; [done|]. apply not_elem_of_cons in H as [H1 H2]. simpl.
    rewrite bool_decide_eq_false_2 by congruence. by rewrite IH. }
  destruct l as [|s' l]; [by apply Hone|]. change (join_path (s :: s' :: l)) with (s ++ "/"%char :: join_path (s' :: l)).
  by rewrite split_on_app, Hone, IH.
Qed.
(** Resolving is idempotent. *)
Lemma resolved_resolve cwd p : resolved cwd (path_resolve cwd p) = resolved cwd p.
Proof.
  unfold path_resolve. pose proof (resolved_named cwd p) as Hn. generalize dependent (resolved cwd p). intros l Hn.
  unfold resolved, isAbsolute. rewrite (proj2 (prefix_chars _ _)) by (rewrite chars_text; by eexists).
  rewrite chars_text. simpl. unfold normal_segments. simpl. unfold path_step at 2. simpl.
  destruct l as [|s l]; [done|]. rewrite split_join by done. by rewrite foldl_named, app_nil_r, rev_involutive.
Qed.

(** ** Containment *)

Lemma relative_prefix l r : relative_segments l (l ++ r) = r.
Proof. induction l as [|s l IH]; simpl; [done|]. by rewrite bool_decide_eq_true_2. Qed.
Lemma relative_outside f t : (¬ ∃ r, t = f ++ r) → ∃ r, relative_segments f t = [".";"."]%char :: r.
Proof.
  revert t. induction f as [|s f IH]; intros t H; [by destruct H; exists t|].
  destruct t as [|s' t]; simpl; [by eexists|]. case_bool_decide as E; [subst s'|by eexists].
  apply IH. intros [r ->]. apply H. by exists r.
Qed.
Definition escaping (l : list segment) : Prop := ∃ s l', l = s :: l' ∧ [".";"."]%char `prefix_of` s.
Lemma join_path_nil l : Forall named l → join_path l = [] → l = [].
Proof.
  intros Hl H. destruct Hl as [|s l (Hs & _) _]; [done|]. destruct l; simpl in H; [done|]. by destruct s.
Qed.
Lemma join_path_dots l : Forall named l → [".";"."]%char `prefix_of` join_path l ↔ escaping l.
Proof.
  intros Hl. destruct Hl as [|s l (Hs & H1 & H2 & Hslash) _].
  { split; [by intros [k Hk]|by intros (? & ? & ? & ?)]. }
  assert ([".";"."]%char `prefix_of` join_path (s :: l) ↔ [".";"."]%char `prefix_of` s) as ->.
  { destruct l as [|s' l]; [done|]. change (join_path (s :: s' :: l)) with (s ++ "/"%char :: join_path (s' :: l)).
    split; [|intros [k ->]; rewrite <- app_assoc; by eexists].
    intros [k Hk]. destruct s as [|a [|b s]]; simplify_eq/=. by eexists. }
  split; [intros H; by exists s, l|by intros (? & ? & [= -> ->] & ?)].
Qed.
Lemma join_path_absolute l : Forall named l → head (join_path l) ≠ Some "/"%char.
Proof.
  intros Hl. destruct Hl as [|s l (Hs & _ & _ & Hslash) _]; [done|].
  destruct s as [|c s]; [done|]. apply not_elem_of_cons in Hslash as [Hc _].
  destruct l; simpl; congruence.
Qed.

Section containment.
Context (cwd : string).

(** The guard's test of containment, on where the two paths lead. *)
Lemma isInsideRoot_iff root target :
  isInsideRoot cwd root target = true ↔
  ∃ rest, resolved cwd target = resolved cwd root ++ rest ∧ ¬ escaping rest.
Proof.
  unfold isInsideRoot, path_relative. rewrite !resolved_resolve.
  pose proof (resolved_named cwd target) as Ht. pose proof (resolved_named cwd root) as Hr.
  generalize dependent (resolved cwd target). generalize dependent (resolved cwd root).
  intros r Hr t Ht. rewrite orb_true_iff, andb_true_iff, !negb_true_iff, bool_decide_eq_true.
  destruct (decide (r `prefix_of` t)) as [[rest ->]|Hno].
  - rewrite relative_prefix. apply Forall_app in Ht as [_ Hrest].
    assert (String.prefix ".." (text (join_path rest)) = false ↔ ¬ escaping rest) as Hdots.
    { rewrite <- join_path_dots by done. rewrite <- not_true_iff_false, prefix_chars, chars_text. done. }
    split.
    + intros [E|[E _]]; exists rest; (split; [done|]); [|by apply Hdots].
      apply (f_equal chars) in E. rewrite chars_text in E. apply join_path_nil in E as ->; [|done].
      by intros (? & ? & ? & ?).
    + intros (rest' & E%app_inv_head & Hesc). subst rest'. right. split; [by apply Hdots|].
      apply not_true_iff_false. unfold isAbsolute. rewrite prefix_chars, chars_text.
      intros [k Hk]. apply (join_path_absolute rest Hrest). by rewrite Hk.
  - destruct (relative_outside r t Hno) as [k ->]. split.
    + intros [E|[E _]]; exfalso.
      * apply (f_equal chars) in E. rewrite chars_text in E. by destruct k.
      * apply not_true_iff_false in E. apply E, prefix_chars. rewrite chars_text.
        destruct k; by eexists.
    + intros (rest & -> & _). destruct Hno. by eexists.
Qed.
End containment.

(** The roots a write is held to. *)
Definition write_roots (ctx : FsGuardContext) : list string :=
  match fs_roots ctx with
  | Some roots => if rootsConfigured roots then writeRoots roots else [repoRoot ctx]
  | None => [repoRoot ctx]
  end.
(** Where a write lands. *)
Definition landing_place (cwd : string) (t : string) (ctx : FsGuardContext) : list segment :=
  resolved cwd (absolute_target cwd t ctx).
Definition contained (cwd : string) (roots : list string) (place : list segment) : Prop :=
  ∃ root rest, root ∈ roots ∧ place = resolved cwd root ++ rest ∧ ¬ escaping rest.

Section writes.
Context (cwd : string).
Lemma isInsideAny_iff roots t : isInsideAny cwd roots t = true ↔ contained cwd roots (resolved cwd t).
Proof.
  unfold isInsideAny, contained. rewrite existsb_exists. setoid_rewrite isInsideRoot_iff.
  setoid_rewrite <- list_elem_of_In. naive_solver.
Qed.
Lemma isInsideAny_place roots t t' : resolved cwd t = resolved cwd t' → isInsideAny cwd roots t = isInsideAny cwd roots t'.
Proof. intros E. apply eq_true_iff_eq. by rewrite !isInsideAny_iff, E. Qed.
Lemma classifyRootAccess_iff t roots :
  classifyRootAccess cwd t roots = access_write ↔ contained cwd (writeRoots roots) (resolved cwd t).
Proof.
  unfold classifyRootAccess. rewrite <- (resolved_resolve cwd t), <- isInsideAny_iff.
  destruct (isInsideAny cwd (writeRoots roots) _); [done|]. by destruct (isInsideAny cwd (readRoots roots) _).
Qed.
Lemma classifyRootAccess_place t t' roots :
  resolved cwd t = resolved cwd t' → classifyRootAccess cwd t roots = classifyRootAccess cwd t' roots.
Proof.
  intros E. unfold classifyRootAccess. rewrite (isInsideAny_place _ _ (path_resolve cwd t')) by by rewrite !resolved_resolve.
  by rewrite (isInsideAny_place (readRoots roots) _ (path_resolve cwd t')) by by rewrite !resolved_resolve.
Qed.

(** A write is refused for access exactly when it lands outside every root. *)
Lemma access_refused_iff t ctx :
  access_refused cwd t ctx = None ↔ contained cwd (write_roots ctx) (landing_place cwd t ctx).
Proof.
  unfold access_refused, write_roots, landing_place.
  assert (isInsideRoot cwd (repoRoot ctx) (absolute_target cwd t ctx) = true ↔
    contained cwd [repoRoot ctx] (resolved cwd (absolute_target cwd t ctx))) as Hone.
  { rewrite <- isInsideAny_iff. simpl. by rewrite orb_false_r. }
  destruct (fs_roots ctx) as [roots|]; [destruct (rootsConfigured roots)|].
  - rewrite <- classifyRootAccess_iff. by destruct (classifyRootAccess _ _ _).
  - rewrite <- Hone. by destruct (isInsideRoot _ _ _).
  - rewrite <- Hone. by destruct (isInsideRoot _ _ _).
Qed.
Lemma access_refused_denies t ctx d : access_refused cwd t ctx = Some d → sd_outcome d = outcome_denied.
Proof.
  unfold access_refused. destruct (fs_roots ctx) as [roots|]; [destruct (rootsConfigured roots)|].
  - destruct (classifyRootAccess _ _ _); by intros [= <-].
  - destruct (isInsideRoot _ _ _); by intros [= <-].
  - destruct (isInsideRoot _ _ _); by intros [= <-].
Qed.
End writes.

(** C9: A write the guard lets through, at once or with approval, lands under a
    root the run may write: the place the path leads to, once dots and parent
    steps are worked out, extends a write root's own segment by segment.  And
    the write is let through without approval exactly when it lands so and the
    path it writes, seen from the repository, matches no denied and no
    approval-gated pattern. *)
Theorem checkFileWrite_confined cwd t ctx :
  (sd_outcome (checkFileWrite cwd t ctx) ≠ outcome_denied ↔
   contained cwd (write_roots ctx) (landing_place cwd t ctx) ∧
   ∀ g, g ∈ deny_write_paths (fs_policy ctx) → matchesGlob (written_path cwd t ctx) g = false) ∧
  (sd_allowed (checkFileWrite cwd t ctx) = true ↔
   contained cwd (write_roots ctx) (landing_place cwd t ctx) ∧
   ∀ g, g ∈ deny_write_paths (fs_policy ctx) ++ require_approval_write_paths (fs_policy ctx) →
     matchesGlob (written_path cwd t ctx) g = false).
Proof.
  assert (∀ p l, matchesAnyGlob p l = false ↔ ∀ g, g ∈ l → matchesGlob p g = false) as Hany.
  { intros p l. unfold matchesAnyGlob. rewrite <- not_true_iff_false, existsb_exists.
    setoid_rewrite <- list_elem_of_In. setoid_rewrite <- not_true_iff_false. naive_solver. }
  assert (∀ p l k, (∀ g, g ∈ l ++ k → matchesGlob p g = false) ↔
    matchesAnyGlob p l = false ∧ matchesAnyGlob p k = false) as Happ.
  { intros p l k. rewrite !Hany. setoid_rewrite elem_of_app. naive_solver. }
  rewrite Happ, <- Hany, <- access_refused_iff. unfold checkFileWrite.
  destruct (access_refused cwd t ctx) as [d|] eqn:E.
  - rewrite (access_refused_denies _ _ _ _ E). assert (sd_allowed d = false) as ->; [|naive_solver].
    revert E. unfold access_refused. destruct (fs_roots ctx) as [r|]; repeat case_match; naive_solver.
  - destruct (matchesAnyGlob _ (deny_write_paths _)), (matchesAnyGlob _ (require_approval_write_paths _));
      simpl; naive_solver.
Qed.

(** No spelling of a path gets past the guard: two ways to name the same
    place — absolute or relative, through [.], [..] or doubled slashes — get
    the same verdict under the same rule. *)
Theorem checkFileWrite_spelling cwd t t' ctx :
  landing_place cwd t ctx = landing_place cwd t' ctx →
  sd_outcome (checkFileWrite cwd t ctx) = sd_outcome (checkFileWrite cwd t' ctx) ∧
  sd_rule (checkFileWrite cwd t ctx) = sd_rule (checkFileWrite cwd t' ctx).
Proof.
  unfold landing_place. intros E.
  assert (written_path cwd t ctx = written_path cwd t' ctx) as Ew.
  { unfold written_path, path_relative. by rewrite !resolved_resolve, E. }
  unfold checkFileWrite. rewrite Ew.
  assert (isInsideRoot cwd (repoRoot ctx) (absolute_target cwd t ctx) =
    isInsideRoot cwd (repoRoot ctx) (absolute_target cwd t' ctx)) as Ei.
  { apply eq_true_iff_eq. by rewrite !isInsideRoot_iff, E. }
  unfold access_refused. rewrite Ei. clear Ei.
  destruct (fs_roots ctx) as [roots|]; [destruct (rootsConfigured roots)|].
  1: rewrite (classifyRootAccess_place cwd _ (absolute_target cwd t' ctx) _ E);
    destruct (classifyRootAccess cwd (absolute_target cwd t' ctx) roots); try done.
  all: by destruct (isInsideRoot cwd (repoRoot ctx) (absolute_target cwd t' ctx)).
Qed.
Definition two_roots : FsGuardContext :=
  mk_FsGuardContext "/w/app" default_filesystem_policy (Some (mk_RootSet ["/w/app"; "/w/lib"] [])).
Lemma checkFileWrite_spelling_witness :
  landing_place "/" "../lib//./x.ts" two_roots = landing_place "/" "/w/lib/x.ts" two_roots ∧
  sd_outcome (checkFileWrite "/" "../lib//./x.ts" two_roots) = sd_outcome (checkFileWrite "/" "/w/lib/x.ts" two_roots).
Proof.
  split; [vm_compute; reflexivity|]. apply checkFileWrite_spelling. vm_compute. reflexivity.
Defined.

(** The deny list is read from the first repository: under a second write root
    the patterns anchored at the top, [.git/**] among them, do not apply. *)
Example second_root_git :
  sd_allowed (checkFileWrite "/" "/w/lib/.git/config" two_roots) = true ∧
  sd_rule (checkFileWrite "/" "/w/app/.git/config" two_roots) = Some "fs.denied_path".
Proof. split; vm_compute; reflexivity. Qed.
