(* ===== verification/Lore.v ===== *)
(** * Team lore ([src/packages/memory/src/core/lore.ts])

    The memory service's records and their lifecycle: the tables of
    [db/migrations.ts] as one record, and every write of [lore.ts] as a
    computation on it.  A person adds, approves, edits, retires and deletes; an
    agent suggests drafts and reports conflicts, through the handlers of
    [mcp/tools/lore.ts].  The searches ([searchLore] and its ranking) are left
    to the full-text engine and are not modelled.  The same database holds the
    tables of [Boundaries] and [Recall]. *)
From Stdlib Require Import Ascii.
From S2P Require Import Prelude Json JsonParse Types EventChain Store Diff Landing.

(** ** Data ([db/types.ts]) *)

Inductive LoreStatus := lore_draft | lore_active | lore_deprecated | lore_superseded.
#[export] Instance LoreStatus_eq_dec : EqDecision LoreStatus.
Proof. solve_decision. Defined.
Inductive LoreConfidence := conf_low | conf_medium | conf_high.
#[export] Instance LoreConfidence_eq_dec : EqDecision LoreConfidence.
Proof. solve_decision. Defined.
Inductive LoreKind :=
  kind_decision | kind_requirement | kind_non_goal | kind_convention | kind_gotcha | kind_other.
#[export] Instance LoreKind_eq_dec : EqDecision LoreKind.
Proof. solve_decision. Defined.
Definition LORE_KINDS : list LoreKind :=
  [kind_decision; kind_requirement; kind_non_goal; kind_convention; kind_gotcha; kind_other].
Definition kind_name (k : LoreKind) : string :=
  match k with
  | kind_decision => "decision" | kind_requirement => "requirement" | kind_non_goal => "non-goal"
  | kind_convention => "convention" | kind_gotcha => "gotcha" | kind_other => "other"
  end.

Record LoreRow := mk_LoreRow {
  lr_rowid : Z;
  lr_id : string;
  lr_title : string;
  lr_summary : string;
  lr_body : string;
  lr_author : option string;
  lr_team : option string;
  lr_status : LoreStatus;
  lr_kind : LoreKind;
  lr_source : option string;
  lr_review_after : option string;
  lr_confidence : LoreConfidence;
  lr_superseded_by : option string;
  lr_restricted : bool;
  lr_created_at : string;
  lr_updated_at : string;
  lr_last_verified_at : option string;
  lr_conflicts_with : option string;
  lr_spec_id : option string;
  lr_clause_id : option string;
  lr_flagged_for_review : bool
}.
#[export] Instance LoreRow_eq_dec : EqDecision LoreRow.
Proof. solve_decision. Defined.
Definition set_lr_status (v : LoreStatus) (r : LoreRow) : LoreRow :=
  mk_LoreRow (lr_rowid r) (lr_id r) (lr_title r) (lr_summary r) (lr_body r) (lr_author r) (lr_team r) v (lr_kind r) (lr_source r) (lr_review_after r) (lr_confidence r) (lr_superseded_by r) (lr_restricted r) (lr_created_at r) (lr_updated_at r) (lr_last_verified_at r) (lr_conflicts_with r) (lr_spec_id r) (lr_clause_id r) (lr_flagged_for_review r).
Definition set_lr_confidence (v : LoreConfidence) (r : LoreRow) : LoreRow :=
  mk_LoreRow (lr_rowid r) (lr_id r) (lr_title r) (lr_summary r) (lr_body r) (lr_author r) (lr_team r) (lr_status r) (lr_kind r) (lr_source r) (lr_review_after r) v (lr_superseded_by r) (lr_restricted r) (lr_created_at r) (lr_updated_at r) (lr_last_verified_at r) (lr_conflicts_with r) (lr_spec_id r) (lr_clause_id r) (lr_flagged_for_review r).
Definition set_lr_superseded_by (v : option string) (r : LoreRow) : LoreRow :=
  mk_LoreRow (lr_rowid r) (lr_id r) (lr_title r) (lr_summary r) (lr_body r) (lr_author r) (lr_team r) (lr_status r) (lr_kind r) (lr_source r) (lr_review_after r) (lr_confidence r) v (lr_restricted r) (lr_created_at r) (lr_updated_at r) (lr_last_verified_at r) (lr_conflicts_with r) (lr_spec_id r) (lr_clause_id r) (lr_flagged_for_review r).
Definition set_lr_updated_at (v : string) (r : LoreRow) : LoreRow :=
  mk_LoreRow (lr_rowid r) (lr_id r) (lr_title r) (lr_summary r) (lr_body r) (lr_author r) (lr_team r) (lr_status r) (lr_kind r) (lr_source r) (lr_review_after r) (lr_confidence r) (lr_superseded_by r) (lr_restricted r) (lr_created_at r) v (lr_last_verified_at r) (lr_conflicts_with r) (lr_spec_id r) (lr_clause_id r) (lr_flagged_for_review r).
Definition set_lr_last_verified_at (v : option string) (r : LoreRow) : LoreRow :=
  mk_LoreRow (lr_rowid r) (lr_id r) (lr_title r) (lr_summary r) (lr_body r) (lr_author r) (lr_team r) (lr_status r) (lr_kind r) (lr_source r) (lr_review_after r) (lr_confidence r) (lr_superseded_by r) (lr_restricted r) (lr_created_at r) (lr_updated_at r) v (lr_conflicts_with r) (lr_spec_id r) (lr_clause_id r) (lr_flagged_for_review r).
Definition set_lr_conflicts_with (v : option string) (r : LoreRow) : LoreRow :=
  mk_LoreRow (lr_rowid r) (lr_id r) (lr_title r) (lr_summary r) (lr_body r) (lr_author r) (lr_team r) (lr_status r) (lr_kind r) (lr_source r) (lr_review_after r) (lr_confidence r) (lr_superseded_by r) (lr_restricted r) (lr_created_at r) (lr_updated_at r) (lr_last_verified_at r) v (lr_spec_id r) (lr_clause_id r) (lr_flagged_for_review r).
Definition set_lr_flagged_for_review (v : bool) (r : LoreRow) : LoreRow :=
  mk_LoreRow (lr_rowid r) (lr_id r) (lr_title r) (lr_summary r) (lr_body r) (lr_author r) (lr_team r) (lr_status r) (lr_kind r) (lr_source r) (lr_review_after r) (lr_confidence r) (lr_superseded_by r) (lr_restricted r) (lr_created_at r) (lr_updated_at r) (lr_last_verified_at r) (lr_conflicts_with r) (lr_spec_id r) (lr_clause_id r) v.

(** A row of the full-text index, of the version history, of the vectors (the
    vector itself is not read by anything modelled) and of the audit ledger. *)
Record FtsRow := mk_FtsRow { fts_rowid : Z; fts_title : string; fts_summary : string; fts_body : string }.
Record LoreVersionRow := mk_LoreVersionRow {
  lv_lore_id : string;
  lv_version : Z;
  lv_title : string;
  lv_summary : string;
  lv_body : string;
  lv_author : option string;
  lv_team : option string;
  lv_source : option string;
  lv_confidence : LoreConfidence;
  lv_kind : LoreKind;
  lv_restricted : bool;
  lv_review_after : option string;
  lv_status : LoreStatus;
  lv_snapshot_of : string;
  lv_replaced_at : string
}.
Record EmbeddingRow := mk_EmbeddingRow {
  em_lore_id : string; em_model : string; em_text_hash : string; em_updated_at : string
}.
Record LoreEvent := mk_LoreEvent { le_lore_id : option string; le_kind : string; le_ts : string; le_payload : option string }.
#[export] Instance LoreEvent_eq_dec : EqDecision LoreEvent.
Proof. solve_decision. Defined.

(** An edge of the cross-repo map. *)
Inductive BoundaryRole := role_provides | role_consumes.
#[export] Instance BoundaryRole_eq_dec : EqDecision BoundaryRole.
Proof. solve_decision. Defined.
Inductive BoundaryStatus := boundary_draft | boundary_active | boundary_deprecated.
#[export] Instance BoundaryStatus_eq_dec : EqDecision BoundaryStatus.
Proof. solve_decision. Defined.
Record BoundaryRow := mk_BoundaryRow {
  br_id : string;
  br_repo : string;
  br_contract : string;
  br_role : BoundaryRole;
  br_kind : option string;
  br_status : BoundaryStatus;
  br_detail : option string;
  br_source : option string;
  br_author : option string;
  br_created_at : string;
  br_updated_at : string
}.
#[export] Instance BoundaryRow_eq_dec : EqDecision BoundaryRow.
Proof. solve_decision. Defined.

(** What was served into a ticket's context, what an agent fetched for it, and
    the outcomes applied. *)
Inductive RecallItemType := item_lore | item_card.
#[export] Instance RecallItemType_eq_dec : EqDecision RecallItemType.
Proof. solve_decision. Defined.
Inductive RecallOutcome := outcome_clean | outcome_reworked | outcome_blocked.
#[export] Instance RecallOutcome_eq_dec : EqDecision RecallOutcome.
Proof. solve_decision. Defined.
Record RecallEvent := mk_RecallEvent {
  re_id : string; re_repo : string; re_ticket : string; re_item_type : RecallItemType; re_item_id : string;
  re_served_at : string
}.
Record RetrievalEvent := mk_RetrievalEvent {
  rv_repo : string; rv_ticket : string; rv_item_type : string; rv_item_id : string; rv_tool : string
}.
Record RecallFeedbackRow := mk_RecallFeedbackRow {
  rfb_id : string; rfb_repo : string; rfb_ticket : string; rfb_outcome : RecallOutcome; rfb_items_adjusted : nat;
  rfb_applied_at : string
}.
(** A file card, as far as the feedback reads and writes it. *)
Record FileCardRow := mk_FileCardRow { fc_flagged_for_review : bool; fc_updated_at : string }.

(** The database, the clock and how much randomness has been drawn. *)
Record lore_db := mk_lore_db {
  lore : gmap string LoreRow;
  lore_fts : list FtsRow;
  lore_repos : list (string * string);
  lore_tags : list (string * string);
  lore_version : list LoreVersionRow;
  lore_embeddings : list EmbeddingRow;
  lore_events : list LoreEvent;
  boundaries : list BoundaryRow;
  recall_event : list RecallEvent;
  retrieval_event : list RetrievalEvent;
  recall_feedback : list RecallFeedbackRow;
  file_card : gmap string FileCardRow;
  lore_clock : instant;
  lore_entropy : nat
}.
Definition set_lore (v : gmap string LoreRow) (d : lore_db) : lore_db := mk_lore_db v (lore_fts d) (lore_repos d) (lore_tags d) (lore_version d) (lore_embeddings d) (lore_events d) (boundaries d) (recall_event d) (retrieval_event d) (recall_feedback d) (file_card d) (lore_clock d) (lore_entropy d).
Definition set_lore_fts (v : list FtsRow) (d : lore_db) : lore_db := mk_lore_db (lore d) v (lore_repos d) (lore_tags d) (lore_version d) (lore_embeddings d) (lore_events d) (boundaries d) (recall_event d) (retrieval_event d) (recall_feedback d) (file_card d) (lore_clock d) (lore_entropy d).
Definition set_lore_repos (v : list (string * string)) (d : lore_db) : lore_db := mk_lore_db (lore d) (lore_fts d) v (lore_tags d) (lore_version d) (lore_embeddings d) (lore_events d) (boundaries d) (recall_event d) (retrieval_event d) (recall_feedback d) (file_card d) (lore_clock d) (lore_entropy d).
Definition set_lore_tags (v : list (string * string)) (d : lore_db) : lore_db := mk_lore_db (lore d) (lore_fts d) (lore_repos d) v (lore_version d) (lore_embeddings d) (lore_events d) (boundaries d) (recall_event d) (retrieval_event d) (recall_feedback d) (file_card d) (lore_clock d) (lore_entropy d).
Definition set_lore_version (v : list LoreVersionRow) (d : lore_db) : lore_db := mk_lore_db (lore d) (lore_fts d) (lore_repos d) (lore_tags d) v (lore_embeddings d) (lore_events d) (boundaries d) (recall_event d) (retrieval_event d) (recall_feedback d) (file_card d) (lore_clock d) (lore_entropy d).
Definition set_lore_embeddings (v : list EmbeddingRow) (d : lore_db) : lore_db := mk_lore_db (lore d) (lore_fts d) (lore_repos d) (lore_tags d) (lore_version d) v (lore_events d) (boundaries d) (recall_event d) (retrieval_event d) (recall_feedback d) (file_card d) (lore_clock d) (lore_entropy d).
Definition set_lore_events (v : list LoreEvent) (d : lore_db) : lore_db := mk_lore_db (lore d) (lore_fts d) (lore_repos d) (lore_tags d) (lore_version d) (lore_embeddings d) v (boundaries d) (recall_event d) (retrieval_event d) (recall_feedback d) (file_card d) (lore_clock d) (lore_entropy d).
Definition set_boundaries (v : list BoundaryRow) (d : lore_db) : lore_db := mk_lore_db (lore d) (lore_fts d) (lore_repos d) (lore_tags d) (lore_version d) (lore_embeddings d) (lore_events d) v (recall_event d) (retrieval_event d) (recall_feedback d) (file_card d) (lore_clock d) (lore_entropy d).
Definition set_recall_event (v : list RecallEvent) (d : lore_db) : lore_db := mk_lore_db (lore d) (lore_fts d) (lore_repos d) (lore_tags d) (lore_version d) (lore_embeddings d) (lore_events d) (boundaries d) v (retrieval_event d) (recall_feedback d) (file_card d) (lore_clock d) (lore_entropy d).
Definition set_retrieval_event (v : list RetrievalEvent) (d : lore_db) : lore_db := mk_lore_db (lore d) (lore_fts d) (lore_repos d) (lore_tags d) (lore_version d) (lore_embeddings d) (lore_events d) (boundaries d) (recall_event d) v (recall_feedback d) (file_card d) (lore_clock d) (lore_entropy d).
Definition set_recall_feedback (v : list RecallFeedbackRow) (d : lore_db) : lore_db := mk_lore_db (lore d) (lore_fts d) (lore_repos d) (lore_tags d) (lore_version d) (lore_embeddings d) (lore_events d) (boundaries d) (recall_event d) (retrieval_event d) v (file_card d) (lore_clock d) (lore_entropy d).
Definition set_file_card (v : gmap string FileCardRow) (d : lore_db) : lore_db := mk_lore_db (lore d) (lore_fts d) (lore_repos d) (lore_tags d) (lore_version d) (lore_embeddings d) (lore_events d) (boundaries d) (recall_event d) (retrieval_event d) (recall_feedback d) v (lore_clock d) (lore_entropy d).
Definition set_lore_entropy (v : nat) (d : lore_db) : lore_db := mk_lore_db (lore d) (lore_fts d) (lore_repos d) (lore_tags d) (lore_version d) (lore_embeddings d) (lore_events d) (boundaries d) (recall_event d) (retrieval_event d) (recall_feedback d) (file_card d) (lore_clock d) v.

Inductive ReportConflictRefusal :=
  unknown_existing_id | non_active_existing_record | restricted_existing_record | empty_observation
| observation_too_long.
#[export] Instance ReportConflictRefusal_eq_dec : EqDecision ReportConflictRefusal.
Proof. solve_decision. Defined.
Inductive lore_error :=
| LoreError (message : string)
| ReportConflictError (reason : ReportConflictRefusal) (message : string)
| LoreConstraint (what : string)
| SupersedeAborted.
Abbreviation LOp := (M lore_db lore_error).

(** What the service calls that is not its own: the environment the rest of
    the control plane has, the random source, [Date.parse] and the scheme of
    [new URL(..)]. *)
Class LoreEnv := {
  lore_base :: Env;
  randomBytes : nat → list Z;
  Date_parse : string → option Z;
  URL_protocol : string → option string
}.

(** ** Inputs *)

Record AddLoreInput := mk_AddLoreInput {
  ai_title : string;
  ai_summary : string;
  ai_body : string;
  ai_author : option string;
  ai_team : option string;
  ai_kind : option string;
  ai_source : option string;
  ai_reviewAfter : option string;
  ai_confidence : option LoreConfidence;
  ai_repos : option (list string);
  ai_tags : option (list string);
  ai_restricted : option bool;
  ai_specId : option string;
  ai_clauseId : option string
}.
(** [reviewAfter] is absent, [null] or a date. *)
Record UpdateLoreInput := mk_UpdateLoreInput {
  ui_title : option string;
  ui_summary : option string;
  ui_body : option string;
  ui_author : option string;
  ui_team : option string;
  ui_kind : option string;
  ui_source : option string;
  ui_reviewAfter : option (option string);
  ui_confidence : option LoreConfidence;
  ui_repos : option (list string);
  ui_tags : option (list string);
  ui_restricted : option bool
}.
Record ImportLoreInput := mk_ImportLoreInput {
  ii_id : string;
  ii_title : string;
  ii_summary : string;
  ii_body : string;
  ii_status : LoreStatus;
  ii_author : option string;
  ii_team : option string;
  ii_kind : option string;
  ii_source : option string;
  ii_reviewAfter : option string;
  ii_confidence : option LoreConfidence;
  ii_repos : option (list string);
  ii_tags : option (list string);
  ii_restricted : option bool;
  ii_supersededBy : option string;
  ii_createdAt : option string;
  ii_updatedAt : option string;
  ii_lastVerifiedAt : option string;
  ii_conflictsWith : option (list string);
  ii_specId : option string;
  ii_clauseId : option string
}.
Record ReportConflictInput := mk_ReportConflictInput {
  rc_existingId : string;
  rc_observation : string;
  rc_source : option string;
  rc_repos : option (list string);
  rc_tags : option (list string)
}.
(** The public record ([Lore]). *)
Record Lore := mk_Lore {
  lo_id : string;
  lo_title : string;
  lo_summary : string;
  lo_body : string;
  lo_author : option string;
  lo_team : option string;
  lo_status : LoreStatus;
  lo_kind : LoreKind;
  lo_source : option string;
  lo_reviewAfter : option string;
  lo_confidence : LoreConfidence;
  lo_supersededBy : option string;
  lo_restricted : bool;
  lo_repos : list string;
  lo_tags : list string;
  lo_createdAt : string;
  lo_updatedAt : string;
  lo_lastVerifiedAt : option string;
  lo_conflictsWith : option (list string);
  lo_specId : option string;
  lo_clauseId : option string
}.

(** ** Pure helpers *)

(** [if (s)] on an optional text: absent and empty are both false. *)
Definition truthy (s : option string) : bool := match s with Some s => negb (bool_decide (s = "")) | None => false end.
(** [String.replace(/\s+/g, "-")]: a run of white space is one dash. *)
Fixpoint hyphenate (in_run : bool) (l : list ascii) : list ascii :=
  match l with
  | [] => []
  | c :: r => if is_space c then (if in_run then hyphenate true r else "-"%char :: hyphenate true r)
              else c :: hyphenate false r
  end.
Definition normaliseTag (t : string) : string :=
  String.string_of_list_ascii (hyphenate false (String.list_ascii_of_string (toLowerCase (trim t)))).
Definition normaliseRepo (r : string) : string := trim r.
(** [Array.from(new Set(xs.map(f).filter(Boolean))).sort()] *)
Definition sorted_set (f : string → string) (xs : option (list string)) : list string :=
  merge_sort str_le (remove_dups (filter (λ s, s ≠ "") (f <$> (xs ?? [])))).
Definition clampConfidence (requested : option LoreConfidence) (hasSource : bool) (status : LoreStatus)
    : LoreConfidence :=
  let c := requested ?? conf_medium in
  let c := if bool_decide (status = lore_draft) && bool_decide (c = conf_high) then conf_medium else c in
  if bool_decide (c = conf_high) && negb hasSource then conf_medium else c.
Definition parseConflictsWith (raw : option string) : option (list string) :=
  match raw with
  | None => None
  | Some s =>
      match JSON_parse s with
      | Some (JSArr (x :: xs)) => mapM (λ v, match v with JSStr s => Some s | _ => None end) (x :: xs)
      | _ => None
      end
  end.
Definition rowToLore (row : LoreRow) (repos tags : list string) : Lore :=
  mk_Lore (lr_id row) (lr_title row) (lr_summary row) (lr_body row) (lr_author row) (lr_team row) (lr_status row)
    (lr_kind row) (lr_source row) (lr_review_after row) (lr_confidence row) (lr_superseded_by row)
    (lr_restricted row) repos tags (lr_created_at row) (lr_updated_at row) (lr_last_verified_at row)
    (parseConflictsWith (lr_conflicts_with row)) (lr_spec_id row) (lr_clause_id row).
Definition nl : string := String newline EmptyString.
Definition loreEmbeddingText (title summary : string) : string :=
  title +:+ nl +:+ title +:+ nl +:+ summary.

Section operations.
Context `{!LoreEnv}.

(** ** Validation at the write boundary *)

Definition parse_kind (k : string) : option LoreKind :=
  head (filter (λ x, kind_name x = k) LORE_KINDS).
Definition normaliseKind (kind : option string) : LOp LoreKind :=
  match kind with
  | None => mret kind_other
  | Some k =>
      match parse_kind k with
      | Some x => mret x
      | None => throw (LoreError ("kind: '" +:+ k +:+ "' is not one of " +:+ comma_list (kind_name <$> LORE_KINDS)))
      end
  end.
Definition assertIsoDate (value : option string) (field : string) : LOp unit :=
  match value with
  | Some v => guard_ (bool_decide (is_Some (Date_parse v)))
                (LoreError (field +:+ ": '" +:+ v +:+ "' is not a valid ISO-8601 date"))
  | None => mret tt
  end.
Definition assertHttpUrl (value : option string) (field : string) : LOp unit :=
  match value with
  | None => mret tt
  | Some v =>
      if bool_decide (v = "") then mret tt
      else match URL_protocol v with
           | None => throw (LoreError (field +:+ ": '" +:+ v +:+ "' is not a valid URL"))
           | Some p => guard_ (bool_decide (p = "http:" ∨ p = "https:"))
               (LoreError (field +:+ ": '" +:+ v +:+ "' must be an http(s) URL (got " +:+ p +:+ ")"))
           end
  end.
Definition lore_nowIso : LOp string := gets (λ d, toISOString (lore_clock d)).
Definition isStale (reviewAfter : option string) (d : lore_db) : bool :=
  match reviewAfter with
  | Some r => if bool_decide (r = "") then false
              else match Date_parse r with Some t => bool_decide (t < lore_clock d)%Z | None => false end
  | None => false
  end.
Definition ALPHABET : list ascii := String.list_ascii_of_string "23456789ABCDEFGHJKMNPQRSTVWXYZ".
Definition newLoreId : LOp string := λ d,
  let bytes := take 8 (randomBytes (lore_entropy d)) in
  Ok (toLowerCase (String.string_of_list_ascii ((λ b, nth (Z.to_nat (b mod 30)) ALPHABET "2"%char) <$> bytes)))
     (set_lore_entropy (S (lore_entropy d)) d).

(** ** Statements *)

Definition lore_rows (d : lore_db) : list LoreRow := order_by lr_rowid (rows (lore d)).
Definition next_rowid (d : lore_db) : Z := (foldr Z.max 0 (lr_rowid <$> rows (lore d)) + 1)%Z.
(** [INSERT INTO lore]: the implicit rowid is one past the largest. *)
Definition insert_lore (r : LoreRow) : LOp Z := λ d,
  match lore d !! lr_id r with
  | Some _ => Err (LoreConstraint "lore.id")
  | None => Ok (lr_rowid r) (set_lore (<[lr_id r := r]> (lore d)) d)
  end.
Definition update_lore_row (id : string) (f : LoreRow → LoreRow) : LOp bool := λ d,
  match lore d !! id with
  | Some r => Ok true (set_lore (<[id := f r]> (lore d)) d)
  | None => Ok false d
  end.
(** [DELETE FROM lore WHERE id = ?]: repos and tags cascade by their foreign
    keys, versions by the trigger [lore_version_ad]. *)
Definition delete_lore_row (id : string) (d : lore_db) : lore_db :=
  match lore d !! id with
  | None => d
  | Some _ =>
      set_lore_version (filter (λ v, lv_lore_id v ≠ id) (lore_version d)) $
      set_lore_tags (filter (λ p, p.1 ≠ id) (lore_tags d)) $
      set_lore_repos (filter (λ p, p.1 ≠ id) (lore_repos d)) $
      set_lore (delete id (lore d)) d
  end.
Definition fts_delete (rowid : Z) (d : lore_db) : lore_db :=
  set_lore_fts (filter (λ f, fts_rowid f ≠ rowid) (lore_fts d)) d.
Definition fts_insert (f : FtsRow) : LOp unit := λ d,
  if existsb (λ g, bool_decide (fts_rowid g = fts_rowid f)) (lore_fts d) then Err (LoreConstraint "lore_fts.rowid")
  else Ok tt (set_lore_fts (lore_fts d ++ [f]) d).
Definition event_insert (id kind ts : string) (payload : option string) : LOp unit :=
  modify (λ d, set_lore_events (lore_events d ++ [mk_LoreEvent (Some id) kind ts payload]) d).
(** A row of [lore_repos] or [lore_tags]: the pair is the primary key. *)
Definition repo_insert (id repo : string) : LOp unit := λ d,
  if bool_decide ((id, repo) ∈ lore_repos d) then Err (LoreConstraint "lore_repos")
  else if bool_decide (lore d !! id = None) then Err (LoreConstraint "foreign key")
  else Ok tt (set_lore_repos (lore_repos d ++ [(id, repo)]) d).
Definition tag_insert (id tag : string) : LOp unit := λ d,
  if bool_decide ((id, tag) ∈ lore_tags d) then Err (LoreConstraint "lore_tags")
  else if bool_decide (lore d !! id = None) then Err (LoreConstraint "foreign key")
  else Ok tt (set_lore_tags (lore_tags d ++ [(id, tag)]) d).
(** [INSERT OR IGNORE] *)
Definition repo_insert_or_ignore (id repo : string) : LOp unit := λ d,
  if bool_decide ((id, repo) ∈ lore_repos d) then Ok tt d else repo_insert id repo d.
Definition tag_insert_or_ignore (id tag : string) : LOp unit := λ d,
  if bool_decide ((id, tag) ∈ lore_tags d) then Ok tt d else tag_insert id tag d.
Definition reposOf (id : string) (d : lore_db) : list string :=
  merge_sort str_le ((filter (λ p, p.1 = id) (lore_repos d)).*2).
Definition tagsOf (id : string) (d : lore_db) : list string :=
  merge_sort str_le ((filter (λ p, p.1 = id) (lore_tags d)).*2).
Definition replace_repos (id : string) (repos : list string) : LOp unit :=
  modify (λ d, set_lore_repos (filter (λ p, p.1 ≠ id) (lore_repos d)) d) ≫= λ _,
  for_each repos (repo_insert id).
Definition replace_tags (id : string) (tags : list string) : LOp unit :=
  modify (λ d, set_lore_tags (filter (λ p, p.1 ≠ id) (lore_tags d)) d) ≫= λ _,
  for_each tags (tag_insert id).

Definition HASHED_NGRAM_MODEL : string := "hashed-ngram-v1".
Definition is_embedding_of (id : string) (e : EmbeddingRow) : bool :=
  bool_decide (em_lore_id e = id ∧ em_model e = HASHED_NGRAM_MODEL).
(** [ON CONFLICT(lore_id, model) DO UPDATE]: the row keeps its place. *)
Definition refreshLoreEmbedding (id title summary : string) : LOp unit := λ d,
  let hash := sha256_hex (loreEmbeddingText title summary) in
  let fresh := mk_EmbeddingRow id HASHED_NGRAM_MODEL hash (toISOString (lore_clock d)) in
  match head (filter (λ e, is_embedding_of id e = true) (lore_embeddings d)) with
  | Some e =>
      if bool_decide (em_text_hash e = hash) then Ok tt d
      else Ok tt (set_lore_embeddings ((λ e, if is_embedding_of id e then fresh else e) <$> lore_embeddings d) d)
  | None => Ok tt (set_lore_embeddings (lore_embeddings d ++ [fresh]) d)
  end.
Definition snapshotLoreVersion (row : LoreRow) (replacedAt : string) : LOp unit :=
  modify (λ d,
    let mine := filter (λ v, lv_lore_id v = lr_id row) (lore_version d) in
    let next := (foldr Z.max 0 (lv_version <$> mine) + 1)%Z in
    set_lore_version (lore_version d ++
      [mk_LoreVersionRow (lr_id row) next (lr_title row) (lr_summary row) (lr_body row) (lr_author row) (lr_team row)
         (lr_source row) (lr_confidence row) (lr_kind row) (lr_restricted row) (lr_review_after row) (lr_status row)
         (lr_updated_at row) replacedAt]) d).
Definition listLoreVersions (id : string) (d : lore_db) : list LoreVersionRow :=
  order_by (λ v, (- lv_version v)%Z) (filter (λ v, lv_lore_id v = id) (lore_version d)).

(** ** Reads *)

(** [JSON.stringify] of an object of texts. *)
Definition json_of (members : list (string * js)) : option string := JSON_stringify (JSObj members).
Definition env_set (name : string) : bool := truthy (process_env name).
Definition recordRead (ids : list string) (via : string) : LOp unit :=
  if bool_decide (length ids = 0%nat) || env_set "MEMORY_NO_TELEMETRY" || env_set "MEMORY_AUDIT_OFF" then mret tt
  else
    lore_nowIso ≫= λ ts,
    for_each ids (λ id, event_insert id "read" ts (json_of [("via", JSStr via)])).
Definition getLore (id : string) (record : bool) : LOp (option Lore) :=
  gets (λ d, lore d !! id) ≫= λ row,
  match row with
  | None => mret None
  | Some row =>
      when record (recordRead [id] "get") ≫= λ _,
      gets (λ d, Some (rowToLore row (reposOf id d) (tagsOf id d)))
  end.

(** ** Writing a record *)

Definition insertLore (input : AddLoreInput) (status : LoreStatus) : LOp Lore :=
  newLoreId ≫= λ id,
  lore_nowIso ≫= λ ts,
  let repos := sorted_set normaliseRepo (ai_repos input) in
  let tags := sorted_set normaliseTag (ai_tags input) in
  let confidence := clampConfidence (ai_confidence input) (truthy (ai_source input)) status in
  normaliseKind (ai_kind input) ≫= λ kind,
  assertIsoDate (ai_reviewAfter input) "reviewAfter" ≫= λ _,
  assertHttpUrl (ai_source input) "source" ≫= λ _,
  gets next_rowid ≫= λ rowid,
  insert_lore (mk_LoreRow rowid id (ai_title input) (ai_summary input) (ai_body input) (ai_author input)
    (ai_team input) status kind (ai_source input) (ai_reviewAfter input) confidence None
    (ai_restricted input ?? false) ts ts None None (ai_specId input) (ai_clauseId input) false) ≫= λ rowid,
  fts_insert (mk_FtsRow rowid (ai_title input) (ai_summary input) (ai_body input)) ≫= λ _,
  refreshLoreEmbedding id (ai_title input) (ai_summary input) ≫= λ _,
  for_each repos (repo_insert_or_ignore id) ≫= λ _,
  for_each tags (tag_insert_or_ignore id) ≫= λ _,
  event_insert id (if bool_decide (status = lore_draft) then "suggested" else "created") ts None ≫= λ _,
  gets (λ d, lore d !! id) ≫= λ row,
  require row (LoreConstraint "lore.id") ≫= λ row,
  mret (rowToLore row repos tags).
Definition addLore (input : AddLoreInput) : LOp Lore := insertLore input lore_active.
Definition REVIEW_RULE_TAG : string := "review-rule".
Definition suggestLore (input : AddLoreInput) (autoApprove : bool) : LOp Lore :=
  let reviewRule := existsb (λ t, bool_decide (normaliseTag t = REVIEW_RULE_TAG)) (ai_tags input ?? []) in
  insertLore input (if autoApprove && negb reviewRule then lore_active else lore_draft).

Definition REPORT_CONFLICT_OBSERVATION_MAX : nat := 800.
Definition REPORT_CONFLICT_TITLE_FRAGMENT_MAX : nat := 60.
Definition refuse_conflict {A} (reason : ReportConflictRefusal) (message : string) : LOp A :=
  throw (ReportConflictError reason ("reportConflict: " +:+ message)).
Definition counter_record (input : ReportConflictInput) : AddLoreInput :=
  let obs := trim (rc_observation input) in
  let fragment := if bool_decide (REPORT_CONFLICT_TITLE_FRAGMENT_MAX < String.length obs)%nat
                  then String.substring 0 59 obs +:+ "…" else obs in
  mk_AddLoreInput ("[conflict-report] " +:+ fragment) obs
    (obs +:+ nl +:+ nl +:+ "---" +:+ nl +:+ "Counter-claim against `" +:+ rc_existingId input +:+ "`. "
     +:+ "Approve to make this disagreement canonical; reject if the original record is right; "
     +:+ "or use `memory supersede` / `memory update` to resolve." +:+ nl)
    (Some "agent") None None (rc_source input) None None (rc_repos input)
    (Some ("conflict-report" :: (rc_tags input ?? []))) None None None.
Definition reportConflict (input : ReportConflictInput) : LOp Lore :=
  let observation := rc_observation input in
  let existingId := rc_existingId input in
  if bool_decide (trim observation = "") then
    refuse_conflict empty_observation "observation must be a non-empty string"
  else if bool_decide (REPORT_CONFLICT_OBSERVATION_MAX < String.length observation)%nat then
    refuse_conflict observation_too_long ("observation " +:+ pretty (Z.of_nat (String.length observation))
      +:+ " chars exceeds cap " +:+ pretty (Z.of_nat REPORT_CONFLICT_OBSERVATION_MAX))
  else
    gets (λ d, lore d !! existingId) ≫= λ existing,
    match existing with
    | None => refuse_conflict unknown_existing_id ("existingId '" +:+ existingId +:+ "' not found")
    | Some existing =>
        if negb (bool_decide (lr_status existing = lore_active)) then
          refuse_conflict non_active_existing_record
            ("existing record '" +:+ existingId +:+ "' is "
             +:+ match lr_status existing with
                 | lore_draft => "draft" | lore_active => "active"
                 | lore_deprecated => "deprecated" | lore_superseded => "superseded"
                 end +:+ ", not active")
        else if lr_restricted existing then
          refuse_conflict restricted_existing_record ("existing record '" +:+ existingId +:+ "' is restricted")
        else
          insertLore (counter_record input) lore_draft ≫= λ draft,
          update_lore_row (lo_id draft)
            (set_lr_conflicts_with (JSON_stringify (JSArr [JSStr existingId]))) ≫= λ _,
          lore_nowIso ≫= λ ts,
          event_insert existingId "conflict_reported" ts (json_of [("counterDraftId", JSStr (lo_id draft))]) ≫= λ _,
          getLore (lo_id draft) false ≫= λ l,
          require l (LoreConstraint "lore.id")
    end.

(** ** The lifecycle *)

(** [approveLore]'s statement: only a draft is promoted. *)
Definition approve_row (ts : string) (id : string) : LOp bool := λ d,
  match lore d !! id with
  | Some r =>
      if bool_decide (lr_status r = lore_draft)
      then Ok true (set_lore (<[id := set_lr_status lore_active (set_lr_updated_at ts r)]> (lore d)) d)
      else Ok false d
  | None => Ok false d
  end.
Definition approveLore (id : string) : LOp (option Lore) :=
  lore_nowIso ≫= λ ts,
  approve_row ts id ≫= λ changed : bool,
  if changed then event_insert id "approved" ts None ≫= λ _, getLore id false else mret None.
Definition deprecateLore (id : string) : LOp (option Lore) :=
  lore_nowIso ≫= λ ts,
  update_lore_row id (λ r, set_lr_status lore_deprecated (set_lr_updated_at ts r)) ≫= λ changed : bool,
  if changed then event_insert id "deprecated" ts None ≫= λ _, getLore id false else mret None.

Inductive SupersedeRefusal := same_id | not_found_lore | replacement_not_active | old_not_active.
Definition supersedeRefusal (oldId newId : string) (d : lore_db) : option SupersedeRefusal :=
  if bool_decide (oldId = newId) then Some same_id
  else match lore d !! newId, lore d !! oldId with
       | Some replacement, Some old =>
           if negb (bool_decide (lr_status old = lore_active)) then Some old_not_active
           else if negb (bool_decide (lr_status replacement = lore_active)) then Some replacement_not_active
           else None
       | _, _ => Some not_found_lore
       end.
Definition supersede_tx (oldId newId ts : string) (approveReplacement : bool) : LOp bool :=
  when approveReplacement
    (approve_row ts newId ≫= λ changed : bool, when changed (event_insert newId "approved" ts None)) ≫= λ _,
  gets (supersedeRefusal oldId newId) ≫= λ refusal,
  match refusal with
  | Some _ => if approveReplacement then throw SupersedeAborted else mret false
  | None =>
      update_lore_row oldId (λ r,
        set_lr_status lore_superseded (set_lr_superseded_by (Some newId) (set_lr_updated_at ts r))) ≫= λ _,
      event_insert oldId "superseded" ts (json_of [("supersededBy", JSStr newId)]) ≫= λ _,
      mret true
  end.
Definition supersedeLore (oldId newId : string) (approveReplacement : bool) : LOp (option Lore) :=
  lore_nowIso ≫= λ ts,
  catch (supersede_tx oldId newId ts approveReplacement)
    (λ e, match e with SupersedeAborted => mret false | e => throw e end) ≫= λ done : bool,
  if done then getLore oldId false else mret None.

Definition VERIFY_DEFAULT_FORWARD_DAYS : Z := 90.
(** [nextReviewAfter] is absent, [null] or a date. *)
Definition verifyLore (id : string) (nextReviewAfter : option (option string)) : LOp (option Lore) :=
  gets (λ d, lore d !! id) ≫= λ current,
  match current with
  | None => mret None
  | Some current =>
      lore_nowIso ≫= λ ts,
      (match nextReviewAfter with
      | Some None => mret (lr_review_after current)
      | Some (Some n) => assertIsoDate (Some n) "nextReviewAfter" ≫= λ _, mret (Some n)
      | None =>
          gets (λ d, if isStale (lr_review_after current) d
                     then Some (toISOString (lore_clock d + VERIFY_DEFAULT_FORWARD_DAYS * 86400000)%Z)
                     else lr_review_after current)
      end : LOp (option string)) ≫= λ newReview,
      update_lore_row id (λ r, mk_LoreRow (lr_rowid r) (lr_id r) (lr_title r) (lr_summary r) (lr_body r) (lr_author r)
        (lr_team r) (lr_status r) (lr_kind r) (lr_source r) newReview (lr_confidence r) (lr_superseded_by r)
        (lr_restricted r) (lr_created_at r) ts (Some ts) (lr_conflicts_with r) (lr_spec_id r) (lr_clause_id r)
        (lr_flagged_for_review r)) ≫= λ changed : bool,
      if changed then
        event_insert id "verified" ts
          (json_of [("reviewAfter", match newReview with Some r => JSStr r | None => JSNull end)]) ≫= λ _,
        getLore id false
      else mret None
  end.

(** ** Editing *)

Definition reindexed (rowid : Z) (id title summary body : string) : LOp unit :=
  modify (fts_delete rowid) ≫= λ _,
  fts_insert (mk_FtsRow rowid title summary body) ≫= λ _,
  refreshLoreEmbedding id title summary.
(** The row [updateLore] writes, on the row it read. *)
Definition updated_row (current : LoreRow) (input : UpdateLoreInput) (kind : LoreKind) (ts : string) : LoreRow :=
  let source := match ui_source input with
                | Some s => if bool_decide (s = "") then None else Some s
                | None => lr_source current
                end in
  mk_LoreRow (lr_rowid current) (lr_id current) (ui_title input ?? lr_title current)
    (ui_summary input ?? lr_summary current) (ui_body input ?? lr_body current)
    (match ui_author input with Some a => Some a | None => lr_author current end)
    (match ui_team input with Some t => Some t | None => lr_team current end)
    (lr_status current) kind source
    (match ui_reviewAfter input with Some r => r | None => lr_review_after current end)
    (clampConfidence (Some (ui_confidence input ?? lr_confidence current)) (truthy source) (lr_status current))
    (lr_superseded_by current) (ui_restricted input ?? lr_restricted current) (lr_created_at current) ts
    (lr_last_verified_at current) (lr_conflicts_with current) (lr_spec_id current) (lr_clause_id current)
    (lr_flagged_for_review current).
Definition updateLore (id : string) (input : UpdateLoreInput) : LOp (option Lore) :=
  gets (λ d, lore d !! id) ≫= λ current,
  match current with
  | None => mret None
  | Some current =>
      assertIsoDate (match ui_reviewAfter input with Some r => r | None => None end) "reviewAfter" ≫= λ _,
      assertHttpUrl (ui_source input) "source" ≫= λ _,
      (match ui_kind input with
       | Some k => normaliseKind (Some k)
       | None => mret (lr_kind current)
       end : LOp LoreKind) ≫= λ kind,
      lore_nowIso ≫= λ ts,
      let row := updated_row current input kind ts in
      snapshotLoreVersion current ts ≫= λ _,
      update_lore_row id (λ _, row) ≫= λ _,
      when (bool_decide (is_Some (ui_title input) ∨ is_Some (ui_summary input) ∨ is_Some (ui_body input)))
        (reindexed (lr_rowid current) id (lr_title row) (lr_summary row) (lr_body row)) ≫= λ _,
      (match ui_repos input with
      | Some repos => replace_repos id (sorted_set normaliseRepo (Some repos))
      | None => mret tt
      end : LOp unit) ≫= λ _,
      (match ui_tags input with
      | Some tags => replace_tags id (sorted_set normaliseTag (Some tags))
      | None => mret tt
      end : LOp unit) ≫= λ _,
      event_insert id "updated" ts None ≫= λ _,
      getLore id false
  end.

(** ** Import *)

Definition importChangesContent (row : LoreRow) (input : ImportLoreInput) (kind : LoreKind)
    (confidence : LoreConfidence) : bool :=
  negb (bool_decide (lr_title row = ii_title input ∧ lr_summary row = ii_summary input ∧ lr_body row = ii_body input
    ∧ lr_author row = ii_author input ∧ lr_team row = ii_team input ∧ lr_source row = ii_source input
    ∧ lr_confidence row = confidence ∧ lr_kind row = kind
    ∧ lr_restricted row = ii_restricted input ?? false ∧ lr_review_after row = ii_reviewAfter input
    ∧ lr_status row = ii_status input)).
Definition imported_row (input : ImportLoreInput) (rowid : Z) (kind : LoreKind) (confidence : LoreConfidence)
    (createdAt updatedAt : string) (spec_id clause_id : option string) (flagged : bool) : LoreRow :=
  mk_LoreRow rowid (ii_id input) (ii_title input) (ii_summary input) (ii_body input) (ii_author input)
    (ii_team input) (ii_status input) kind (ii_source input) (ii_reviewAfter input) confidence
    (ii_supersededBy input) (ii_restricted input ?? false) createdAt updatedAt (ii_lastVerifiedAt input)
    (match ii_conflictsWith input with
     | Some (x :: xs) => JSON_stringify (JSArr (JSStr <$> (x :: xs)))
     | _ => None
     end) spec_id clause_id flagged.
Definition upsertLoreFromImport (input : ImportLoreInput) : LOp (string * bool) :=
  assertIsoDate (ii_reviewAfter input) "reviewAfter" ≫= λ _,
  assertIsoDate (ii_createdAt input) "createdAt" ≫= λ _,
  assertIsoDate (ii_updatedAt input) "updatedAt" ≫= λ _,
  assertIsoDate (ii_lastVerifiedAt input) "lastVerifiedAt" ≫= λ _,
  assertHttpUrl (ii_source input) "source" ≫= λ _,
  let id := ii_id input in
  let repos := sorted_set normaliseRepo (ii_repos input) in
  let tags := sorted_set normaliseTag (ii_tags input) in
  let confidence := clampConfidence (ii_confidence input) (truthy (ii_source input)) (ii_status input) in
  lore_nowIso ≫= λ nowTs,
  let createdAt := ii_createdAt input ?? nowTs in
  let updatedAt := ii_updatedAt input ?? nowTs in
  gets (λ d, lore d !! id) ≫= λ existing,
  normaliseKind (match ii_kind input with Some k => if bool_decide (k = "") then None else Some k | None => None end)
    ≫= λ incomingKind,
  let kind := match existing with
              | Some e => if bool_decide (incomingKind = kind_other ∧ lr_kind e ≠ kind_other)
                          then lr_kind e else incomingKind
              | None => incomingKind
              end in
  (match existing with
  | None =>
      gets next_rowid ≫= λ rowid,
      insert_lore (imported_row input rowid kind confidence createdAt updatedAt (ii_specId input)
        (ii_clauseId input) false) ≫= λ rowid,
      fts_insert (mk_FtsRow rowid (ii_title input) (ii_summary input) (ii_body input)) ≫= λ _,
      refreshLoreEmbedding id (ii_title input) (ii_summary input)
  | Some e =>
      when (importChangesContent e input kind confidence) (snapshotLoreVersion e nowTs) ≫= λ _,
      update_lore_row id (λ r, imported_row input (lr_rowid r) kind confidence (lr_created_at r) updatedAt
        (match ii_specId input with Some s => Some s | None => lr_spec_id r end)
        (match ii_clauseId input with Some c => Some c | None => lr_clause_id r end)
        (lr_flagged_for_review r)) ≫= λ _,
      reindexed (lr_rowid e) id (ii_title input) (ii_summary input) (ii_body input)
  end : LOp unit) ≫= λ _,
  replace_repos id repos ≫= λ _,
  replace_tags id tags ≫= λ _,
  event_insert id "imported" nowTs None ≫= λ _,
  mret (id, bool_decide (existing = None)).

(** ** Removal *)

Definition reactivate (ts : string) (replacement : string) (oldId : string) : LOp unit :=
  update_lore_row oldId (λ r, set_lr_status lore_active (set_lr_superseded_by None (set_lr_updated_at ts r))) ≫= λ _,
  event_insert oldId "reactivated" ts
    (json_of [("reason", JSStr "replacement_rejected"); ("replacement", JSStr replacement)]).
Definition orphaned_by (id : string) (d : lore_db) : list string :=
  lr_id <$> filter (λ r, lr_superseded_by r = Some id ∧ lr_status r = lore_superseded) (lore_rows d).
(** What [rejectLore] and [deleteLore] remove of a record. *)
Definition scrub (row : LoreRow) (id : string) (d : lore_db) : lore_db :=
  let d := delete_lore_row id (fts_delete (lr_rowid row) d) in
  let d := set_lore_embeddings (filter (λ e, em_lore_id e ≠ id) (lore_embeddings d)) d in
  set_lore_version (filter (λ v, lv_lore_id v ≠ id) (lore_version d)) d.
Definition rejectLore (id : string) (reason : option string) : LOp bool :=
  lore_nowIso ≫= λ ts,
  gets (λ d, lore d !! id) ≫= λ row,
  match row with
  | None => mret false
  | Some row =>
      if negb (bool_decide (lr_status row = lore_draft)) then mret false
      else
        let payload := match trim <$> reason with
                       | Some t => if bool_decide (t = "") then None else json_of [("reason", JSStr t)]
                       | None => None
                       end in
        modify (scrub row id) ≫= λ _,
        gets (orphaned_by id) ≫= λ orphaned,
        for_each orphaned (reactivate ts id) ≫= λ _,
        event_insert id "rejected" ts payload ≫= λ _,
        mret true
  end.
Definition deleteLore (id : string) : LOp bool :=
  lore_nowIso ≫= λ ts,
  gets (λ d, lore d !! id) ≫= λ row,
  match row with
  | None => mret false
  | Some row =>
      modify (scrub row id) ≫= λ _,
      event_insert id "deleted" ts None ≫= λ _,
      mret true
  end.
Definition getRejectionReason (id : string) (d : lore_db) : option string :=
  match last (filter (λ e, le_lore_id e = Some id ∧ le_kind e = "rejected") (lore_events d)) with
  | Some e =>
      match le_payload e with
      | None => None
      | Some p =>
          match JSON_parse p with
          | Some (JSObj ms) =>
              match head (filter (λ m, m.1 = "reason") ms) with Some (_, JSStr r) => Some r | _ => None end
          | _ => None
          end
      end
  | None => None
  end.
End operations.
