(* ===== verification/Boundaries.v ===== *)
(** * The cross-repo map ([src/packages/memory/src/core/boundaries.ts])

    Which repository provides a contract and which consume it.  Agents declare
    edges as drafts, people ratify them; an import from a synced file is keyed
    by the edge and not by its id. *)
From Stdlib Require Import Ascii.
From S2P Require Import Prelude Json JsonParse Types EventChain Store Diff Landing Lore.

(** ** Contract names *)

Definition is_upper (c : ascii) : bool := let n := nat_of_ascii c in bool_decide (65 ≤ n ∧ n ≤ 90)%nat.
Definition is_lower (c : ascii) : bool := let n := nat_of_ascii c in bool_decide (97 ≤ n ∧ n ≤ 122)%nat.
(** [replace(/([a-z0-9])([A-Z])/g, "$1-$2")]: a match takes both characters, so
    the second does not start another; an upper-case character could not. *)
Fixpoint split_camel (l : list ascii) : list ascii :=
  match l with
  | a :: (b :: _) as r => if (is_lower a || is_digit a) && is_upper b then a :: "-"%char :: split_camel r else a :: split_camel r
  | l => l
  end.
(** [replace(/([A-Z]+)([A-Z][a-z])/g, "$1-$2")]: in a run of upper-case
    characters followed by a lower-case one, a dash before the last of the run
    if it is not the first.  [in_run]: the character before is upper-case and
    still to be matched. *)
Fixpoint split_run (in_run : bool) (l : list ascii) : list ascii :=
  match l with
  | a :: (b :: r') as r =>
      if is_upper a && is_lower b && in_run then "-"%char :: a :: b :: split_run false r'
      else a :: split_run (is_upper a) r
  | l => l
  end.
Definition dash_space (c : ascii) : bool := is_space c || bool_decide (c = "_"%char).
(** [replace(/[\s_]+/g, "-")] and [replace(/-{2,}/g, "-")]. *)
Fixpoint collapse_runs (P : ascii → bool) (in_run : bool) (l : list ascii) : list ascii :=
  match l with
  | [] => []
  | c :: r => if P c then (if in_run then collapse_runs P true r else "-"%char :: collapse_runs P true r)
              else c :: collapse_runs P false r
  end.
Definition is_dash (c : ascii) : bool := bool_decide (c = "-"%char).
(** [replace(/^[-\s]+|[-\s]+$/g, "")] *)
Fixpoint drop_while (P : ascii → bool) (l : list ascii) : list ascii :=
  match l with c :: r => if P c then drop_while P r else l | [] => [] end.
Definition edge_char (c : ascii) : bool := is_dash c || is_space c.
Definition strip_edges (l : list ascii) : list ascii :=
  rev (drop_while edge_char (rev (drop_while edge_char l))).
Definition normaliseContract (c : string) : string :=
  String.string_of_list_ascii (strip_edges (collapse_runs is_dash false (collapse_runs dash_space false
    (lower_char <$> split_run false (split_camel (trim_chars (String.list_ascii_of_string c))))))).

(** ** Edges *)

Definition parse_role (r : string) : option BoundaryRole :=
  if bool_decide (r = "provides") then Some role_provides
  else if bool_decide (r = "consumes") then Some role_consumes else None.
Definition role_name (r : BoundaryRole) : string :=
  match r with role_provides => "provides" | role_consumes => "consumes" end.
Record DeclareBoundaryInput := mk_DeclareBoundaryInput {
  di_repo : string;
  di_contract : string;
  di_role : string;
  di_kind : option string;
  di_detail : option string;
  di_source : option string;
  di_author : option string
}.
Definition edge_key (b : BoundaryRow) : string * string * BoundaryRole := (br_repo b, br_contract b, br_role b).
Definition find_edge (repo contract : string) (role : BoundaryRole) (d : lore_db) : option BoundaryRow :=
  head (filter (λ b, edge_key b = (repo, contract, role)) (boundaries d)).
Definition set_boundary (id : string) (f : BoundaryRow → BoundaryRow) : LOp bool := λ d,
  Ok (existsb (λ b, bool_decide (br_id b = id)) (boundaries d))
     (set_boundaries ((λ b, if bool_decide (br_id b = id) then f b else b) <$> boundaries d) d).
(** [INSERT INTO boundaries]: the primary key and [UNIQUE (repo, contract, role)]. *)
Definition insert_boundary (b : BoundaryRow) : LOp unit := λ d,
  if existsb (λ x, bool_decide (br_id x = br_id b)) (boundaries d) then Err (LoreConstraint "boundaries.id")
  else if existsb (λ x, bool_decide (edge_key x = edge_key b)) (boundaries d) then Err (LoreConstraint "boundaries")
  else Ok tt (set_boundaries (boundaries d ++ [b]) d).
Definition getBoundary (id : string) (d : lore_db) : option BoundaryRow :=
  head (filter (λ b, br_id b = id) (boundaries d)).
Definition orElse {A} (x y : option A) : option A := match x with Some a => Some a | None => y end.
Definition edge_payload (repo contract : string) (role : BoundaryRole) : option string :=
  json_of [("repo", JSStr repo); ("contract", JSStr contract); ("role", JSStr (role_name role))].

Section boundaries.
Context `{!LoreEnv}.

Definition fetch_boundary (id : string) : LOp BoundaryRow :=
  gets (getBoundary id) ≫= λ b, require b (LoreConstraint "boundaries.id").
Definition upsertBoundary (input : DeclareBoundaryInput) (status : BoundaryStatus) : LOp BoundaryRow :=
  let repo := normaliseRepo (di_repo input) in
  let contract := normaliseContract (di_contract input) in
  guard_ (negb (bool_decide (repo = ""))) (LoreError "declareBoundary: repo must be non-empty") ≫= λ _,
  guard_ (negb (bool_decide (contract = ""))) (LoreError "declareBoundary: contract must be non-empty") ≫= λ _,
  require (parse_role (di_role input))
    (LoreError ("declareBoundary: role must be 'provides' or 'consumes' (got "
      +:+ (JSON_stringify (JSStr (di_role input)) ?? "") +:+ ")")) ≫= λ role,
  lore_nowIso ≫= λ ts,
  gets (find_edge repo contract role) ≫= λ existing,
  match existing with
  | Some e =>
      if bool_decide (status = boundary_draft) && negb (bool_decide (br_status e = boundary_draft))
      then fetch_boundary (br_id e)
      else
        let nextStatus := if bool_decide (status = boundary_active) && bool_decide (br_status e = boundary_draft)
                          then boundary_active else br_status e in
        set_boundary (br_id e) (λ b, mk_BoundaryRow (br_id b) (br_repo b) (br_contract b) (br_role b)
          (orElse (di_kind input) (br_kind e)) nextStatus (orElse (di_detail input) (br_detail e))
          (orElse (di_source input) (br_source e)) (orElse (di_author input) (br_author e)) (br_created_at b) ts) ≫= λ _,
        event_insert (br_id e) "boundary_updated" ts (edge_payload repo contract role) ≫= λ _,
        fetch_boundary (br_id e)
  | None =>
      newLoreId ≫= λ id,
      insert_boundary (mk_BoundaryRow id repo contract role (di_kind input) status (di_detail input)
        (di_source input) (di_author input) ts ts) ≫= λ _,
      event_insert id (if bool_decide (status = boundary_draft) then "boundary_suggested" else "boundary_declared") ts
        (edge_payload repo contract role) ≫= λ _,
      fetch_boundary id
  end.
Definition addBoundary (input : DeclareBoundaryInput) : LOp BoundaryRow := upsertBoundary input boundary_active.
Definition suggestBoundary (input : DeclareBoundaryInput) : LOp BoundaryRow := upsertBoundary input boundary_draft.

Definition with_status (st : BoundaryStatus) (ts : string) (b : BoundaryRow) : BoundaryRow :=
  mk_BoundaryRow (br_id b) (br_repo b) (br_contract b) (br_role b) (br_kind b) st (br_detail b) (br_source b)
    (br_author b) (br_created_at b) ts.
Definition approveBoundary (id : string) : LOp (option BoundaryRow) :=
  lore_nowIso ≫= λ ts,
  gets (getBoundary id) ≫= λ b,
  match b with
  | Some b =>
      if bool_decide (br_status b = boundary_draft) then
        set_boundary id (with_status boundary_active ts) ≫= λ _,
        event_insert id "boundary_approved" ts None ≫= λ _,
        gets (getBoundary id)
      else mret None
  | None => mret None
  end.
Definition rejectBoundary (id : string) : LOp bool :=
  lore_nowIso ≫= λ ts,
  gets (getBoundary id) ≫= λ b,
  match b with
  | Some b =>
      if bool_decide (br_status b = boundary_draft) then
        modify (λ d, set_boundaries (filter (λ b, br_id b ≠ id) (boundaries d)) d) ≫= λ _,
        event_insert id "boundary_rejected" ts None ≫= λ _,
        mret true
      else mret false
  | None => mret false
  end.
Definition deprecateBoundary (id : string) : LOp (option BoundaryRow) :=
  lore_nowIso ≫= λ ts,
  set_boundary id (with_status boundary_deprecated ts) ≫= λ changed : bool,
  if changed then event_insert id "boundary_deprecated" ts None ≫= λ _, gets (getBoundary id) else mret None.

(** ** The map *)

Record ListBoundariesOptions := mk_ListBoundariesOptions {
  lb_repo : option string;
  lb_contract : option string;
  lb_role : option BoundaryRole;
  lb_includeDrafts : bool;
  lb_includeDeprecated : bool
}.
(** [ORDER BY contract, role, repo] *)
Definition edge_le (x y : BoundaryRow) : Prop :=
  match String.compare (br_contract x) (br_contract y) with
  | Lt => True
  | Gt => False
  | Eq => match String.compare (role_name (br_role x)) (role_name (br_role y)) with
          | Lt => True
          | Gt => False
          | Eq => String.leb (br_repo x) (br_repo y) = true
          end
  end.
#[export] Instance edge_le_dec : RelDecision edge_le.
Proof. intros x y. unfold edge_le. repeat case_match; apply _. Defined.
Definition shown_status (drafts deprecated : bool) (s : BoundaryStatus) : bool :=
  match s with boundary_active => true | boundary_draft => drafts | boundary_deprecated => deprecated end.
Definition matches_option (norm : string → string) (o : option string) (v : string) : bool :=
  match o with Some s => if bool_decide (s = "") then true else bool_decide (v = norm s) | None => true end.
Definition listBoundaries (opts : ListBoundariesOptions) (d : lore_db) : list BoundaryRow :=
  merge_sort edge_le (filter (λ b,
    (shown_status (lb_includeDrafts opts) (lb_includeDeprecated opts) (br_status b)
     && matches_option normaliseRepo (lb_repo opts) (br_repo b)
     && matches_option normaliseContract (lb_contract opts) (br_contract b)
     && match lb_role opts with Some r => bool_decide (br_role b = r) | None => true end) = true) (boundaries d)).
(** [ORDER BY created_at DESC] *)
Definition newest_le (x y : BoundaryRow) : Prop := String.leb (br_created_at y) (br_created_at x) = true.
#[export] Instance newest_le_dec : RelDecision newest_le.
Proof. intros x y. unfold newest_le. apply _. Defined.
Definition listBoundaryDrafts (d : lore_db) : list BoundaryRow :=
  merge_sort newest_le
    (filter (λ b, br_status b = boundary_draft) (boundaries d)).
Record ImpactResult := mk_ImpactResult {
  im_contract : string; im_providers : list BoundaryRow; im_consumers : list BoundaryRow
}.
Definition findDependents (contract : string) (includeDrafts : bool) (d : lore_db) : ImpactResult :=
  let key := normaliseContract contract in
  let edges := listBoundaries (mk_ListBoundariesOptions None (Some key) None includeDrafts false) d in
  mk_ImpactResult key (filter (λ b, br_role b = role_provides) edges) (filter (λ b, br_role b = role_consumes) edges).
Definition listContracts (includeDrafts includeDeprecated : bool) (d : lore_db) : list string :=
  merge_sort str_le (remove_dups (br_contract <$>
    filter (λ b, shown_status includeDrafts includeDeprecated (br_status b) = true) (boundaries d))).
Definition exportBoundaries (includeDrafts includeDeprecated : bool) (d : lore_db) : list BoundaryRow :=
  listBoundaries (mk_ListBoundariesOptions None None None includeDrafts includeDeprecated) d.

(** ** Import *)

Record BoundaryExportRecord := mk_BoundaryExportRecord {
  be_id : string;
  be_repo : string;
  be_contract : string;
  be_role : string;
  be_kind : option string;
  be_status : BoundaryStatus;
  be_detail : option string;
  be_source : option string;
  be_author : option string;
  be_createdAt : option string;
  be_updatedAt : option string
}.
Inductive ImportOutcome := import_created | import_updated | import_skipped.
#[export] Instance ImportOutcome_eq_dec : EqDecision ImportOutcome.
Proof. solve_decision. Defined.
(** [/^[a-z2-9]{8}$/] *)
Definition well_shaped_id (id : string) : bool :=
  bool_decide (String.length id = 8%nat) &&
  forallb (λ c, is_lower c || (is_digit c && bool_decide (50 ≤ nat_of_ascii c)%nat)) (String.list_ascii_of_string id).
Definition importBoundary (rec : BoundaryExportRecord) (force dryRun : bool) : LOp ImportOutcome :=
  let repo := normaliseRepo (be_repo rec) in
  let contract := normaliseContract (be_contract rec) in
  match parse_role (be_role rec) with
  | None => mret import_skipped
  | Some role =>
      if bool_decide (repo = "") || bool_decide (contract = "") then mret import_skipped else
      gets (find_edge repo contract role) ≫= λ existing,
      let newer := match existing, be_updatedAt rec with
                   | Some e, Some u => negb (bool_decide (u = "")) && String.ltb u (br_updated_at e)
                   | _, _ => false
                   end in
      if negb force && newer then mret import_skipped
      else if dryRun then mret (match existing with Some _ => import_updated | None => import_created end)
      else
        lore_nowIso ≫= λ ts,
        match existing with
        | Some e =>
            set_boundary (br_id e) (λ b, mk_BoundaryRow (br_id b) (br_repo b) (br_contract b) (br_role b) (be_kind rec)
              (be_status rec) (be_detail rec) (be_source rec) (be_author rec) (br_created_at b)
              (be_updatedAt rec ?? ts)) ≫= λ _,
            mret import_updated
        | None =>
            gets (getBoundary (be_id rec)) ≫= λ taken,
            (if well_shaped_id (be_id rec) && bool_decide (taken = None) then mret (be_id rec) else newLoreId)
              ≫= λ id : string,
            insert_boundary (mk_BoundaryRow id repo contract role (be_kind rec) (be_status rec) (be_detail rec)
              (be_source rec) (be_author rec) (be_createdAt rec ?? ts) (be_updatedAt rec ?? ts)) ≫= λ _,
            mret import_created
        end
  end.
End boundaries.
