(* ===== verification/Recall.v ===== *)
(** * The feedback loop of the memory ([src/packages/memory/src/core/recallFeedback.ts])

    What was served into a ticket's context is logged; when the runner learns
    how the ticket ended, the served records gain or lose one rung of
    confidence and are flagged for a person, once per outcome. *)
From Stdlib Require Import Ascii.
From S2P Require Import Prelude Json JsonParse Types EventChain Store Diff Landing Lore.

(** ** The confidence ladder *)

Definition CONFIDENCE_LADDER : list LoreConfidence := [conf_low; conf_medium; conf_high].
Definition rung (c : LoreConfidence) : Z :=
  match c with conf_low => 0 | conf_medium => 1 | conf_high => 2 end.
Definition stepConfidence (current : LoreConfidence) (direction : Z) : LoreConfidence :=
  let next := Z.min (Z.of_nat (length CONFIDENCE_LADDER) - 1) (Z.max 0 (rung current + direction)) in
  nth (Z.to_nat next) CONFIDENCE_LADDER current.
Definition higherOf (a b : LoreConfidence) : LoreConfidence := if bool_decide (rung b ≤ rung a)%Z then a else b.
Definition confidence_name (c : LoreConfidence) : string :=
  match c with conf_low => "low" | conf_medium => "medium" | conf_high => "high" end.
Definition outcome_name (o : RecallOutcome) : string :=
  match o with outcome_clean => "clean" | outcome_reworked => "reworked" | outcome_blocked => "blocked" end.

Section recall.
Context `{!LoreEnv}.

(** ** The log *)

Definition recall_key (e : RecallEvent) : string * string * RecallItemType * string :=
  (re_repo e, re_ticket e, re_item_type e, re_item_id e).
(** [INSERT OR IGNORE INTO recall_event]; the id is drawn either way. *)
Definition recall_insert_row (e : RecallEvent) : LOp bool := λ d,
  if existsb (λ x, bool_decide (re_id x = re_id e ∨ recall_key x = recall_key e)) (recall_event d) then Ok false d
  else Ok true (set_recall_event (recall_event d ++ [e]) d).
Definition recall_insert (repo ticket ts : string) (it : RecallItemType * string) : LOp bool :=
  newLoreId ≫= λ id, recall_insert_row (mk_RecallEvent id repo ticket it.1 it.2 ts).
Definition served_items (loreIds cardIds : option (list string)) : list (RecallItemType * string) :=
  ((λ id, (item_lore, id)) <$> filter (λ s, s ≠ "") (trim <$> (loreIds ?? []))) ++
  ((λ id, (item_card, id)) <$> filter (λ s, s ≠ "") (trim <$> (cardIds ?? []))).
Definition logRecall (repo ticket : string) (loreIds cardIds : option (list string)) : LOp nat :=
  let repo := trim repo in
  let ticket := trim ticket in
  if bool_decide (repo = "" ∨ ticket = "") then mret 0%nat
  else
    let items := served_items loreIds cardIds in
    if bool_decide (length items = 0%nat) then mret 0%nat
    else
      lore_nowIso ≫= λ ts,
      for_fold (λ n it, recall_insert repo ticket ts it ≫= λ changed : bool, mret (if changed then S n else n)) 0%nat items.

(** ** The outcome *)

Record RecallFeedbackResult := mk_RecallFeedbackResult {
  fr_alreadyApplied : bool;
  fr_loreAdjusted : list string;
  fr_cardsAdjusted : list string;
  fr_served : nat
}.
Definition serve_le (x y : RecallEvent) : Prop :=
  match String.compare (re_served_at x) (re_served_at y) with
  | Lt => True | Gt => False | Eq => String.leb (re_id x) (re_id y) = true
  end.
#[export] Instance serve_le_dec : RelDecision serve_le.
Proof. intros x y. unfold serve_le. repeat case_match; apply _. Defined.
Definition served_for (repo ticket : string) (d : lore_db) : list RecallEvent :=
  merge_sort serve_le (filter (λ e, re_repo e = repo ∧ re_ticket e = ticket) (recall_event d)).
Definition fetched_for (repo ticket : string) (d : lore_db) : list string :=
  merge_sort str_le (remove_dups (rv_item_id <$>
    filter (λ e, rv_ticket e = ticket ∧ rv_item_type e = "lore" ∧ rv_tool e = "get_lore" ∧ (rv_repo e = repo ∨ rv_repo e = ""))
      (retrieval_event d))).
Definition served_lore (repo ticket : string) (d : lore_db) : list string :=
  distinct ((re_item_id <$> filter (λ e, re_item_type e = item_lore) (served_for repo ticket d))
                    ++ fetched_for repo ticket d).
Definition served_cards (repo ticket : string) (d : lore_db) : list string :=
  re_item_id <$> filter (λ e, re_item_type e = item_card) (served_for repo ticket d).

Definition adjusted_confidence (reward : bool) (row : LoreRow) : LoreConfidence :=
  if reward then
    higherOf (lr_confidence row)
      (clampConfidence (Some (stepConfidence (lr_confidence row) 1)) (truthy (lr_source row)) (lr_status row))
  else stepConfidence (lr_confidence row) (-1).
Definition adjusted_row (reward : bool) (ts : string) (row : LoreRow) : LoreRow :=
  let row' := set_lr_confidence (adjusted_confidence reward row) (set_lr_updated_at ts row) in
  if reward then set_lr_flagged_for_review false (set_lr_last_verified_at (Some ts) row')
  else set_lr_flagged_for_review true row'.
Definition feedback_payload (ticket : string) (outcome : RecallOutcome) (rest : list (string * js)) : option string :=
  json_of ([("ticket", JSStr ticket); ("outcome", JSStr (outcome_name outcome))] ++ rest
           ++ [("flagged", JSBool (negb (bool_decide (outcome = outcome_clean))))]).
Definition adjust_lore (ticket : string) (outcome : RecallOutcome) (ts : string) (acc : list string) (id : string)
    : LOp (list string) :=
  gets (λ d, lore d !! id) ≫= λ row,
  match row with
  | None => mret acc
  | Some row =>
      let reward := bool_decide (outcome = outcome_clean) in
      update_lore_row id (adjusted_row reward ts) ≫= λ _,
      event_insert id "recall_feedback_applied" ts
        (feedback_payload ticket outcome [("itemType", JSStr "lore");
           ("from", JSStr (confidence_name (lr_confidence row)));
           ("to", JSStr (confidence_name (adjusted_confidence reward row)))]) ≫= λ _,
      mret (acc ++ [id])
  end.
Definition adjust_card (ticket : string) (outcome : RecallOutcome) (ts : string) (acc : list string) (id : string)
    : LOp (list string) := λ d,
  match file_card d !! id with
  | None => Ok acc d
  | Some _ =>
      (event_insert id "recall_feedback_applied" ts
         (feedback_payload ticket outcome [("itemType", JSStr "card")]) ≫= λ _, mret (acc ++ [id]))
        (set_file_card (<[id := mk_FileCardRow (negb (bool_decide (outcome = outcome_clean))) ts]> (file_card d)) d)
  end.
Definition applied (repo ticket : string) (outcome : RecallOutcome) (d : lore_db) : bool :=
  existsb (λ r, bool_decide (rfb_repo r = repo ∧ rfb_ticket r = ticket ∧ rfb_outcome r = outcome)) (recall_feedback d).
Definition insert_feedback (r : RecallFeedbackRow) : LOp unit := λ d,
  if existsb (λ x, bool_decide (rfb_id x = rfb_id r)) (recall_feedback d) then Err (LoreConstraint "recall_feedback.id")
  else if applied (rfb_repo r) (rfb_ticket r) (rfb_outcome r) d then Err (LoreConstraint "recall_feedback")
  else Ok tt (set_recall_feedback (recall_feedback d ++ [r]) d).
Definition recallFeedback (repo ticket : string) (outcome : RecallOutcome) : LOp RecallFeedbackResult :=
  let repo := trim repo in
  let ticket := trim ticket in
  if bool_decide (repo = "" ∨ ticket = "") then mret (mk_RecallFeedbackResult false [] [] 0)
  else
    gets (applied repo ticket outcome) ≫= λ prior : bool,
    if prior then mret (mk_RecallFeedbackResult true [] [] 0)
    else
      gets (served_lore repo ticket) ≫= λ loreIds,
      gets (served_cards repo ticket) ≫= λ cardIds,
      lore_nowIso ≫= λ ts,
      for_fold (adjust_lore ticket outcome ts) [] loreIds ≫= λ loreAdjusted,
      for_fold (adjust_card ticket outcome ts) [] cardIds ≫= λ cardsAdjusted,
      newLoreId ≫= λ id,
      insert_feedback (mk_RecallFeedbackRow id repo ticket outcome (length loreAdjusted + length cardsAdjusted) ts) ≫= λ _,
      let n (l : list string) := JSNum (Z.of_nat (length l)) in
      modify (λ d, set_lore_events (lore_events d ++ [mk_LoreEvent None "recall_feedback" ts
        (json_of [("repo", JSStr repo); ("ticket", JSStr ticket); ("outcome", JSStr (outcome_name outcome));
          ("served", JSNum (Z.of_nat (length loreIds + length cardIds))); ("loreAdjusted", n loreAdjusted);
          ("cardsAdjusted", n cardsAdjusted)])]) d) ≫= λ _,
      mret (mk_RecallFeedbackResult false loreAdjusted cardsAdjusted (length loreIds + length cardIds)).

(** ** The surface *)

Definition updated_le (x y : LoreRow) : Prop := String.leb (lr_updated_at y) (lr_updated_at x) = true.
#[export] Instance updated_le_dec : RelDecision updated_le.
Proof. intros x y. unfold updated_le. apply _. Defined.
(** The lore half of [listFlaggedForReview]. *)
Definition flaggedLore (repo : option string) (limit : option Z) (d : lore_db) : list LoreRow :=
  let limit := match limit with Some l => if bool_decide (0 < l)%Z then l else 100%Z | None => 100%Z end in
  let tagged (r : LoreRow) := match trim <$> repo with
                              | Some name => bool_decide (name = "") || bool_decide ((lr_id r, name) ∈ lore_repos d)
                              | None => true
                              end in
  take (Z.to_nat limit) (merge_sort updated_le (filter (λ r, (lr_flagged_for_review r && tagged r) = true) (lore_rows d))).
End recall.
