(* ===== verification/LoreTools.v ===== *)
(** * What an agent can call ([src/packages/memory/src/mcp/tools/lore.ts])

    The handlers of [get_lore], [suggest_lore] and [report_conflict] with the
    gates of [scopeGuard.ts], [redact.ts] and [validation.ts], on the arguments
    the schema let through.  A reply is the value the handler answers with;
    the quarantine envelope around its texts is [Envelope], the hint about
    near-duplicates, the audit file and the read-path ledger are left out. *)
From Stdlib Require Import Ascii.
From S2P Require Import Prelude Json JsonParse Types EventChain Store Diff Landing Lore Boundaries.

Record SuggestLoreArgs := mk_SuggestLoreArgs {
  sl_title : string;
  sl_summary : string;
  sl_body : string;
  sl_repos : option (list string);
  sl_tags : option (list string);
  sl_source : option string;
  sl_confidence : option LoreConfidence;
  sl_kind : option string;
  sl_team : option string;
  sl_spec_id : option string;
  sl_clause_id : option string
}.
Inductive ToolReply :=
| reply_too_long (field : string)
| reply_out_of_scope (repo : string)
| reply_suggested (id : string) (status : LoreStatus)
| reply_countered (id : string) (status : LoreStatus) (conflictsWith : list string)
| reply_restricted (id : string)
| reply_conflict_restricted
| reply_not_found (id : string)
| reply_record (record : Lore)
| reply_edge (edge : BoundaryRow)
| reply_failed (error : lore_error).

Definition LENGTH_CAP_title : nat := 200.
Definition LENGTH_CAP_summary : nat := 800.
(** [checkLength]: the boundary itself passes. *)
Definition too_long (max : nat) (value : string) : bool := bool_decide (max < String.length value)%nat.

Section tools.
Context `{!LoreEnv}.

(** ** The gates *)

Definition env_is (name value : string) : bool := bool_decide (process_env name = Some value).
Definition scopeEnforcementActive : bool := env_is "GAFFER_FACTORY" "1".
Definition parseTicketRepos (value : option string) : list string :=
  match value with
  | None => []
  | Some v => filter (λ r, r ≠ "") (trim ∘ String.string_of_list_ascii <$>
      mjoin (split_on ":"%char <$> split_on newline (String.list_ascii_of_string v)))
  end.
Definition ticket_repos_allowed : list string := parseTicketRepos (process_env "GAFFER_TICKET_REPOS").
Definition repoInScope (repo : string) : bool :=
  let target := trim repo in
  if bool_decide (target = "") then false
  else if bool_decide (length ticket_repos_allowed = 0%nat) then false
  else bool_decide (target ∈ ticket_repos_allowed).
Definition firstRepoOutOfScope (repos : list string) : option string :=
  head (filter (λ r, repoInScope r = false) repos).
Definition shouldGateRestrictedGet (l : option Lore) : bool :=
  match l with
  | None => false
  | Some l => lo_restricted l && negb (env_is "MEMORY_ALLOW_RESTRICTED_MCP" "1")
  end.
Definition shouldRefuseConflictAgainstRestricted (l : option Lore) : bool :=
  match l with Some l => lo_restricted l | None => false end.
(** [try { ... } catch (err) { return isError }] *)
Definition answering (m : LOp ToolReply) : LOp ToolReply := catch m (λ e, mret (reply_failed e)).

(** ** The tools *)

Definition get_lore (id : string) : LOp ToolReply :=
  answering (
    getLore id true ≫= λ found,
    let l := match found with
             | Some f => if bool_decide (lo_status f = lore_draft) && scopeEnforcementActive then None else Some f
             | None => None
             end in
    match l with
    | None => mret (reply_not_found id)
    | Some f => if shouldGateRestrictedGet (Some f) then mret (reply_restricted (lo_id f)) else mret (reply_record f)
    end).

(** The repositories a suggestion is tagged with: its own, or in the factory
    the ticket's. *)
Definition suggested_repos (args : SuggestLoreArgs) : option (list string) :=
  match sl_repos args with
  | Some (x :: xs) => Some (x :: xs)
  | other => if scopeEnforcementActive then Some ticket_repos_allowed else other
  end.
Definition suggestion (args : SuggestLoreArgs) : AddLoreInput :=
  let given (s : option string) := match s with Some v => if bool_decide (v = "") then None else Some v | None => None end in
  mk_AddLoreInput (sl_title args) (sl_summary args) (sl_body args) (Some "agent") (sl_team args) (sl_kind args)
    (sl_source args) None (sl_confidence args) (suggested_repos args) (sl_tags args) None
    (given (sl_spec_id args)) (given (sl_clause_id args)).
Definition autoApprove : bool := env_is "MEMORY_AUTO_APPROVE" "1".
Definition suggestion_refused (args : SuggestLoreArgs) : option string :=
  if scopeEnforcementActive then
    match suggested_repos args ?? [] with
    | [] => if autoApprove then Some "" else None
    | tagged => firstRepoOutOfScope tagged
    end
  else None.
Definition suggest_lore (args : SuggestLoreArgs) : LOp ToolReply :=
  if too_long LENGTH_CAP_title (sl_title args) then mret (reply_too_long "title")
  else if too_long LENGTH_CAP_summary (sl_summary args) then mret (reply_too_long "summary")
  else answering (
    match suggestion_refused args with
    | Some bad => mret (reply_out_of_scope bad)
    | None =>
        suggestLore (suggestion args) autoApprove ≫= λ l,
        mret (reply_suggested (lo_id l) (lo_status l))
    end).
Definition report_conflict (args : ReportConflictInput) : LOp ToolReply :=
  answering (
    match (if scopeEnforcementActive then firstRepoOutOfScope (rc_repos args ?? []) else None) with
    | Some bad => mret (reply_out_of_scope bad)
    | None =>
        getLore (rc_existingId args) false ≫= λ existing,
        match existing with
        | Some e =>
            if bool_decide (lo_status e = lore_draft) && scopeEnforcementActive then
              mret (reply_failed (ReportConflictError unknown_existing_id
                ("reportConflict: existingId '" +:+ rc_existingId args +:+ "' not found")))
            else if shouldRefuseConflictAgainstRestricted existing then mret reply_conflict_restricted
            else
              reportConflict args ≫= λ draft,
              mret (reply_countered (lo_id draft) (lo_status draft) (lo_conflictsWith draft ?? []))
        | None =>
            reportConflict args ≫= λ draft,
            mret (reply_countered (lo_id draft) (lo_status draft) (lo_conflictsWith draft ?? []))
        end
    end).
End tools.
