(* ===== verification/Records.v ===== *)
(** * The records of the memory stay whole

    One operation of the memory changes one record at a time: [elsewhere] says
    that everything kept about the others — row, index entry, tags, versions,
    vectors — is as it was, and [record_ok] what holds of the record itself.
    From the two, every operation keeps the store whole. *)
From Stdlib Require Import Ascii.
From S2P Require Import Prelude Json JsonParse Types EventChain Store Diff Landing Lore.

(** ** One record, and the others *)

Definition fts_of (r : LoreRow) : FtsRow := mk_FtsRow (lr_rowid r) (lr_title r) (lr_summary r) (lr_body r).
(** The record is named by its id, and in the index by its rowid. *)
Record elsewhere (id : string) (n : Z) (d d' : lore_db) : Prop := mk_elsewhere {
  el_lore : ∀ k, k ≠ id → lore d' !! k = lore d !! k;
  el_fts : filter (λ f, fts_rowid f ≠ n) (lore_fts d') = filter (λ f, fts_rowid f ≠ n) (lore_fts d);
  el_repos : filter (λ p, p.1 ≠ id) (lore_repos d') = filter (λ p, p.1 ≠ id) (lore_repos d);
  el_tags : filter (λ p, p.1 ≠ id) (lore_tags d') = filter (λ p, p.1 ≠ id) (lore_tags d);
  el_versions : filter (λ v, lv_lore_id v ≠ id) (lore_version d') = filter (λ v, lv_lore_id v ≠ id) (lore_version d);
  el_embeddings : filter (λ e, em_lore_id e ≠ id) (lore_embeddings d') = filter (λ e, em_lore_id e ≠ id) (lore_embeddings d)
}.
#[export] Instance elsewhere_preorder id n : PreOrder (elsewhere id n).
Proof.
  split; [intros d; by split|]. intros d1 d2 d3 H1 H2. split.
  - intros k Hk. rewrite (el_lore _ _ _ _ H2 k Hk). by apply (el_lore _ _ _ _ H1).
  - rewrite (el_fts _ _ _ _ H2). apply (el_fts _ _ _ _ H1).
  - rewrite (el_repos _ _ _ _ H2). apply (el_repos _ _ _ _ H1).
  - rewrite (el_tags _ _ _ _ H2). apply (el_tags _ _ _ _ H1).
  - rewrite (el_versions _ _ _ _ H2). apply (el_versions _ _ _ _ H1).
  - rewrite (el_embeddings _ _ _ _ H2). apply (el_embeddings _ _ _ _ H1).
Qed.
(** The tables the records live in are the same. *)
Record same_records (d d' : lore_db) : Prop := mk_same_records {
  sr_lore : lore d' = lore d;
  sr_fts : lore_fts d' = lore_fts d;
  sr_repos : lore_repos d' = lore_repos d;
  sr_tags : lore_tags d' = lore_tags d;
  sr_versions : lore_version d' = lore_version d;
  sr_embeddings : lore_embeddings d' = lore_embeddings d
}.
#[export] Instance same_records_preorder : PreOrder same_records.
Proof.
  split; [intros d; by split|]. intros d1 d2 d3 [] []. split; congruence.
Qed.
Lemma same_elsewhere id n d d' : same_records d d' → elsewhere id n d d'.
Proof. intros []. split; intros; congruence. Qed.

(** ** What each statement touches *)

Lemma filter_snoc_out {A} (P : A → Prop) `{∀ x, base.Decision (P x)} l x : ¬ P x → filter P (l ++ [x]) = filter P l.
Proof. intros Hx. by rewrite filter_app, filter_cons_False, filter_nil, app_nil_r. Qed.
Lemma filter_idem {A} (P : A → Prop) `{∀ x, base.Decision (P x)} (l : list A) : filter P (filter P l) = filter P l.
Proof.
  induction l as [|x l IH]; [done|]. destruct (decide (P x)).
  - by rewrite !filter_cons_True, IH.
  - by rewrite filter_cons_False.
Qed.
Lemma filter_fmap_out {A} (P : A → Prop) `{∀ x, base.Decision (P x)} (f : A → A) (l : list A) :
  (∀ x, P x → f x = x) → (∀ x, ¬ P x → ¬ P (f x)) → filter P (f <$> l) = filter P l.
Proof.
  intros H1 H2. induction l as [|x l IH]; [done|]. rewrite fmap_cons. destruct (decide (P x)) as [Hx|Hx].
  - by rewrite (H1 x Hx), !filter_cons_True, IH.
  - rewrite !filter_cons_False, IH; auto.
Qed.

Section statements.
Context {HE : LoreEnv}.

Lemma nowIso_same : evolves same_records lore_nowIso.
Proof. by apply evolves_gets, _. Qed.
Lemma newLoreId_same : evolves same_records newLoreId.
Proof. intros d a d' [= _ <-]. by split. Qed.
Lemma event_same id kind ts p : evolves same_records (event_insert id kind ts p).
Proof. apply evolves_modify. by split. Qed.
Lemma recordRead_same ids via : evolves same_records (recordRead ids via).
Proof.
  unfold recordRead. destruct (_ || _); [by apply evolves_ret, _|].
  apply evolves_bind; [apply _|apply nowIso_same|]. intros ts.
  apply evolves_for_each; [apply _|]. intros id. apply event_same.
Qed.
Lemma getLore_same id b : evolves same_records (getLore id b).
Proof.
  unfold getLore. apply evolves_bind; [apply _|by apply evolves_gets, _|]. intros [row|]; [|by apply evolves_ret, _].
  apply evolves_bind; [apply _| |intros; by apply evolves_gets, _].
  destruct b; [apply recordRead_same|by apply evolves_ret, _].
Qed.
Lemma kind_same k : evolves same_records (normaliseKind k).
Proof.
  unfold normaliseKind. destruct k as [k|]; [destruct (parse_kind k)|];
    first [by apply evolves_ret, _|apply evolves_throw].
Qed.
Lemma date_same v f : evolves same_records (assertIsoDate v f).
Proof. unfold assertIsoDate. destruct v; first [by apply evolves_guard, _|by apply evolves_ret, _]. Qed.
Lemma url_same v f : evolves same_records (assertHttpUrl v f).
Proof.
  unfold assertHttpUrl. destruct v as [v|]; [|by apply evolves_ret, _].
  destruct (bool_decide _); [by apply evolves_ret, _|].
  destruct (URL_protocol v); [by apply evolves_guard, _|apply evolves_throw].
Qed.

Lemma insert_lore_elsewhere r n : evolves (elsewhere (lr_id r) n) (insert_lore r).
Proof.
  intros d a d' H. unfold insert_lore in H. destruct (lore d !! lr_id r); [done|]. injection H as _ <-.
  split; simpl; try done. intros k Hk. by apply lookup_insert_ne.
Qed.
Lemma update_row_elsewhere id n f : evolves (elsewhere id n) (update_lore_row id f).
Proof.
  intros d a d' H. unfold update_lore_row in H. destruct (lore d !! id); injection H as _ <-; [|done].
  split; simpl; try done. intros k Hk. by apply lookup_insert_ne.
Qed.
Lemma approve_row_elsewhere id n ts : evolves (elsewhere id n) (approve_row ts id).
Proof.
  intros d a d' H. unfold approve_row in H. destruct (lore d !! id); [destruct (bool_decide _)|]; injection H as _ <-; try done.
  split; simpl; try done. intros k Hk. by apply lookup_insert_ne.
Qed.
Lemma fts_insert_elsewhere id f : evolves (elsewhere id (fts_rowid f)) (fts_insert f).
Proof.
  intros d a d' H. unfold fts_insert in H. destruct (existsb _ _); [done|]. injection H as _ <-.
  split; simpl; try done. rewrite filter_snoc_out; [done|]. by intros [].
Qed.
Lemma fts_delete_elsewhere id n d : elsewhere id n d (fts_delete n d).
Proof. split; simpl; try done. by rewrite filter_idem. Qed.
Lemma repo_insert_elsewhere id n repo : evolves (elsewhere id n) (repo_insert id repo).
Proof.
  intros d a d' H. unfold repo_insert in H. repeat case_bool_decide; try done. injection H as _ <-.
  split; simpl; try done. rewrite filter_snoc_out; [done|]. simpl. by intros [].
Qed.
Lemma tag_insert_elsewhere id n tag : evolves (elsewhere id n) (tag_insert id tag).
Proof.
  intros d a d' H. unfold tag_insert in H. repeat case_bool_decide; try done. injection H as _ <-.
  split; simpl; try done. rewrite filter_snoc_out; [done|]. simpl. by intros [].
Qed.
Lemma refresh_elsewhere id n t s : evolves (elsewhere id n) (refreshLoreEmbedding id t s).
Proof.
  intros d a d' H. unfold refreshLoreEmbedding in H. destruct (head _) as [e|].
  - destruct (bool_decide _); injection H as _ <-; [done|]. split; simpl; try done.
    apply filter_fmap_out.
    + intros x Hx. unfold is_embedding_of. rewrite bool_decide_eq_false_2; [done|]. by intros [].
    + intros x Hx. destruct (is_embedding_of id x); [|done]. simpl. by intros [].
  - injection H as _ <-. split; simpl; try done. rewrite filter_snoc_out; [done|]. simpl. by intros [].
Qed.
Lemma snapshot_elsewhere r n ts : evolves (elsewhere (lr_id r) n) (snapshotLoreVersion r ts).
Proof.
  apply evolves_modify. intros d. split; simpl; try done. rewrite filter_snoc_out; [done|]. simpl. by intros [].
Qed.
Lemma replace_repos_elsewhere id n l : evolves (elsewhere id n) (replace_repos id l).
Proof.
  unfold replace_repos. apply evolves_bind; [apply _| |].
  - apply evolves_modify. intros d. split; simpl; try done. by rewrite filter_idem.
  - intros _. apply evolves_for_each; [apply _|]. intros x. apply repo_insert_elsewhere.
Qed.
Lemma replace_tags_elsewhere id n l : evolves (elsewhere id n) (replace_tags id l).
Proof.
  unfold replace_tags. apply evolves_bind; [apply _| |].
  - apply evolves_modify. intros d. split; simpl; try done. by rewrite filter_idem.
  - intros _. apply evolves_for_each; [apply _|]. intros x. apply tag_insert_elsewhere.
Qed.
Lemma scrub_elsewhere r id n d : lr_rowid r = n → elsewhere id n d (scrub r id d).
Proof.
  intros <-. unfold scrub, delete_lore_row. simpl. destruct (lore d !! id) eqn:E; split; simpl; try done;
    rewrite ?filter_idem; try done. intros k Hk. by apply lookup_delete_ne.
Qed.
End statements.
Lemma evolves_same_elsewhere {A} id n (m : LOp A) : evolves same_records m → evolves (elsewhere id n) m.
Proof. intros H d a d' Hr. by apply same_elsewhere, (H _ _ _ Hr). Qed.

(** ** What it means for the store to be whole *)

(** High confidence is for sourced records a person has let in. *)
Definition confidence_ok (r : LoreRow) : Prop :=
  lr_confidence r = conf_high → truthy (lr_source r) = true ∧ lr_status r ≠ lore_draft.
Definition index_of (n : Z) (d : lore_db) : list FtsRow := filter (λ f, fts_rowid f = n) (lore_fts d).
Record lore_ok (d : lore_db) : Prop := mk_lore_ok {
  ok_id : ∀ id r, lore d !! id = Some r → lr_id r = id;
  ok_rowids : ∀ id id' r r', lore d !! id = Some r → lore d !! id' = Some r' → lr_rowid r = lr_rowid r' → id = id';
  ok_index : ∀ id r, lore d !! id = Some r → index_of (lr_rowid r) d = [fts_of r];
  ok_index_only : ∀ f, f ∈ lore_fts d → ∃ id r, lore d !! id = Some r ∧ lr_rowid r = fts_rowid f;
  ok_confidence : ∀ id r, lore d !! id = Some r → confidence_ok r;
  ok_repos : ∀ p, p ∈ lore_repos d → is_Some (lore d !! p.1);
  ok_tags : ∀ p, p ∈ lore_tags d → is_Some (lore d !! p.1);
  ok_versions : ∀ v, v ∈ lore_version d → is_Some (lore d !! lv_lore_id v);
  ok_embeddings : ∀ e, e ∈ lore_embeddings d → is_Some (lore d !! em_lore_id e)
}.
Lemma lore_ok_index_exact d : lore_ok d → ∀ f, f ∈ lore_fts d ↔ ∃ id r, lore d !! id = Some r ∧ f = fts_of r.
Proof.
  intros Hok f. split.
  - intros Hf. destruct (ok_index_only _ Hok f Hf) as (id & r & Hr & E). exists id, r. split; [done|].
    assert (f ∈ index_of (lr_rowid r) d) as Hin by (apply list_elem_of_filter; by split).
    rewrite (ok_index _ Hok _ _ Hr) in Hin. by apply list_elem_of_singleton in Hin.
  - intros (id & r & Hr & ->). assert (fts_of r ∈ index_of (lr_rowid r) d) as Hin.
    { rewrite (ok_index _ Hok _ _ Hr). by apply list_elem_of_singleton. }
    by apply list_elem_of_filter in Hin as [_ ?].
Qed.
(** What holds of the record an operation worked on, whether it is still there
    or not. *)
Definition record_ok (id : string) (n : Z) (d : lore_db) : Prop :=
  match lore d !! id with
  | Some r => lr_id r = id ∧ lr_rowid r = n ∧ index_of n d = [fts_of r] ∧ confidence_ok r
  | None => index_of n d = [] ∧ (∀ p, p ∈ lore_repos d → p.1 ≠ id) ∧ (∀ p, p ∈ lore_tags d → p.1 ≠ id)
            ∧ (∀ v, v ∈ lore_version d → lv_lore_id v ≠ id) ∧ (∀ e, e ∈ lore_embeddings d → em_lore_id e ≠ id)
  end.

Lemma filter_narrow {A K} `{EqDecision K} (key : A → K) (n m : K) (l l' : list A) : m ≠ n →
  filter (λ f, key f ≠ n) l' = filter (λ f, key f ≠ n) l → filter (λ f, key f = m) l' = filter (λ f, key f = m) l.
Proof.
  intros Hm E. assert (∀ k : list A, filter (λ f, key f = m) (filter (λ f, key f ≠ n) k) = filter (λ f, key f = m) k) as Hk.
  { induction k as [|f k IH]; [done|]. destruct (decide (key f = n)).
    - rewrite (filter_cons_False (λ f, key f ≠ n)) by (intros Hn; by apply Hn).
      by rewrite IH, (filter_cons_False (λ f, key f = m)) by congruence.
    - rewrite (filter_cons_True (λ f, key f ≠ n)) by done. destruct (decide (key f = m)).
      + by rewrite !filter_cons_True, IH.
      + by rewrite !filter_cons_False, IH. }
  by rewrite <- (Hk l'), E, Hk.
Qed.
Lemma elem_outside {A} (P : A → Prop) `{∀ x, base.Decision (P x)} (l l' : list A) x :
  filter P l' = filter P l → P x → x ∈ l' → x ∈ l.
Proof.
  intros E Hx Hin. assert (x ∈ filter P l') as Hf by (by apply list_elem_of_filter).
  rewrite E in Hf. by apply list_elem_of_filter in Hf as [_ ?].
Qed.

(** Nobody else has the rowid [n]. *)
Definition owns (id : string) (n : Z) (d : lore_db) : Prop :=
  (∀ k r, k ≠ id → lore d !! k = Some r → lr_rowid r ≠ n) ∧ (∀ r, lore d !! id = Some r → lr_rowid r = n).

(** The step from the two halves to the whole. *)
Lemma ok_step id n d d' :
  lore_ok d → owns id n d → elsewhere id n d d' → record_ok id n d' → lore_ok d'.
Proof.
  intros Hok [Hothers Hown] He Hrec.
  assert (∀ k r, lore d' !! k = Some r → k = id ∨ (k ≠ id ∧ lore d !! k = Some r ∧ lr_rowid r ≠ n)) as Hcase.
  { intros k r Hr. destruct (decide (k = id)) as [->|Hk]; [by left|right].
    rewrite (el_lore _ _ _ _ He k Hk) in Hr. eauto. }
  assert (∀ r, lore d' !! id = Some r → lr_id r = id ∧ lr_rowid r = n ∧ index_of n d' = [fts_of r] ∧ confidence_ok r) as Hid.
  { intros r Hr. unfold record_ok in Hrec. by rewrite Hr in Hrec. }
  assert (∀ (T : Type) (key : T → string) (l l' : list T),
    filter (λ x, key x ≠ id) l' = filter (λ x, key x ≠ id) l →
    (lore d' !! id = None → ∀ x, x ∈ l' → key x ≠ id) →
    (∀ x, x ∈ l → is_Some (lore d !! key x)) → ∀ x, x ∈ l' → is_Some (lore d' !! key x)) as Hforeign.
  { intros T key l l' E Hnone Hl x Hx. destruct (decide (key x = id)) as [E'|Hk].
    - rewrite E'. destruct (lore d' !! id) eqn:Er; [by eexists|]. by destruct (Hnone eq_refl x Hx).
    - rewrite (el_lore _ _ _ _ He _ Hk). apply Hl. by eapply (elem_outside (λ x, key x ≠ id)). }
  unfold record_ok in Hrec. split.
  - intros k r Hr. destruct (Hcase k r Hr) as [->|(_ & Hr' & _)]; [by apply Hid|by eapply ok_id].
  - intros k k' r r' Hr Hr' E. destruct (Hcase k r Hr) as [->|(Hk & H1 & N1)], (Hcase k' r' Hr') as [->|(Hk' & H2 & N2)]; try done.
    + destruct (Hid r Hr) as (_ & ? & _). congruence.
    + destruct (Hid r' Hr') as (_ & ? & _). congruence.
    + by eapply (ok_rowids d).
  - intros k r Hr. destruct (Hcase k r Hr) as [->|(_ & Hr' & Hn)].
    + destruct (Hid r Hr) as (_ & -> & ? & _). done.
    + unfold index_of. rewrite (filter_narrow fts_rowid n _ (lore_fts d)) by (done || apply (el_fts _ _ _ _ He)).
      by eapply ok_index.
  - intros f Hf. destruct (decide (fts_rowid f = n)) as [E|E].
    + assert (f ∈ index_of n d') as Hin by (apply list_elem_of_filter; by split).
      destruct (lore d' !! id) as [r|] eqn:Er.
      * exists id, r. split; [done|]. destruct (Hid r eq_refl) as (_ & -> & _). done.
      * destruct Hrec as [E' _]. rewrite E' in Hin. by apply elem_of_nil in Hin.
    + assert (f ∈ lore_fts d) as Hf' by (eapply (elem_outside (λ f, fts_rowid f ≠ n)); [apply (el_fts _ _ _ _ He)|done|done]).
      destruct (ok_index_only _ Hok f Hf') as (k & r & Hr & Er). exists k, r. split; [|done].
      rewrite (el_lore _ _ _ _ He); [done|]. intros ->. apply E. by rewrite <- Er, (Hown r Hr).
  - intros k r Hr. destruct (Hcase k r Hr) as [->|(_ & Hr' & _)]; [by apply Hid|by eapply ok_confidence].
  - apply (Hforeign _ (λ p : string * string, p.1) (lore_repos d)); [apply (el_repos _ _ _ _ He)| |apply (ok_repos _ Hok)].
    intros E. rewrite E in Hrec. apply Hrec.
  - apply (Hforeign _ (λ p : string * string, p.1) (lore_tags d)); [apply (el_tags _ _ _ _ He)| |apply (ok_tags _ Hok)].
    intros E. rewrite E in Hrec. apply Hrec.
  - apply (Hforeign _ lv_lore_id (lore_version d)); [apply (el_versions _ _ _ _ He)| |apply (ok_versions _ Hok)].
    intros E. rewrite E in Hrec. apply Hrec.
  - apply (Hforeign _ em_lore_id (lore_embeddings d)); [apply (el_embeddings _ _ _ _ He)| |apply (ok_embeddings _ Hok)].
    intros E. rewrite E in Hrec. apply Hrec.
Qed.
Lemma same_ok d d' : same_records d d' → lore_ok d → lore_ok d'.
Proof.
  intros [E1 E2 E3 E4 E5 E6] [H1 H2 H3 H4 H5 H6 H7 H8 H9].
  split; unfold index_of in *; rewrite ?E1, ?E2, ?E3, ?E4, ?E5, ?E6; done.
Qed.
Lemma ok_owns id r d : lore_ok d → lore d !! id = Some r → owns id (lr_rowid r) d.
Proof.
  intros Hok Hr. split; [|congruence]. intros k r' Hk Hr' E. by apply Hk, (ok_rowids d Hok k id r' r).
Qed.
Lemma next_rowid_fresh d k r : lore d !! k = Some r → (lr_rowid r < next_rowid d)%Z.
Proof.
  intros Hr. unfold next_rowid. assert (lr_rowid r ∈ lr_rowid <$> rows (lore d)) as Hin.
  { apply list_elem_of_fmap. exists r. split; [done|]. unfold rows. apply list_elem_of_fmap.
    exists (k, r). split; [done|]. by apply elem_of_map_to_list. }
  revert Hin. generalize (lr_rowid <$> rows (lore d)) as l. induction l as [|x l IH]; [by intros ?%elem_of_nil|].
  rewrite elem_of_cons. simpl. intros [->|Hl%IH]; lia.
Qed.
