(* ===== verification/Edges.v ===== *)
(** * The cross-repo map holds one edge per fact

    A contract has one spelling, whatever the caller wrote; an edge is named by
    its repository, contract and role; and the map answers who depends on a
    contract exactly.  The map's operations keep this, and leave the records of
    [Lore] alone. *)
From Stdlib Require Import Ascii.
From S2P Require Import Prelude Json JsonParse Types EventChain Store Diff Landing Conform Lore Boundaries Recall Records.

(** ** One spelling *)

(** [q] is a stretch of [l]. *)
Definition stretch (q l : list ascii) : Prop := ∃ a b, l = a ++ q ++ b.
Lemma drop_while_spec P l :
  ∃ pre, l = pre ++ drop_while P l ∧ (∀ c, head (drop_while P l) = Some c → P c = false).
Proof.
  induction l as [|c l (pre & IH & Hc)]; [by exists []|]. simpl. destruct (P c) eqn:E.
  - exists (c :: pre). split; [by rewrite <- app_comm_cons; f_equal|done].
  - exists []. split; [done|]. by intros x [= <-].
Qed.
Lemma drop_while_fix P l : (∀ c, head l = Some c → P c = false) → drop_while P l = l.
Proof. destruct l as [|c l]; [done|]. intros H. simpl. by rewrite (H c eq_refl). Qed.

(** The spellings the normalisation settles on: no upper case, no space or
    underscore, no two dashes in a row, none at either end. *)
Definition calm (c : ascii) : Prop := is_upper c = false ∧ dash_space c = false.
Definition no_double (l : list ascii) : Prop := ∀ a b, l ≠ a ++ "-"%char :: "-"%char :: b.
Record settled (l : list ascii) : Prop := mk_settled {
  se_calm : Forall calm l;
  se_double : no_double l;
  se_head : ∀ c, head l = Some c → edge_char c = false;
  se_last : ∀ c, last l = Some c → edge_char c = false
}.

Lemma collapse_elems P l b c : c ∈ collapse_runs P b l → c = "-"%char ∨ (c ∈ l ∧ P c = false).
Proof.
  revert b. induction l as [|x l IH]; intros b; simpl; [by intros ?%elem_of_nil|].
  destruct (P x) eqn:E; [destruct b|]; rewrite ?elem_of_cons.
  - intros [?|[? ?]]%IH; auto.
  - intros [?|[?|[? ?]]%IH]; auto.
  - intros [->|[?|[? ?]]%IH]; auto.
Qed.
Lemma collapse_fix P l b : Forall (λ c, P c = false) l → collapse_runs P b l = l.
Proof. intros H. revert b. induction H as [|c l Hc _ IH]; intros b; [done|]. simpl. by rewrite Hc, IH. Qed.

Lemma no_double_cons c l : no_double (c :: l) ↔ no_double l ∧ ¬ (c = "-"%char ∧ head l = Some "-"%char).
Proof.
  split.
  - intros H. split; [intros a b ->; by apply (H (c :: a) b)|]. intros [-> Hl]. destruct l as [|x l]; [done|].
    injection Hl as ->. by apply (H [] l).
  - intros [H1 H2] [|x a] b E; injection E as -> E; [|by apply (H1 a b)]. apply H2. by rewrite E.
Qed.
Lemma collapse_no_double l b :
  no_double (collapse_runs is_dash b l) ∧ (b = true → head (collapse_runs is_dash b l) ≠ Some "-"%char).
Proof.
  revert b. induction l as [|c l IH]; intros b; simpl.
  { split; [by intros [|? a] ?|done]. }
  destruct (is_dash c) eqn:E; [apply bool_decide_eq_true in E as ->; destruct b|apply bool_decide_eq_false in E as Hc].
  - apply (IH true).
  - split; [|done]. apply no_double_cons. split; [apply (IH true)|]. intros [_ H]. by apply (proj2 (IH true)).
  - split; [apply no_double_cons; split; [apply (IH false)|by intros [? _]]|]. intros _ H. by injection H.
Qed.
Lemma no_double_fix l : no_double l →
  collapse_runs is_dash false l = l ∧ (head l ≠ Some "-"%char → collapse_runs is_dash true l = l).
Proof.
  induction l as [|c l IH]; [done|]. intros [Hl Hc]%no_double_cons. destruct (IH Hl) as [IH1 IH2]. simpl.
  destruct (is_dash c) eqn:E; [apply bool_decide_eq_true in E as ->|].
  - split; [|done]. rewrite IH2; [done|]. naive_solver.
  - by rewrite IH1.
Qed.
Lemma stretch_no_double q l : stretch q l → no_double l → no_double q.
Proof. intros (a & b & ->) H x y ->. apply (H (a ++ x) (y ++ b)). by rewrite <- !app_assoc. Qed.
Lemma stretch_Forall (P : ascii → Prop) q l : stretch q l → Forall P l → Forall P q.
Proof. intros (a & b & ->). rewrite !Forall_app. naive_solver. Qed.

Lemma head_rev (l : list ascii) : head (rev l) = last l.
Proof. destruct l as [|c l _] using rev_ind; [done|]. by rewrite rev_app_distr, last_snoc. Qed.
Lemma strip_edges_spec l :
  stretch (strip_edges l) l ∧ (∀ c, head (strip_edges l) = Some c → edge_char c = false) ∧
  (∀ c, last (strip_edges l) = Some c → edge_char c = false).
Proof.
  unfold strip_edges. destruct (drop_while_spec edge_char l) as (p1 & E1 & H1). set (k := drop_while edge_char l) in *.
  destruct (drop_while_spec edge_char (rev k)) as (p2 & E2 & H2). set (m := drop_while edge_char (rev k)) in *.
  assert (k = rev m ++ rev p2) as Ek by (by rewrite <- rev_app_distr, <- E2, rev_involutive). split; [|split].
  - exists p1, (rev p2). by rewrite <- Ek.
  - intros c Hc. apply H1. rewrite Ek. by destruct (rev m).
  - intros c Hc. apply H2. by rewrite <- head_rev, rev_involutive in Hc.
Qed.
Lemma strip_edges_fix l :
  (∀ c, head l = Some c → edge_char c = false) → (∀ c, last l = Some c → edge_char c = false) → strip_edges l = l.
Proof.
  intros H1 H2. unfold strip_edges. rewrite (drop_while_fix _ l H1), drop_while_fix; [apply rev_involutive|].
  intros c. rewrite head_rev. apply H2.
Qed.

Definition contract_chars (l : list ascii) : list ascii :=
  strip_edges (collapse_runs is_dash false (collapse_runs dash_space false
    (lower_char <$> split_run false (split_camel (trim_chars l))))).
Lemma lower_not_upper c : is_upper (lower_char c) = false.
Proof. by destruct c as [ [] [] [] [] [] [] [] []]. Qed.
Lemma lower_calm c : is_upper c = false → lower_char c = c.
Proof. by destruct c as [ [] [] [] [] [] [] [] []]. Qed.
Lemma contract_settled l : settled (contract_chars l).
Proof.
  unfold contract_chars. set (w := lower_char <$> _).
  destruct (strip_edges_spec (collapse_runs is_dash false (collapse_runs dash_space false w))) as (Hs & Hh & Hl).
  split; [|by eapply stretch_no_double, collapse_no_double|done|done].
  eapply stretch_Forall; [done|]. apply Forall_forall. intros c Hc.
  assert (c = "-"%char ∨ (c ∈ w ∧ dash_space c = false)) as [->|[Hin Hd]]; [|by split|].
  - apply collapse_elems in Hc as [?|[Hc _]]; [by left|by apply collapse_elems in Hc].
  - split; [|done]. apply list_elem_of_fmap in Hin as (x & -> & _). apply lower_not_upper.
Qed.
Lemma calm_camel l : Forall calm l → split_camel l = l.
Proof.
  induction l as [|a [|b l] IH]; [done|done|]. intros H. change (split_camel (a :: b :: l)) with
    (if (is_lower a || is_digit a) && is_upper b then a :: "-"%char :: split_camel (b :: l) else a :: split_camel (b :: l)).
  inversion H as [|? ? _ H']; subst. rewrite (IH H'). inversion H' as [|? ? [Hb _] _]; subst. by rewrite Hb, andb_false_r.
Qed.
Lemma calm_run l b : Forall calm l → split_run b l = l.
Proof.
  revert b. induction l as [|a [|c l] IH]; intros b; [done|done|]. intros H. inversion H as [|? ? [Ha _] H']; subst.
  change (split_run b (a :: c :: l)) with
    (if is_upper a && is_lower c && b then "-"%char :: a :: c :: split_run false l else a :: split_run (is_upper a) (c :: l)).
  rewrite Ha. simpl. f_equal. by apply IH.
Qed.
Lemma calm_trim l : Forall calm l → trim_chars l = l.
Proof.
  assert (∀ k, Forall calm k → drop_spaces k = k) as Hk.
  { intros [|c k] H; [done|]. inversion H as [|? ? [_ Hc] _]; subst. apply orb_false_iff in Hc as [Hc _]. simpl. by rewrite Hc. }
  intros H. unfold trim_chars. rewrite (Hk l H), Hk by by apply Forall_rev. apply rev_involutive.
Qed.
Lemma settled_fix l : settled l → contract_chars l = l.
Proof.
  intros [Hc Hd Hh Hl]. unfold contract_chars. rewrite calm_trim, calm_camel, calm_run by done.
  assert (lower_char <$> l = l) as ->.
  { rewrite <- (list_fmap_id l) at 2. apply list_fmap_ext. intros i c Hi. apply lower_calm.
    rewrite Forall_forall in Hc. by apply Hc, list_elem_of_lookup; exists i. }
  rewrite (collapse_fix dash_space) by (eapply Forall_impl; [exact Hc|by intros c []]).
  rewrite (proj1 (no_double_fix l Hd)). by apply strip_edges_fix.
Qed.
Lemma normaliseContract_chars c :
  normaliseContract c = String.string_of_list_ascii (contract_chars (String.list_ascii_of_string c)).
Proof. done. Qed.
Lemma normaliseContract_idem c : normaliseContract (normaliseContract c) = normaliseContract c.
Proof.
  rewrite !normaliseContract_chars, String.list_ascii_of_string_of_list_ascii. f_equal. apply settled_fix, contract_settled.
Qed.

(** ** One edge per fact *)

(** What every edge says in the one spelling. *)
Definition edge_ok (k : string * string * BoundaryRole) : Prop :=
  k.1.1 ≠ "" ∧ k.1.2 ≠ "" ∧ normaliseRepo k.1.1 = k.1.1 ∧ normaliseContract k.1.2 = k.1.2.
Record edges_ok (d : lore_db) : Prop := mk_edges_ok {
  eo_ids : NoDup (br_id <$> boundaries d);
  eo_keys : NoDup (edge_key <$> boundaries d);
  eo_edges : Forall edge_ok (edge_key <$> boundaries d)
}.
Definition same_edges (d d' : lore_db) : Prop := boundaries d' = boundaries d.
#[export] Instance same_edges_preorder : PreOrder same_edges.
Proof. split; [done|]. intros d1 d2 d3 E1 E2. unfold same_edges. by rewrite E2. Qed.
Lemma same_edges_ok d d' : same_edges d d' → edges_ok d → edges_ok d'.
Proof. intros E []. split; by rewrite E. Qed.
Lemma preserves_edges {A} (m : LOp A) : evolves same_edges m → preserves edges_ok m.
Proof. intros Hm d a d' Hok H. by eapply same_edges_ok; [eapply Hm|]. Qed.

Section edges.
Context {HE : LoreEnv}.

Lemma fmap_keep {B} (g : BoundaryRow → B) (id : string) f (l : list BoundaryRow) :
  (∀ b, br_id b = id → g (f b) = g b) → g <$> ((λ b, if bool_decide (br_id b = id) then f b else b) <$> l) = g <$> l.
Proof.
  intros Hf. induction l as [|b l IH]; [done|]. rewrite !fmap_cons, IH. f_equal.
  destruct (bool_decide_reflect (br_id b = id)); [by apply Hf|done].
Qed.
Lemma set_boundary_ok id f : (∀ b, br_id (f b) = br_id b ∧ edge_key (f b) = edge_key b) →
  preserves edges_ok (set_boundary id f).
Proof.
  intros Hf d a d' [H1 H2 H3] H. injection H as _ <-. split; simpl;
    rewrite ?fmap_keep by (intros b _; by destruct (Hf b)); done.
Qed.
Lemma insert_boundary_ok b : edge_ok (edge_key b) → preserves edges_ok (insert_boundary b).
Proof.
  intros Hb d a d' [H1 H2 H3] H. unfold insert_boundary in H.
  destruct (existsb _ _) eqn:E1 in H; [done|]. destruct (existsb _ _) eqn:E2 in H; [done|]. injection H as _ <-.
  assert (∀ (B : Type) (g : BoundaryRow → B) `{EqDecision B} (l : list BoundaryRow),
    existsb (λ x, bool_decide (g x = g b)) l = false → g b ∉ g <$> l) as Hfresh.
  { intros B g HB l E (x & Ex & Hx)%list_elem_of_fmap. apply not_true_iff_false in E. apply E, existsb_exists.
    exists x. rewrite <- list_elem_of_In. split; [done|]. by apply bool_decide_eq_true_2. }
  split; simpl; rewrite fmap_app.
  - apply NoDup_app. split; [done|]. split; [|apply NoDup_singleton]. intros x Hx ->%list_elem_of_singleton. by eapply Hfresh in Hx.
  - apply NoDup_app. split; [done|]. split; [|apply NoDup_singleton]. intros x Hx ->%list_elem_of_singleton. by eapply Hfresh in Hx.
  - apply Forall_app. split; [done|]. by apply Forall_singleton.
Qed.
Lemma filter_boundaries_ok P `{∀ x, base.Decision (P x)} d :
  edges_ok d → edges_ok (set_boundaries (filter P (boundaries d)) d).
Proof.
  intros [H1 H2 H3]. assert (sublist (filter P (boundaries d)) (boundaries d)) as Hs by apply sublist_filter.
  split; simpl.
  - eapply sublist_NoDup; [done|]. by apply fmap_sublist.
  - eapply sublist_NoDup; [done|]. by apply fmap_sublist.
  - apply Forall_fmap. rewrite Forall_fmap in H3. rewrite Forall_forall in *. intros x [_ Hx]%list_elem_of_filter. by apply H3.
Qed.

Lemma set_boundary_same id f : evolves same_records (set_boundary id f).
Proof. intros d a d' H. injection H as _ <-. by split. Qed.
Lemma insert_boundary_same b : evolves same_records (insert_boundary b).
Proof.
  intros d a d' H. unfold insert_boundary in H. destruct (existsb _ _); [done|]. destruct (existsb _ _); [done|].
  injection H as _ <-. by split.
Qed.
Lemma nowIso_edges : evolves same_edges lore_nowIso.
Proof. by apply evolves_gets, _. Qed.
Lemma newLoreId_edges : evolves same_edges newLoreId.
Proof. intros d a d' H. by injection H as _ <-. Qed.
Lemma event_edges id kind ts p : evolves same_edges (event_insert id kind ts p).
Proof. by apply evolves_modify. Qed.
End edges.
#[export] Hint Resolve nowIso_edges newLoreId_edges event_edges nowIso_same newLoreId_same event_same
  set_boundary_same insert_boundary_same : gaffer.
#[export] Hint Extern 2 (preserves edges_ok lore_nowIso) => apply preserves_edges, nowIso_edges : gaffer.
#[export] Hint Extern 2 (preserves edges_ok newLoreId) => apply preserves_edges, newLoreId_edges : gaffer.
#[export] Hint Extern 2 (preserves edges_ok (event_insert _ _ _ _)) => apply preserves_edges, event_edges : gaffer.

Section operations.
Context {HE : LoreEnv}.

Lemma upsert_key repo contract : normaliseRepo repo ≠ "" → normaliseContract contract ≠ "" →
  ∀ role, edge_ok (normaliseRepo repo, normaliseContract contract, role).
Proof. intros H1 H2 role. split; [done|]. split; [done|]. split; [apply trim_idem|apply normaliseContract_idem]. Qed.
Lemma upsertBoundary_ok input st : preserves edges_ok (upsertBoundary input st).
Proof.
  intros d b d' Hok H. unfold upsertBoundary in H.
  apply bind_ok in H as ([] & d1 & H1 & H). apply guard_ok in H1 as [Hrepo ->].
  apply bind_ok in H as ([] & d1 & H1 & H). apply guard_ok in H1 as [Hcon ->].
  apply negb_true_iff, bool_decide_eq_false in Hrepo, Hcon. revert d b d' Hok H.
  match goal with |- ∀ d b d', _ → ?m d = _ → _ => change (preserves edges_ok m) end.
  structural.
  - by apply set_boundary_ok.
  - apply insert_boundary_ok. by apply upsert_key.
Qed.
Lemma upsertBoundary_same input st : evolves same_records (upsertBoundary input st).
Proof. unfold upsertBoundary. structural. Qed.
Lemma approveBoundary_ok id : preserves edges_ok (approveBoundary id).
Proof. unfold approveBoundary. structural. by apply set_boundary_ok. Qed.
Lemma approveBoundary_same id : evolves same_records (approveBoundary id).
Proof. unfold approveBoundary. structural. Qed.
Lemma rejectBoundary_ok id : preserves edges_ok (rejectBoundary id).
Proof. unfold rejectBoundary. structural. apply preserves_modify. intros d. apply filter_boundaries_ok. Qed.
Lemma rejectBoundary_same id : evolves same_records (rejectBoundary id).
Proof. unfold rejectBoundary. structural. apply evolves_modify. by split. Qed.
Lemma deprecateBoundary_ok id : preserves edges_ok (deprecateBoundary id).
Proof. unfold deprecateBoundary. structural. by apply set_boundary_ok. Qed.
Lemma deprecateBoundary_same id : evolves same_records (deprecateBoundary id).
Proof. unfold deprecateBoundary. structural. Qed.
Lemma importBoundary_ok rec force dry : preserves edges_ok (importBoundary rec force dry).
Proof.
  unfold importBoundary. destruct (parse_role _) as [role|]; [|apply preserves_ret].
  destruct (bool_decide_reflect (normaliseRepo (be_repo rec) = "")) as [|Hrepo]; [apply preserves_ret|].
  destruct (bool_decide_reflect (normaliseContract (be_contract rec) = "")) as [|Hcon]; [apply preserves_ret|].
  simpl. structural.
  - by apply set_boundary_ok.
  - apply insert_boundary_ok. by apply upsert_key.
Qed.
Lemma importBoundary_same rec force dry : evolves same_records (importBoundary rec force dry).
Proof. unfold importBoundary. structural. Qed.
End operations.

(** ** Everything else leaves the map alone *)

Section beside.
Context {HE : LoreEnv}.

Ltac statement f := intros d a d' H; unfold f in H; repeat case_match; simplify_eq/=; done.
Lemma update_row_edges id f : evolves same_edges (update_lore_row id f).
Proof. statement update_lore_row. Qed.
Lemma approve_row_edges ts id : evolves same_edges (approve_row ts id).
Proof. statement approve_row. Qed.
Lemma insert_lore_edges r : evolves same_edges (insert_lore r).
Proof. statement insert_lore. Qed.
Lemma fts_insert_edges f : evolves same_edges (fts_insert f).
Proof. statement fts_insert. Qed.
Lemma refresh_edges id t s : evolves same_edges (refreshLoreEmbedding id t s).
Proof. intros d a d' H. unfold refreshLoreEmbedding in H. repeat case_match; by simplify_eq/=. Qed.
Lemma repo_edges id x : evolves same_edges (repo_insert id x).
Proof. statement repo_insert. Qed.
Lemma tag_edges id x : evolves same_edges (tag_insert id x).
Proof. statement tag_insert. Qed.
Lemma repo_ignore_edges id x : evolves same_edges (repo_insert_or_ignore id x).
Proof. intros d a d' H. unfold repo_insert_or_ignore in H. case_bool_decide; [by injection H as _ <-|by eapply repo_edges]. Qed.
Lemma tag_ignore_edges id x : evolves same_edges (tag_insert_or_ignore id x).
Proof. intros d a d' H. unfold tag_insert_or_ignore in H. case_bool_decide; [by injection H as _ <-|by eapply tag_edges]. Qed.
Lemma snapshot_edges r ts : evolves same_edges (snapshotLoreVersion r ts).
Proof. by apply evolves_modify. Qed.
Lemma kind_edges k : evolves same_edges (normaliseKind k).
Proof. unfold normaliseKind. structural. Qed.
Lemma date_edges v f : evolves same_edges (assertIsoDate v f).
Proof. unfold assertIsoDate. structural. Qed.
Lemma url_edges v f : evolves same_edges (assertHttpUrl v f).
Proof. unfold assertHttpUrl. structural. Qed.
Lemma read_edges ids via : evolves same_edges (recordRead ids via).
Proof. unfold recordRead. structural. Qed.
Lemma insert_feedback_edges r : evolves same_edges (insert_feedback r).
Proof. statement insert_feedback. Qed.
Lemma recall_insert_edges r : evolves same_edges (recall_insert_row r).
Proof. statement recall_insert_row. Qed.
Lemma adjust_card_edges t o ts acc id : evolves same_edges (adjust_card t o ts acc id).
Proof. intros d a d' H. unfold adjust_card in H. destruct (file_card d !! id); injection H as _ <-; done. Qed.
Lemma modify_edges f : (∀ d, boundaries (f d) = boundaries d) → evolves same_edges (modify f : LOp unit).
Proof. by intros H; apply evolves_modify. Qed.
#[local] Hint Resolve update_row_edges approve_row_edges insert_lore_edges fts_insert_edges refresh_edges repo_edges
  tag_edges repo_ignore_edges tag_ignore_edges snapshot_edges kind_edges date_edges url_edges read_edges
  insert_feedback_edges recall_insert_edges adjust_card_edges : gaffer.
#[local] Hint Extern 3 (evolves same_edges (modify _)) => by apply modify_edges : gaffer.

Lemma getLore_edges id b : evolves same_edges (getLore id b).
Proof. unfold getLore. structural. Qed.
#[local] Hint Resolve getLore_edges : gaffer.
Lemma insertLore_edges input st : evolves same_edges (insertLore input st).
Proof. unfold insertLore. structural. Qed.
#[local] Hint Resolve insertLore_edges : gaffer.
Lemma reportConflict_edges input : evolves same_edges (reportConflict input).
Proof. unfold reportConflict, refuse_conflict. structural. Qed.
Lemma approveLore_edges id : evolves same_edges (approveLore id).
Proof. unfold approveLore. structural. Qed.
Lemma deprecateLore_edges id : evolves same_edges (deprecateLore id).
Proof. unfold deprecateLore. structural. Qed.
Lemma supersedeLore_edges o n b : evolves same_edges (supersedeLore o n b).
Proof. unfold supersedeLore, supersede_tx. structural. Qed.
Lemma verifyLore_edges id o : evolves same_edges (verifyLore id o).
Proof. unfold verifyLore. structural. Qed.
Lemma updateLore_edges id i : evolves same_edges (updateLore id i).
Proof. unfold updateLore, reindexed, replace_repos, replace_tags. structural. Qed.
Lemma upsert_edges i : evolves same_edges (upsertLoreFromImport i).
Proof. unfold upsertLoreFromImport, reindexed, replace_repos, replace_tags. structural. Qed.
Lemma scrub_edges r id d : boundaries (scrub r id d) = boundaries d.
Proof. unfold scrub, delete_lore_row. simpl. by destruct (lore d !! id). Qed.
Lemma rejectLore_edges id r : evolves same_edges (rejectLore id r).
Proof. unfold rejectLore, reactivate. structural. apply modify_edges. intros. apply scrub_edges. Qed.
Lemma deleteLore_edges id : evolves same_edges (deleteLore id).
Proof. unfold deleteLore. structural. apply modify_edges. intros. apply scrub_edges. Qed.
Lemma recallFeedback_edges r t o : evolves same_edges (recallFeedback r t o).
Proof. unfold recallFeedback, adjust_lore. structural. Qed.
Lemma logRecall_edges r t ls cs : evolves same_edges (logRecall r t ls cs).
Proof. unfold logRecall, recall_insert. structural. Qed.
Lemma recall_insert_same r : evolves same_records (recall_insert_row r).
Proof. intros d a d' H. unfold recall_insert_row in H. destruct (existsb _ _); injection H as _ <-; by split. Qed.
#[local] Hint Resolve recall_insert_same : gaffer.
Lemma logRecall_same r t ls cs : evolves same_records (logRecall r t ls cs).
Proof. unfold logRecall, recall_insert. structural. Qed.
End beside.
