(* ===== verification/Lores.v ===== *)
(** * What the memory promises

    Every call of the memory's public interface, a person's or an agent's, as
    one type; the proof that the store stays whole under all of them; and what
    removing, editing, superseding and challenging a record mean. *)
From Stdlib Require Import Ascii.
From S2P Require Import Prelude Json JsonParse Types EventChain Store Diff Landing Lore Boundaries Recall LoreTools Conform Records Edges.

(** ** Keeping the store whole *)

Definition same_core (d d' : lore_db) : Prop := lore d' = lore d ∧ lore_fts d' = lore_fts d.
#[export] Instance same_core_preorder : PreOrder same_core.
Proof. split; [by intros d|]. intros d1 d2 d3 [E1 E2] [E3 E4]. unfold same_core. split; congruence. Qed.
Lemma same_core_of d d' : same_records d d' → same_core d d'.
Proof. intros []. by split. Qed.
Lemma clamp_ok c src st r : lr_confidence r = clampConfidence c (truthy src) st → lr_source r = src → lr_status r = st →
  confidence_ok r.
Proof.
  unfold confidence_ok, clampConfidence. intros -> -> ->. destruct (c ?? conf_medium), (truthy src), st; naive_solver.
Qed.

(** An edit that keeps the record's name, its place and its texts. *)
Record quiet_edit (r r' : LoreRow) : Prop := mk_quiet_edit {
  qe_id : lr_id r' = lr_id r;
  qe_fts : fts_of r' = fts_of r;
  qe_confidence : confidence_ok r → confidence_ok r'
}.
Lemma quiet_rowid r r' : quiet_edit r r' → lr_rowid r' = lr_rowid r.
Proof. intros [_ E _]. by apply (f_equal fts_rowid) in E. Qed.
Lemma quiet_ok d id r r' :
  lore_ok d → lore d !! id = Some r → quiet_edit r r' → lore_ok (set_lore (<[id := r']> (lore d)) d).
Proof.
  intros Hok Hr Hq. pose proof (quiet_rowid _ _ Hq) as Hn. destruct Hq as [Hid Hfts Hc].
  apply (ok_step id (lr_rowid r) d); [done|by apply ok_owns| |].
  - split; simpl; try done. intros k Hk. by apply lookup_insert_ne.
  - unfold record_ok. simpl. rewrite lookup_insert_eq. split; [by rewrite Hid, (ok_id _ Hok _ _ Hr)|]. split; [done|]. split.
    + rewrite Hfts. apply (ok_index _ Hok _ _ Hr).
    + by apply Hc, (ok_confidence _ Hok id).
Qed.

Section keeping.
Context {HE : LoreEnv}.

Lemma update_ok id f : (∀ r, quiet_edit r (f r)) → preserves lore_ok (update_lore_row id f).
Proof.
  intros Hf d a d' Hok H. unfold update_lore_row in H.
  destruct (lore d !! id) as [r|] eqn:Hr; injection H as _ <-; [by eapply quiet_ok|done].
Qed.
Lemma approve_row_ok ts id : preserves lore_ok (approve_row ts id).
Proof.
  intros d a d' Hok H. unfold approve_row in H. destruct (lore d !! id) as [r|] eqn:Hr; [|by injection H as _ <-].
  destruct (bool_decide (lr_status r = lore_draft)); injection H as _ <-; [|done].
  eapply quiet_ok; [done|done|]. split; [done|done|]. intros Hc Hh. by destruct (Hc Hh).
Qed.
Lemma preserves_same {A} (m : LOp A) : evolves same_records m → preserves lore_ok m.
Proof. intros Hm d a d' Hok H. by eapply same_ok; [eapply Hm|]. Qed.
Lemma nowIso_ok : preserves lore_ok lore_nowIso.
Proof. apply preserves_same, nowIso_same. Qed.
Lemma event_ok id kind ts p : preserves lore_ok (event_insert id kind ts p).
Proof. apply preserves_same, event_same. Qed.
Lemma getLore_ok id b : preserves lore_ok (getLore id b).
Proof. apply preserves_same, getLore_same. Qed.
Lemma newLoreId_ok : preserves lore_ok newLoreId.
Proof. apply preserves_same, newLoreId_same. Qed.
Lemma kind_ok k : preserves lore_ok (normaliseKind k).
Proof. apply preserves_same, kind_same. Qed.
Lemma date_ok v f : preserves lore_ok (assertIsoDate v f).
Proof. apply preserves_same, date_same. Qed.
Lemma url_ok' v f : preserves lore_ok (assertHttpUrl v f).
Proof. apply preserves_same, url_same. Qed.
End keeping.
#[export] Hint Resolve approve_row_ok nowIso_ok event_ok getLore_ok newLoreId_ok kind_ok date_ok url_ok' : gaffer.

Section lifecycle.
Context {HE : LoreEnv}.

Ltac quiet := let r := fresh "r" in let Hc := fresh "Hc" in let Hh := fresh "Hh" in
  apply update_ok; intros r; split; [done|done|intros Hc Hh; destruct (Hc Hh); by split].
Lemma approveLore_ok id : preserves lore_ok (approveLore id).
Proof. unfold approveLore. structural. Qed.
Lemma deprecateLore_ok id : preserves lore_ok (deprecateLore id).
Proof. unfold deprecateLore. structural. quiet. Qed.
Lemma supersede_tx_ok o n ts b : preserves lore_ok (supersede_tx o n ts b).
Proof. unfold supersede_tx. structural. quiet. Qed.
Lemma supersedeLore_ok o n b : preserves lore_ok (supersedeLore o n b).
Proof.
  unfold supersedeLore. structural. quiet.
Qed.
Lemma verifyLore_ok id o : preserves lore_ok (verifyLore id o).
Proof. unfold verifyLore. structural. quiet. Qed.
Lemma reactivate_ok ts o id : preserves lore_ok (reactivate ts o id).
Proof. unfold reactivate. structural. quiet. Qed.
Lemma adjusted_confidence_ok reward ts r : confidence_ok r → confidence_ok (adjusted_row reward ts r).
Proof.
  intros Hc Hh. assert (adjusted_confidence reward r = conf_high) as Ha by (revert Hh; by destruct reward).
  assert (truthy (lr_source r) = true ∧ lr_status r ≠ lore_draft) as H; [|by destruct reward].
  revert Ha. unfold adjusted_confidence, confidence_ok in *. destruct reward.
  - unfold higherOf, clampConfidence. destruct (lr_confidence r), (truthy (lr_source r)), (lr_status r);
      simpl; try done; intros _; split; done || (apply Hc; done).
  - by destruct (lr_confidence r).
Qed.
Lemma adjust_lore_ok t o ts acc id : preserves lore_ok (adjust_lore t o ts acc id).
Proof.
  unfold adjust_lore. structural. apply update_ok. intros r. split; [by destruct (bool_decide _)..|].
  apply adjusted_confidence_ok.
Qed.
Lemma adjust_card_ok t o ts acc id : preserves lore_ok (adjust_card t o ts acc id).
Proof.
  apply preserves_same. intros d a d' H. unfold adjust_card in H. destruct (file_card d !! id); injection H as _ <-; [|done].
  by split.
Qed.
Lemma insert_feedback_ok r : preserves lore_ok (insert_feedback r).
Proof.
  apply preserves_same. intros d u d' H. unfold insert_feedback in H. destruct (existsb _ _); [done|].
  destruct (applied _ _ _ _); [done|]. injection H as _ <-. by split.
Qed.
#[local] Hint Resolve adjust_lore_ok adjust_card_ok insert_feedback_ok : gaffer.
Lemma recallFeedback_ok r t o : preserves lore_ok (recallFeedback r t o).
Proof. unfold recallFeedback. structural. apply preserves_same, evolves_modify. by split. Qed.
End lifecycle.

(** ** Statements beside the record and its index *)

Section beside.
Context {HE : LoreEnv}.
Lemma core_same {A} (m : LOp A) : evolves same_records m → evolves same_core m.
Proof. intros Hm d a d' H. by eapply same_core_of, Hm. Qed.
Lemma refresh_core id t s : evolves same_core (refreshLoreEmbedding id t s).
Proof.
  intros d a d' H. unfold refreshLoreEmbedding in H. destruct (head _); [destruct (bool_decide _)|]; by injection H as _ <-.
Qed.
Lemma repo_core id x : evolves same_core (repo_insert id x).
Proof. intros d a d' H. unfold repo_insert in H. repeat case_bool_decide; try done. by injection H as _ <-. Qed.
Lemma tag_core id x : evolves same_core (tag_insert id x).
Proof. intros d a d' H. unfold tag_insert in H. repeat case_bool_decide; try done. by injection H as _ <-. Qed.
Lemma repo_ignore_core id x : evolves same_core (repo_insert_or_ignore id x).
Proof.
  intros d a d' H. unfold repo_insert_or_ignore in H. case_bool_decide; [by injection H as _ <-|]. by eapply repo_core.
Qed.
Lemma tag_ignore_core id x : evolves same_core (tag_insert_or_ignore id x).
Proof.
  intros d a d' H. unfold tag_insert_or_ignore in H. case_bool_decide; [by injection H as _ <-|]. by eapply tag_core.
Qed.
Lemma repo_ignore_elsewhere id n x : evolves (elsewhere id n) (repo_insert_or_ignore id x).
Proof.
  intros d a d' H. unfold repo_insert_or_ignore in H. case_bool_decide; [by injection H as _ <-|].
  by eapply repo_insert_elsewhere.
Qed.
Lemma tag_ignore_elsewhere id n x : evolves (elsewhere id n) (tag_insert_or_ignore id x).
Proof.
  intros d a d' H. unfold tag_insert_or_ignore in H. case_bool_decide; [by injection H as _ <-|].
  by eapply tag_insert_elsewhere.
Qed.
Lemma snapshot_core r ts : evolves same_core (snapshotLoreVersion r ts).
Proof. by apply evolves_modify. Qed.
Lemma replace_repos_core id l : evolves same_core (replace_repos id l).
Proof. unfold replace_repos. structural; [by apply evolves_modify|apply repo_core]. Qed.
Lemma replace_tags_core id l : evolves same_core (replace_tags id l).
Proof. unfold replace_tags. structural; [by apply evolves_modify|apply tag_core]. Qed.
Lemma elsewhere_same {A} id n (m : LOp A) : evolves same_records m → evolves (elsewhere id n) m.
Proof. apply evolves_same_elsewhere. Qed.

Lemma insert_lore_inv r d n d' : insert_lore r d = Ok n d' →
  lore d !! lr_id r = None ∧ n = lr_rowid r ∧ d' = set_lore (<[lr_id r := r]> (lore d)) d.
Proof. unfold insert_lore. destruct (lore d !! lr_id r); [done|]. by intros [= <- <-]. Qed.
Lemma fts_insert_inv f d u d' : fts_insert f d = Ok u d' →
  index_of (fts_rowid f) d = [] ∧ d' = set_lore_fts (lore_fts d ++ [f]) d.
Proof.
  unfold fts_insert. destruct (existsb _ _) eqn:E; [done|]. intros [= _ <-]. split; [|done].
  unfold index_of. destruct (filter _ _) as [|g l] eqn:Eg; [done|exfalso].
  assert (g ∈ filter (λ f0, fts_rowid f0 = fts_rowid f) (lore_fts d)) as [Hg Hin]%list_elem_of_filter by (rewrite Eg; by left).
  apply not_true_iff_false in E. apply E, existsb_exists. exists g. rewrite <- list_elem_of_In. split; [done|].
  by apply bool_decide_eq_true_2.
Qed.
Lemma index_snoc n d f : index_of n d = [] → fts_rowid f = n → index_of n (set_lore_fts (lore_fts d ++ [f]) d) = [f].
Proof. intros E Hf. unfold index_of in *. simpl. rewrite filter_app, E, filter_cons_True by done. done. Qed.
End beside.
#[export] Hint Resolve refresh_core repo_core tag_core repo_ignore_core tag_ignore_core snapshot_core
  replace_repos_core replace_tags_core refresh_elsewhere repo_ignore_elsewhere tag_ignore_elsewhere
  replace_repos_elsewhere replace_tags_elsewhere fts_insert_elsewhere : gaffer.
#[export] Hint Extern 2 (evolves same_core (event_insert _ _ _ _)) => apply core_same, event_same : gaffer.
#[export] Hint Extern 2 (evolves (elsewhere _ _) (event_insert _ _ _ _)) => apply elsewhere_same, event_same : gaffer.
#[export] Hint Extern 2 (evolves same_core (getLore _ _)) => apply core_same, getLore_same : gaffer.
#[export] Hint Extern 2 (evolves (elsewhere _ _) (getLore _ _)) => apply elsewhere_same, getLore_same : gaffer.

(** ** New records *)

Section adding.
Context {HE : LoreEnv}.

(** What a record is accompanied by once its row is in. *)
Definition accompany (r : LoreRow) (repos tags : list string) (kind ts : string) : LOp unit :=
  fts_insert (fts_of r) ≫= λ _,
  refreshLoreEmbedding (lr_id r) (lr_title r) (lr_summary r) ≫= λ _,
  for_each repos (repo_insert_or_ignore (lr_id r)) ≫= λ _,
  for_each tags (tag_insert_or_ignore (lr_id r)) ≫= λ _,
  event_insert (lr_id r) kind ts None.

(** [d'] is [d] with one more record. *)
Record added (d : lore_db) (r : LoreRow) (d' : lore_db) : Prop := mk_added {
  ad_fresh : lore d !! lr_id r = None;
  ad_rowid : lr_rowid r = next_rowid d;
  ad_lore : lore d' = <[lr_id r := r]> (lore d);
  ad_index : index_of (lr_rowid r) d' = [fts_of r];
  ad_elsewhere : elsewhere (lr_id r) (lr_rowid r) d d'
}.
Lemma added_ok d r d' : lore_ok d → confidence_ok r → added d r d' → lore_ok d'.
Proof.
  intros Hok Hc [Hf Hn Hl Hi He]. apply (ok_step (lr_id r) (lr_rowid r) d); [done| |done|].
  - split; [|congruence]. intros k r' _ Hr' E. pose proof (next_rowid_fresh d k r' Hr'). lia.
  - unfold record_ok. by rewrite Hl, lookup_insert_eq.
Qed.
Lemma accompany_added d r repos tags kind ts u d' :
  lore d !! lr_id r = None → lr_rowid r = next_rowid d →
  accompany r repos tags kind ts (set_lore (<[lr_id r := r]> (lore d)) d) = Ok u d' → added d r d'.
Proof.
  intros Hf Hn H. unfold accompany in H. apply bind_ok in H as ([] & d1 & Hins & H).
  assert (elsewhere (lr_id r) (lr_rowid r) d1 d') as He.
  { eapply (evolves_bind (elsewhere (lr_id r) (lr_rowid r)) (refreshLoreEmbedding _ _ _)); [| |exact H];
      structural. }
  assert (same_core d1 d') as [El Ei].
  { eapply (evolves_bind same_core (refreshLoreEmbedding _ _ _)); [| |exact H]; structural. }
  pose proof (fts_insert_elsewhere (lr_id r) _ _ _ _ Hins) as Hins'.
  apply fts_insert_inv in Hins as [Hi ->]. simpl in *. split; [done|done|by rewrite El| |].
  - unfold index_of. rewrite Ei. simpl. unfold index_of in Hi. simpl in Hi.
    rewrite filter_app, Hi, filter_cons_True by done. done.
  - etrans; [|exact He]. etrans; [|exact Hins']. split; simpl; try done. intros k Hk. by apply lookup_insert_ne.
Qed.
End adding.

Section inserting.
Context {HE : LoreEnv}.

Lemma accompany_run r repos tags kind ts d d1 d2 d3 d4 d5 :
  fts_insert (fts_of r) d = Ok tt d1 →
  refreshLoreEmbedding (lr_id r) (lr_title r) (lr_summary r) d1 = Ok tt d2 →
  for_each repos (repo_insert_or_ignore (lr_id r)) d2 = Ok tt d3 →
  for_each tags (tag_insert_or_ignore (lr_id r)) d3 = Ok tt d4 →
  event_insert (lr_id r) kind ts None d4 = Ok tt d5 →
  accompany r repos tags kind ts d = Ok tt d5.
Proof.
  intros H1 H2 H3 H4 H5. unfold accompany.
  rewrite (bind_run _ _ _ _ _ H1), (bind_run _ _ _ _ _ H2), (bind_run _ _ _ _ _ H3), (bind_run _ _ _ _ _ H4). done.
Qed.

(** What a new record is: its input, under the rules for confidence. *)
Lemma insertLore_added input st d l d' :
  insertLore input st d = Ok l d' →
  ∃ r d0, same_records d d0 ∧ added d0 r d' ∧ confidence_ok r ∧ lr_status r = st ∧ lr_author r = ai_author input ∧
    lr_title r = ai_title input ∧ lr_summary r = ai_summary input ∧ lr_body r = ai_body input ∧
    lr_superseded_by r = None ∧ lr_conflicts_with r = None ∧ lr_restricted r = ai_restricted input ?? false ∧
    lo_id l = lr_id r ∧ lo_status l = st.
Proof.
  unfold insertLore. intros H. apply bind_ok in H as (id & d1 & Hid & H). apply bind_ok in H as (ts & d2 & Hts & H).
  apply bind_ok in H as (kind & d3 & Hk & H). apply bind_ok in H as ([] & d4 & Hd & H).
  apply bind_ok in H as ([] & d5 & Hu & H).
  assert (same_records d d5) as Hsame.
  { etrans; [by eapply newLoreId_same|]. etrans; [by eapply nowIso_same|]. etrans; [by eapply kind_same|].
    etrans; [by eapply date_same|]. by eapply url_same. }
  clear Hid Hts Hk Hd Hu. apply bind_ok in H as (n & d6 & Hn & H). injection Hn as <- <-.
  apply bind_ok in H as (n & d7 & Hins & H). apply insert_lore_inv in Hins as (Hfresh & -> & ->).
  set (r := mk_LoreRow _ _ _ _ _ _ _ _ _ _ _ _ _ _ _ _ _ _ _ _ _) in *.
  apply bind_ok in H as ([] & d8 & H1 & H). apply bind_ok in H as ([] & d9 & H2 & H).
  apply bind_ok in H as ([] & d10 & H3 & H). apply bind_ok in H as ([] & d11 & H4 & H).
  apply bind_ok in H as ([] & d12 & H5 & H). apply bind_ok in H as (row & d13 & Hg & H). injection Hg as <- <-.
  apply bind_ok in H as (row & d14 & Hr & H). apply require_ok in Hr as [Hrow ->]. injection H as <- <-.
  pose proof (accompany_run r _ _ _ _ _ _ _ _ _ _ H1 H2 H3 H4 H5) as Hacc.
  pose proof (accompany_added _ r _ _ _ _ _ _ Hfresh eq_refl Hacc) as Hadd.
  rewrite (ad_lore _ _ _ Hadd) in Hrow. change id with (lr_id r) in Hrow.
  rewrite lookup_insert_eq in Hrow. injection Hrow as <-.
  exists r, d5. split; [done|]. split; [done|]. split; [by eapply clamp_ok|]. done.
Qed.
Lemma insertLore_ok input st : preserves lore_ok (insertLore input st).
Proof.
  intros d l d' Hok H. apply insertLore_added in H as (r & d0 & Hs & Ha & Hc & _).
  eapply added_ok; [by eapply same_ok|done|done].
Qed.
Lemma suggestLore_ok input b : preserves lore_ok (suggestLore input b).
Proof. apply insertLore_ok. Qed.
Lemma update_conflicts_ok id c : preserves lore_ok (update_lore_row id (set_lr_conflicts_with c)).
Proof. apply update_ok. intros r. split; [done|done|]. intros Hc Hh. destruct (Hc Hh). by split. Qed.
#[local] Hint Resolve insertLore_ok update_conflicts_ok : gaffer.
Lemma reportConflict_ok input : preserves lore_ok (reportConflict input).
Proof. unfold reportConflict, refuse_conflict. structural. Qed.
End inserting.
#[export] Hint Resolve insertLore_ok suggestLore_ok reportConflict_ok : gaffer.

(** ** Edited records *)

Section editing.
Context {HE : LoreEnv}.

Lemma reindexed_run n id t s b d u d' : reindexed n id t s b d = Ok u d' →
  lore d' = lore d ∧ index_of n d' = [mk_FtsRow n t s b] ∧ elsewhere id n d d'.
Proof.
  unfold reindexed. intros H. apply bind_ok in H as ([] & d1 & Hd & H). injection Hd as <-.
  apply bind_ok in H as ([] & d2 & Hi & H).
  pose proof (fts_insert_elsewhere id _ _ _ _ Hi) as He. apply fts_insert_inv in Hi as [Hix ->].
  destruct (refresh_core _ _ _ _ _ _ H) as [El Ef]. split; [by rewrite El|]. split.
  - unfold index_of. rewrite Ef. simpl in *. unfold index_of in Hix. simpl in Hix.
    by rewrite filter_app, Hix, filter_cons_True.
  - etrans; [apply (fts_delete_elsewhere id n)|]. etrans; [exact He|]. by eapply refresh_elsewhere.
Qed.

(** [d'] is [d] with the row of one record replaced, its index entry with it. *)
Record edited (d : lore_db) (id : string) (r r' : LoreRow) (d' : lore_db) : Prop := mk_edited {
  ed_row : lore d !! id = Some r;
  ed_id : lr_id r' = lr_id r;
  ed_rowid : lr_rowid r' = lr_rowid r;
  ed_lore : lore d' = <[id := r']> (lore d);
  ed_index : index_of (lr_rowid r) d' = [fts_of r'];
  ed_elsewhere : elsewhere id (lr_rowid r) d d'
}.
Lemma edited_ok d id r r' d' : lore_ok d → confidence_ok r' → edited d id r r' d' → lore_ok d'.
Proof.
  intros Hok Hc [Hr Hid Hn Hl Hi He]. apply (ok_step id (lr_rowid r) d); [done|by apply ok_owns|done|].
  unfold record_ok. rewrite Hl, lookup_insert_eq, Hid, (ok_id _ Hok _ _ Hr). done.
Qed.
(** What follows the row and the index leaves both. *)
Lemma edited_tail {A} (m : LOp A) d id r r' d1 a d' :
  edited d id r r' d1 → evolves same_core m → evolves (elsewhere id (lr_rowid r)) m → m d1 = Ok a d' → edited d id r r' d'.
Proof.
  intros [Hr Hid Hn Hl Hi He] Hcore Helse H. destruct (Hcore _ _ _ H) as [El Ef]. split; try done.
  - by rewrite El.
  - unfold index_of in *. by rewrite Ef.
  - etrans; [done|by eapply Helse].
Qed.

Definition touches_text (input : UpdateLoreInput) : bool :=
  bool_decide (is_Some (ui_title input) ∨ is_Some (ui_summary input) ∨ is_Some (ui_body input)).
Lemma untouched_text input current kind ts :
  touches_text input = false → fts_of (updated_row current input kind ts) = fts_of current.
Proof.
  unfold touches_text. rewrite bool_decide_eq_false. intros H. unfold fts_of, updated_row. simpl.
  destruct (ui_title input), (ui_summary input), (ui_body input); simpl; try done;
    exfalso; apply H; rewrite ?is_Some_alt; eauto.
Qed.

(** The version history is the same. *)
Definition same_history (d d' : lore_db) : Prop := lore_version d' = lore_version d.
#[local] Instance same_history_preorder : PreOrder same_history.
Proof. split; [done|]. intros d1 d2 d3 E1 E2. unfold same_history. by rewrite E2. Qed.
Lemma history_same {A} (m : LOp A) : evolves same_records m → evolves same_history m.
Proof. intros Hm d a d' H. by apply sr_versions, (Hm _ _ _ H). Qed.
Lemma history_repos id l : evolves same_history (replace_repos id l).
Proof.
  unfold replace_repos. structural; [by apply evolves_modify|].
  intros s u s' H. unfold repo_insert in H. repeat case_bool_decide; try done. by injection H as _ <-.
Qed.
Lemma history_tags id l : evolves same_history (replace_tags id l).
Proof.
  unfold replace_tags. structural; [by apply evolves_modify|].
  intros s u s' H. unfold tag_insert in H. repeat case_bool_decide; try done. by injection H as _ <-.
Qed.
Lemma history_event id k ts p : evolves same_history (event_insert id k ts p).
Proof. apply history_same, event_same. Qed.
Lemma history_get id b : evolves same_history (getLore id b).
Proof. apply history_same, getLore_same. Qed.
#[local] Hint Resolve history_repos history_tags history_event history_get : gaffer.

Lemma updateLore_edited id input d l d' :
  lore_ok d → updateLore id input d = Ok l d' →
  (l = None ∧ d' = d ∧ lore d !! id = None) ∨
  ∃ current kind ts, lore d !! id = Some current ∧
    edited d id current (updated_row current input kind ts) d' ∧
    ∃ d1 d2, same_records d d1 ∧ snapshotLoreVersion current ts d1 = Ok tt d2 ∧ lore_version d' = lore_version d2.
Proof.
  intros Hok. unfold updateLore. intros H. apply bind_ok in H as (current & d0 & Hg & H). injection Hg as <- <-.
  destruct (lore d !! id) as [current|] eqn:Hcur; [right|injection H as <- <-; by left].
  apply bind_ok in H as ([] & d1 & Hd & H). apply bind_ok in H as ([] & d2 & Hu & H).
  apply bind_ok in H as (kind & d3 & Hk & H). apply bind_ok in H as (ts & d4 & Ht & H).
  assert (same_records d d4) as Hsame.
  { etrans; [by eapply date_same|]. etrans; [by eapply url_same|]. etrans; [|by eapply nowIso_same].
    revert Hk. destruct (ui_kind input); [apply kind_same|by intros [= _ <-]]. }
  clear Hd Hu Hk Ht. apply bind_ok in H as ([] & d5 & Hsnap & H). apply bind_ok in H as (b & d6 & Hup & H).
  set (row := updated_row current input kind ts) in *.
  pose proof (snapshot_core _ _ _ _ _ Hsnap) as [El5 Ef5].
  assert (lr_id current = id) as Hid by by eapply ok_id.
  pose proof (snapshot_elsewhere current (lr_rowid current) _ _ _ _ Hsnap) as He5. rewrite Hid in He5.
  pose proof (update_row_elsewhere id (lr_rowid current) _ _ _ _ Hup) as He6.
  unfold update_lore_row in Hup. rewrite El5, (sr_lore _ _ Hsame), Hcur in Hup. injection Hup as <- <-.
  apply bind_ok in H as ([] & d7 & Hre & H).
  assert (edited d id current row d7) as Hed.
  { assert (elsewhere id (lr_rowid current) d d5) as He by (etrans; [by apply same_elsewhere|done]).
    destruct (bool_decide _) eqn:Htouch; unfold when in Hre.
    - apply reindexed_run in Hre as (El & Ei & He7). split; try done.
      do 2 (etrans; [done|]). done.
    - injection Hre as <-. split; try done; [|by etrans].
      unfold index_of. simpl. rewrite Ef5, (sr_fts _ _ Hsame). unfold row. rewrite untouched_text by done.
      apply (ok_index _ Hok _ _ Hcur). }
  exists current, kind, ts. split; [done|]. split.
  - eapply (edited_tail (_ ≫= _)); [done| | |exact H]; structural.
  - exists d4, d5. split; [done|]. split; [done|]. clear Hed.
    assert (same_history d5 d7) as E7.
    { revert Hre. destruct (bool_decide _); unfold when; [|by intros [= <-]]. unfold reindexed. intros Hre.
      apply bind_ok in Hre as ([] & e1 & Hx & Hre). injection Hx as <-. apply bind_ok in Hre as ([] & e2 & Hx & Hre).
      apply fts_insert_inv in Hx as [_ ->]. unfold refreshLoreEmbedding in Hre.
      destruct (head _); [destruct (bool_decide _)|]; by injection Hre as <-. }
    unfold same_history in E7. rewrite <- E7. revert H. apply (evolves_bind same_history (_ : LOp unit)); structural.
Qed.
End editing.

Section importing.
Context {HE : LoreEnv}.

Lemma updated_confidence input current kind ts : confidence_ok (updated_row current input kind ts).
Proof. eapply clamp_ok; done. Qed.
Lemma updateLore_ok id input : preserves lore_ok (updateLore id input).
Proof.
  intros d l d' Hok H. destruct (updateLore_edited _ _ _ _ _ Hok H) as [(_ & -> & _)|(c & k & ts & _ & He & _)]; [done|].
  eapply edited_ok; [done|apply updated_confidence|done].
Qed.

Lemma imported_added d r n t s b id repos tags ts u d' (Hid : lr_id r = id) :
  lore d !! id = None → lr_rowid r = next_rowid d → fts_of r = mk_FtsRow n t s b →
  ((fts_insert (mk_FtsRow n t s b) ≫= λ _, refreshLoreEmbedding id t s) ≫= λ _,
   replace_repos id repos ≫= λ _, replace_tags id tags ≫= λ _, event_insert id "imported" ts None)
    (set_lore (<[id := r]> (lore d)) d) = Ok u d' → added d r d'.
Proof.
  intros Hf Hn Hfts H. subst id. apply bind_ok in H as ([] & d2 & H1 & H). apply bind_ok in H1 as ([] & d1 & Hins & H1).
  rewrite <- Hfts in Hins.
  assert (lr_rowid r = fts_rowid (fts_of r)) as En by done.
  pose proof (fts_insert_elsewhere (lr_id r) _ _ _ _ Hins) as He. apply fts_insert_inv in Hins as [Hi ->].
  assert (same_core d2 d' ∧ elsewhere (lr_id r) (lr_rowid r) d2 d') as [ [El Ef] He2 ].
  { split; revert H; [apply (evolves_bind same_core (_ : LOp unit))|apply (evolves_bind (elsewhere _ _) (_ : LOp unit))]; structural. }
  pose proof (refresh_core _ _ _ _ _ _ H1) as [El1 Ef1].
  pose proof (refresh_elsewhere (lr_id r) (lr_rowid r) _ _ _ _ _ H1) as He1. simpl in *. split; [done|done| | |].
  - by rewrite El, El1.
  - unfold index_of in *. rewrite Ef, Ef1. simpl in *. rewrite filter_app, Hi, filter_cons_True by done. done.
  - etrans; [|exact He2]. etrans; [|exact He1]. etrans; [|exact He]. split; simpl; try done.
    intros k Hk. by apply lookup_insert_ne.
Qed.
Lemma upsert_ok input : preserves lore_ok (upsertLoreFromImport input).
Proof.
  intros d l d' Hok H. unfold upsertLoreFromImport in H.
  apply bind_ok in H as ([] & d1 & H1 & H). apply bind_ok in H as ([] & d2 & H2 & H).
  apply bind_ok in H as ([] & d3 & H3 & H). apply bind_ok in H as ([] & d4 & H4 & H).
  apply bind_ok in H as ([] & d5 & H5 & H). apply bind_ok in H as (ts & d6 & H6 & H).
  apply bind_ok in H as (existing & d7 & H7 & H). injection H7 as <- <-.
  apply bind_ok in H as (kind & d8 & H8 & H).
  assert (same_records d d6) as Hs6.
  { do 4 (etrans; [by eapply date_same|]). etrans; [by eapply url_same|]. by eapply nowIso_same. }
  pose proof (kind_same _ _ _ _ H8) as Hs8. assert (same_records d d8) as Hsame by (by etrans).
  rewrite <- (sr_lore _ _ Hs8) in H. clear H1 H2 H3 H4 H5 H6 H8 Hs6 Hs8.
  assert (lore_ok d8) as Hok8 by by eapply same_ok. clear Hok Hsame.
  set (id := ii_id input) in *. cbv zeta in H.
  match type of H with context [replace_repos id ?r ≫= _] => set (repos := r) in * end.
  match type of H with context [replace_tags id ?r ≫= _] => set (tags := r) in * end.
  destruct (lore d8 !! id) as [e|] eqn:Hex.
  - apply bind_ok in H as ([] & d9 & Hw & H).
    apply bind_ok in Hw as ([] & d10 & Hsnap & Hw). apply bind_ok in Hw as (b & d11 & Hup & Hw).
    assert (lr_id e = id) as Hid by by eapply ok_id.
    assert (same_core d8 d10 ∧ elsewhere id (lr_rowid e) d8 d10) as [ [El Ef] He ].
    { revert Hsnap. destruct (importChangesContent _ _ _ _); unfold when; [|by intros [= <-]]. intros Hsnap.
      split; [by eapply snapshot_core|]. rewrite <- Hid. by eapply snapshot_elsewhere. }
    pose proof (update_row_elsewhere id (lr_rowid e) _ _ _ _ Hup) as He2.
    unfold update_lore_row in Hup. rewrite El, Hex in Hup. injection Hup as <- <-.
    match type of He2 with context [<[id := ?r]> _] => set (row := r) in * end.
    apply reindexed_run in Hw as (El3 & Ei3 & He3).
    assert (edited d8 id e row d9) as Hed.
    { split; try done. etrans; [exact He|]. by etrans. }
    assert (edited d8 id e row d') as Hed'.
    { eapply (edited_tail (_ ≫= _)); [exact Hed| | |exact H]; structural. }
    eapply edited_ok; [exact Hok8| |exact Hed']. by eapply clamp_ok.
  - apply bind_ok in H as ([] & d9 & Hw & H). apply bind_ok in Hw as (n & d10 & Hn & Hw). injection Hn as <- <-.
    apply bind_ok in Hw as (n & d11 & Hins & Hw). apply insert_lore_inv in Hins as (Hfresh & -> & ->).
    match type of Hw with context [set_lore (<[lr_id ?r := _]> _)] => set (row := r) in * end.
    apply bind_ok in H as ([] & d12 & H1 & H). apply bind_ok in H as ([] & d13 & H2 & H).
    apply bind_ok in H as ([] & d14 & H3 & H). injection H as <- <-.
    apply (added_ok d8 row); [done|by eapply clamp_ok|].
    eapply (imported_added d8 row _ _ _ _ id repos tags); [done|done|done|done|].
    rewrite (bind_run _ _ _ _ _ Hw), (bind_run _ _ _ _ _ H1), (bind_run _ _ _ _ _ H2). exact H3.
Qed.
End importing.

(** ** Removed records *)

Section removing.
Context {HE : LoreEnv}.

(** Nothing of the record is left: no row, no index entry, no tags, no
    earlier version, no vector. *)
Record no_trace (id : string) (n : Z) (d : lore_db) : Prop := mk_no_trace {
  nt_row : lore d !! id = None;
  nt_index : index_of n d = [];
  nt_repos : ∀ p, p ∈ lore_repos d → p.1 ≠ id;
  nt_tags : ∀ p, p ∈ lore_tags d → p.1 ≠ id;
  nt_versions : ∀ v, v ∈ lore_version d → lv_lore_id v ≠ id;
  nt_embeddings : ∀ e, e ∈ lore_embeddings d → em_lore_id e ≠ id
}.
Lemma scrub_no_trace d id r : lore d !! id = Some r → no_trace id (lr_rowid r) (scrub r id d).
Proof.
  intros Hr. unfold scrub, delete_lore_row. simpl. rewrite Hr. split; simpl.
  - apply lookup_delete_eq.
  - unfold index_of. simpl. induction (lore_fts d) as [|f l IH]; [done|]. destruct (decide (fts_rowid f = lr_rowid r)).
    + by rewrite (filter_cons_False (λ f, fts_rowid f ≠ lr_rowid r)) by (intros Hn; by apply Hn).
    + rewrite (filter_cons_True (λ f, fts_rowid f ≠ lr_rowid r)) by done. by rewrite filter_cons_False.
  - intros p Hp. by apply list_elem_of_filter in Hp as [? _].
  - intros p Hp. by apply list_elem_of_filter in Hp as [? _].
  - intros p Hp. by apply list_elem_of_filter in Hp as [? _].
  - intros p Hp. by apply list_elem_of_filter in Hp as [? _].
Qed.
Lemma scrub_ok d id r : lore_ok d → lore d !! id = Some r → lore_ok (scrub r id d).
Proof.
  intros Hok Hr. apply (ok_step id (lr_rowid r) d); [done|by apply ok_owns|by apply scrub_elsewhere|].
  destruct (scrub_no_trace d id r Hr) as [H1 H2 H3 H4 H5 H6]. unfold record_ok. by rewrite H1.
Qed.
Lemma deleteLore_ok id : preserves lore_ok (deleteLore id).
Proof.
  intros d b d' Hok H. unfold deleteLore in H. apply bind_ok in H as (ts & d1 & Ht & H).
  apply bind_ok in H as (row & d2 & Hg & H). injection Hg as <- <-.
  assert (lore_ok d1) as Hok1 by by eapply nowIso_ok.
  destruct (lore d1 !! id) as [r|] eqn:Hr; [|by injection H as <- <-].
  apply bind_ok in H as ([] & d3 & Hm & H). injection Hm as <-.
  apply bind_ok in H as ([] & d4 & He & H). injection H as <- <-.
  eapply event_ok; [|exact He]. by apply scrub_ok.
Qed.
#[local] Hint Resolve reactivate_ok : gaffer.
Lemma rejectLore_ok id reason : preserves lore_ok (rejectLore id reason).
Proof.
  intros d b d' Hok H. unfold rejectLore in H. apply bind_ok in H as (ts & d1 & Ht & H).
  apply bind_ok in H as (row & d2 & Hg & H). injection Hg as <- <-.
  assert (lore_ok d1) as Hok1 by by eapply nowIso_ok.
  destruct (lore d1 !! id) as [r|] eqn:Hr; [|by injection H as <- <-].
  destruct (negb _); [by injection H as <- <-|].
  apply bind_ok in H as ([] & d3 & Hm & H). injection Hm as <-.
  pose proof (scrub_ok _ _ _ Hok1 Hr) as Hok3. revert Hok3 H. generalize (scrub r id d1) as d3. intros d3 Hok3.
  match goal with |- ?m d3 = _ → _ => assert (preserves lore_ok m) as Hm; [structural|by apply Hm] end.
Qed.

(** ** The public interface *)

Inductive lore_call :=
| call_add (input : AddLoreInput)
| call_suggest (input : AddLoreInput) (autoApprove : bool)
| call_report (input : ReportConflictInput)
| call_get (id : string) (recordRead : bool)
| call_approve (id : string)
| call_deprecate (id : string)
| call_supersede (oldId newId : string) (approveReplacement : bool)
| call_verify (id : string) (nextReviewAfter : option (option string))
| call_update (id : string) (input : UpdateLoreInput)
| call_import (input : ImportLoreInput)
| call_reject (id : string) (reason : option string)
| call_delete (id : string)
| call_log (repo ticket : string) (loreIds cardIds : option (list string))
| call_feedback (repo ticket : string) (outcome : RecallOutcome)
| call_add_boundary (input : DeclareBoundaryInput)
| call_suggest_boundary (input : DeclareBoundaryInput)
| call_approve_boundary (id : string)
| call_reject_boundary (id : string)
| call_deprecate_boundary (id : string)
| call_import_boundary (rec : BoundaryExportRecord) (force dryRun : bool).
Definition answer {A} (m : LOp A) : LOp unit := m ≫= λ _, mret tt.
Definition lore_run (c : lore_call) : LOp unit :=
  match c with
  | call_add i => answer (addLore i)
  | call_suggest i b => answer (suggestLore i b)
  | call_report i => answer (reportConflict i)
  | call_get id b => answer (getLore id b)
  | call_approve id => answer (approveLore id)
  | call_deprecate id => answer (deprecateLore id)
  | call_supersede o n b => answer (supersedeLore o n b)
  | call_verify id o => answer (verifyLore id o)
  | call_update id i => answer (updateLore id i)
  | call_import i => answer (upsertLoreFromImport i)
  | call_reject id r => answer (rejectLore id r)
  | call_delete id => answer (deleteLore id)
  | call_log r t ls cs => answer (logRecall r t ls cs)
  | call_feedback r t o => answer (recallFeedback r t o)
  | call_add_boundary i => answer (addBoundary i)
  | call_suggest_boundary i => answer (suggestBoundary i)
  | call_approve_boundary id => answer (approveBoundary id)
  | call_reject_boundary id => answer (rejectBoundary id)
  | call_deprecate_boundary id => answer (deprecateBoundary id)
  | call_import_boundary r f dry => answer (importBoundary r f dry)
  end.
(** The databases any calls lead to from an empty one.  Between them time
    passes, the read paths write their ledger and the file cards change. *)
Definition meanwhile (t : instant) (ledger : list RetrievalEvent) (cards : gmap string FileCardRow) (d : lore_db) : lore_db :=
  mk_lore_db (lore d) (lore_fts d) (lore_repos d) (lore_tags d) (lore_version d) (lore_embeddings d) (lore_events d)
    (boundaries d) (recall_event d) ledger (recall_feedback d) cards t (lore_entropy d).
Inductive lore_reachable : lore_db → Prop :=
| lore_empty t : lore_reachable (mk_lore_db ∅ [] [] [] [] [] [] [] [] [] [] ∅ t 0)
| lore_called c d u d' : lore_reachable d → lore_run c d = Ok u d' → lore_reachable d'
| lore_waited d t ledger cards : lore_reachable d → lore_reachable (meanwhile t ledger cards d).
Lemma answer_preserves {A} I (m : LOp A) : preserves I m → preserves I (answer m).
Proof. intros Hm. apply preserves_bind; [done|]. intros; apply preserves_ret. Qed.
Lemma lore_run_ok c : preserves lore_ok (lore_run c).
Proof.
  destruct c; apply answer_preserves; first [apply insertLore_ok|apply reportConflict_ok|apply getLore_ok
    |apply approveLore_ok|apply deprecateLore_ok|apply supersedeLore_ok|apply verifyLore_ok|apply updateLore_ok
    |apply upsert_ok|apply rejectLore_ok|apply deleteLore_ok|apply recallFeedback_ok|apply preserves_same];
    first [apply logRecall_same|apply upsertBoundary_same|apply approveBoundary_same|apply rejectBoundary_same
    |apply deprecateBoundary_same|apply importBoundary_same].
Qed.
Lemma lore_run_edges c : preserves edges_ok (lore_run c).
Proof.
  destruct c; apply answer_preserves; first [apply upsertBoundary_ok|apply approveBoundary_ok|apply rejectBoundary_ok
    |apply deprecateBoundary_ok|apply importBoundary_ok|apply preserves_edges];
    first [apply insertLore_edges|apply reportConflict_edges|apply getLore_edges|apply approveLore_edges
    |apply deprecateLore_edges|apply supersedeLore_edges|apply verifyLore_edges|apply updateLore_edges
    |apply upsert_edges|apply rejectLore_edges|apply deleteLore_edges|apply logRecall_edges|apply recallFeedback_edges].
Qed.
Lemma lore_reachable_ok d : lore_reachable d → lore_ok d.
Proof.
  induction 1 as [t|c d u d' _ IH H|d t ledger cards _ IH].
  - split; simpl; intros; try (by rewrite lookup_empty in *); by apply elem_of_nil in H.
  - by eapply lore_run_ok.
  - by apply (same_ok d).
Qed.
Lemma lore_reachable_edges d : lore_reachable d → edges_ok d.
Proof.
  induction 1 as [t|c d u d' _ IH H|d t ledger cards _ IH].
  - split; simpl; constructor.
  - by eapply lore_run_edges.
  - by apply (same_edges_ok d).
Qed.
End removing.

(** ** A concrete memory

    A small environment and the databases a few calls reach from an empty one;
    the witnesses of the memory's theorems evaluate on these. *)

Definition memory_env (settings : list (string * string)) : LoreEnv := {|
  lore_base := {|
    sha256_hex := λ s, "#" +:+ s;
    randomUUID := λ n, "u" +:+ pretty n;
    random_base64url := λ n, "r" +:+ pretty n;
    toISOString := λ t, "t" +:+ pretty t;
    localeCompare := String.compare;
    process_env := λ k, snd <$> head (filter (λ p, p.1 = k) settings);
    existsSync := λ _, false;
    runGit := λ _ _, mk_GitResult 1 "" false
  |};
  randomBytes := λ n, [Z.of_nat n; 0; 0; 0; 0; 0; 0; 0]%Z;
  Date_parse := λ s, if bool_decide (s = "soon") then None else Some 5%Z;
  URL_protocol := λ s, if String.prefix "https:" s then Some "https:" else if String.prefix "ftp:" s then Some "ftp:" else None
|}.
Definition alone : LoreEnv := memory_env [].
Definition factory : LoreEnv := memory_env [("GAFFER_FACTORY", "1"); ("GAFFER_TICKET_REPOS", "app:lib")].

Definition no_lore : lore_db := mk_lore_db ∅ [] [] [] [] [] [] [] [] [] [] ∅ 1000 0.
Definition lore_exec {HE : LoreEnv} (c : lore_call) (d : lore_db) : lore_db :=
  match lore_run c d with Ok _ d' => d' | Err _ => d end.
Lemma lore_exec_reachable {HE : LoreEnv} c d : lore_reachable d → lore_reachable (lore_exec c d).
Proof.
  intros H. unfold lore_exec. destruct (lore_run c d) as [u d'|e] eqn:E; [by eapply lore_called|done].
Qed.
Definition a_rule (title : string) : AddLoreInput :=
  mk_AddLoreInput title "in UTC" "always store UTC" (Some "ana") None (Some "convention") (Some "https://x/1") None
    (Some conf_high) (Some ["app"; " app "]) (Some ["Date Times"; "db"]) None None None.
(** Two records by a person, [22222222] and [32222222]; an agent's draft,
    [42222222]; one edit of the first. *)
Definition two_rules : lore_db := @lore_exec alone (call_add (a_rule "B")) (@lore_exec alone (call_add (a_rule "A")) no_lore).
Definition with_draft : lore_db := @lore_exec alone (call_suggest (a_rule "C") false) two_rules.
Definition edit_of_a : UpdateLoreInput :=
  mk_UpdateLoreInput None (Some "in UTC, always") None None None None (Some "") None None None (Some ["db"]) None.
Definition with_edit : lore_db := @lore_exec alone (call_update "22222222" edit_of_a) with_draft.
Lemma with_edit_reachable : @lore_reachable alone with_edit.
Proof. repeat apply lore_exec_reachable. apply lore_empty. Qed.
Lemma with_draft_reachable : @lore_reachable alone with_draft.
Proof. repeat apply lore_exec_reachable. apply lore_empty. Qed.
