(* ===== verification/Curation.v ===== *)
(** * Curating the memory

    What the calls of a person leave behind: a removed record leaves nothing
    but its event, an edit keeps the text it replaced, a supersession happens
    whole or not at all, and an outcome counts once. *)
From Stdlib Require Import Ascii.
From S2P Require Import Prelude Json JsonParse Types EventChain Store Diff Landing Lore Boundaries Recall LoreTools Records Lores.

Section curation.
Context {HE : LoreEnv}.

(** ** The whole store *)


(** ** Removal *)

Definition reactivated (ts : string) (r : LoreRow) : LoreRow :=
  set_lr_status lore_active (set_lr_superseded_by None (set_lr_updated_at ts r)).
(** The side tables are the same. *)
Record same_beside (d d' : lore_db) : Prop := mk_same_beside {
  sb_fts : lore_fts d' = lore_fts d;
  sb_repos : lore_repos d' = lore_repos d;
  sb_tags : lore_tags d' = lore_tags d;
  sb_versions : lore_version d' = lore_version d;
  sb_embeddings : lore_embeddings d' = lore_embeddings d
}.
Lemma reactivate_run ts o k d u d' : reactivate ts o k d = Ok u d' →
  same_beside d d' ∧ ∀ j, lore d' !! j = if decide (j = k) then reactivated ts <$> lore d !! j else lore d !! j.
Proof.
  unfold reactivate. intros H. apply bind_ok in H as (b & d1 & Hu & H). injection H as _ <-.
  unfold update_lore_row in Hu. destruct (lore d !! k) as [r|] eqn:Hk; injection Hu as _ <-; (split; [by split|]); intros j; simpl.
  - destruct (decide (j = k)) as [->|Hj]; [by rewrite lookup_insert_eq, Hk|by rewrite lookup_insert_ne].
  - destruct (decide (j = k)) as [->|Hj]; [by rewrite Hk|done].
Qed.
Lemma reactivate_all ts o ks d u d' : for_each ks (reactivate ts o) d = Ok u d' →
  same_beside d d' ∧ ∀ j, lore d' !! j = if decide (j ∈ ks) then reactivated ts <$> lore d !! j else lore d !! j.
Proof.
  revert d. induction ks as [|k ks IH]; intros d H; simpl in H.
  - injection H as _ <-. split; [by split|]. intros j. rewrite decide_False; [done|apply not_elem_of_nil].
  - apply bind_ok in H as ([] & d1 & H1 & H). destruct (reactivate_run _ _ _ _ _ _ H1) as [ [] E1].
    destruct (IH d1 H) as [ [] E2]. split; [split; congruence|]. intros j. rewrite E2, E1.
    destruct (decide (j = k)) as [E|Hj], (decide (j ∈ ks)) as [Hin|Hin].
    + subst j. rewrite decide_True by (by apply elem_of_cons; left). by destruct (lore d !! k).
    + subst j. by rewrite decide_True by (by apply elem_of_cons; left).
    + by rewrite decide_True by (by apply elem_of_cons; right).
    + rewrite decide_False; [done|]. by rewrite elem_of_cons; intros [|].
Qed.

Lemma orphans_spec d id k : lore_ok d →
  k ∈ orphaned_by id d ↔ ∃ r, lore d !! k = Some r ∧ lr_superseded_by r = Some id ∧ lr_status r = lore_superseded.
Proof.
  intros Hok. unfold orphaned_by. rewrite list_elem_of_fmap. setoid_rewrite list_elem_of_filter.
  assert (∀ r, r ∈ lore_rows d ↔ ∃ j, lore d !! j = Some r) as Hrows.
  { intros r. unfold lore_rows, order_by. rewrite (merge_sort_Permutation _ _). unfold rows. rewrite list_elem_of_fmap. split.
    - intros ([j r'] & -> & Hj%elem_of_map_to_list). by exists j.
    - intros [j Hj]. exists (j, r). split; [done|]. by apply elem_of_map_to_list. }
  split.
  - intros (r & -> & [H1 H2] & [j Hj]%Hrows). exists r. by rewrite (ok_id _ Hok _ _ Hj).
  - intros (r & Hr & H1 & H2). exists r. split; [by rewrite (ok_id _ Hok _ _ Hr)|]. split; [done|]. apply Hrows. by exists k.
Qed.


(** ** History *)

(** What an earlier version keeps of the record it is a version of. *)
Definition version_of (v : LoreVersionRow) (r : LoreRow) : Prop :=
  lv_lore_id v = lr_id r ∧ lv_title v = lr_title r ∧ lv_summary v = lr_summary r ∧ lv_body v = lr_body r ∧
  lv_source v = lr_source r ∧ lv_confidence v = lr_confidence r ∧ lv_kind v = lr_kind r ∧
  lv_restricted v = lr_restricted r ∧ lv_status v = lr_status r ∧ lv_snapshot_of v = lr_updated_at r.

Lemma newest_first d r ts u d' :
  snapshotLoreVersion r ts d = Ok u d' →
  ∃ v, lore_version d' = lore_version d ++ [v] ∧ version_of v r ∧
    (∀ w, w ∈ lore_version d → lv_lore_id w = lr_id r → (lv_version w < lv_version v)%Z).
Proof.
  intros H. injection H as _ <-. eexists. split; [done|]. split; [done|]. intros w Hw Hid. simpl.
  assert (lv_version w ∈ lv_version <$> filter (λ v, lv_lore_id v = lr_id r) (lore_version d)) as Hin.
  { apply list_elem_of_fmap. exists w. split; [done|]. by apply list_elem_of_filter. }
  revert Hin. generalize (lv_version <$> filter (λ v, lv_lore_id v = lr_id r) (lore_version d)) as l.
  induction l as [|x l IH]; [by intros ?%elem_of_nil|]. rewrite elem_of_cons. simpl. intros [->|Hl%IH]; lia.
Qed.
#[local] Instance asc_le_total {A} (k : A → Z) : Total (asc_le k).
Proof. intros x y. unfold asc_le. lia. Qed.
#[local] Instance asc_le_trans {A} (k : A → Z) : Transitive (asc_le k).
Proof. intros x y z. unfold asc_le. lia. Qed.
Lemma head_least {A} (k : A → Z) (l : list A) x :
  x ∈ l → (∀ y, y ∈ l → y = x ∨ (k x < k y)%Z) → head (order_by k l) = Some x.
Proof.
  intros Hx Hleast. pose proof (StronglySorted_merge_sort (asc_le k) l) as Hs.
  pose proof (merge_sort_Permutation (asc_le k) l) as Hp. unfold order_by.
  destruct (merge_sort (asc_le k) l) as [|y m]; [apply Permutation_nil_l in Hp; subst; by apply elem_of_nil in Hx|].
  assert (x ∈ y :: m) as Hin by (by rewrite Hp). simpl. f_equal. apply elem_of_cons in Hin as [->|Hin]; [done|].
  assert (y ∈ l) as Hy by (rewrite <- Hp; by left). destruct (Hleast y Hy) as [->|Hlt]; [done|].
  apply StronglySorted_inv in Hs as [_ Hall]. rewrite Forall_forall in Hall.
  pose proof (Hall x Hin) as Hle. unfold asc_le in Hle. lia.
Qed.

(** ** Supersession *)

(** The old record is active; the new one is another record, active or — where
    the caller also approves it — a draft. *)
Definition may_supersede (o n : string) (approve : bool) (d : lore_db) : Prop :=
  o ≠ n ∧ ∃ ro rn, lore d !! o = Some ro ∧ lore d !! n = Some rn ∧ lr_status ro = lore_active ∧
    (lr_status rn = lore_active ∨ (approve = true ∧ lr_status rn = lore_draft)).
Lemma may_supersede_dec o n approve d :
  may_supersede o n approve d ∨ ¬ may_supersede o n approve d.
Proof.
  unfold may_supersede. destruct (decide (o = n)) as [->|Hn]; [right; by intros []|].
  destruct (lore d !! o) as [ro|] eqn:Ho; [|right; naive_solver].
  destruct (lore d !! n) as [rn|] eqn:Hr; [|right; naive_solver].
  destruct (decide (lr_status ro = lore_active)); [|right; naive_solver].
  destruct (lr_status rn) eqn:Es, approve;
    first [left; split; [done|]; exists ro, rn; do 3 (split; [done|]); by auto
          |right; intros (_ & r1 & r2 & H1 & H2 & _ & [H|[H H']]); congruence].
Qed.
Definition approved_row (ts : string) (r : LoreRow) : LoreRow :=
  if bool_decide (lr_status r = lore_draft) then set_lr_status lore_active (set_lr_updated_at ts r) else r.
Definition superseded_row (n ts : string) (r : LoreRow) : LoreRow :=
  set_lr_status lore_superseded (set_lr_superseded_by (Some n) (set_lr_updated_at ts r)).

(** The first half: the replacement's approval, where it is asked for. *)
Lemma approval_run approve ts n d :
  ∃ d1, when approve (approve_row ts n ≫= λ changed : bool, when changed (event_insert n "approved" ts None)) d = Ok tt d1 ∧
    same_beside d d1 ∧
    lore d1 = if approve then alter (approved_row ts) n (lore d) else lore d.
Proof.
  destruct approve; [|exists d; repeat split]. unfold when, approve_row, mbind, M_bind, event_insert, modify.
  destruct (lore d !! n) as [r|] eqn:Hr; [destruct (bool_decide_reflect (lr_status r = lore_draft)) as [Hs|Hs]|];
    (eexists; split; [reflexivity|]; split; [by split|]); simpl; apply map_eq; intros k;
    (destruct (decide (k = n)) as [->|Hk]; [rewrite ?lookup_insert_eq, lookup_alter_eq, Hr; simpl; try done|
      by rewrite ?lookup_insert_ne, lookup_alter_ne]); unfold approved_row.
  - by rewrite bool_decide_eq_true_2.
  - by rewrite bool_decide_eq_false_2.
Qed.
Lemma refusal_none o n d :
  supersedeRefusal o n d = None ↔ may_supersede o n false d.
Proof.
  unfold supersedeRefusal, may_supersede. case_bool_decide; [by naive_solver|].
  destruct (lore d !! n) as [rn|], (lore d !! o) as [ro|]; try (by naive_solver).
  repeat case_bool_decide; simpl; naive_solver.
Qed.
Lemma approved_active ts r : lr_status (approved_row ts r) = lore_active ↔ lr_status r = lore_active ∨ lr_status r = lore_draft.
Proof. unfold approved_row. case_bool_decide as H; simpl; naive_solver. Qed.
Lemma may_after o n (approve : bool) d d1 ts :
  lore d1 = (if approve then alter (approved_row ts) n (lore d) else lore d) →
  may_supersede o n false d1 ↔ may_supersede o n approve d.
Proof.
  intros E. unfold may_supersede. rewrite E. destruct approve; [|naive_solver].
  destruct (decide (o = n)) as [->|Hon]; [by split; intros []|].
  rewrite lookup_alter_ne, lookup_alter_eq by done. split.
  - intros (_ & ro & rn & Ho & (r & -> & ->)%fmap_Some & So & [Sn|[[=] _]]). split; [done|]. exists ro, r.
    do 3 (split; [done|]). rewrite approved_active in Sn. naive_solver.
  - intros (_ & ro & rn & Ho & Hn & So & Sn). split; [done|]. exists ro, (approved_row ts rn). rewrite Hn.
    do 3 (split; [done|]). left. apply approved_active. naive_solver.
Qed.

(** The second half, on what the first left. *)
Definition supersede_decide (o n ts : string) (approve : bool) : LOp bool :=
  gets (supersedeRefusal o n) ≫= λ refusal,
  match refusal with
  | Some _ => if approve then throw SupersedeAborted else mret false
  | None =>
      update_lore_row o (superseded_row n ts) ≫= λ _,
      event_insert o "superseded" ts (json_of [("supersededBy", JSStr n)]) ≫= λ _,
      mret true
  end.

(** C18: A supersession happens whole or not at all.  It is granted exactly when
    the old record is active and the replacement is another record that is
    active, or a draft the caller approves in the same call; then the old record
    is superseded by the new one, the new one is active, and no other record, no
    index entry, tag, version or vector changes.  Otherwise the call answers
    [null] and nothing at all has changed — in particular a draft it was to
    approve is a draft still.  It never fails. *)
Theorem supersedeLore_whole o n approve d :
  ∃ l d', supersedeLore o n approve d = Ok l d' ∧
  ((may_supersede o n approve d ∧ is_Some l ∧ same_beside d d' ∧
    ∃ ts ro rn, lore d !! o = Some ro ∧ lore d !! n = Some rn ∧
      lore d' = <[o := superseded_row n ts ro]> (<[n := approved_row ts rn]> (lore d)) ∧
      lr_status (approved_row ts rn) = lore_active)
   ∨ (¬ may_supersede o n approve d ∧ l = None ∧ d' = d)).
Proof.
  set (ts := toISOString (lore_clock d)).
  destruct (approval_run approve ts n d) as (d1 & Hrun & Hb1 & E1).
  pose proof (may_after o n approve d d1 ts E1) as Hmay.
  assert (supersede_tx o n ts approve d = supersede_decide o n ts approve d1) as Htx.
  { unfold supersede_tx. by rewrite (bind_run _ _ _ _ _ Hrun). }
  unfold supersedeLore, lore_nowIso, gets, catch, mbind, M_bind. cbn beta iota.
  fold ts. rewrite Htx.
  unfold supersede_decide, gets, mbind, M_bind.
  destruct (supersedeRefusal o n d1) as [ref|] eqn:Href.
  - assert (¬ may_supersede o n approve d) as Hno by (by rewrite <- Hmay, <- refusal_none, Href).
    destruct approve; [|injection Hrun as <-]; (do 2 eexists; split; [reflexivity|]; by right).
  - apply refusal_none, Hmay in Href as Hyes. pose proof Hyes as (Hon & ro & rn & Hro & Hrn & _ & Sn).
    assert (lore d1 !! o = Some ro) as Ho1 by (rewrite E1; destruct approve; [by rewrite lookup_alter_ne|done]).
    assert (lore d1 = <[n := approved_row ts rn]> (lore d)) as En.
    { rewrite E1. destruct approve.
      - apply map_eq. intros k. destruct (decide (k = n)) as [->|Hk].
        + by rewrite lookup_alter_eq, lookup_insert_eq, Hrn.
        + by rewrite lookup_alter_ne, lookup_insert_ne.
      - destruct Sn as [Sn|[? _]]; [|done]. unfold approved_row. rewrite Sn. by rewrite insert_id. }
    unfold update_lore_row, mbind, M_bind, event_insert, modify. rewrite Ho1. simpl.
    unfold getLore, gets, mbind, M_bind. simpl. rewrite lookup_insert_eq. simpl. do 2 eexists.
    split; [reflexivity|]. left. split; [done|]. split; [by eexists|].
    split; [destruct Hb1; by split|]. exists ts, ro, rn. do 2 (split; [done|]). split; [by rewrite <- En|].
    apply approved_active. naive_solver.
Qed.
End curation.

(** ** Witnesses *)

Definition after {A} (m : LOp A) (d : lore_db) : lore_db := match m d with Ok _ d' => d' | Err _ => d end.
Lemma after_ok {A} (m : LOp A) d a d' : m d = Ok a d' → after m d = d'.
Proof. unfold after. by intros ->. Qed.

(** ** Each outcome counts once

    What an outcome does to the records that were served, and that it does it
    once. *)

Section feedback.
Context {HE : LoreEnv}.

Lemma higher_higher (c d : LoreConfidence) : (rung c ≤ rung (higherOf c d))%Z ∧ (rung d ≤ rung (higherOf c d))%Z.
Proof. by destruct c, d. Qed.
(** A clean outcome raises by at most one rung, any other lowers by at most one;
    neither leaves the ladder. *)
Lemma one_rung reward row :
  let c := rung (lr_confidence row) in let c' := rung (adjusted_confidence reward row) in
  if reward then (c ≤ c' ≤ c + 1)%Z else (c - 1 ≤ c' ≤ c)%Z.
Proof.
  unfold adjusted_confidence. destruct reward, (lr_confidence row), (truthy (lr_source row)), (lr_status row); vm_compute; split; discriminate.
Qed.

(** The rest of the row an outcome leaves alone. *)
Lemma adjusted_texts reward ts row :
  fts_of (adjusted_row reward ts row) = fts_of row ∧ lr_id (adjusted_row reward ts row) = lr_id row ∧
  lr_status (adjusted_row reward ts row) = lr_status row ∧
  lr_flagged_for_review (adjusted_row reward ts row) = negb reward.
Proof. by destruct reward. Qed.

Definition same_feedback (d d' : lore_db) : Prop := recall_feedback d' = recall_feedback d ∧ lore_fts d' = lore_fts d ∧
  lore_version d' = lore_version d ∧ lore_repos d' = lore_repos d ∧ lore_tags d' = lore_tags d.
Lemma adjust_lore_run ticket o ts acc id d :
  ∃ d', adjust_lore ticket o ts acc id d = Ok (if bool_decide (lore d !! id = None) then acc else acc ++ [id]) d' ∧
    same_feedback d d' ∧ file_card d' = file_card d ∧
    lore d' = alter (adjusted_row (bool_decide (o = outcome_clean)) ts) id (lore d).
Proof.
  unfold adjust_lore, gets, mbind, M_bind. destruct (lore d !! id) as [r|] eqn:Hr.
  - unfold update_lore_row, event_insert, modify. rewrite Hr. simpl. eexists. split; [reflexivity|]. split; [by split|].
    split; [done|]. simpl. apply map_eq. intros k. destruct (decide (k = id)) as [->|Hk].
    + by rewrite lookup_insert_eq, lookup_alter_eq, Hr.
    + by rewrite lookup_insert_ne, lookup_alter_ne.
  - exists d. split; [done|]. split; [by split|]. split; [done|]. apply map_eq. intros k. destruct (decide (k = id)) as [->|Hk].
    + by rewrite lookup_alter_eq, Hr.
    + by rewrite lookup_alter_ne.
Qed.
Lemma same_feedback_trans d1 d2 d3 : same_feedback d1 d2 → same_feedback d2 d3 → same_feedback d1 d3.
Proof. unfold same_feedback. intuition congruence. Qed.
Lemma adjust_all_run ticket o ts ids acc d : NoDup ids →
  ∃ d', for_fold (adjust_lore ticket o ts) acc ids d = Ok (acc ++ filter (λ id, is_Some (lore d !! id)) ids) d' ∧
    same_feedback d d' ∧ file_card d' = file_card d ∧
    ∀ k, lore d' !! k = if decide (k ∈ ids) then adjusted_row (bool_decide (o = outcome_clean)) ts <$> lore d !! k else lore d !! k.
Proof.
  intros Hnd. revert acc d. induction Hnd as [|id ids Hid Hnd IH]; intros acc d.
  - exists d. rewrite filter_nil, app_nil_r. split; [done|]. split; [by split|]. split; [done|]. intros k.
    by rewrite decide_False by apply not_elem_of_nil.
  - destruct (adjust_lore_run ticket o ts acc id d) as (d1 & H1 & Hf1 & Hc1 & E1).
    destruct (IH (if bool_decide (lore d !! id = None) then acc else acc ++ [id]) d1) as (d' & H & Hf & Hc & E).
    exists d'. split; [|split; [by eapply same_feedback_trans|split; [congruence|]]].
    + simpl. rewrite (bind_run _ _ _ _ _ H1), H. f_equal.
      assert (filter (λ i, is_Some (lore d1 !! i)) ids = filter (λ i, is_Some (lore d !! i)) ids) as ->.
      { apply list_filter_iff. intros i. rewrite E1. destruct (decide (i = id)) as [->|Hi].
        - rewrite lookup_alter_eq. by rewrite fmap_is_Some.
        - by rewrite lookup_alter_ne. }
      destruct (lore d !! id) eqn:Hr.
      * rewrite filter_cons_True by (by rewrite Hr; eexists). by rewrite bool_decide_eq_false_2, <- app_assoc.
      * rewrite filter_cons_False by (rewrite Hr; by intros []). by rewrite bool_decide_eq_true_2.
    + intros k. rewrite E, E1. destruct (decide (k = id)) as [->|Hk].
      * rewrite decide_False, lookup_alter_eq by done. by rewrite decide_True by (by left).
      * rewrite lookup_alter_ne by done. destruct (decide (k ∈ ids)) as [Hin|Hin].
        -- by rewrite decide_True by (by right).
        -- by rewrite decide_False by (by rewrite elem_of_cons; intros [|]).
Qed.
Lemma adjust_card_run ticket o ts acc id d :
  ∃ d' acc', adjust_card ticket o ts acc id d = Ok acc' d' ∧ same_feedback d d' ∧ lore d' = lore d.
Proof.
  unfold adjust_card. destruct (file_card d !! id); do 2 eexists; (split; [reflexivity|]); by split.
Qed.
Lemma adjust_cards_run ticket o ts ids acc d :
  ∃ d' acc', for_fold (adjust_card ticket o ts) acc ids d = Ok acc' d' ∧ same_feedback d d' ∧ lore d' = lore d.
Proof.
  revert acc d. induction ids as [|id ids IH]; intros acc d; [exists d, acc; split; [done|by split]|].
  destruct (adjust_card_run ticket o ts acc id d) as (d1 & a1 & H1 & Hf1 & E1).
  destruct (IH a1 d1) as (d' & a' & H & Hf & E). exists d', a'. simpl. rewrite (bind_run _ _ _ _ _ H1), H.
  split; [done|]. split; [by eapply same_feedback_trans|congruence].
Qed.
Lemma insert_feedback_inv r d u d' : insert_feedback r d = Ok u d' →
  d' = set_recall_feedback (recall_feedback d ++ [r]) d.
Proof.
  unfold insert_feedback. destruct (existsb _ _); [done|]. destruct (applied _ _ _ d); [done|]. intros H. by injection H as _ <-.
Qed.
Lemma applied_here repo ticket o id n ts l (d : lore_db) : recall_feedback d = l ++ [mk_RecallFeedbackRow id repo ticket o n ts] →
  applied repo ticket o d = true.
Proof.
  intros E. unfold applied. rewrite E, existsb_app. simpl. rewrite bool_decide_eq_true_2 by done. by rewrite orb_true_r.
Qed.
Definition already : RecallFeedbackResult := mk_RecallFeedbackResult true [] [] 0.

(** The effect of a first application. *)
Record judged (repo ticket : string) (o : RecallOutcome) (ts : string) (d d' : lore_db) : Prop := mk_judged {
  ju_lore : ∀ k, lore d' !! k = if decide (k ∈ served_lore repo ticket d)
                               then adjusted_row (bool_decide (o = outcome_clean)) ts <$> lore d !! k else lore d !! k;
  ju_fts : lore_fts d' = lore_fts d;
  ju_versions : lore_version d' = lore_version d;
  ju_repos : lore_repos d' = lore_repos d;
  ju_tags : lore_tags d' = lore_tags d;
  ju_applied : applied repo ticket o d' = true
}.
Lemma recallFeedback_first repo ticket o d res d' :
  let r := trim repo in let t := trim ticket in
  r ≠ "" → t ≠ "" → applied r t o d = false → recallFeedback repo ticket o d = Ok res d' →
  judged r t o (toISOString (lore_clock d)) d d' ∧ fr_alreadyApplied res = false ∧
  fr_loreAdjusted res = filter (λ id, is_Some (lore d !! id)) (served_lore r t d).
Proof.
  intros r t Hr Ht Hno H. unfold recallFeedback in H. fold r t in H. rewrite bool_decide_eq_false_2 in H by (by intros [|]).
  apply bind_ok in H as (prior & d0 & Hg & H). injection Hg as <- <-. rewrite Hno in H.
  apply bind_ok in H as (loreIds & d0 & Hg & H). injection Hg as <- <-.
  apply bind_ok in H as (cardIds & d0 & Hg & H). injection Hg as <- <-.
  apply bind_ok in H as (ts & d0 & Hg & H). injection Hg as <- <-.
  apply bind_ok in H as (la & d1 & H1 & H). apply bind_ok in H as (ca & d2 & H2 & H).
  apply bind_ok in H as (id & d3 & H3 & H). injection H3 as _ <-.
  apply bind_ok in H as ([] & d4 & H4 & H). apply insert_feedback_inv in H4. apply bind_ok in H as ([] & d5 & H5 & H).
  injection H5 as <-. injection H as <- <-.
  destruct (adjust_all_run t o (toISOString (lore_clock d)) (served_lore r t d) [] d) as (e1 & R1 & (F1 & F2 & F3 & F4 & F5) & _ & E1).
  { by apply distinct_spec. }
  rewrite R1 in H1. injection H1 as <- <-.
  destruct (adjust_cards_run t o (toISOString (lore_clock d)) (served_cards r t d) [] e1) as (e2 & a2 & R2 & (G1 & G2 & G3 & G4 & G5) & E2).
  rewrite R2 in H2. injection H2 as -> ->. subst d4. split; [|done]. split; simpl; try congruence.
  - intros k. by rewrite E2, E1.
  - by eapply applied_here.
Qed.

End feedback.

(** ** Witness *)

Definition served : lore_db := @lore_exec alone (call_log "app" "T1" (Some ["32222222"; "gone"]) None) with_edit.
