(* ===== verification/Atlas.v ===== *)
(** * Who depends on a contract

    What a declared edge becomes, and what the map answers. *)
From Stdlib Require Import Ascii.
From S2P Require Import Prelude Json JsonParse Types EventChain Store Diff Landing Lore Boundaries Recall LoreTools Records Edges Lores.

Section atlas.
Context {HE : LoreEnv}.

Lemma in_listBoundaries opts d b :
  b ∈ listBoundaries opts d ↔ b ∈ boundaries d ∧
    shown_status (lb_includeDrafts opts) (lb_includeDeprecated opts) (br_status b) = true ∧
    matches_option normaliseRepo (lb_repo opts) (br_repo b) = true ∧
    matches_option normaliseContract (lb_contract opts) (br_contract b) = true ∧
    match lb_role opts with Some r => br_role b = r | None => True end.
Proof.
  unfold listBoundaries. rewrite merge_sort_Permutation, list_elem_of_filter, !andb_true_iff.
  destruct (lb_role opts); [rewrite bool_decide_eq_true|]; tauto.
Qed.
Lemma dependents_elem contract drafts d role b :
  b ∈ filter (λ b, br_role b = role) (listBoundaries (mk_ListBoundariesOptions None (Some (normaliseContract contract)) None drafts false) d)
  ↔ b ∈ boundaries d ∧ br_role b = role ∧ shown_status drafts false (br_status b) = true ∧
    (normaliseContract contract = "" ∨ br_contract b = normaliseContract contract).
Proof.
  rewrite list_elem_of_filter, in_listBoundaries. simpl.
  destruct (bool_decide_reflect (normaliseContract contract = "")) as [E|E].
  - naive_solver.
  - rewrite normaliseContract_idem, bool_decide_eq_true. naive_solver.
Qed.
Lemma once_per_repo contract role l :
  NoDup (edge_key <$> l) → (∀ b, b ∈ l → br_contract b = contract ∧ br_role b = role) → NoDup (br_repo <$> l).
Proof.
  induction l as [|b l IH]; [by constructor|]. rewrite !fmap_cons, !NoDup_cons. intros [Hb Hl] Hall. split.
  - intros (x & Ex & Hx)%list_elem_of_fmap. apply Hb, list_elem_of_fmap. exists x. split; [|done]. unfold edge_key.
    destruct (Hall b) as [-> ->]; [by left|]. destruct (Hall x) as [-> ->]; [by right|]. by rewrite Ex.
  - apply IH; [done|]. intros x Hx. apply Hall. by right.
Qed.
Lemma listed_once opts d : edges_ok d → NoDup (edge_key <$> listBoundaries opts d).
Proof.
  intros Hok. unfold listBoundaries. rewrite (merge_sort_Permutation _ _). eapply sublist_NoDup; [apply (eo_keys _ Hok)|].
  apply fmap_sublist, sublist_filter.
Qed.

(** C29: The map answers who depends on a contract, exactly.  In every reachable
    database, for any spelling of a contract's name, the providers and the
    consumers are the edges of that contract with that role that are active — or
    drafts, where they are asked for — and no repository is named twice on one
    side.  Only a name with nothing left of it once normalised is not a
    question about one contract: it is answered with the whole map. *)
Theorem findDependents_exact contract drafts d :
  lore_reachable d →
  let key := normaliseContract contract in
  let res := findDependents contract drafts d in
  (∀ b, b ∈ im_providers res ↔ b ∈ boundaries d ∧ br_role b = role_provides ∧
     shown_status drafts false (br_status b) = true ∧ (key = "" ∨ br_contract b = key)) ∧
  (∀ b, b ∈ im_consumers res ↔ b ∈ boundaries d ∧ br_role b = role_consumes ∧
     shown_status drafts false (br_status b) = true ∧ (key = "" ∨ br_contract b = key)) ∧
  im_contract res = key ∧
  (key ≠ "" → NoDup (br_repo <$> im_providers res) ∧ NoDup (br_repo <$> im_consumers res)).
Proof.
  intros Hd%lore_reachable_edges key res. split; [apply dependents_elem|]. split; [apply dependents_elem|]. split; [done|].
  intros Hkey. assert (∀ role, NoDup (br_repo <$> filter (λ b, br_role b = role)
    (listBoundaries (mk_ListBoundariesOptions None (Some key) None drafts false) d))) as H; [|split; apply H].
  intros role. apply (once_per_repo key role).
  - eapply sublist_NoDup; [by apply (listed_once (mk_ListBoundariesOptions None (Some key) None drafts false))|].
    apply fmap_sublist, sublist_filter.
  - intros b Hb. apply dependents_elem in Hb as (_ & Hr & _ & Hc).
    destruct Hc as [Hc|Hc]; [done|]. split; done.
Qed.

Lemma find_edge_some repo contract role d e :
  find_edge repo contract role d = Some e → e ∈ boundaries d ∧ edge_key e = (repo, contract, role).
Proof.
  unfold find_edge. intros H. assert (e ∈ filter (λ b, edge_key b = (repo, contract, role)) (boundaries d)) as Hin.
  { destruct (filter _ _); [done|]. injection H as ->. by left. }
  apply list_elem_of_filter in Hin. tauto.
Qed.
Lemma find_edge_none repo contract role d : find_edge repo contract role d = None →
  ∀ b, b ∈ boundaries d → edge_key b ≠ (repo, contract, role).
Proof.
  unfold find_edge. intros H b Hb E. assert (b ∈ filter (λ b, edge_key b = (repo, contract, role)) (boundaries d)) as Hin
    by by apply list_elem_of_filter. by destruct (filter _ _); [apply elem_of_nil in Hin|].
Qed.
Lemma same_id d b e : edges_ok d → b ∈ boundaries d → e ∈ boundaries d → br_id b = br_id e → b = e.
Proof.
  intros [Hids _ _] Hb He E. apply list_elem_of_lookup in Hb as [i Hi], He as [j Hj].
  assert (i = j) as ->; [|congruence]. eapply (NoDup_lookup (br_id <$> boundaries d)); [done| |];
    rewrite list_lookup_fmap; [by rewrite Hi|]. by rewrite Hj, E.
Qed.
Lemma getBoundary_in id d b : getBoundary id d = Some b → b ∈ boundaries d ∧ br_id b = id.
Proof.
  unfold getBoundary. intros H. assert (b ∈ filter (λ b, br_id b = id) (boundaries d)) as Hin.
  { destruct (filter _ _); [done|]. injection H as ->. by left. }
  apply list_elem_of_filter in Hin. tauto.
Qed.

(** What a declaration leaves: the edge, in the one spelling, with the standing
    the caller may give it; every other edge as it was. *)
Record declared (input : DeclareBoundaryInput) (st : BoundaryStatus) (d : lore_db) (b : BoundaryRow) (d' : lore_db) : Prop :=
  mk_declared {
    de_role : parse_role (di_role input) = Some (br_role b);
    de_repo : br_repo b = normaliseRepo (di_repo input);
    de_contract : br_contract b = normaliseContract (di_contract input);
    de_in : b ∈ boundaries d';
    de_standing : br_status b = match find_edge (br_repo b) (br_contract b) (br_role b) d with
                                | Some e => if bool_decide (br_status e = boundary_draft) then st else br_status e
                                | None => st
                                end;
    de_ratified : ∀ e, e ∈ boundaries d → edge_key e = edge_key b → st = boundary_draft → br_status e ≠ boundary_draft → b = e;
    de_others : ∀ x, edge_key x ≠ edge_key b → x ∈ boundaries d' ↔ x ∈ boundaries d
  }.
Lemma fetch_in id d b d' : fetch_boundary id d = Ok b d' → d' = d ∧ b ∈ boundaries d ∧ br_id b = id.
Proof.
  unfold fetch_boundary. intros H. apply bind_ok in H as (o & d1 & Hg & H). injection Hg as <- <-.
  apply require_ok in H as [H ->]. split; [done|]. by apply getBoundary_in.
Qed.
Lemma set_elem id f (d d' : lore_db) u b : set_boundary id f d = Ok u d' →
  b ∈ boundaries d' ↔ ∃ x, x ∈ boundaries d ∧ b = if bool_decide (br_id x = id) then f x else x.
Proof. intros [= _ <-]. simpl. rewrite list_elem_of_fmap. naive_solver. Qed.
Lemma event_boundaries id kind ts p d u d' : event_insert id kind ts p d = Ok u d' → boundaries d' = boundaries d.
Proof. by intros [= _ <-]. Qed.
Lemma edge_inj (d : lore_db) x y : edges_ok d → x ∈ boundaries d → y ∈ boundaries d → edge_key x = edge_key y → x = y.
Proof.
  intros [_ Hkeys _] Hx Hy E. apply list_elem_of_lookup in Hx as [i Hi], Hy as [j Hj].
  assert (i = j) as ->; [|congruence]. eapply (NoDup_lookup (edge_key <$> boundaries d)); [done| |];
    rewrite list_lookup_fmap; [by rewrite Hi|]. by rewrite Hj, E.
Qed.

Lemma inserted b d u d' : insert_boundary b d = Ok u d' →
  (∀ x, x ∈ boundaries d → br_id x ≠ br_id b) ∧ boundaries d' = boundaries d ++ [b].
Proof.
  unfold insert_boundary. intros H. destruct (existsb _ _) eqn:E in H; [done|]. destruct (existsb _ _) in H; [done|].
  injection H as _ <-.
  split; [|done]. intros x Hx Ex. apply not_true_iff_false in E. apply E, existsb_exists. exists x.
  rewrite <- list_elem_of_In. split; [done|]. by apply bool_decide_eq_true_2.
Qed.
Lemma upsert_declared input st d b d' :
  edges_ok d → st ≠ boundary_deprecated → upsertBoundary input st d = Ok b d' → declared input st d b d'.
Proof.
  intros Hok Hst. unfold upsertBoundary. intros H.
  apply bind_ok in H as ([] & d1 & H1 & H). apply guard_ok in H1 as [_ ->].
  apply bind_ok in H as ([] & d1 & H1 & H). apply guard_ok in H1 as [_ ->].
  apply bind_ok in H as (role & d1 & H1 & H). apply require_ok in H1 as [Hrole ->].
  apply bind_ok in H as (ts & d1 & H1 & H). injection H1 as _ <-.
  apply bind_ok in H as (existing & d1 & H1 & H). injection H1 as <- <-.
  destruct (find_edge _ _ _ d) as [e|] eqn:Hfind.
  - pose proof (find_edge_some _ _ _ _ _ Hfind) as [He Hkey].
    destruct (bool_decide (st = boundary_draft) && negb (bool_decide (br_status e = boundary_draft))) eqn:Hkeep.
    + apply fetch_in in H as (-> & Hb & Hid). apply (same_id d b e) in Hid as ->; [|done..].
      apply andb_true_iff in Hkeep as [Hd%bool_decide_eq_true Hn%negb_true_iff].
      unfold edge_key in Hkey. injection Hkey as E1 E2 E3. split; try done; [by rewrite E3|by rewrite E1, E2, E3, Hfind, Hn|].
      intros x Hx Hk _ _. by apply (edge_inj d).
    + apply bind_ok in H as (u & d2 & Hset & H). apply bind_ok in H as ([] & d3 & Hev & H).
      apply event_boundaries in Hev. apply fetch_in in H as (-> & Hb & Hid).
      match type of Hset with set_boundary _ ?g _ = _ => set (f := g) in * end.
      rewrite Hev in Hb. pose proof Hb as Hb'. apply (set_elem _ _ _ _ _ _ Hset) in Hb as (x & Hx & E).
      assert (x = e) as ->.
      { apply (same_id d); [done..|]. rewrite <- Hid, E. by destruct (bool_decide_reflect (br_id x = br_id e)). }
      rewrite bool_decide_eq_true_2 in E by done. unfold edge_key in Hkey. injection Hkey as E1 E2 E3.
      split; [by rewrite E; simpl; rewrite E3|by rewrite E|by rewrite E|by rewrite Hev| | |].
      * rewrite E. simpl. rewrite E1, E2, E3, Hfind. revert Hkeep Hst.
        destruct st; repeat case_bool_decide; simpl; congruence.
      * intros x Hx' Hk -> Hn. rewrite E in Hk. assert (x = e) as -> by by apply (edge_inj d).
        by rewrite bool_decide_eq_true_2, bool_decide_eq_false_2 in Hkeep.
      * intros x Hk. rewrite Hev, (set_elem _ _ _ _ _ _ Hset). split.
        -- intros (y & Hy & ->). destruct (bool_decide_reflect (br_id y = br_id e)) as [Ey|]; [|done].
           destruct Hk. rewrite E. apply (same_id d) in Ey as ->; done.
        -- intros Hx'. exists x. split; [done|]. rewrite bool_decide_eq_false_2; [done|]. intros Ex.
           apply Hk. rewrite E. apply (same_id d) in Ex as ->; done.
  - pose proof (find_edge_none _ _ _ _ Hfind) as Hnone.
    apply bind_ok in H as (id & d2 & Hid & H). apply bind_ok in H as ([] & d3 & Hins & H).
    apply bind_ok in H as ([] & d4 & Hev & H). apply event_boundaries in Hev. apply fetch_in in H as (-> & Hb & Hbid).
    assert (boundaries d2 = boundaries d) as E2 by by injection Hid as _ <-.
    set (new := mk_BoundaryRow _ _ _ _ _ _ _ _ _ _ _) in *. apply inserted in Hins as [Hfresh Hins].
    rewrite Hins, E2 in Hev. rewrite E2 in Hfresh.
    assert (b = new) as ->.
    { rewrite Hev, elem_of_app, list_elem_of_singleton in Hb. destruct Hb as [Hb|]; [|done]. by destruct (Hfresh b Hb). }
    split; [done..| | | |].
    + by rewrite Hev, elem_of_app, list_elem_of_singleton; right.
    + simpl. by rewrite Hfind.
    + intros e He Ek. by destruct (Hnone e He).
    + intros x Hk. rewrite Hev, elem_of_app, list_elem_of_singleton. split; [|by left]. intros [?| ->]; [done|by destruct Hk].
Qed.

(** C20: A declaration is found again under any spelling.  Declaring that a
    repository provides or consumes a contract leaves that edge in the map, in
    the one spelling, with every other edge as it was; a draft declaration of an
    edge a person has settled returns that edge untouched; and a person's
    declaration is reported for every spelling of the contract — unless the edge
    was deprecated, which a declaration does not undo. *)
Theorem declared_edge_found input st d b d' contract drafts :
  lore_reachable d → st ≠ boundary_deprecated → upsertBoundary input st d = Ok b d' →
  normaliseContract contract = normaliseContract (di_contract input) →
  declared input st d b d' ∧ edges_ok d' ∧
  let res := findDependents contract drafts d' in
  let side := match br_role b with role_provides => im_providers res | role_consumes => im_consumers res end in
  b ∈ side ↔ br_status b = boundary_active ∨ (drafts = true ∧ br_status b = boundary_draft).
Proof.
  intros Hd%lore_reachable_edges Hst H Hname. pose proof (upsert_declared _ _ _ _ _ Hd Hst H) as Hde.
  split; [done|]. split; [by eapply upsertBoundary_ok|]. intros res side.
  assert (∀ role, br_role b = role → b ∈ filter (λ x, br_role x = role) (listBoundaries
    (mk_ListBoundariesOptions None (Some (normaliseContract contract)) None drafts false) d')
    ↔ shown_status drafts false (br_status b) = true) as Hin.
  { intros role Hrole. rewrite dependents_elem, Hname. pose proof (de_in _ _ _ _ _ Hde). pose proof (de_contract _ _ _ _ _ Hde).
    naive_solver. }
  assert (b ∈ side ↔ shown_status drafts false (br_status b) = true) as ->.
  { unfold side. destruct (br_role b) eqn:Er; by apply Hin. }
  destruct (br_status b), drafts; simpl; naive_solver.
Qed.
End atlas.

(** ** Witnesses *)

Definition declares (repo contract role : string) : DeclareBoundaryInput :=
  mk_DeclareBoundaryInput repo contract role None None None (Some "ana").
Definition mapped : lore_db :=
  @lore_exec alone (call_add_boundary (declares "web" "user_profile api" "consumes"))
    (@lore_exec alone (call_suggest_boundary (declares "core" "UserProfileAPI" "provides")) no_lore).
Lemma mapped_reachable : @lore_reachable alone mapped.
Proof. repeat apply lore_exec_reachable. apply lore_empty. Qed.
Lemma findDependents_exact_witness :
  bool_decide (br_repo <$> im_consumers (findDependents " User--ProfileApi " false mapped) = ["web"]) = true ∧
  NoDup (br_repo <$> im_consumers (findDependents " User--ProfileApi " false mapped)).
Proof.
  split; [vm_compute; reflexivity|].
  destruct (findDependents_exact (HE := alone) " User--ProfileApi " false mapped mapped_reachable) as (_ & _ & _ & H).
  apply H. vm_compute. discriminate.
Defined.

Definition declaration : outcome lore_db lore_error BoundaryRow :=
  @addBoundary alone (declares " core " "User profile API" "provides") mapped.
Lemma declared_edge_found_witness :
  ∃ b d', declaration = Ok b d' ∧ br_contract b = "user-profile-api" ∧ edges_ok d' ∧
    b ∈ im_providers (findDependents "UserProfileAPI" false d').
Proof.
  destruct declaration as [b d'|e] eqn:E; [|vm_compute in E; discriminate]. exists b, d'.
  destruct (declared_edge_found (HE := alone) (declares " core " "User profile API" "provides") boundary_active mapped b d'
    "UserProfileAPI" false mapped_reachable) as (Hde & Hok & Hin); [discriminate|exact E|vm_compute; reflexivity|].
  assert (br_role b = role_provides ∧ br_status b = boundary_active ∧ br_contract b = "user-profile-api") as (Er & Es & Ec).
  { clear -E. vm_compute in E. injection E as <- _. repeat split. }
  split; [reflexivity|]. split; [exact Ec|]. split; [exact Hok|]. rewrite Er in Hin. apply Hin. left. exact Es.
Defined.
