(* ===== verification/Trust.v ===== *)
(** * What agents cannot do

    The calls an agent has, as one type.  Whatever it sends, nothing a person
    settled changes, and what it adds is a draft; in the factory it cannot see
    drafts, and tags its own only with the ticket's repositories. *)
From Stdlib Require Import Ascii.
From S2P Require Import Prelude Json JsonParse Types EventChain Store Diff Landing Conform Lore Boundaries Recall LoreTools Envelope Records Edges Lores Atlas.

Section trust.
Context {HE : LoreEnv}.

Inductive agent_call :=
| agent_get (id : string)
| agent_suggest (args : SuggestLoreArgs)
| agent_report (args : ReportConflictInput)
| agent_declare (args : DeclareBoundaryInput).
Definition agent_run (c : agent_call) : LOp ToolReply :=
  match c with
  | agent_get id => get_lore id
  | agent_suggest args => suggest_lore args
  | agent_report args => report_conflict args
  | agent_declare args => declare_boundary args
  end.

(** ** One record's dossier *)

(** Everything kept about a record. *)
Definition dossier (id : string) (d : lore_db) :=
  (lore d !! id, (λ r, index_of (lr_rowid r) d) <$> lore d !! id,
   filter (λ p, p.1 = id) (lore_repos d), filter (λ p, p.1 = id) (lore_tags d),
   filter (λ v, lv_lore_id v = id) (lore_version d), filter (λ e, em_lore_id e = id) (lore_embeddings d)).
Lemma same_dossier d d' k : same_records d d' → dossier k d' = dossier k d.
Proof. intros [E1 E2 E3 E4 E5 E6]. unfold dossier, index_of. by rewrite E1, E2, E3, E4, E5, E6. Qed.
Lemma elsewhere_dossier id n d d' k r :
  elsewhere id n d d' → k ≠ id → lore d !! k = Some r → lr_rowid r ≠ n → dossier k d' = dossier k d.
Proof.
  intros [H1 H2 H3 H4 H5 H6] Hk Hr Hn. unfold dossier, index_of. rewrite (H1 k Hk), Hr. simpl.
  rewrite (filter_narrow fts_rowid n _ (lore_fts d) (lore_fts d')), (filter_narrow fst id _ (lore_repos d) (lore_repos d')),
    (filter_narrow fst id _ (lore_tags d) (lore_tags d')), (filter_narrow lv_lore_id id _ (lore_version d)),
    (filter_narrow em_lore_id id _ (lore_embeddings d)) by done. done.
Qed.

(** Every record there was has its dossier still; one that was not is an
    agent's draft. *)
Definition agent_draft (r : LoreRow) : Prop :=
  lr_status r = lore_draft ∧ lr_author r = Some "agent" ∧ lr_restricted r = false ∧ lr_confidence r ≠ conf_high ∧
  lr_superseded_by r = None.
Definition only_drafts (d d' : lore_db) : Prop :=
  (∀ k, is_Some (lore d !! k) → dossier k d' = dossier k d) ∧
  (∀ k r, lore d !! k = None → lore d' !! k = Some r → agent_draft r).
Lemma same_only_drafts d d' : same_records d d' → only_drafts d d'.
Proof.
  intros Hs. split; [intros; by apply same_dossier|]. intros k r Hn Hr. rewrite (sr_lore _ _ Hs) in Hr. congruence.
Qed.
Lemma dossier_row k d d' : dossier k d' = dossier k d → lore d' !! k = lore d !! k.
Proof. unfold dossier. congruence. Qed.

Lemma added_only_drafts d d0 r d' :
  lore_ok d → same_records d d0 → added d0 r d' → agent_draft r → only_drafts d d'.
Proof.
  intros Hok Hs [Hf Hn Hl Hi He] Hr. split.
  - intros k [r' Hk]. rewrite <- (same_dossier d d0 k Hs). rewrite <- (sr_lore _ _ Hs) in Hk.
    apply (elsewhere_dossier (lr_id r) (lr_rowid r) d0 _ _ r'); [done|congruence|done|].
    pose proof (next_rowid_fresh d0 k r' Hk). lia.
  - intros k r' Hk Hr'. rewrite Hl in Hr'. destruct (decide (k = lr_id r)) as [->|Hne].
    + rewrite lookup_insert_eq in Hr'. by injection Hr' as <-.
    + rewrite lookup_insert_ne in Hr' by done. rewrite (sr_lore _ _ Hs) in Hr'. congruence.
Qed.
(** What follows the insertion touches the draft alone. *)
Lemma later_only_drafts d id n d1 d2 :
  only_drafts d d1 → (∀ k r, lore d !! k = Some r → k ≠ id ∧ lr_rowid r ≠ n) → elsewhere id n d1 d2 →
  (∀ r, lore d2 !! id = Some r → agent_draft r) → only_drafts d d2.
Proof.
  intros [H1 H2] Hnew He Hid. split.
  - intros k [r Hk]. destruct (Hnew k r Hk) as [Hk' Hn]. rewrite <- (H1 k) by by eexists.
    eapply elsewhere_dossier; [done|done| |done]. by rewrite (dossier_row k d d1), Hk by (apply H1; by eexists).
  - intros k r Hk Hr. destruct (decide (k = id)) as [->|Hne]; [by apply Hid|].
    rewrite (el_lore _ _ _ _ He k Hne) in Hr. by apply (H2 k).
Qed.

(** ** The tools *)

Lemma answering_ok m d rep d' : answering m d = Ok rep d' →
  m d = Ok rep d' ∨ (∃ e, m d = Err e ∧ rep = reply_failed e ∧ d' = d).
Proof.
  unfold answering. intros [H|(e & He & H)]%catch_ok; [by left|right]. injection H as <- <-. by exists e.
Qed.
Lemma insert_draft input d l d' : lore_ok d → ai_author input = Some "agent" → ai_restricted input = None →
  insertLore input lore_draft d = Ok l d' →
  only_drafts d d' ∧ ∃ r, lore d' !! lo_id l = Some r ∧ lr_id r = lo_id l ∧ agent_draft r ∧
    ∀ k r', lore d !! k = Some r' → k ≠ lo_id l ∧ lr_rowid r' ≠ lr_rowid r.
Proof.
  intros Hok Ha Hres H. apply insertLore_added in H as (r & d0 & Hs & Hadd & Hc & E1 & E2 & _ & _ & _ & E3 & _ & E4 & E5 & _).
  assert (agent_draft r) as Hr.
  { split; [done|]. split; [by rewrite E2|]. split; [by rewrite E4, Hres|]. split; [|done]. intros Hh. by destruct (Hc Hh). }
  split; [by eapply added_only_drafts|]. exists r. rewrite E5, (ad_lore _ _ _ Hadd), lookup_insert_eq.
  do 3 (split; [done|]). intros k r' Hk. rewrite <- (sr_lore _ _ Hs) in Hk. split.
  - intros ->. pose proof (ad_fresh _ _ _ Hadd). congruence.
  - pose proof (next_rowid_fresh d0 k r' Hk). rewrite (ad_rowid _ _ _ Hadd). lia.
Qed.

Lemma get_lore_same id : evolves same_records (get_lore id).
Proof.
  unfold get_lore, answering. apply evolves_catch; [|intros; by apply evolves_ret, _].
  apply evolves_bind; [apply _|apply getLore_same|]. intros f. structural.
Qed.
Lemma suggest_drafts args : autoApprove = false → ∀ d rep d', lore_ok d → suggest_lore args d = Ok rep d' → only_drafts d d'.
Proof.
  intros Hauto d rep d' Hok. unfold suggest_lore.
  destruct (too_long _ _); [intros [= _ <-]; by apply same_only_drafts|].
  destruct (too_long _ _); [intros [= _ <-]; by apply same_only_drafts|].
  intros [H|(e & _ & _ & ->)]%answering_ok; [|by apply same_only_drafts].
  destruct (suggestion_refused args); [injection H as _ <-; by apply same_only_drafts|].
  apply bind_ok in H as (l & d1 & H & Hr). injection Hr as _ <-. rewrite Hauto in H.
  by apply insert_draft in H as [? _].
Qed.
Lemma report_drafts args d l d' : lore_ok d → reportConflict args d = Ok l d' → only_drafts d d'.
Proof.
  intros Hok. unfold reportConflict. destruct (bool_decide _); [done|]. destruct (bool_decide _); [done|]. intros H.
  apply bind_ok in H as (ex & d0 & Hg & H). injection Hg as <- <-. destruct (lore d !! _) as [e|]; [|done].
  destruct (negb _); [done|]. destruct (lr_restricted e); [done|].
  apply bind_ok in H as (l0 & d1 & Hins & H). apply insert_draft in Hins as (Hd1 & r & Hr & Hid & Hdraft & Hnew); [|done..].
  apply bind_ok in H as (b & d2 & Hup & H). pose proof (update_row_elsewhere (lo_id l0) (lr_rowid r) _ _ _ _ Hup) as He.
  unfold update_lore_row in Hup. rewrite Hr in Hup. injection Hup as _ <-.
  assert (same_records (set_lore (<[lo_id l0 := set_lr_conflicts_with (JSON_stringify (JSArr [JSStr (rc_existingId args)])) r]> (lore d1)) d1) d') as Hs.
  { revert H. apply (evolves_bind same_records); [apply nowIso_same|]. intros ts.
    apply (evolves_bind _ _ _ (event_same _ _ _ _)). intros _. apply (evolves_bind _ _ _ (getLore_same _ _)).
    intros o. by apply evolves_require, _. }
  apply (later_only_drafts d (lo_id l0) (lr_rowid r) d1); [done|done|etrans; [done|by apply same_elsewhere]|].
  intros r' Hr'. rewrite (sr_lore _ _ Hs) in Hr'. simpl in Hr'. rewrite lookup_insert_eq in Hr'. by injection Hr' as <-.
Qed.
Lemma report_conflict_drafts args d rep d' : lore_ok d → report_conflict args d = Ok rep d' → only_drafts d d'.
Proof.
  intros Hok. unfold report_conflict. intros [H|(e & _ & _ & ->)]%answering_ok; [|by apply same_only_drafts].
  destruct (if scopeEnforcementActive then _ else _); [injection H as _ <-; by apply same_only_drafts|].
  apply bind_ok in H as (ex & d1 & Hg & H). pose proof (getLore_same _ _ _ _ _ Hg) as Hs.
  assert (only_drafts d1 d') as [H1 H2].
  { assert (∀ m : LOp Lore, m = reportConflict args →
      (m ≫= (λ draft, mret (reply_countered (lo_id draft) (lo_status draft) (lo_conflictsWith draft ?? [])) : LOp ToolReply)) d1 = Ok rep d' →
      only_drafts d1 d') as Hr.
    { intros m -> Hm. apply bind_ok in Hm as (l & d2 & Hm & Hx). injection Hx as _ <-.
      eapply report_drafts; [|done]. by apply (same_ok d). }
    destruct ex as [e|]; [|by eapply Hr].
    destruct (_ && _); [injection H as _ <-; by apply same_only_drafts|].
    destruct (shouldRefuseConflictAgainstRestricted _); [injection H as _ <-; by apply same_only_drafts|]. by eapply Hr. }
  split.
  - intros k Hk. rewrite <- (same_dossier d d1 k Hs). apply H1. by rewrite (sr_lore _ _ Hs).
  - intros k r Hk Hr. apply (H2 k); [|done]. by rewrite (sr_lore _ _ Hs).
Qed.
Lemma declare_same args : evolves same_records (declare_boundary args).
Proof.
  unfold declare_boundary, answering. apply evolves_catch; [|intros; by apply evolves_ret, _].
  apply evolves_bind; [apply _|apply upsertBoundary_same|]. intros e. by apply evolves_ret, _.
Qed.

(** ** The map *)

(** Every edge a person settled is as it was, and nothing else is settled. *)
Definition settled_edges (d d' : lore_db) : Prop :=
  ∀ b, br_status b ≠ boundary_draft → b ∈ boundaries d' ↔ b ∈ boundaries d.
Lemma same_settled d d' : same_edges d d' → settled_edges d d'.
Proof. intros E b _. by rewrite E. Qed.
Lemma declared_settled input d b d' : edges_ok d → edges_ok d' → declared input boundary_draft d b d' → settled_edges d d'.
Proof.
  intros Hok Hok' Hde x Hx. destruct (decide (edge_key x = edge_key b)) as [Ek|Ek]; [|by apply (de_others _ _ _ _ _ Hde)].
  split; intros Hin.
  - assert (x = b) as -> by (eapply (edge_inj d'); [done|done|by apply (de_in _ _ _ _ _ Hde)|done]).
    pose proof (de_standing _ _ _ _ _ Hde) as Hst. destruct (find_edge _ _ _ d) as [e|] eqn:Hfind; [|by rewrite Hst in Hx].
    destruct (bool_decide_reflect (br_status e = boundary_draft)) as [|He]; [by rewrite Hst in Hx|].
    apply find_edge_some in Hfind as [Hin' Hkey].
    by rewrite (de_ratified _ _ _ _ _ Hde e Hin' Hkey eq_refl He).
  - rewrite <- (de_ratified _ _ _ _ _ Hde x Hin Ek eq_refl Hx). by apply (de_in _ _ _ _ _ Hde).
Qed.
Lemma declare_settled args d rep d' : edges_ok d → declare_boundary args d = Ok rep d' → settled_edges d d'.
Proof.
  intros Hok. unfold declare_boundary. intros [H|(e & _ & _ & ->)]%answering_ok; [|by apply same_settled].
  apply bind_ok in H as (b & d1 & H & Hr). injection Hr as _ <-. unfold suggestBoundary in H.
  eapply declared_settled; [done|by eapply upsertBoundary_ok|by eapply upsert_declared].
Qed.
#[local] Hint Resolve getLore_edges insertLore_edges reportConflict_edges : gaffer.
Lemma tools_same_edges c : (∀ args, c ≠ agent_declare args) → evolves same_edges (agent_run c).
Proof.
  intros Hc. destruct c as [id|args|args|args]; simpl; [| | |by destruct (Hc args)].
  - unfold get_lore, answering. structural.
  - unfold suggest_lore, answering, suggestLore. structural.
  - unfold report_conflict, answering. structural.
Qed.

(** ** Scope *)

(** Whatever is tagged is tagged with one of [S]. *)
Definition tagged_with (S : list string) (d d' : lore_db) : Prop :=
  ∀ p, p ∈ lore_repos d' → p ∈ lore_repos d ∨ p.2 ∈ S.
#[local] Instance tagged_preorder S : PreOrder (tagged_with S).
Proof. split; [by intros d p; left|]. intros d1 d2 d3 H1 H2 p Hp. destruct (H2 p Hp) as [Hp'|]; [by apply H1|by right]. Qed.
Lemma tagged_none {A} S (m : LOp A) : (∀ d a d', m d = Ok a d' → lore_repos d' = lore_repos d) → evolves (tagged_with S) m.
Proof. intros Hm d a d' H p Hp. rewrite (Hm _ _ _ H) in Hp. by left. Qed.
Lemma tagged_same {A} S (m : LOp A) : evolves same_records m → evolves (tagged_with S) m.
Proof. intros Hm. apply tagged_none. intros d a d' H. by apply sr_repos, (Hm _ _ _ H). Qed.
Lemma tagged_each S id l : (∀ x, x ∈ l → x ∈ S) → evolves (tagged_with S) (for_each l (repo_insert_or_ignore id)).
Proof.
  induction l as [|x l IH]; intros Hl; [by apply evolves_ret, _|]. apply evolves_bind; [apply _| |].
  - intros d a d' H. unfold repo_insert_or_ignore, repo_insert in H. repeat case_bool_decide; try done; injection H as _ <-; [done|].
    intros p [Hp|Hp%list_elem_of_singleton]%elem_of_app; [by left|right]. rewrite Hp. apply Hl. by left.
  - intros _. apply IH. intros y Hy. apply Hl. by right.
Qed.
Lemma tagged_tags S id x : evolves (tagged_with S) (tag_insert_or_ignore id x).
Proof.
  apply tagged_none. intros d a d' H. unfold tag_insert_or_ignore, tag_insert in H.
  repeat case_bool_decide; try done; by injection H as _ <-.
Qed.
Lemma tagged_insert S r : evolves (tagged_with S) (insert_lore r).
Proof. apply tagged_none. intros d a d' H. unfold insert_lore in H. destruct (lore d !! _); [done|]. by injection H as _ <-. Qed.
Lemma tagged_fts S f : evolves (tagged_with S) (fts_insert f).
Proof. apply tagged_none. intros d a d' H. by apply fts_insert_inv in H as [_ ->]. Qed.
Lemma tagged_refresh S id t s : evolves (tagged_with S) (refreshLoreEmbedding id t s).
Proof.
  apply tagged_none. intros d a d' H. unfold refreshLoreEmbedding in H.
  destruct (head _); [destruct (bool_decide _)|]; by injection H as _ <-.
Qed.
Lemma tagged_update S id f : evolves (tagged_with S) (update_lore_row id f).
Proof. apply tagged_none. intros d a d' H. unfold update_lore_row in H. destruct (lore d !! id); by injection H as _ <-. Qed.
#[local] Hint Resolve tagged_tags tagged_insert tagged_fts tagged_refresh tagged_update newLoreId_same nowIso_same kind_same
  date_same url_same event_same getLore_same : gaffer.
#[local] Hint Extern 3 (evolves (tagged_with _) (for_each _ (repo_insert_or_ignore _))) => by apply tagged_each : gaffer.
#[local] Hint Extern 4 (evolves (tagged_with _) _) => apply tagged_same; solve [auto with gaffer nocore] : gaffer.
Lemma insertLore_tagged input st : evolves (tagged_with (sorted_set normaliseRepo (ai_repos input))) (insertLore input st).
Proof. unfold insertLore. structural. Qed.
#[local] Hint Resolve insertLore_tagged : gaffer.
Lemma reportConflict_tagged args : evolves (tagged_with (sorted_set normaliseRepo (rc_repos args))) (reportConflict args).
Proof. unfold reportConflict, refuse_conflict. structural. Qed.
#[local] Hint Resolve reportConflict_tagged : gaffer.

Lemma in_sorted_set f xs x : x ∈ sorted_set f xs ↔ x ≠ "" ∧ ∃ y, y ∈ xs ?? [] ∧ x = f y.
Proof.
  unfold sorted_set. rewrite (merge_sort_Permutation _ _), elem_of_remove_dups, list_elem_of_filter, list_elem_of_fmap. naive_solver.
Qed.
Lemma all_in_scope l : firstRepoOutOfScope l = None → ∀ y, y ∈ l → repoInScope y = true.
Proof.
  unfold firstRepoOutOfScope. intros H y Hy. destruct (repoInScope y) eqn:E; [done|].
  assert (y ∈ filter (λ r, repoInScope r = false) l) as Hin by by apply list_elem_of_filter.
  destruct (filter _ _); [by apply elem_of_nil in Hin|done].
Qed.
Lemma scope_trimmed y : repoInScope (normaliseRepo y) = repoInScope y.
Proof. unfold repoInScope, normaliseRepo. by rewrite trim_idem. Qed.
(** The repositories a factory agent's call tags with are the ticket's. *)
Definition in_ticket (d d' : lore_db) : Prop :=
  ∀ p, p ∈ lore_repos d' → p ∈ lore_repos d ∨ repoInScope p.2 = true.
Lemma tagged_in_ticket xs d d' : (∀ y, y ∈ xs ?? [] → repoInScope y = true) →
  tagged_with (sorted_set normaliseRepo xs) d d' → in_ticket d d'.
Proof.
  intros Hall Ht p Hp. destruct (Ht p Hp) as [|(_ & y & Hy & E)%in_sorted_set]; [by left|right].
  rewrite E, scope_trimmed. by apply Hall.
Qed.
Lemma agent_in_ticket c d rep d' : scopeEnforcementActive = true → agent_run c d = Ok rep d' → in_ticket d d'.
Proof.
  intros Hscope H. assert (∀ d d', lore_repos d' = lore_repos d → in_ticket d d') as Hsame by (intros ? ? E p; rewrite E; by left).
  destruct c as [id|args|args|args]; simpl in H.
  - apply Hsame, sr_repos. by eapply get_lore_same.
  - revert H. unfold suggest_lore. destruct (too_long _ _); [intros [= _ <-]; by apply Hsame|].
    destruct (too_long _ _); [intros [= _ <-]; by apply Hsame|].
    intros [H|(e & _ & _ & ->)]%answering_ok; [|by apply Hsame].
    destruct (suggestion_refused args) eqn:Hr; [injection H as _ <-; by apply Hsame|].
    apply bind_ok in H as (l & d1 & H & Hx). injection Hx as _ <-.
    apply (tagged_in_ticket (suggested_repos args)); [|by eapply (insertLore_tagged (suggestion args))].
    unfold suggestion_refused in Hr. rewrite Hscope in Hr. destruct (suggested_repos args ?? []) as [|x l0]; [by intros y ?%elem_of_nil|].
    by apply all_in_scope.
  - revert H. unfold report_conflict. rewrite Hscope. intros [H|(e & _ & _ & ->)]%answering_ok; [|by apply Hsame].
    destruct (firstRepoOutOfScope _) eqn:Hr; [injection H as _ <-; by apply Hsame|].
    apply (tagged_in_ticket (rc_repos args)); [by apply all_in_scope|]. revert H.
    apply (evolves_bind (tagged_with _) (getLore _ _)); [auto with gaffer nocore|]. intros ex. structural.
  - apply Hsame, sr_repos. by eapply declare_same.
Qed.


(** ** Hidden drafts *)

Definition not_found_reply (id : string) : ToolReply :=
  reply_failed (ReportConflictError unknown_existing_id ("reportConflict: existingId '" +:+ id +:+ "' not found")).
Definition blank_reply : ToolReply :=
  reply_failed (ReportConflictError empty_observation "reportConflict: observation must be a non-empty string").
Lemma getLore_absent id b d : lore d !! id = None → getLore id b d = Ok None d.
Proof. intros Hn. unfold getLore, gets, mbind, M_bind. by rewrite Hn. Qed.
Lemma getLore_present id d r : lore d !! id = Some r →
  getLore id false d = Ok (Some (rowToLore r (reposOf id d) (tagsOf id d))) d.
Proof. intros Hr. unfold getLore, gets, mbind, M_bind. by rewrite Hr. Qed.
Lemma events_run kind ts p ids d : ∃ d', for_each ids (λ id, event_insert id kind ts p) d = Ok tt d'.
Proof. revert d. induction ids as [|i ids IH]; intros d; [by eexists|]. apply IH. Qed.
Lemma recordRead_runs ids via d : ∃ d', recordRead ids via d = Ok tt d'.
Proof. unfold recordRead. destruct (_ || _); [by eexists|]. apply events_run. Qed.
Lemma getLore_read id d r : lore d !! id = Some r →
  ∃ d' l, getLore id true d = Ok (Some l) d' ∧ lo_status l = lr_status r.
Proof.
  intros Hr. unfold getLore, gets, mbind, M_bind. rewrite Hr. simpl.
  destruct (recordRead_runs [id] "get" d) as [d' ->]. by do 2 eexists.
Qed.
Lemma refuse_absent args d : lore d !! rc_existingId args = None →
  trim (rc_observation args) ≠ "" → (String.length (rc_observation args) ≤ REPORT_CONFLICT_OBSERVATION_MAX)%nat →
  reportConflict args d =
    Err (ReportConflictError unknown_existing_id ("reportConflict: existingId '" +:+ rc_existingId args +:+ "' not found")).
Proof.
  intros Hn Ht Hl. unfold reportConflict. rewrite bool_decide_eq_false_2, bool_decide_eq_false_2 by (done || lia).
  unfold gets, mbind, M_bind. rewrite Hn. done.
Qed.

(** C26: In the factory a draft reads as a record that is not there.  [get_lore]
    answers both alike, and so does [report_conflict] to any observation that
    may be filed.  To a blank observation it does not: a missing record is
    refused for the observation, a draft for the record, so that a blank
    observation tells the two apart. *)
Theorem drafts_hidden args d r :
  let id := rc_existingId args in
  scopeEnforcementActive = true → lore d !! id = Some r → lr_status r = lore_draft →
  firstRepoOutOfScope (rc_repos args ?? []) = None →
  (∃ d', get_lore id d = Ok (reply_not_found id) d') ∧ report_conflict args d = Ok (not_found_reply id) d ∧
  ∀ d0, lore d0 !! id = None →
    get_lore id d0 = Ok (reply_not_found id) d0 ∧
    (trim (rc_observation args) ≠ "" → (String.length (rc_observation args) ≤ REPORT_CONFLICT_OBSERVATION_MAX)%nat →
       report_conflict args d0 = Ok (not_found_reply id) d0) ∧
    (trim (rc_observation args) = "" → report_conflict args d0 = Ok blank_reply d0).
Proof.
  intros id Hscope Hr Hst Hrepos. split; [|split].
  - destruct (getLore_read id d r Hr) as (d' & l & Hg & Hl). exists d'. unfold get_lore, answering, catch.
    rewrite (bind_run _ _ _ _ _ Hg), Hl, Hst, Hscope. done.
  - unfold report_conflict, answering, catch. rewrite Hscope, Hrepos, (bind_run _ _ _ _ _ (getLore_present id d r Hr)).
    simpl. by rewrite Hst.
  - intros d0 Hn. split; [|split].
    + unfold get_lore, answering, catch. by rewrite (bind_run _ _ _ _ _ (getLore_absent id true d0 Hn)).
    + intros Ht Hl. unfold report_conflict, answering, catch.
      rewrite Hscope, Hrepos, (bind_run _ _ _ _ _ (getLore_absent id false d0 Hn)), (bind_err _ _ _ _ (refuse_absent args d0 Hn Ht Hl)).
      done.
    + intros Ht. unfold report_conflict, answering, catch.
      rewrite Hscope, Hrepos, (bind_run _ _ _ _ _ (getLore_absent id false d0 Hn)). unfold reportConflict.
      by rewrite bool_decide_eq_true_2.
Qed.
End trust.

(** ** Witnesses *)

Definition agent_args (repos : option (list string)) (title : string) : SuggestLoreArgs :=
  mk_SuggestLoreArgs title "in UTC" "store UTC" repos (Some ["db"]) (Some "https://x/2") (Some conf_high) None None None None.
(** A rule by a person and an agent's draft, in the factory. *)
Definition factory_rules : lore_db :=
  @lore_exec factory (call_suggest (a_rule "C") false) (@lore_exec factory (call_add (a_rule "A")) no_lore).
Lemma factory_rules_reachable : @lore_reachable factory factory_rules.
Proof. repeat apply lore_exec_reachable. apply lore_empty. Qed.
Definition objection (text : string) : ReportConflictInput := mk_ReportConflictInput "32222222" text None None None.
Lemma drafts_hidden_witness :
  @report_conflict factory (objection "the code differs") factory_rules = Ok (not_found_reply "32222222") factory_rules ∧
  @report_conflict factory (objection "the code differs") no_lore = Ok (not_found_reply "32222222") no_lore ∧
  @report_conflict factory (objection " ") factory_rules = Ok (not_found_reply "32222222") factory_rules ∧
  @report_conflict factory (objection " ") no_lore = Ok blank_reply no_lore.
Proof.
  assert (∃ r, lore factory_rules !! "32222222" = Some r ∧ lr_status r = lore_draft) as (r & Hr & Hs).
  { destruct (lore factory_rules !! "32222222") as [r|] eqn:E; [|vm_compute in E; discriminate]. exists r.
    split; [reflexivity|]. vm_compute in E. injection E as <-. reflexivity. }
  destruct (drafts_hidden (HE := factory) (objection "the code differs") factory_rules r) as (_ & H1 & H2);
    [reflexivity|exact Hr|exact Hs|reflexivity|].
  destruct (drafts_hidden (HE := factory) (objection " ") factory_rules r) as (_ & H3 & H4);
    [reflexivity|exact Hr|exact Hs|reflexivity|].
  destruct (H2 no_lore) as (_ & H5 & _); [reflexivity|]. destruct (H4 no_lore) as (_ & _ & H6); [reflexivity|].
  split; [exact H1|]. split; [apply H5; vm_compute; [discriminate|lia]|]. split; [exact H3|]. apply H6. reflexivity.
Defined.
